(* ===== verification/_CoqProject ===== *)
-Q . S2P
Prelude.v
JsString.v
JsNumber.v
JsValue.v
JsJson.v
JsKeys.v
StatusCodes.v
ModelMapping.v
AdvancedCustom.v
Navigation.v
Playground.v
PlaygroundChat.v
RatioSync.v
TableState.v
Metrics.v
ChannelUtils.v
Notifications.v
JsRegex.v
BillingExpr.v
BillingPatterns.v
BillingRules.v
TierExpr.v
TierRules.v
JsBase64.v
Passkey.v
CodexCredential.v
ChannelForm.v
JsUri.v
ChatLinks.v
JsOrder.v
PricingFilters.v
SiteSettings.v
JsonParser.v
ParamOverride.v
ParamOverrideEditor.v
ParamOverrideSave.v
JsAsync.v
UpstreamFlow.v
SecureVerification.v
SettingsForm.v
PlaygroundInput.v
TierSplit.v
TieredEditor.v
ModelPricing.v
ModelRatios.v
JsRounding.v
Quota.v
QuotaForms.v
