(* ===== verification/Prelude.v ===== *)
(** * Nexus-API web console: a verified model of its TypeScript core

    Nexus-API is a gateway to language-model providers: a Go server, and a web
    console written in TypeScript under [src/web/default/src].  This
    development models the console's own logic (parsing and validation of
    what administrators type, what a user may see, the chat playground, the
    state kept in the URL and in local storage) and proves what makes it
    correct.  Rendering, HTTP and the server are outside (see the end).

    ** Method

    The code is translated function by function, with the names of the source.
    A value that the source casts without checking (a parsed JSON text, the
    server's status record) is a dynamic value [jsval]; data the code builds
    itself is a record.  Code that may throw returns [res] ([Ok] or [Throw])
    and [try]/[catch] is [catch].  State kept by hooks (React refs and state,
    local storage, the URL) is a record, and a handler is a function from
    state to state.  Strings are lists of UTF-16 code units, numbers are IEEE
    doubles ([spec_float] with precision 53), or [Z] where the code works on
    32-bit integers.  Every definition computes; witnesses evaluate them.

    ** Files

    - [Prelude]: [res] and its notation, tactics, and the generic lemmas on
      insertion-ordered sets and maps, stable sorting and lists.
    - [JsString], [JsNumber], [JsValue], [JsJson]: the part of the language
      the sources use: [trim], [split], [join], [indexOf] and the like;
      [Number(s)] and [String(x)]; truthiness, property access including the
      members inherited from [Object.prototype], spreading, [String(v)];
      [JSON.parse] and [JSON.stringify], with the theorem that parsing a
      printed value gives it back ([stringify_parse]).  The JSON parser
      carries fuel; [parse_value_fuel] shows that the fuel given, linear in
      the text, is always enough.  [JsKeys]: the order of the keys of parsed and
      assigned objects.
    - [StatusCodes]: [HttpStatusCodeRules] ([lib/http-status-code-rules.ts],
      lists of status codes and ranges) and [StatusCodeRiskGuard]
      ([features/channels/lib/status-code-risk-guard.ts], dangerous
      remappings of a channel).
    - [ModelMapping]: [ModelMappingValidation]
      ([features/channels/lib/model-mapping-validation.ts]) and
      [UpstreamUpdates] ([features/channels/lib/upstream-update-utils.ts]).
    - [AdvancedCustom] ([features/channels/lib/advanced-custom.ts]): route
      tables of custom channels.  [new URL] is the class [UrlParser].
    - [Navigation]: [Roles] ([lib/roles.ts]), [NavModules]
      ([lib/nav-modules.ts], access to guarded pages and the cached status)
      and [SidebarConfig] ([hooks/use-sidebar-config.ts]).
    - [Playground]: [Types], [MessageUtils], [PayloadBuilder] and
      [PlaygroundStorage] ([features/playground/types.ts], [constants.ts],
      [lib/message-utils.ts], [lib/payload-builder.ts], [lib/storage.ts]).
    - [PlaygroundChat]: [Chat], the hooks [use-playground-state.ts],
      [use-stream-request.ts], [use-chat-handler.ts] and the message actions
      of [features/playground/index.tsx] as one state machine: [exec] handles
      an event, [runs] is the relation of event sequences.  The user, the
      server and the SSE library choose the events.
    - [RatioSync]
      ([features/system-settings/models/upstream-ratio-sync-helpers.ts]):
      resolutions of differences between local and upstream prices.
    - [TableState]: [TableUrlState] ([hooks/use-table-url-state.ts]).  The class
      [Router] says whether a navigation changed the URL, on which the effect
      that reads the column filters again depends.
    - [Metrics]: [Weighted] ([features/performance-metrics/lib/weighted.ts])
      and [Seed] ([features/pricing/lib/seed.ts]).
    - [ChannelUtils]: [ChannelConstants], [ChannelUtils] and [MultiKeyUtils]
      ([features/channels/constants.ts], [lib/channel-utils.ts],
      [lib/multi-key-utils.ts]): labels, keys, attention flags and the tree of
      channels grouped by tag.
    - [Notifications]: [NotificationStore] ([stores/notification-store.ts])
      and [UseNotifications] ([hooks/use-notifications.ts]): what has been
      read, unread counts and the popover.
    - [JsRegex]: the regular expressions of the sources as syntax trees with
      the backtracking matcher ([run]), the relation of parses it is sound and
      complete for ([run_sound], [run_complete]), and deterministic reading
      ([reads]), from which the patterns of an editor are read piece by piece.
    - [BillingExpr]: [BillingVars] and [RequestRules]
      ([features/pricing/lib/billing-expr.ts]), the registry of billing
      variables and the request rules that multiply a price; [BillingPatterns]
      and [BillingRules] hold what their patterns accept and the theorems.
    - [TierExpr]: [BillingTiers] (the tier reader of the pricing pages, same
      source) and [VisualTiers] ([features/pricing/lib/tier-expr.ts], the tier
      editor); [TierRules] holds the theorems.
    - [JsBase64]: [btoa] and [atob].  [Passkey] ([lib/passkey.ts]): base64url
      buffers and credential options.  [CodexCredential]
      ([features/channels/lib/codex-credential.ts]): pasted OAuth credentials.
    - [ChannelForm] ([features/channels/lib/channel-form.ts]): checks of the
      channel form, and the conversions between channels, form and payloads.
    - [JsUri] ([encodeURIComponent] and its inverse), [ChatLinks]
      ([features/chat]): the presets of the chat menu, the links made from
      their templates and the keys put into them.
    - [JsOrder] (the order of doubles), [PricingFilters]
      ([features/pricing/lib/filters.ts], [hooks/use-filters.ts]): the model
      square.  Lower-casing and collation are parameters.
    - [SiteSettings] ([features/system-settings/maintenance]): the forms that
      edit what [Navigation] reads.  [JsonParser]
      ([features/system-settings/utils/json-parser.ts]): lenient parsing.
    - [ParamOverride], [ParamOverrideEditor], [ParamOverrideSave]
      ([features/channels/components/dialogs/param-override-editor-dialog.tsx]):
      rules that rewrite request parameters: reading, checking and writing them
      in a monad of fresh identifiers; the state of the dialog with every
      handler ([handle], [step]); saving and opening again.
    - [JsAsync]: asynchronous handlers.  A task runs to its next [await] and is
      suspended as a phase; the user's events and the answers to the pending
      phases come in any order ([run]).  [async_run_inv] proves invariants over
      all interleavings, [run_history] what a pending phase says of the past.
    - [UpstreamFlow]
      ([features/channels/hooks/use-channel-upstream-updates.ts] and
      [upstream-update-dialog.tsx]) and [SecureVerification]
      ([features/auth/secure-verification], [lib/secure-verification.ts]): two
      hooks on that runtime, the requests that update a channel's models and
      the second verification before sensitive actions (on [Passkey]).
    - [SettingsForm] ([features/system-settings/hooks/use-settings-form.ts]): the
      form of the settings sections; the form library is a parameter.
    - [PlaygroundInput]: [Attachments] and [Input]
      ([features/playground/lib/attachments.ts],
      [components/playground-input.tsx]), files read while the user goes on.
    - [TierSplit] (where an edited expression may be split), [TieredEditor]
      ([features/system-settings/models/tiered-pricing-editor.tsx]): the editor of
      tiers and request rules inside the page that keeps its two expressions.
    - [ModelPricing]: [PricingFormat] ([models/pricing-format.ts]) and
      [ModelPricing] ([models/model-pricing-sheet.tsx]), the panel of one model's
      prices.  [ModelRatios] ([models/model-ratio-visual-editor.tsx]): the table of
      models over the ten JSON options, on the panel and the tier editor.
    - [JsRounding]: the relative error of products and quotients of doubles, on the
      real numbers of the Standard Library.
    - [Quota]: [Currency] ([lib/currency.ts], [lib/format.ts]), the conversion of
      quotas to the displayed currency, and [TimeFormat].  [QuotaForms]: the forms
      that edit quotas, [ApiKeyForm] and [ApiKeyDrawer] ([features/keys]),
      [RedemptionForm] ([features/redemption-codes]), [PlanForm]
      ([features/subscriptions]), [UserForm] and [UserQuotaDialog]
      ([features/users]).

    ** What the theorems show

    - Parsers accept and return exactly what they should: the union of the
      listed codes, sorted, disjoint and stable under reparsing
      ([parse_rules_exact_union], [parse_rules_normalized_fixpoint]); the
      decomposition of a text into visible parts and thoughts
      ([think_tags_exact]); valid mappings and valid route tables
      ([validateModelMappingJson_exact], [validate_config_exact]).
    - What is saved is read back: route tables ([config_text_roundtrip]),
      chat history ([history_roundtrip]), model lists, table filters and
      pages in the URL ([filters_roundtrip], [pagination_roundtrip]), the
      cached status ([fresh_access_cached]), request rules
      ([rules_roundtrip], [split_combine]), tier configurations
      ([visual_config_roundtrip]), channel settings ([settings_reopen]) and
      binary identifiers ([base64url_roundtrip]).
    - The table whose state lives in the URL refines an abstract table with
      independent parts, over every sequence of events
      ([url_table_refines]): [view] is the abstraction, [view_step] the
      specification.  The URL after it holds every filter shown that has a
      value; a filter without one stays in the table until the URL changes
      ([blank_filter_stays]).
    - Visibility is safe: the sidebar shows exactly the links with an enabled
      page (a link may name several) and the chat presets where the chat is
      enabled, and no admin page below the administrator role ([sidebar_shows_exactly],
      [module_gate]); the route guard and the sidebar agree
      ([route_guard_agrees]).
    - The chat is sound over every interleaving of events: local storage
      that can be written never falls behind what is shown, inline images apart
      ([history_always_saved]), the visible part of a streamed answer is
      assembled exactly whatever its pieces, and so is its reasoning when it comes
      from one source ([stream_answer]), every
      generation that ends is settled ([generation_settles]) and late events
      are harmless ([late_events_ignored]).
    - Price resolutions stay consistent ([resolutions_wf]) and change exactly
      as asked ([removals_exact], [selection_stored]).
    - Channels: grouping by tag is exact ([aggregate_by_tag_exact]) and
      deduplicating keys keeps each key once ([dedup_keys_exact]); saving a
      form changes exactly the settings its type owns
      ([settings_members_exact]), sends a key only when one was typed
      ([update_payload_safe]), and a credential is accepted exactly when every
      token in it has an account ([codex_accepts_iff]).
    - Loops end: unwrapping parentheses ([unwrap_terminates]); the fuel of the
      other recursions is shown to suffice (below).
    - Notifications: opening the centre reads what it shows
      ([opening_reads]) and what is read stays read over every sequence of
      events ([read_stays_read]).
    - Asynchronous hooks, under every interleaving: at most one request of a
      kind is under way and its guard says so ([requests_exclusive]), requests
      settle ([requests_settle]), a protected action runs only after a complete
      verification ([protected_call_verified]) and its dialog is never stuck
      ([dialog_never_stuck]); attachments respect their limits
      ([only_allowed_attached]) and no attached text is lost
      ([attached_texts_exact]).
    - The parameter override editor keeps its rules identified over every
      sequence of events ([rules_identified]), moves rules as dragged
      ([drag_and_drop]) and reports the first complaint ([complaint_first]);
      the text it saves from rules in visual editing, with storable and unquoted
      values, opens and saves again as itself ([saved_text_stable]).
    - Chat links decode to what was put in ([client_config_roundtrip]) and do
      not disclose a key that no placeholder asks for ([key_not_disclosed]);
      the model square lists exactly the matching models, sorted
      ([model_list_exact]), and its page state refines independent filters
      ([page_state_refines]); what an administrator saves is what the site
      reads ([header_save_reaches_site], [sidebar_save_reaches_site]).
    - Settings forms lose no option in their nested values
      ([options_roundtrip]), submit exactly what was changed
      ([submit_sends_exactly]) and nothing twice ([resubmit_sends_nothing]).
    - Prices: the tier editor refines an abstract list of tiers and rules whose
      expressions the page holds, over every sequence of visual edits, changes of
      mode and presets that passes through well-formed tiers and rules, with
      groups still being filled in ([editor_refines_prices]); texts typed in the
      expression editor and changes of model are not in its scope (what they do:
      [first_text_edit_turns_visual], [malformed_rule_crashes],
      [model_switch_keeps_tiers]); every ratio follows from the prices shown
      ([ratios_follow_prices]); saving changes exactly the rows of its targets
      ([saved_prices_exact]) and the tiers such an editor shows open again once
      they are saved ([saved_tiers_reopen]).
    - Quotas: what is shown in the displayed currency is read back exactly,
      roundings included ([quota_roundtrip]); a key opened and saved unchanged is
      accepted exactly when it has a name, a date that exists and no negative
      quota, and then keeps its data up to stated normalisations
      ([key_unchanged_save]), redemption codes and plans likewise
      ([redemption_unchanged_save], [plan_unchanged_save]); a batch of keys is
      created request by request ([batch_exact]).
    - Bounds: metrics are finite and weights positive, seeded numbers stay in
      range and exact.

    A few theorems record where the code departs from its intent: a token
    with three parts is accepted ([parseToken_ignores_third_part]), the
    thoughts of a streamed text depend on its cutting
    ([split_close_tag_reasoning]), a feature switch is not passed on
    ([module_visible_ignores_empty_response]), a column without a type drops
    text ([untyped_column_drops_text]), the mask of a short key shows all of
    it ([short_key_revealed]), a tag row forgets a priority of -1
    ([priority_sentinel_forgotten]), a seed may need 32 bits
    ([seeded_numbers_bounded]), rules on request parameters cannot be edited
    again ([param_checks_unreadable]), a malformed multiplier loses its rule
    ([malformed_multiplier_lost]), reading a rule may throw or change it
    ([reading_departs]), the rules of a prune_objects value cannot be edited
    ([prune_rule_edits_lost]), a stored text that reads as JSON is retyped
    ([stored_text_retyped]), a blank typed at the end of a message is lost
    ([typed_space_lost]), models ticked for one channel are applied to another
    ([selection_carried_over], [first_confirmation_ignores_all],
    [success_closes]), a dismissed verification still runs its action
    ([dismissed_call_runs], [late_result_resets]), images read while a message
    is sent bring back those it carried ([sent_images_return],
    [concurrent_images_lost]), what is typed while
    settings are saved is lost ([edits_while_saving_lost]), a model changed from
    per-request to per-token prices keeps its fixed price
    ([mode_change_not_saved]), a model selected after an edit is shown the tiers
    of the one before ([model_switch_keeps_tiers]), a blank filter is shown but
    not in the URL ([blank_filter_stays]), an input price of zero drops the other prices
    ([zero_price_drops_lanes]), a list of models that was switched off is
    switched on by any edit of its key ([limits_switched_on]), a user with a
    negative quota cannot be saved ([user_save_exact]), and a duration may read
    60 seconds ([sixty_seconds]).

    ** Bounds and fuel

    [think_loop] gets one unit of fuel per character and one more; each round
    consumes two tags, and [think_tags_exact] covers every text, so it never
    runs out.  [digits36] prints a 32-bit number, at most six digits, with fuel
    seven.  The JSON parser is covered above.  [Z_to_str] gets the binary
    length of its argument.  A star of a pattern gets one iteration per
    remaining character, as an empty iteration fails; [run_complete] shows
    that no match is lost.  [exec_from] gets one search per character and one
    more, enough for patterns that match no empty text.  [unwrap] gets the
    length of the text, each round removing two characters
    ([unwrap_terminates]).  [collect] gets the nesting depth of the value
    ([collect_fuel]).  The asynchronous runtime has no fuel: a run is a list of
    events and answers of any length.  All other recursion is structural.

    ** Simplifications

    [toLowerCase] is ASCII only, which is exact where the code compares the
    result with ASCII words; the search of the model square and of the upstream
    dialog take it as a parameter, that of the parameter override editor is
    ASCII.  A handler of an asynchronous hook starts from the state of the last
    render, and what lies between two awaits is not interrupted.  Sorting with a total order is the stable
    insertion sort.  Stored messages are written in the field order of their
    interface.  [loadMessages] covers stored arrays of messages; other arrays
    are outside the model.  [navigate] is assumed to commit, and the effect
    after it to run before the next event.  A dialog of [SecureVerification] is
    offered every method of the account, where the passkey card narrows them to
    one.  The input of the playground starts without images, as its only page
    mounts it.  The prototype
    of an object is always [Object.prototype].

    ** Not modelled

    React components beyond the handlers named above are views: they render the
    modelled state and call the modelled functions.  Translations, HTTP wrappers,
    the OAuth redirects and the browser's passkey calls are I/O; the route tree is
    generated; charts and usage statistics draw or mock data.  The classic theme
    repeats this console in JavaScript and the Go server is another program.

    Left out of modelled sources: of the channel utilities, texts of dates and
    [localeCompare] sorting; of the billing expressions, [normalizeTierLabel]
    (Unicode case folding) and [evalExprLocally] (it compiles the expression with
    [new Function]); of the channel form, the per-field checks that zod makes; of
    the pricing pages and of [Quota], the texts of [Intl.NumberFormat] (a
    parameter) and of dayjs; of the price table, columns, selection and options
    that are not JSON objects; of the key drawer, the calendar arithmetic of the
    expiry buttons.  The rounding theorems of [Quota] ask for rates between 2^-100
    and 2^100 and quotas up to 2^49, which leaves every number of the computation
    a normal double. *)

From stdpp Require Import base list gmap strings sorting.
From Stdlib Require Import ZArith Lia.

(** ** Exceptions

    JavaScript code that may throw returns a [res]: [Ok] of a value, or
    [Throw] for any thrown error (the code only ever catches all of them). *)

Inductive res (A : Type) : Type :=
| Ok (a : A)
| Throw.
Arguments Ok {A} a.
Arguments Throw {A}.

Definition res_bind {A B} (r : res A) (k : A → res B) : res B :=
  match r with Ok a => k a | Throw => Throw end.

(** [try { r } catch { dflt }] *)
Definition catch {A} (r : res A) (dflt : A) : A :=
  match r with Ok a => a | Throw => dflt end.

Definition res_map {A B} (f : A → B) (r : res A) : res B :=
  match r with Ok a => Ok (f a) | Throw => Throw end.

Fixpoint res_mapM {A B} (f : A → res B) (l : list A) : res (list B) :=
  match l with
  | [] => Ok []
  | x :: l' =>
      match f x with
      | Throw => Throw
      | Ok y => match res_mapM f l' with Throw => Throw | Ok ys => Ok (y :: ys) end
      end
  end.

Declare Scope js_scope.
Delimit Scope js_scope with js.
Notation "'let*' x ':=' c 'in' k" := (res_bind c (λ x, k))
  (at level 10, x pattern, c at level 100, k at level 200) : js_scope.
#[global] Open Scope js_scope.

(** ** Tactics and hints of the development *)

Create HintDb nexus.

(** Split every [match] and [if] of the goal, keeping the equations. *)
Ltac split_matches := repeat (case_match; simplify_eq/=).

(** Turn a boolean hypothesis or goal about [bool_decide] into a proposition. *)
Ltac bool_prop :=
  repeat match goal with
  | H : bool_decide _ = true |- _ => apply bool_decide_eq_true in H
  | H : bool_decide _ = false |- _ => apply bool_decide_eq_false in H
  | H : _ && _ = true |- _ => apply andb_true_iff in H; destruct H
  | H : _ || _ = false |- _ => apply orb_false_iff in H; destruct H
  | H : negb _ = true |- _ => apply negb_true_iff in H
  | H : negb _ = false |- _ => apply negb_false_iff in H
  end.

Lemma res_bind_Ok {A B} (r : res A) (k : A → res B) y :
  res_bind r k = Ok y ↔ ∃ x, r = Ok x ∧ k x = Ok y.
Proof. destruct r; simpl; naive_solver. Qed.

(** One step of a [res] computation that succeeded. *)
Tactic Notation "res_step" hyp(H) "as" simple_intropattern(x) simple_intropattern(Hx) :=
  apply res_bind_Ok in H as (x & Hx & H); cbv beta zeta in H.

Lemma res_map_Ok {A B} (f : A → B) (r : res A) y :
  res_map f r = Ok y ↔ ∃ x, r = Ok x ∧ y = f x.
Proof. destruct r; simpl; naive_solver. Qed.

Lemma res_mapM_ok {A B} (f : A → res B) (l : list A) (ys : list B) :
  res_mapM f l = Ok ys ↔ Forall2 (λ x y, f x = Ok y) l ys.
Proof.
  split.
  - revert ys. induction l as [|x l IH]; intros ys H; simpl in H; simplify_eq; [constructor|].
    destruct (f x) eqn:E; [|done].
    destruct (res_mapM f l) eqn:E'; simplify_eq. constructor; auto.
  - induction 1 as [|x y l ys Hxy _ IH]; simpl; [done|]. by rewrite Hxy, IH.
Qed.

Lemma res_mapM_pure {A B} (f : A → res B) (g : A → B) (l : list A) :
  Forall (λ x, f x = Ok (g x)) l → res_mapM f l = Ok (map g l).
Proof. induction 1 as [|x l H _ IH]; simpl; [done|]. by rewrite H, IH. Qed.

(** ** Insertion-ordered sets

    [Array.from(new Set(xs))]: the first occurrence of every element, in
    order.  [dedup_from seen] is the loop that carries the set of elements
    already seen. *)

Section dedup.
Context {A : Type} `{!EqDecision A}.

Fixpoint dedup_from (seen : list A) (l : list A) : list A :=
  match l with
  | [] => []
  | x :: l' =>
      if decide (x ∈ seen) then dedup_from seen l'
      else x :: dedup_from (x :: seen) l'
  end.

Definition dedup (l : list A) : list A := dedup_from [] l.

Lemma elem_of_dedup_from x seen l :
  x ∈ dedup_from seen l ↔ x ∈ l ∧ x ∉ seen.
Proof.
  revert seen. induction l as [|y l IH]; intros seen; simpl; [set_solver|].
  case_decide; rewrite ?elem_of_cons, IH; [set_solver|].
  destruct (decide (x = y)); set_solver.
Qed.

Lemma elem_of_dedup x l : x ∈ dedup l ↔ x ∈ l.
Proof. unfold dedup. rewrite elem_of_dedup_from. set_solver. Qed.

Lemma NoDup_dedup_from seen l : NoDup (dedup_from seen l).
Proof.
  revert seen. induction l as [|y l IH]; intros seen; simpl; [constructor|].
  case_decide; [apply IH|]. constructor; [|apply IH].
  rewrite elem_of_dedup_from. set_solver.
Qed.

Lemma NoDup_dedup l : NoDup (dedup l).
Proof. apply NoDup_dedup_from. Qed.

Lemma dedup_from_NoDup seen l :
  NoDup l → (∀ x, x ∈ l → x ∉ seen) → dedup_from seen l = l.
Proof.
  intros Hnd. revert seen. induction Hnd as [|x l Hx _ IH]; intros seen Hs; simpl; [done|].
  rewrite decide_False by set_solver. f_equal. apply IH. set_solver.
Qed.

Lemma dedup_NoDup l : NoDup l → dedup l = l.
Proof. intros H. apply dedup_from_NoDup; [done|]. set_solver. Qed.

Lemma dedup_idemp l : dedup (dedup l) = dedup l.
Proof. apply dedup_NoDup, NoDup_dedup. Qed.

Lemma dedup_from_sublist seen l : sublist (dedup_from seen l) l.
Proof.
  revert seen. induction l as [|x l IH]; intros seen; simpl; [constructor|].
  case_decide; constructor; apply IH.
Qed.

Lemma dedup_sublist l : sublist (dedup l) l.
Proof. apply dedup_from_sublist. Qed.

Lemma dedup_from_snoc seen l x :
  dedup_from seen (l ++ [x])
  = dedup_from seen l ++ (if decide (x ∈ seen ∨ x ∈ l) then [] else [x]).
Proof.
  revert seen. induction l as [|y l IH]; intros seen; simpl.
  - destruct (decide (x ∈ seen)).
    + by rewrite decide_True by auto.
    + by rewrite decide_False by (intros [?|?%not_elem_of_nil]; done).
  - destruct (decide (y ∈ seen)); rewrite IH; simpl; [|f_equal]; f_equal;
      apply decide_ext; rewrite ?elem_of_cons; naive_solver.
Qed.

Lemma dedup_snoc l x : dedup (l ++ [x]) = dedup l ++ (if decide (x ∈ l) then [] else [x]).
Proof.
  unfold dedup. rewrite dedup_from_snoc. f_equal. apply decide_ext.
  split; [by intros [?%not_elem_of_nil|?]|by right].
Qed.
End dedup.
#[export] Hint Resolve NoDup_dedup dedup_sublist : nexus.

(** ** Insertion-ordered association lists

    A JavaScript [Map], or the string-keyed properties of an object: setting
    an existing key keeps its position, setting a new one appends it. *)

Section assoc.
Context {K V : Type} `{!EqDecision K}.

Fixpoint assoc_get (k : K) (m : list (K * V)) : option V :=
  match m with
  | [] => None
  | (k', v) :: m' => if decide (k = k') then Some v else assoc_get k m'
  end.

Fixpoint assoc_set (k : K) (v : V) (m : list (K * V)) : list (K * V) :=
  match m with
  | [] => [(k, v)]
  | (k', v') :: m' =>
      if decide (k = k') then (k', v) :: m' else (k', v') :: assoc_set k v m'
  end.

Definition assoc_del (k : K) (m : list (K * V)) : list (K * V) :=
  filter (λ p, p.1 ≠ k) m.

Lemma assoc_get_set k k' v m :
  assoc_get k (assoc_set k' v m) = if decide (k = k') then Some v else assoc_get k m.
Proof.
  induction m as [|[k1 v1] m IH]; simpl; [done|].
  repeat (case_decide; simplify_eq/=; try done).
Qed.

Lemma assoc_get_set_eq k v m : assoc_get k (assoc_set k v m) = Some v.
Proof. by rewrite assoc_get_set, decide_True. Qed.

Lemma assoc_get_set_ne k k' v m :
  k ≠ k' → assoc_get k (assoc_set k' v m) = assoc_get k m.
Proof. intros. by rewrite assoc_get_set, decide_False. Qed.

Lemma assoc_set_again k v v' m : assoc_set k v (assoc_set k v' m) = assoc_set k v m.
Proof.
  induction m as [|[k1 v1] m IH]; simpl; repeat (case_decide; simplify_eq/=; try done). by rewrite IH.
Qed.

(** Setting a key again, with another key set in between. *)
Lemma assoc_set_over k v v' k2 v2 m :
  k ≠ k2 → assoc_set k v (assoc_set k2 v2 (assoc_set k v' m)) = assoc_set k2 v2 (assoc_set k v m).
Proof.
  intros Hne. induction m as [|[k1 v1] m IH]; simpl; repeat (case_decide; simplify_eq/=; try done).
  - by rewrite assoc_set_again.
  - by rewrite IH.
Qed.

Lemma assoc_get_del k k' m :
  assoc_get k (assoc_del k' m) = if decide (k = k') then None else assoc_get k m.
Proof.
  unfold assoc_del. induction m as [|[k1 v1] m IH]; [by case_decide|].
  rewrite filter_cons; simpl. repeat (case_decide; simplify_eq/=; try done).
Qed.

Lemma assoc_get_Some_elem k v m : assoc_get k m = Some v → (k, v) ∈ m.
Proof.
  induction m as [|[k1 v1] m IH]; simpl; [done|].
  case_decide; intros; simplify_eq; set_solver.
Qed.

Lemma assoc_get_None k m : assoc_get k m = None ↔ k ∉ m.*1.
Proof.
  induction m as [|[k1 v1] m IH]; simpl; [set_solver|].
  case_decide; simplify_eq; [set_solver|]. rewrite IH. set_solver.
Qed.

Lemma assoc_get_elem k v m : NoDup (m.*1) → (k, v) ∈ m → assoc_get k m = Some v.
Proof.
  induction m as [|[k1 v1] m IH]; simpl; [set_solver|].
  rewrite NoDup_cons, elem_of_cons. intros [Hk Hnd] [?|Hin]; simplify_eq.
  - by rewrite decide_True.
  - rewrite decide_False; [auto|]. intros ->. apply Hk.
    apply list_elem_of_fmap. by exists (k1, v).
Qed.

Lemma elem_of_keys_set k k' v m :
  k ∈ (assoc_set k' v m).*1 ↔ k = k' ∨ k ∈ m.*1.
Proof.
  induction m as [|[k1 v1] m IH]; simpl; [set_solver|].
  case_decide; simplify_eq/=; set_solver.
Qed.

Lemma keys_set k v m :
  (assoc_set k v m).*1 = m.*1 ++ (if decide (k ∈ m.*1) then [] else [k]).
Proof.
  induction m as [|[k1 v1] m IH]; [done|]. cbn [assoc_set].
  destruct (decide (k = k1)) as [->|Hne]; rewrite !fmap_cons; cbn [fst].
  - rewrite decide_True by left. by rewrite app_nil_r.
  - rewrite IH. simpl. do 2 f_equal. apply decide_ext. rewrite elem_of_cons. naive_solver.
Qed.

Lemma NoDup_keys_set k v m : NoDup (m.*1) → NoDup ((assoc_set k v m).*1).
Proof.
  induction m as [|[k1 v1] m IH]; simpl; [intros; apply NoDup_singleton|].
  rewrite NoDup_cons. intros [Hk Hnd].
  case_decide; simplify_eq/=; rewrite NoDup_cons; [done|].
  rewrite elem_of_keys_set. set_solver.
Qed.

Lemma elem_of_keys_del k k' m : k ∈ (assoc_del k' m).*1 ↔ k ≠ k' ∧ k ∈ m.*1.
Proof.
  unfold assoc_del. induction m as [|[k1 v1] m IH]; [simpl; set_solver|].
  rewrite filter_cons; simpl. case_decide; simpl; rewrite ?elem_of_cons, IH; naive_solver.
Qed.

Lemma NoDup_keys_del k m : NoDup (m.*1) → NoDup ((assoc_del k m).*1).
Proof.
  induction m as [|[k1 v1] m IH]; [done|].
  rewrite fmap_cons, NoDup_cons. intros [Hk ?]. unfold assoc_del.
  rewrite filter_cons. case_decide; simpl in *; [|by apply IH].
  rewrite NoDup_cons. split; [|by apply IH].
  intros [_ ?]%(elem_of_keys_del k1 k m). naive_solver.
Qed.
End assoc.
#[export] Hint Resolve NoDup_keys_set NoDup_keys_del : nexus.

(** ** Stable sorting

    [Array.prototype.sort] is stable, so with a comparator that is a total
    preorder its result is the stable insertion sort of the array. *)

Section sort_by.
Context {A : Type} (le : A → A → bool).

Fixpoint insert_by (x : A) (l : list A) : list A :=
  match l with
  | [] => [x]
  | y :: l' => if le x y then x :: y :: l' else y :: insert_by x l'
  end.

Definition sort_by (l : list A) : list A := foldr insert_by [] l.

Lemma insert_by_perm x l : insert_by x l ≡ₚ x :: l.
Proof.
  induction l as [|y l IH]; simpl; [done|]. case_match; [done|].
  rewrite IH. constructor.
Qed.

Lemma sort_by_perm l : sort_by l ≡ₚ l.
Proof. induction l as [|x l IH]; simpl; [done|]. by rewrite insert_by_perm, IH. Qed.

Lemma elem_of_sort_by x l : x ∈ sort_by l ↔ x ∈ l.
Proof. by rewrite sort_by_perm. Qed.

Lemma NoDup_sort_by l : NoDup l → NoDup (sort_by l).
Proof. by rewrite sort_by_perm. Qed.

Hypothesis le_total : ∀ x y, le x y = false → le y x = true.
Hypothesis le_trans : ∀ x y z, le x y = true → le y z = true → le x z = true.

Lemma insert_by_sorted x l :
  StronglySorted (λ a b, le a b = true) l →
  StronglySorted (λ a b, le a b = true) (insert_by x l).
Proof using le_total le_trans.
  induction 1 as [|y l Hs IH Hall]; simpl; [repeat constructor|].
  destruct (le x y) eqn:E.
  - constructor; [by constructor|]. constructor; [done|].
    eapply Forall_impl; [exact Hall|]. eauto.
  - constructor; [done|]. rewrite insert_by_perm. constructor; auto.
Qed.

Lemma sort_by_sorted l : StronglySorted (λ a b, le a b = true) (sort_by l).
Proof using le_total le_trans.
  induction l; simpl; [constructor|]. by apply insert_by_sorted.
Qed.
End sort_by.

(** ** Lists *)

Lemma Forall_sub {A} (P : A → Prop) (l l' : list A) : Forall P l → sublist l' l → Forall P l'.
Proof. rewrite !Forall_forall. intros Hl Hs x Hx. apply Hl. by eapply elem_of_sublist. Qed.

Lemma list_filter_all {A} (P : A → Prop) `{!∀ x, Decision (P x)} (l : list A) :
  Forall P l → filter P l = l.
Proof. induction 1 as [|x l Hx _ IH]; [done|]. by rewrite filter_cons_True, IH. Qed.

Lemma last_split {A} (l : list A) (x : A) :
  last l = Some x → l = take (length l - 1) l ++ [x].
Proof.
  intros H%last_Some. destruct H as [l' ->]. rewrite length_app. simpl.
  replace (length l' + 1 - 1)%nat with (length l') by lia. by rewrite take_app_length.
Qed.

Lemma StronglySorted_snoc {A} (R : A → A → Prop) l x :
  StronglySorted R (l ++ [x]) ↔ StronglySorted R l ∧ Forall (λ y, R y x) l.
Proof.
  induction l as [|y l IH]; simpl.
  - split; [intros; split; constructor|repeat constructor].
  - split.
    + inversion 1 as [|?? Hs Hall]; subst. apply IH in Hs as [Hs Hx].
      rewrite Forall_app, Forall_singleton in Hall. destruct Hall. split; constructor; auto.
    + intros [Hs Hx]. inversion Hs; subst. apply Forall_cons in Hx as [??].
      constructor; [by apply IH|]. rewrite Forall_app, Forall_singleton. done.
Qed.

Lemma insert_by_ext {A} (le le' : A → A → bool) x l :
  (∀ y, y ∈ l → le x y = le' x y) → insert_by le x l = insert_by le' x l.
Proof.
  induction l as [|y l IH]; intros H; simpl; [done|]. rewrite (H y) by left.
  case_match; [done|]. f_equal. apply IH. intros z Hz. apply H. by right.
Qed.

(** Only the comparisons of elements matter. *)
Lemma sort_by_ext {A} (le le' : A → A → bool) l :
  (∀ x y, x ∈ l → y ∈ l → le x y = le' x y) → sort_by le l = sort_by le' l.
Proof.
  induction l as [|x l IH]; intros H; simpl; [done|].
  rewrite IH by (intros y z Hy Hz; apply H; by right).
  apply insert_by_ext. intros y Hy%elem_of_sort_by. apply H; [left|by right].
Qed.

(** Elements that the order does not tell apart keep their order. *)
Lemma sort_by_stable {A} (le : A → A → bool) (P : A → Prop) `{!∀ x, Decision (P x)} l :
  (∀ x y, x ∈ l → y ∈ l → P x → P y → le x y = true) → filter P (sort_by le l) = filter P l.
Proof.
  intros Hle. induction l as [|x l IH]; [done|]. simpl.
  assert (∀ l', (∀ y, y ∈ l' → y ∈ l) → filter P (insert_by le x l') = filter P (x :: l')) as Hins.
  { induction l' as [|y l' IHl]; intros Hl; [done|]. simpl. destruct (le x y) eqn:E; [done|].
    rewrite filter_cons, IHl by (intros z Hz; apply Hl; by right). rewrite !filter_cons.
    destruct (decide (P y)) as [Hy|Hy]; [|done]. destruct (decide (P x)) as [Hx|Hx]; [|done].
    rewrite Hle in E; [done|left|right; apply Hl; left|done|done]. }
  rewrite Hins by (intros y; apply elem_of_sort_by). rewrite !filter_cons, IH; [done|].
  intros a b Ha Hb. apply Hle; by right.
Qed.

Lemma sort_by_id {A} (le : A → A → bool) l :
  StronglySorted (λ a b, le a b = true) l → sort_by le l = l.
Proof.
  induction 1 as [|x l Hs IH Hall]; [done|]. simpl. rewrite IH.
  destruct l as [|y l]; [done|]. apply Forall_cons in Hall as [Hy _]. simpl. by rewrite Hy.
Qed.

(** ** Options *)

Definition is_none {A} (o : option A) : bool := match o with None => true | _ => false end.
