(* ===== verification/JsString.v ===== *)
(** * JavaScript strings

    A string is its list of UTF-16 code units.  This file models the methods
    of [String.prototype] the sources call ([trim], [split], [join],
    [indexOf], [includes], [startsWith], [slice], [toLowerCase]), decimal
    digits ([parseInt(s, 10)] on a digit string and the printing of an
    integer), and proves the laws the components rely on. *)

From stdpp Require Import base list strings gmap.
From Stdlib Require Import ZArith Lia Ascii.
From S2P Require Import Prelude.
#[local] Open Scope Z_scope.

Notation jsstr := (list Z).

(** ** Literals: a source string (UTF-8 bytes) as UTF-16 code units *)

Fixpoint bytes_of (s : string) : list Z :=
  match s with
  | EmptyString => []
  | String a s' => Z.of_N (N_of_ascii a) :: bytes_of s'
  end.

Fixpoint utf16_of (fuel : nat) (l : list Z) : jsstr :=
  match fuel with
  | O => []
  | S n =>
      match l with
      | [] => []
      | a :: l1 =>
          if a <? 128 then a :: utf16_of n l1 else
          match l1 with
          | b :: l2 =>
              if a <? 224 then ((a - 192) * 64 + (b - 128)) :: utf16_of n l2 else
              match l2 with
              | c :: l3 =>
                  if a <? 240
                  then ((a - 224) * 4096 + (b - 128) * 64 + (c - 128)) :: utf16_of n l3
                  else
                  match l3 with
                  | d :: l4 =>
                      let u := (a - 240) * 262144 + (b - 128) * 4096
                               + (c - 128) * 64 + (d - 128) - 65536 in
                      (55296 + u / 1024) :: (56320 + u mod 1024) :: utf16_of n l4
                  | [] => []
                  end
              | [] => []
              end
          | [] => []
          end
      end
  end.

Definition js (s : string) : jsstr := let b := bytes_of s in utf16_of (length b) b.
Arguments js s%_string_scope : simpl never.

(** ** White space and [trim] *)

(** [WhiteSpace] and [LineTerminator] of ECMAScript: what [trim] removes and
    what [\s] matches. *)
Definition is_ws (c : Z) : bool :=
  (9 <=? c) && (c <=? 13) || (c =? 32) || (c =? 160) || (c =? 5760) ||
  (8192 <=? c) && (c <=? 8202) || (c =? 8232) || (c =? 8233) || (c =? 8239) ||
  (c =? 8287) || (c =? 12288) || (c =? 65279).

Fixpoint drop_ws (s : jsstr) : jsstr :=
  match s with
  | [] => []
  | c :: s' => if is_ws c then drop_ws s' else s
  end.

Definition trim (s : jsstr) : jsstr := reverse (drop_ws (reverse (drop_ws s))).

(** [s.replace(/\s/g, '')] and [s.replace(/\s+/g, '')] *)
Definition strip_ws (s : jsstr) : jsstr := base.filter (λ c, is_ws c = false) s.

Definition is_empty (s : jsstr) : bool := match s with [] => true | _ => false end.

(** ** Searching *)

Fixpoint starts_with (p s : jsstr) : bool :=
  match p, s with
  | [], _ => true
  | _, [] => false
  | a :: p', b :: s' => (a =? b) && starts_with p' s'
  end.

(** Consume one given character. *)
Definition eat (c : Z) (s : jsstr) : option jsstr :=
  match s with a :: r => if a =? c then Some r else None | [] => None end.

Definition ends_with (p s : jsstr) : bool := starts_with (reverse p) (reverse s).

(** [s.indexOf(p)], [None] for -1 *)
Fixpoint index_of (p s : jsstr) : option nat :=
  if starts_with p s then Some 0%nat
  else match s with [] => None | _ :: s' => S <$> index_of p s' end.

(** [s.indexOf(p, i)] *)
Definition index_of_from (p s : jsstr) (i : nat) : option nat :=
  (λ j, (i + j)%nat) <$> index_of p (drop i s).

Definition includes (p s : jsstr) : bool := negb (is_none (index_of p s)).

(** [s.substring(i, j)] for [i <= j] *)
Definition substring (s : jsstr) (i j : nat) : jsstr := take (j - i) (drop i s).

(** ** [split] and [join] *)

(** [s.split(c)] on a one-character separator *)
Fixpoint split_char (c : Z) (s : jsstr) : list jsstr :=
  match s with
  | [] => [[]]
  | a :: s' =>
      if a =? c then [] :: split_char c s'
      else match split_char c s' with
           | [] => [[a]]
           | w :: ws => (a :: w) :: ws
           end
  end.

Fixpoint join (sep : jsstr) (l : list jsstr) : jsstr :=
  match l with
  | [] => []
  | [w] => w
  | w :: l' => w ++ sep ++ join sep l'
  end.

(** [s.replace(/[a]/g, b)] for single characters *)
Definition replace_char (a b : Z) (s : jsstr) : jsstr :=
  map (λ c, if c =? a then b else c) s.

(** [toLowerCase] on the letters A to Z; the other code units are kept.  The
    components only compare the result with lower-case ASCII words that no
    other code unit lower-cases into. *)
Definition to_lower (s : jsstr) : jsstr :=
  map (λ c, if (65 <=? c) && (c <=? 90) then c + 32 else c) s.

(** ** Decimal digits *)

Definition is_digit (c : Z) : bool := (48 <=? c) && (c <=? 57).

(** [/^\d+$/.test(s)] *)
Definition all_digits (s : jsstr) : bool := negb (is_empty s) && forallb is_digit s.

(** The value of a digit string: [Number.parseInt(s, 10)] before rounding. *)
Definition dec_value_from (acc : Z) (s : jsstr) : Z :=
  fold_left (λ a c, a * 10 + (c - 48)) s acc.
Definition dec_value (s : jsstr) : Z := dec_value_from 0 s.

Fixpoint dec_digits (fuel : nat) (n : Z) (acc : jsstr) : jsstr :=
  match fuel with
  | O => acc
  | S f =>
      if n <? 10 then (48 + n) :: acc
      else dec_digits f (n / 10) ((48 + n mod 10) :: acc)
  end.

(** [String(n)] of an integer; the fuel [log2 n + 1] bounds its digits. *)
Definition Z_to_str (n : Z) : jsstr :=
  let digits m := dec_digits (S (Z.to_nat (Z.log2 m))) m [] in
  if n <? 0 then 45 :: digits (- n) else digits n.

(** ** Laws of [trim] *)

Lemma drop_ws_suffix s : ∃ p, s = p ++ drop_ws s ∧ Forall (λ c, is_ws c = true) p.
Proof.
  induction s as [|c s (p & Hp & Hall)]; simpl; [by exists []|].
  destruct (is_ws c) eqn:E; [|by exists []].
  exists (c :: p). split; [by f_equal/=|by constructor].
Qed.

Lemma drop_ws_idemp s : drop_ws (drop_ws s) = drop_ws s.
Proof.
  induction s as [|c s IH]; simpl; [done|].
  destruct (is_ws c) eqn:E; [done|]. simpl. by rewrite E.
Qed.

Definition head_nows (s : jsstr) : Prop :=
  match s with [] => True | c :: _ => is_ws c = false end.

Lemma drop_ws_head s : head_nows (drop_ws s).
Proof. induction s as [|c s IH]; simpl; [done|]. by destruct (is_ws c) eqn:E. Qed.

Lemma drop_ws_id s : head_nows s → drop_ws s = s.
Proof. destruct s as [|c s]; simpl; [done|]. by intros ->. Qed.

(** A string is trimmed when it neither starts nor ends with white space. *)
Definition trimmed (s : jsstr) : Prop := head_nows s ∧ head_nows (reverse s).

#[export] Instance trimmed_dec s : Decision (trimmed s).
Proof.
  unfold trimmed, head_nows. apply and_dec; case_match; apply _.
Defined.

Lemma trim_trimmed_id s : trimmed s → trim s = s.
Proof.
  intros [H1 H2]. unfold trim. by rewrite (drop_ws_id s H1), drop_ws_id, reverse_involutive.
Qed.

Lemma head_nows_prefix s1 s2 : head_nows (s1 ++ s2) → head_nows s1.
Proof. by destruct s1. Qed.

Lemma trim_trimmed s : trimmed (trim s).
Proof.
  unfold trimmed, trim. split; [|rewrite reverse_involutive; apply drop_ws_head].
  destruct (drop_ws_suffix (reverse (drop_ws s))) as (p & Hp & _).
  apply (f_equal reverse) in Hp. rewrite reverse_involutive, reverse_app in Hp.
  apply (head_nows_prefix _ (reverse p)). rewrite <- Hp. apply drop_ws_head.
Qed.

Lemma trim_idemp s : trim (trim s) = trim s.
Proof. apply trim_trimmed_id, trim_trimmed. Qed.
#[export] Hint Rewrite trim_idemp : nexus.
#[export] Hint Resolve trim_trimmed : nexus.

Lemma elem_of_drop_ws c s : c ∈ drop_ws s → c ∈ s.
Proof.
  destruct (drop_ws_suffix s) as (p & Hp & _). intros. rewrite Hp. set_solver.
Qed.

Lemma elem_of_trim c s : c ∈ trim s → c ∈ s.
Proof.
  unfold trim. rewrite elem_of_reverse. intros H%elem_of_drop_ws.
  rewrite elem_of_reverse in H. by apply elem_of_drop_ws.
Qed.

(** ** Laws of [split] and [join] *)

Lemma split_char_nonempty c s : split_char c s ≠ [].
Proof. destruct s as [|a s]; simpl; [done|]. repeat case_match; done. Qed.

Lemma split_char_no_sep c s w : w ∈ split_char c s → c ∉ w.
Proof.
  revert w. induction s as [|a s IH]; intros w; simpl.
  { intros ->%list_elem_of_singleton. apply not_elem_of_nil. }
  destruct (Z.eqb_spec a c) as [->|Hne].
  { rewrite elem_of_cons. intros [->|?]; [apply not_elem_of_nil|auto]. }
  destruct (split_char c s) as [|w1 ws] eqn:E; [by destruct (split_char_nonempty c s)|].
  rewrite elem_of_cons. intros [->|Hw]; [|apply IH; by right].
  assert (c ∉ w1) by (apply IH; left). rewrite not_elem_of_cons. auto.
Qed.

Lemma elem_of_split_char c s w x : w ∈ split_char c s → x ∈ w → x ∈ s.
Proof.
  revert w. induction s as [|a s IH]; intros w; simpl.
  { by intros ->%list_elem_of_singleton. }
  destruct (Z.eqb_spec a c) as [->|Hne].
  { rewrite elem_of_cons. intros [->|?] ?; [by destruct (not_elem_of_nil x)|]. right. eauto. }
  destruct (split_char c s) as [|w1 ws] eqn:E; [by destruct (split_char_nonempty c s)|].
  rewrite elem_of_cons. intros [->|Hw] Hx.
  - apply elem_of_cons in Hx as [->|Hx]; [left|]. right. apply (IH w1); [left|done].
  - right. apply (IH w); [by right|done].
Qed.

Lemma split_char_app c w s :
  c ∉ w → split_char c (w ++ c :: s) = w :: split_char c s.
Proof.
  induction w as [|a w IH]; intros Hc; simpl; [by rewrite Z.eqb_refl|].
  destruct (Z.eqb_spec a c) as [->|Hne]; [set_solver|].
  rewrite IH by set_solver. done.
Qed.

Lemma split_char_app_sep c a b : split_char c (a ++ c :: b) = split_char c a ++ split_char c b.
Proof.
  induction a as [|x a IH]; simpl; [by rewrite Z.eqb_refl|]. rewrite IH.
  pose proof (split_char_nonempty c a). destruct (x =? c), (split_char c a); done.
Qed.

Lemma split_char_single c w : c ∉ w → split_char c w = [w].
Proof.
  induction w as [|a w IH]; intros Hc; simpl; [done|].
  destruct (Z.eqb_spec a c) as [->|Hne]; [set_solver|].
  rewrite IH by set_solver. done.
Qed.

(** Splitting undoes joining when no word contains the separator. *)
Lemma split_join c l :
  l ≠ [] → Forall (λ w, c ∉ w) l → split_char c (join [c] l) = l.
Proof.
  induction l as [|w l IH]; intros Hne Hall; [done|].
  apply Forall_cons in Hall as [Hw Hall].
  destruct l as [|w' l]; simpl; [by apply split_char_single|].
  rewrite split_char_app by done. f_equal. by apply IH.
Qed.

Lemma elem_of_join c sep l : c ∈ join sep l → c ∈ sep ∨ ∃ w, w ∈ l ∧ c ∈ w.
Proof.
  induction l as [|w l IH]; [set_solver|].
  destruct l as [|w' l]; [set_solver|].
  change (join sep (w :: w' :: l)) with (w ++ sep ++ join sep (w' :: l)).
  rewrite !elem_of_app. intros [?|[?|[?|(w1&?&?)]%IH]]; [set_solver|by left|by left|].
  right. exists w1. set_solver.
Qed.

(** ** Laws of the digits *)

Lemma dec_digits_value f n acc :
  0 <= n < 2 ^ Z.of_nat f → (0 < f)%nat →
  dec_value_from 0 (dec_digits f n acc) = dec_value_from n acc.
Proof.
  revert n acc. induction f as [|f IH]; intros n acc Hn Hf; [lia|]. simpl.
  destruct (Z.ltb_spec n 10) as [Hlt|Hge].
  - unfold dec_value_from; simpl. f_equal. lia.
  - rewrite Nat2Z.inj_succ, Z.pow_succ_r in Hn by lia.
    destruct f as [|f]; [simpl in Hn; lia|]. rewrite IH.
    + unfold dec_value_from; simpl. f_equal.
      pose proof (Z.div_mod n 10). lia.
    + split; [apply Z.div_pos; lia|]. apply Z.div_lt_upper_bound; lia.
    + lia.
Qed.

Lemma dec_digits_digits f n acc :
  0 <= n → forallb is_digit acc = true → forallb is_digit (dec_digits f n acc) = true.
Proof.
  revert n acc. induction f as [|f IH]; intros n acc Hn Ha; simpl; [done|].
  unfold is_digit in *.
  destruct (Z.ltb_spec n 10) as [Hlt|Hge].
  - simpl. rewrite Ha. lia.
  - apply IH; [apply Z.div_pos; lia|]. simpl. rewrite Ha.
    pose proof (Z.mod_pos_bound n 10). lia.
Qed.

Lemma dec_digits_nonempty f n acc : (0 < f)%nat → dec_digits f n acc ≠ [].
Proof.
  revert n acc. induction f as [|f IH]; intros n acc Hf; [lia|]. simpl.
  case_match; [done|]. destruct f; [done|]. apply IH. lia.
Qed.

Lemma log2_fuel n : 0 <= n → 0 <= n < 2 ^ Z.of_nat (S (Z.to_nat (Z.log2 n))).
Proof.
  intros Hn. split; [done|]. rewrite Nat2Z.inj_succ, Z2Nat.id by apply Z.log2_nonneg.
  destruct (Z.eq_dec n 0) as [->|]; [done|]. apply Z.log2_spec. lia.
Qed.

Lemma Z_to_str_value n : 0 <= n → dec_value (Z_to_str n) = n.
Proof.
  intros Hn. unfold Z_to_str, dec_value. destruct (Z.ltb_spec n 0); [lia|].
  rewrite dec_digits_value; [done|by apply log2_fuel|lia].
Qed.

Lemma Z_to_str_digits n : 0 <= n → all_digits (Z_to_str n) = true.
Proof.
  intros Hn. unfold Z_to_str, all_digits. destruct (Z.ltb_spec n 0); [lia|].
  apply andb_true_iff. split; [|by apply dec_digits_digits].
  pose proof (dec_digits_nonempty (S (Z.to_nat (Z.log2 n))) n []) as Hne.
  destruct (dec_digits _ n []); [|done]. exfalso. apply Hne; [lia|done].
Qed.

Lemma all_digits_elem s c : all_digits s = true → c ∈ s → 48 <= c <= 57.
Proof.
  intros [_ H]%andb_true_iff Hc. rewrite forallb_forall in H.
  apply list_elem_of_In in Hc. apply H in Hc. unfold is_digit in Hc. lia.
Qed.

Lemma is_digit_not_ws c : 48 <= c <= 57 → is_ws c = false.
Proof. unfold is_ws. lia. Qed.

Lemma trim_nonempty c s : is_ws c = false → is_empty (trim (c :: s)) = false.
Proof.
  intros Hc. unfold trim. simpl drop_ws. rewrite Hc, reverse_cons.
  destruct (drop_ws_suffix (reverse s ++ [c])) as (p & Hp & Hall).
  destruct (drop_ws (reverse s ++ [c])) as [|a l].
  - exfalso. rewrite app_nil_r in Hp. subst p.
    rewrite Forall_app, Forall_singleton, Hc in Hall. naive_solver.
  - rewrite reverse_cons. by destruct (reverse l).
Qed.

Lemma nows_trimmed s : (∀ c, c ∈ s → is_ws c = false) → trimmed s.
Proof.
  intros H. split.
  - destruct s; simpl; [done|]. apply H. set_solver.
  - destruct (reverse s) as [|c r] eqn:E; simpl; [done|]. apply H.
    rewrite <- elem_of_reverse, E. set_solver.
Qed.

Lemma all_digits_trimmed s : all_digits s = true → trimmed s.
Proof. intros H. apply nows_trimmed. intros c Hc. eapply is_digit_not_ws, all_digits_elem; eauto. Qed.

Lemma strip_ws_nows s : (∀ c, c ∈ s → is_ws c = false) → strip_ws s = s.
Proof.
  intros H. unfold strip_ws. induction s as [|c s IH]; [done|].
  rewrite filter_cons, decide_True by (apply H; set_solver).
  rewrite IH; [done|]. set_solver.
Qed.

Lemma dec_value_from_nonneg acc s :
  0 <= acc → forallb is_digit s = true → 0 <= dec_value_from acc s.
Proof.
  revert acc. induction s as [|c s IH]; intros acc Ha Hs; [done|].
  apply andb_true_iff in Hs as [Hc Hs]. unfold is_digit in Hc.
  unfold dec_value_from; simpl. apply IH; [lia|done].
Qed.

Lemma dec_value_nonneg s : all_digits s = true → 0 <= dec_value s.
Proof. intros [_ H]%andb_true_iff. by apply dec_value_from_nonneg. Qed.

(** ** Laws of the searches *)

Lemma starts_with_spec p s : starts_with p s = true ↔ ∃ r, s = p ++ r.
Proof.
  revert s. induction p as [|a p IH]; intros s; simpl; [naive_solver|].
  destruct s as [|b s]; [split; [done|intros (?&?); done]|].
  rewrite andb_true_iff, Z.eqb_eq, IH. split.
  - intros [-> [r ->]]. eauto.
  - intros [r ?]; simplify_eq. eauto.
Qed.

Lemma starts_with_app p s : starts_with p (p ++ s) = true.
Proof. apply starts_with_spec. eauto. Qed.

Lemma index_of_Some p s i :
  index_of p s = Some i → s = take i s ++ p ++ drop (i + length p) s.
Proof.
  revert i. induction s as [|a s IH]; intros i; simpl;
    destruct (starts_with _ _) eqn:E; intros H; simplify_eq.
  - apply starts_with_spec in E as [r Hr]. destruct p; [done|done].
  - apply starts_with_spec in E as [r Hr]. simpl. rewrite Hr, drop_app_length. done.
  - apply fmap_Some in H as (j & Hj & ->). simpl. f_equal. by apply IH.
Qed.

Lemma starts_with_length p s : starts_with p s = true → (length p ≤ length s)%nat.
Proof. intros [r ->]%starts_with_spec. rewrite length_app. lia. Qed.

Lemma index_of_bound p s i : index_of p s = Some i → (i + length p ≤ length s)%nat.
Proof.
  revert i. induction s as [|a s IH]; intros i; simpl;
    destruct (starts_with _ _) eqn:E; intros H; simplify_eq.
  - by apply starts_with_length in E.
  - by apply starts_with_length in E.
  - apply fmap_Some in H as (j & Hj & ->). apply IH in Hj. simpl. lia.
Qed.

(** [index_of] finds the first occurrence: none starts earlier. *)
Lemma index_of_first p s i j r :
  index_of p s = Some i → (j < i)%nat → drop j s ≠ p ++ r.
Proof.
  revert i j. induction s as [|a s IH]; intros i j; simpl;
    destruct (starts_with _ _) eqn:E; intros H Hj; simplify_eq; try lia.
  apply fmap_Some in H as (k & Hk & ->). destruct j as [|j]; simpl.
  - intros Heq. rewrite Heq, starts_with_app in E. done.
  - apply (IH k); [done|lia].
Qed.

Lemma index_of_None p s j r : index_of p s = None → drop j s ≠ p ++ r.
Proof.
  revert j. induction s as [|a s IH]; intros j; simpl;
    destruct (starts_with _ _) eqn:E; intros H Heq; simplify_eq.
  - rewrite drop_nil in Heq. rewrite Heq, starts_with_app in E. done.
  - apply fmap_None in H. destruct j as [|j]; simpl in Heq.
    + rewrite Heq, starts_with_app in E. done.
    + by apply (IH j).
Qed.

(** A pattern whose first unit does not recur in it is found where it was put,
    behind a text that does not contain it. *)
Lemma starts_with_app_false c q v r :
  c ∉ q → v ≠ [] → starts_with (c :: q) v = false →
  starts_with (c :: q) (v ++ (c :: q) ++ r) = false.
Proof.
  intros Hc Hv Hf. destruct (starts_with _ (v ++ _)) eqn:E; [|done]. exfalso.
  apply starts_with_spec in E as [w E].
  assert (v `prefix_of` (c :: q) ++ w) as [x Hx] by (rewrite <- E; by eexists).
  destruct v as [|a v]; [done|]. injection E as -> E.
  assert ((v ++ c :: q ++ r) !! length v = Some c) as Hl by (by rewrite list_lookup_middle).
  rewrite E in Hl. destruct (decide (length v < length q)%nat) as [Hlt|Hge].
  - rewrite lookup_app_l in Hl by done. by apply Hc, list_elem_of_lookup_2 with (length v).
  - assert (starts_with (c :: q) (c :: v) = true); [|congruence].
    apply starts_with_spec. exists (drop (length q) v). simpl. f_equal.
    assert (q = take (length q) (v ++ c :: q ++ r)) as Eq by (by rewrite E, take_app_length).
    rewrite take_app_le in Eq by lia. rewrite Eq at 1. by rewrite take_drop.
Qed.

Lemma index_of_app c q v r :
  c ∉ q → index_of (c :: q) v = None →
  index_of (c :: q) (v ++ (c :: q) ++ r) = Some (length v).
Proof.
  intros Hc. induction v as [|a v IH]; intros Hn.
  - cbn [app]. change (c :: q ++ r) with ((c :: q) ++ r).
    pose proof (starts_with_app (c :: q) r) as H. cbn [app index_of] in *. by rewrite H.
  - assert (starts_with (c :: q) (a :: v) = false ∧ index_of (c :: q) v = None) as [Hs Hn'].
    { cbn [index_of] in Hn. destruct (starts_with (c :: q) (a :: v)); [done|].
      split; [done|]. by destruct (index_of (c :: q) v). }
    pose proof (starts_with_app_false c q (a :: v) r Hc ltac:(done) Hs) as Hs'.
    cbn [app index_of] in *. rewrite Hs'. by rewrite (IH Hn').
Qed.

(** What lies before the first occurrence does not contain the pattern. *)
Lemma index_of_take c q s i :
  index_of (c :: q) s = Some i → index_of (c :: q) (take i s) = None.
Proof.
  revert i. induction s as [|a s IH]; intros i H; [done|].
  cbn [index_of] in H. destruct (starts_with (c :: q) (a :: s)) eqn:E.
  { injection H as <-. done. }
  destruct (index_of (c :: q) s) as [j|] eqn:Ej; [|done]. injection H as <-.
  cbn [take]. cbn [index_of]. rewrite (IH j eq_refl).
  destruct (starts_with (c :: q) (a :: take j s)) eqn:E'; [|done].
  exfalso. apply starts_with_spec in E' as [r E'].
  assert (starts_with (c :: q) (a :: s) = true); [|congruence].
  apply starts_with_spec. exists (r ++ drop j s).
  rewrite app_assoc, <- E'. simpl. by rewrite take_drop.
Qed.

Lemma includes_false p s : includes p s = false ↔ index_of p s = None.
Proof. unfold includes. destruct (index_of p s); simpl; by split. Qed.

Lemma includes_char_false c s : c ∉ s → includes [c] s = false.
Proof.
  intros Hc. unfold includes, is_none. induction s as [|a s IH]; [done|].
  simpl. apply not_elem_of_cons in Hc as [Hne Hc].
  destruct (Z.eqb_spec c a); [done|]. simpl. specialize (IH Hc).
  by destruct (index_of [c] s).
Qed.

Lemma includes_char_true c s : c ∈ s → includes [c] s = true.
Proof.
  intros Hc. unfold includes, is_none. induction s as [|a s IH]; [by apply not_elem_of_nil in Hc|].
  simpl. apply elem_of_cons in Hc as [->|Hc]; [by rewrite Z.eqb_refl|].
  destruct (_ && _); [done|]. specialize (IH Hc). by destruct (index_of [c] s).
Qed.

(** Joining undoes splitting. *)
Lemma join_split_char c s : join [c] (split_char c s) = s.
Proof.
  induction s as [|a s IH]; [done|]. simpl. destruct (Z.eqb_spec a c) as [->|Hne].
  - pose proof (split_char_nonempty c s). destruct (split_char c s) as [|w ws]; [done|].
    change (join [c] ([] :: w :: ws)) with ([] ++ [c] ++ join [c] (w :: ws)). by rewrite IH.
  - pose proof (split_char_nonempty c s). destruct (split_char c s) as [|w ws]; [done|].
    rewrite <-IH. by destruct ws.
Qed.

Lemma join_nil_concat l : join [] l = concat l.
Proof.
  induction l as [|w l IH]; [done|]. destruct l as [|w' l]; [simpl; by rewrite app_nil_r|].
  change (join [] (w :: w' :: l)) with (w ++ [] ++ join [] (w' :: l)). by rewrite IH.
Qed.

(** ** Blank strings *)

Lemma drop_ws_keeps c s : c ∈ s → is_ws c = false → c ∈ drop_ws s.
Proof.
  destruct (drop_ws_suffix s) as (p & Hp & Hall). intros Hc Hw. rewrite Hp in Hc.
  apply elem_of_app in Hc as [Hc|Hc]; [|done]. rewrite Forall_forall in Hall.
  rewrite (Hall c Hc) in Hw. done.
Qed.

Lemma trim_keeps c s : c ∈ s → is_ws c = false → c ∈ trim s.
Proof.
  intros Hc Hw. unfold trim. apply elem_of_reverse, drop_ws_keeps; [|done].
  by apply elem_of_reverse, drop_ws_keeps.
Qed.

Lemma trim_empty_spec s : is_empty (trim s) = false ↔ ∃ c, c ∈ s ∧ is_ws c = false.
Proof.
  split.
  - destruct (trim s) as [|c w] eqn:E; [done|]. intros _. exists c. split.
    + apply elem_of_trim. rewrite E. left.
    + destruct (trim_trimmed s) as [H _]. by rewrite E in H.
  - intros (c & Hc & Hw). pose proof (trim_keeps c s Hc Hw) as H.
    destruct (trim s); [by apply not_elem_of_nil in H|done].
Qed.

Lemma split_char_cover c sep s : c ∈ s → c ≠ sep → ∃ w, w ∈ split_char sep s ∧ c ∈ w.
Proof.
  intros Hc Hne. induction s as [|a s IH]; [by apply not_elem_of_nil in Hc|].
  pose proof (split_char_nonempty sep s) as Hn. simpl.
  destruct (split_char sep s) as [|w ws]; [done|].
  apply elem_of_cons in Hc as [->|Hc].
  - exists (a :: w). destruct (Z.eqb_spec a sep); [congruence|]. split; left.
  - destruct (IH Hc) as (w' & Hw' & Hin). destruct (Z.eqb_spec a sep).
    + exists w'. split; [by right|done].
    + apply elem_of_cons in Hw' as [->|Hw']; [|exists w'; split; [by right|done]].
      exists (a :: w). split; [left|by right].
Qed.

(** A text that is not blank has a line that is not. *)
Lemma nonblank_line s :
  is_empty (trim s) = false → ∃ w, w ∈ split_char 10 s ∧ is_empty (trim w) = false.
Proof.
  intros (c & Hc & Hw)%trim_empty_spec.
  destruct (split_char_cover c 10 s Hc) as (w & Hw' & Hcw); [by intros ->|].
  exists w. split; [done|]. apply trim_empty_spec. eauto.
Qed.

(** White space at the end is trimmed. *)
Lemma trim_snoc_ws s c : is_ws c = true → trim (s ++ [c]) = trim s.
Proof.
  intros Hc. assert (drop_ws (s ++ [c]) = drop_ws s ++ [c] ∨ drop_ws (s ++ [c]) = [] ∧ drop_ws s = []) as Hd.
  { induction s as [|x s IH]; simpl; [right; by rewrite Hc|]. by destruct (is_ws x); [|left]. }
  unfold trim. destruct Hd as [->|[-> ->]]; [|done]. rewrite reverse_snoc. simpl. by rewrite Hc.
Qed.

(** ** Literals *)

(** Comparisons of literal texts are computed. *)
Lemma js_neq a b : bool_decide (js a = js b) = false → js a ≠ js b.
Proof. apply bool_decide_eq_false_1. Qed.

Ltac js_differ := apply js_neq; vm_compute; reflexivity.

Ltac lit_decide :=
  repeat match goal with
  | |- context [@decide (js ?a = js ?a) ?d] => rewrite (@decide_True _ (js a = js a) d) by reflexivity
  | |- context [@bool_decide (js ?a = js ?a) ?d] => rewrite (@bool_decide_eq_true_2 (js a = js a) d) by reflexivity
  | |- context [@decide (js ?a = js ?b) ?d] => rewrite (@decide_False _ (js a = js b) d) by js_differ
  | |- context [@bool_decide (js ?a = js ?b) ?d] => rewrite (@bool_decide_eq_false_2 (js a = js b) d) by js_differ
  end.
