(* ===== verification/JsNumber.v ===== *)
(** * JavaScript numbers

    A number is an IEEE-754 double, represented by the Standard Library's
    [spec_float] at precision 53 and exponent bound 1024.  The operations are
    executable, so every definition that computes with numbers can be run.
    [Number(s)] rounds the exact decimal value once; [String(x)] prints the
    shortest decimal that reads back as [x] (ECMAScript [Number::toString]). *)

From stdpp Require Import base list strings gmap.
From Stdlib Require Import ZArith Lia SpecFloat.
From S2P Require Import Prelude JsString.
#[local] Open Scope Z_scope.

Notation num := spec_float.

#[export] Instance num_eq_dec : EqDecision num.
Proof. intros x y. unfold Decision. repeat decide equality. Defined.

(** ** Constants, tests and arithmetic *)

Definition num_of_Z (z : Z) : num := binary_normalize 53 1024 z 0 false.
Definition num_zero : num := S754_zero false.

Definition is_nan (x : num) : bool := match x with S754_nan => true | _ => false end.
Definition is_finite (x : num) : bool :=
  match x with S754_zero _ | S754_finite _ _ _ => true | _ => false end.

Definition num_add : num → num → num := SFadd 53 1024.
Definition num_sub : num → num → num := SFsub 53 1024.
Definition num_mul : num → num → num := SFmul 53 1024.
Definition num_div : num → num → num := SFdiv 53 1024.

(** [x === y], [x < y], [x <= y] on numbers *)
Definition num_eqb : num → num → bool := SFeqb.
Definition num_ltb : num → num → bool := SFltb.
Definition num_leb : num → num → bool := SFleb.

(** [Number.isInteger(x)] *)
Definition is_integer (x : num) : bool :=
  match x with
  | S754_zero _ => true
  | S754_finite _ m e => (0 <=? e) || (Zpos m mod 2 ^ (- e) =? 0)
  | _ => false
  end.

(** The integer part of a finite number ([Math.trunc]); 0 for the others. *)
Definition trunc_Z (x : num) : Z :=
  match x with
  | S754_finite s m e =>
      let a := if 0 <=? e then Zpos m * 2 ^ e else Zpos m / 2 ^ (- e) in
      if s then - a else a
  | _ => 0
  end.

(** [Math.round(x)]: the nearest integer, the larger of two; a result of zero
    keeps the sign of [x]. *)
Definition num_round (x : num) : num :=
  match x with
  | S754_finite s m e =>
      if 0 <=? e then x
      else
        let n := (2 * cond_Zopp s (Zpos m) + 2 ^ (- e)) / 2 ^ (1 - e) in
        if n =? 0 then S754_zero s else num_of_Z n
  | _ => x
  end.

(** A number is truthy unless it is zero or [NaN]. *)
Definition num_truthy (x : num) : bool :=
  match x with S754_zero _ | S754_nan => false | _ => true end.

(** ** Reading decimals

    [dec_to_num s m e] is the double nearest to [m * 10^e], negated when [s].
    Past the two guards the value is above 10^310 (infinite) or below
    10^-400 (zero), which keeps the powers of ten small. *)
Definition dec_to_num (s : bool) (m e : Z) : num :=
  if m =? 0 then S754_zero s
  else if 310 <? e then S754_infinity s
  else if e <? - (Z.log2 m + 1) - 400 then S754_zero s
  else if 0 <=? e then
    match m * 10 ^ e with
    | Zpos p => binary_round 53 1024 s p 0
    | _ => S754_zero s
    end
  else
    match m, 10 ^ (- e) with
    | Zpos a, Zpos b =>
        let '(q, e', l) := SFdiv_core_binary 53 1024 (Zpos a) 0 (Zpos b) 0 in
        binary_round_aux 53 1024 s q e' l
    | _, _ => S754_zero s
    end.

(** The longest prefix of digits and what follows it. *)
Fixpoint span_digits (s : jsstr) : jsstr * jsstr :=
  match s with
  | [] => ([], [])
  | c :: s' =>
      if is_digit c then let '(d, r) := span_digits s' in (c :: d, r) else ([], s)
  end.

(** An optional exponent part [e+12]; [None] when there is none. *)
Definition read_exponent (s : jsstr) : option (Z * jsstr) :=
  match s with
  | c :: s1 =>
      if (c =? 101) || (c =? 69) then
        let '(neg, s2) :=
          match eat 43 s1, eat 45 s1 with
          | Some r, _ => (false, r)
          | _, Some r => (true, r)
          | _, _ => (false, s1)
          end in
        let '(d, r) := span_digits s2 in
        if is_empty d then None
        else Some (if neg : bool then - dec_value d else dec_value d, r)
      else None
  | [] => None
  end.

(** [StrDecimalLiteral] without its sign: digits, fraction, exponent. *)
Definition read_decimal (neg : bool) (s : jsstr) : option (num * jsstr) :=
  let '(ip, s1) := span_digits s in
  let '(fp, s2) :=
    match eat 46 s1 with Some r => span_digits r | None => ([], s1) end in
  if is_empty ip && is_empty fp then None
  else
    let m := dec_value (ip ++ fp) in
    let sc := - Z.of_nat (length fp) in
    match read_exponent s2 with
    | Some (e, r) => Some (dec_to_num neg m (sc + e), r)
    | None => Some (dec_to_num neg m sc, s2)
    end.

Definition hex_digit (c : Z) : option Z :=
  if is_digit c then Some (c - 48)
  else if (97 <=? c) && (c <=? 102) then Some (c - 87)
  else if (65 <=? c) && (c <=? 70) then Some (c - 55)
  else None.

Fixpoint radix_value (radix acc : Z) (s : jsstr) : option Z :=
  match s with
  | [] => Some acc
  | c :: s' =>
      match hex_digit c with
      | Some d => if d <? radix then radix_value radix (acc * radix + d) s' else None
      | None => None
      end
  end.

Definition read_radix (radix : Z) (s : jsstr) : num :=
  if is_empty s then S754_nan
  else match radix_value radix 0 s with Some v => num_of_Z v | None => S754_nan end.

(** [Number(s)] of a string. *)
Definition str_to_num (s0 : jsstr) : num :=
  let s := trim s0 in
  let signed neg r :=
    if decide (r = js "Infinity") then S754_infinity neg
    else match read_decimal neg r with Some (x, []) => x | _ => S754_nan end in
  if is_empty s then num_zero
  else match eat 43 s, eat 45 s with
       | Some r, _ => signed false r
       | _, Some r => signed true r
       | _, _ =>
           match eat 48 s with
           | Some (c :: r) =>
               if (c =? 120) || (c =? 88) then read_radix 16 r
               else if (c =? 111) || (c =? 79) then read_radix 8 r
               else if (c =? 98) || (c =? 66) then read_radix 2 r
               else signed false s
           | _ => signed false s
           end
       end.

(** [parseInt(s, 10)]: the longest integer prefix, [NaN] without digits. *)
Definition parseInt10 (s : jsstr) : num :=
  let s := drop_ws s in
  let '(neg, digits) :=
    match eat 45 s with
    | Some r => (true, r)
    | None => (false, match eat 43 s with Some r => r | None => s end)
    end in
  let ds := fst (span_digits digits) in
  if is_empty ds then S754_nan
  else if neg && (dec_value ds =? 0) then S754_zero true
  else num_of_Z (if neg then - dec_value ds else dec_value ds).

(** ** Printing

    For [v = a/b > 0], [dec_exponent a b] is the [n] with
    [10^(n-1) <= v < 10^n], found from the binary logarithm. *)

Definition pow10_le (a b n : Z) : bool := (* 10^n <= a/b *)
  b * 10 ^ Z.max n 0 <=? a * 10 ^ Z.max (- n) 0.

Definition dec_exponent (a b : Z) : Z :=
  let n0 := (Z.log2 a - Z.log2 b) * 30103 / 100000 - 1 in
  let up n := if pow10_le a b n then n + 1 else n in
  up (up (up (up n0))).

(** The integer nearest to [v * 10^j], ties to even. *)
Definition scaled_nearest (a b j : Z) : Z :=
  let a' := a * 10 ^ Z.max j 0 in
  let b' := b * 10 ^ Z.max (- j) 0 in
  let q := a' / b' in
  let r := a' mod b' in
  if (2 * r <? b') || ((2 * r =? b') && Z.even q) then q else q + 1.

(** [Number::toString] layout of the digits [ds] of [s * 10^(n-k)]. *)
Definition layout_digits (ds : jsstr) (n : Z) : jsstr :=
  let k := Z.of_nat (length ds) in
  if (k <=? n) && (n <=? 21) then ds ++ repeat 48 (Z.to_nat (n - k))
  else if (0 <? n) && (n <=? 21) then
    take (Z.to_nat n) ds ++ [46] ++ drop (Z.to_nat n) ds
  else if (-6 <? n) && (n <=? 0) then [48; 46] ++ repeat 48 (Z.to_nat (- n)) ++ ds
  else
    let expo := [101; if n - 1 <? 0 then 45 else 43] ++ Z_to_str (Z.abs (n - 1)) in
    match ds with
    | [] => []
    | [d] => d :: expo
    | d :: r => d :: 46 :: r ++ expo
    end.

Fixpoint shortest (x : num) (a b n : Z) (k fuel : nat) : jsstr :=
  let s := scaled_nearest a b (Z.of_nat k - n) in
  let str :=
    if s =? 10 ^ Z.of_nat k then layout_digits [49] (n + 1)
    else layout_digits (Z_to_str s) n in
  match fuel with
  | O => str
  | S f => if decide (str_to_num str = x) then str else shortest x a b n (S k) f
  end.

(** Seventeen digits always identify a double. *)
Definition pos_to_str (m : positive) (e : Z) : jsstr :=
  let a := Zpos m * 2 ^ Z.max e 0 in
  let b := 2 ^ Z.max (- e) 0 in
  shortest (S754_finite false m e) a b (dec_exponent a b) 1 16.

(** [String(x)] *)
Definition num_to_str (x : num) : jsstr :=
  match x with
  | S754_nan => js "NaN"
  | S754_zero _ => js "0"
  | S754_infinity s => (if s then [45] else []) ++ js "Infinity"
  | S754_finite s m e => (if s then [45] else []) ++ pos_to_str m e
  end.

(** ** Integers below 2^53 are exact *)

Lemma digits2_bounds p : 2 ^ (Zpos (digits2_pos p) - 1) <= Zpos p < 2 ^ Zpos (digits2_pos p).
Proof.
  induction p as [p IH|p IH|]; cbn [digits2_pos]; [| |done];
    rewrite Pos2Z.inj_succ, Z.pow_succ_r by lia;
    replace (Z.succ (Zpos (digits2_pos p)) - 1) with (Z.succ (Zpos (digits2_pos p) - 1)) by lia;
    rewrite Z.pow_succ_r by lia; lia.
Qed.

Lemma digits2_small p n : 0 <= n → Zpos p < 2 ^ n → Zpos (digits2_pos p) <= n.
Proof.
  intros Hn Hp. pose proof (digits2_bounds p) as [Hb _].
  destruct (Z.le_gt_cases (Zpos (digits2_pos p)) n) as [|H]; [done|].
  pose proof (Z.pow_le_mono_r 2 n (Zpos (digits2_pos p) - 1)). lia.
Qed.

Lemma shift_digits p k : digits2_pos (Pos.iter xO p k) = (digits2_pos p + k)%positive.
Proof.
  revert p. induction k as [|k IH] using Pos.peano_ind; intros p; [cbn; lia|].
  rewrite Pos.iter_succ. cbn [digits2_pos]. rewrite IH. lia.
Qed.

Lemma shift_value p k : Zpos (Pos.iter xO p k) = Zpos p * 2 ^ Zpos k.
Proof.
  induction k as [|k IH] using Pos.peano_ind; [cbn; lia|].
  rewrite Pos.iter_succ, Pos2Z.inj_xO, IH, Pos2Z.inj_succ, Z.pow_succ_r by lia. lia.
Qed.

(** A mantissa that is already aligned is not rounded. *)
Lemma round_aligned s m e :
  fexp 53 1024 (Zpos (digits2_pos m) + e) = e → e <= 971 →
  binary_round_aux 53 1024 s (Zpos m) e loc_Exact = S754_finite s m e.
Proof.
  intros He Hm. unfold binary_round_aux, shr_fexp. cbn [Zdigits2 shr_record_of_loc].
  rewrite He, Z.sub_diag. cbn [shr shr_m loc_of_shr_record shr_r shr_s round_nearest_even Zdigits2 shr_record_of_loc].
  rewrite He, Z.sub_diag. cbn [shr shr_m]. by rewrite (proj2 (Z.leb_le e (1024 - 53))).
Qed.

(** Integers below 2^53 are represented exactly. *)
Lemma round_small s p :
  Zpos p < 2 ^ 53 →
  ∃ m e, binary_round 53 1024 s p 0 = S754_finite s m e ∧ -53 < e <= 0 ∧ Zpos m = Zpos p * 2 ^ (- e).
Proof.
  intros Hp. apply digits2_small in Hp as Hd; [|lia]. unfold binary_round.
  set (e := fexp 53 1024 (Zpos (digits2_pos p) + 0)).
  assert (e = Zpos (digits2_pos p) - 53) as He by (unfold e, fexp, emin; lia).
  unfold shl_align. rewrite Z.sub_0_r. destruct e as [|k|k] eqn:Ee; [| lia |].
  - exists p, 0. rewrite round_aligned; [split_and!; [done|lia|lia|lia]|unfold fexp, emin; lia|lia].
  - exists (Pos.iter xO p k), (Zneg k). rewrite round_aligned.
    + split_and!; [done|lia|lia|]. rewrite shift_value. done.
    + rewrite shift_digits. unfold fexp, emin. lia.
    + lia.
Qed.

Lemma small_integer s p :
  Zpos p < 2 ^ 53 →
  let x := binary_round 53 1024 s p 0 in
  is_integer x = true ∧ trunc_Z x = if s then - Zpos p else Zpos p.
Proof.
  intros Hp x. subst x. destruct (round_small s p Hp) as (m & e & -> & He & Hm). cbn [is_integer trunc_Z].
  destruct (Z.leb_spec 0 e) as [H|H].
  - assert (e = 0) as -> by lia. split; [done|]. rewrite Hm. change (2 ^ - 0) with 1. change (2 ^ 0) with 1.
    destruct s; lia.
  - rewrite Hm, Z.mod_mul, Z.div_mul by (apply Z.pow_nonzero; lia). split; [done|done].
Qed.

Lemma span_digits_all s : forallb is_digit s = true → span_digits s = (s, []).
Proof. induction s as [|c s IH]; cbn; [done|]. intros [-> H]%andb_true_iff. by rewrite IH. Qed.

(** [Number(String(n))] of an integer. *)
Lemma str_to_num_index n :
  0 <= n < 2 ^ 53 →
  is_integer (str_to_num (Z_to_str n)) = true ∧ trunc_Z (str_to_num (Z_to_str n)) = n.
Proof.
  intros Hn. pose proof (Z_to_str_digits n) as Hd. pose proof (Z_to_str_value n) as Hv.
  specialize (Hd ltac:(lia)). specialize (Hv ltac:(lia)). set (s := Z_to_str n) in *. clearbody s.
  unfold str_to_num. rewrite trim_trimmed_id by by apply all_digits_trimmed.
  unfold all_digits in Hd. apply andb_true_iff in Hd as [He Hd]. destruct s as [|c s]; [done|].
  cbn [is_empty].
  assert (48 <= c <= 57) as Hc by (cbn [forallb] in Hd; unfold is_digit in Hd; bool_prop; lia).
  cbn [eat]. rewrite (proj2 (Z.eqb_neq c 43)), (proj2 (Z.eqb_neq c 45)) by lia.
  assert (∀ (x := dec_to_num false n 0), is_integer x = true ∧ trunc_Z x = n) as Hx.
  { intros x. subst x. unfold dec_to_num. destruct (Z.eqb_spec n 0) as [->|H0]; [done|].
    rewrite (proj2 (Z.ltb_ge 310 0)) by lia.
    pose proof (Z.log2_nonneg n). rewrite (proj2 (Z.ltb_ge 0 _)) by lia.
    rewrite (proj2 (Z.leb_le 0 0)) by lia. rewrite Z.pow_0_r, Z.mul_1_r.
    destruct n as [|p|p]; [lia| |lia]. apply (small_integer false p). lia. }
  assert ((if decide (c :: s = js "Infinity") then S754_infinity false
           else match read_decimal false (c :: s) with Some (x, []) => x | _ => S754_nan end)
          = dec_to_num false n 0) as Hr.
  { rewrite decide_False by (intros [= -> _]; lia).
    unfold read_decimal. rewrite span_digits_all by done. cbn [eat is_empty andb]. rewrite app_nil_r, Hv.
    cbn [read_exponent length]. done. }
  destruct (Z.eqb_spec c 48) as [->|_]; [|rewrite Hr; apply Hx].
  destruct s as [|d s]; [rewrite Hr; apply Hx|].
  assert (48 <= d <= 57) by (cbn [forallb] in Hd; unfold is_digit in Hd; bool_prop; lia).
  rewrite (proj2 (Z.eqb_neq d 120)), (proj2 (Z.eqb_neq d 88)), (proj2 (Z.eqb_neq d 111)),
    (proj2 (Z.eqb_neq d 79)), (proj2 (Z.eqb_neq d 98)), (proj2 (Z.eqb_neq d 66)) by lia.
  cbn [orb]. rewrite Hr. apply Hx.
Qed.
