(* ===== verification/JsValue.v ===== *)
(** * JavaScript values

    Dynamically typed values, as produced by [JSON.parse] and held in
    [unknown] variables: the data types, [Object.prototype] members reached
    through a property read ([JFun]), truthiness, [typeof], [===], [String(x)]
    and the own properties of an object in their enumeration order. *)

From stdpp Require Import base list strings gmap sorting.
From Stdlib Require Import ZArith Lia SpecFloat.
From S2P Require Import Prelude JsString JsNumber.
#[local] Open Scope Z_scope.

Inductive jsval : Type :=
| JUndef
| JNull
| JBool (b : bool)
| JNum (x : num)
| JStr (s : jsstr)
| JArr (l : list jsval)
| JObj (o : list (jsstr * jsval))
| JFun (name : jsstr).

(** Induction over the nested lists. *)
Section jsval_ind.
Variable P : jsval → Prop.
Hypothesis HUndef : P JUndef.
Hypothesis HNull : P JNull.
Hypothesis HBool : ∀ b, P (JBool b).
Hypothesis HNum : ∀ x, P (JNum x).
Hypothesis HStr : ∀ s, P (JStr s).
Hypothesis HArr : ∀ l, Forall P l → P (JArr l).
Hypothesis HObj : ∀ o, Forall (λ kv, P kv.2) o → P (JObj o).
Hypothesis HFun : ∀ n, P (JFun n).

Fixpoint jsval_nested_ind (v : jsval) : P v :=
  match v with
  | JUndef => HUndef
  | JNull => HNull
  | JBool b => HBool b
  | JNum x => HNum x
  | JStr s => HStr s
  | JArr l =>
      HArr l ((fix go l := match l return Forall P l with
                           | [] => Forall_nil_2 _
                           | x :: l' => Forall_cons_2 _ x l' (jsval_nested_ind x) (go l')
                           end) l)
  | JObj o =>
      HObj o ((fix go o := match o return Forall (λ kv, P kv.2) o with
                           | [] => Forall_nil_2 _
                           | kv :: o' =>
                               Forall_cons_2 _ kv o' (jsval_nested_ind kv.2) (go o')
                           end) o)
  | JFun n => HFun n
  end.
End jsval_ind.

(** ** Truthiness, types and strict equality *)

Definition truthy (v : jsval) : bool :=
  match v with
  | JUndef | JNull => false
  | JBool b => b
  | JNum x => num_truthy x
  | JStr s => negb (is_empty s)
  | JArr _ | JObj _ | JFun _ => true
  end.

(** [v == null] *)
Definition nullish (v : jsval) : bool :=
  match v with JUndef | JNull => true | _ => false end.

(** [a || b] and [a ?? b] *)
Definition js_or (a b : jsval) : jsval := if truthy a then a else b.
Definition js_coalesce (a b : jsval) : jsval := if nullish a then b else a.

Definition is_string (v : jsval) : bool := match v with JStr _ => true | _ => false end.
Definition is_array (v : jsval) : bool := match v with JArr _ => true | _ => false end.

(** [typeof v === 'object'] *)
Definition is_object_type (v : jsval) : bool :=
  match v with JNull | JArr _ | JObj _ => true | _ => false end.

(** [!v || typeof v !== 'object' || Array.isArray(v)] *)
Definition not_plain_object (v : jsval) : bool :=
  negb (truthy v) || negb (is_object_type v) || is_array v.

Lemma not_plain_object_false v : not_plain_object v = false ↔ ∃ o, v = JObj o.
Proof.
  split; [|by intros [o ->]].
  destruct v as [| |[]|x|s|l|o|n]; unfold not_plain_object; simpl; try done;
    rewrite ?orb_true_r; try done. eauto.
Qed.

(** [v === true], [v === false], [v === 's'], [v === undefined] *)
Definition is_true (v : jsval) : bool := match v with JBool true => true | _ => false end.
Definition is_false (v : jsval) : bool := match v with JBool false => true | _ => false end.
Definition is_str (s : jsstr) (v : jsval) : bool :=
  match v with JStr s' => bool_decide (s' = s) | _ => false end.
Definition is_undef (v : jsval) : bool := match v with JUndef => true | _ => false end.

(** [a === b] where neither is an object (objects compare by identity, which
    the sources do not use). *)
Definition strict_eq (a b : jsval) : bool :=
  match a, b with
  | JUndef, JUndef | JNull, JNull => true
  | JBool x, JBool y => Bool.eqb x y
  | JNum x, JNum y => num_eqb x y
  | JStr s, JStr t | JFun s, JFun t => bool_decide (s = t)
  | _, _ => false
  end.

(** ** Own properties

    The list holds the own properties in enumeration order: array-index keys
    ascending, then the other keys in the order they were created. *)

Definition array_index (k : jsstr) : option Z :=
  if all_digits k && negb ((1 <? Z.of_nat (length k)) && starts_with [48] k)
  then let n := dec_value k in if n <? 4294967295 then Some n else None
  else None.

Fixpoint obj_insert_index (n : Z) (k : jsstr) (v : jsval) (o : list (jsstr * jsval))
    : list (jsstr * jsval) :=
  match o with
  | [] => [(k, v)]
  | (k', v') :: o' =>
      match array_index k' with
      | Some n' => if n <? n' then (k, v) :: o else (k', v') :: obj_insert_index n k v o'
      | None => (k, v) :: o
      end
  end.

(** [o[k] = v] as an own data property *)
Definition obj_put (k : jsstr) (v : jsval) (o : list (jsstr * jsval)) : list (jsstr * jsval) :=
  if decide (k ∈ o.*1) then assoc_set k v o
  else match array_index k with
       | Some n => obj_insert_index n k v o
       | None => o ++ [(k, v)]
       end.

(** The members every plain object inherits. *)
Definition object_prototype_keys : list jsstr :=
  map js ["constructor"; "__proto__"; "hasOwnProperty"; "isPrototypeOf";
          "propertyIsEnumerable"; "toLocaleString"; "toString"; "valueOf";
          "__defineGetter__"; "__defineSetter__"; "__lookupGetter__";
          "__lookupSetter__"]%string.

Definition obj_get (k : jsstr) (o : list (jsstr * jsval)) : jsval :=
  match assoc_get k o with
  | Some v => v
  | None => if decide (k ∈ object_prototype_keys) then JFun k else JUndef
  end.

(** [v.k] ([v[k]]): throws on [undefined] and [null]. The members that strings,
    arrays and other primitives inherit are not read by the sources. *)
Definition get_prop (k : jsstr) (v : jsval) : res jsval :=
  match v with
  | JUndef | JNull => Throw
  | JObj o => Ok (obj_get k o)
  | JArr l =>
      Ok match array_index k with
         | Some n => default JUndef (l !! Z.to_nat n)
         | None => if decide (k = js "length") then JNum (num_of_Z (Z.of_nat (length l)))
                   else if decide (k ∈ object_prototype_keys) then JFun k else JUndef
         end
  | JStr s =>
      Ok match array_index k with
         | Some n => match s !! Z.to_nat n with Some c => JStr [c] | None => JUndef end
         | None => if decide (k = js "length") then JNum (num_of_Z (Z.of_nat (length s)))
                   else if decide (k ∈ object_prototype_keys) then JFun k else JUndef
         end
  | _ => Ok (if decide (k ∈ object_prototype_keys) then JFun k else JUndef)
  end.

(** [v?.k] *)
Definition get_prop_opt (k : jsstr) (v : jsval) : jsval :=
  catch (get_prop k v) JUndef.

(** [Object.entries(v)]; throws on [undefined] and [null]. *)
Definition entries (v : jsval) : res (list (jsstr * jsval)) :=
  match v with
  | JUndef | JNull => Throw
  | JObj o => Ok o
  | JArr l => Ok (imap (λ i x, (Z_to_str (Z.of_nat i), x)) l)
  | JStr s => Ok (imap (λ i c, (Z_to_str (Z.of_nat i), JStr [c])) s)
  | _ => Ok []
  end.

(** [{ ...o, ...v }]: the own properties of [v] laid over those of [o]; a
    nullish [v] has none. *)
Definition spread_over (o : list (jsstr * jsval)) (v : jsval) : list (jsstr * jsval) :=
  fold_left (λ acc kv, obj_put kv.1 kv.2 acc) (catch (entries v) []) o.
Definition spread (v : jsval) : list (jsstr * jsval) := spread_over [] v.

(** [o[k] = v] where [k] may be [__proto__]: the inherited setter ignores a
    primitive [v], and an object becomes the prototype, so no own property is
    added. *)
Definition assign_prop (k : jsstr) (v : jsval) (o : list (jsstr * jsval))
    : list (jsstr * jsval) :=
  if decide (k = js "__proto__") then o else obj_put k v o.

(** ** [String(v)]

    An object whose own [toString] property holds data cannot be converted:
    the conversion throws a [TypeError]. *)
Fixpoint to_str (v : jsval) : res jsstr :=
  match v with
  | JUndef => Ok (js "undefined")
  | JNull => Ok (js "null")
  | JBool b => Ok (if b then js "true" else js "false")
  | JNum x => Ok (num_to_str x)
  | JStr s => Ok s
  | JArr l =>
      let item x := match x with JUndef | JNull => Ok [] | _ => to_str x end in
      res_map (join (js ",")) (res_mapM item l)
  | JObj o =>
      if decide (js "toString" ∈ o.*1) then Throw else Ok (js "[object Object]")
  | JFun n => Ok (js "function " ++ n ++ js "() { [native code] }")
  end.

(** [Number(v)] of a primitive; objects go through their string form. *)
Definition to_num (v : jsval) : res num :=
  match v with
  | JUndef => Ok S754_nan
  | JNull => Ok num_zero
  | JBool b => Ok (num_of_Z (if b then 1 else 0))
  | JNum x => Ok x
  | JStr s => Ok (str_to_num s)
  | JArr _ | JObj _ | JFun _ => res_map str_to_num (to_str v)
  end.

(** [v.trim()] and [v?.trim()]: only strings have the method, so any other
    value that is not nullish throws. *)
Definition js_trim (v : jsval) : res jsstr :=
  match v with JStr s => Ok (trim s) | _ => Throw end.
Definition js_trim_opt (v : jsval) : res jsval :=
  if nullish v then Ok JUndef else res_map JStr (js_trim v).

(** [v?.trim() || ''] *)
Definition js_trim_or_empty (v : jsval) : res jsstr :=
  if nullish v then Ok [] else js_trim v.

(** ** Well-formed objects

    The enumeration order of a property list: the array indices come first,
    ascending, and no key is listed twice. [obj_put] maintains it. *)

Definition key_before (k k' : jsstr) : Prop :=
  k ≠ k' ∧
  match array_index k, array_index k' with
  | Some n, Some n' => n < n'
  | None, Some _ => False
  | _, None => True
  end.

Definition wf_keys (o : list (jsstr * jsval)) : Prop :=
  StronglySorted key_before (o.*1).

Lemma wf_keys_NoDup o : wf_keys o → NoDup (o.*1).
Proof.
  unfold wf_keys. induction 1 as [|k ks _ IH Hall]; constructor; [|done].
  intros Hk. rewrite Forall_forall in Hall. by destruct (Hall k Hk).
Qed.

Lemma obj_put_assoc k k' v o :
  assoc_get k (obj_put k' v o) = if decide (k = k') then Some v else assoc_get k o.
Proof.
  unfold obj_put. destruct (decide (k' ∈ o.*1)) as [Hin|Hnin]; [apply assoc_get_set|].
  destruct (array_index k') as [n|].
  - induction o as [|[k1 v1] o IH]; simpl; [done|]. apply not_elem_of_cons in Hnin as [? ?].
    repeat case_match; simpl; repeat case_decide; simplify_eq; try done;
      by rewrite IH, ?decide_True, ?decide_False.
  - induction o as [|[k1 v1] o IH]; simpl; [done|]. apply not_elem_of_cons in Hnin as [? ?].
    repeat case_decide; simplify_eq; try done; by rewrite IH, ?decide_True, ?decide_False.
Qed.

Lemma obj_put_get k k' v o :
  obj_get k (obj_put k' v o) = if decide (k = k') then v else obj_get k o.
Proof. unfold obj_get. rewrite obj_put_assoc. by case_decide. Qed.

Lemma obj_put_NoDup k v o : NoDup (o.*1) → NoDup ((obj_put k v o).*1).
Proof.
  unfold obj_put. destruct (decide (k ∈ o.*1)) as [|Hnin]; [apply NoDup_keys_set|]. intros Hnd.
  assert (NoDup (k :: o.*1)) as Hk by (by constructor).
  destruct (array_index k) as [n|].
  - assert ((obj_insert_index n k v o).*1 ≡ₚ k :: o.*1) as ->; [|done].
    clear Hnin Hnd Hk. induction o as [|[k1 v1] o IH]; simpl; [done|].
    repeat case_match; simpl; rewrite ?IH; done || apply Permutation_swap.
  - rewrite fmap_app. simpl. by rewrite <- Permutation_cons_append.
Qed.

Lemma obj_put_snoc k v o :
  wf_keys (o ++ [(k, v)]) → obj_put k v o = o ++ [(k, v)].
Proof.
  unfold wf_keys, obj_put. intros Hwf.
  assert (k ∉ o.*1) as Hk.
  { apply wf_keys_NoDup in Hwf. rewrite fmap_app, NoDup_app in Hwf. set_solver. }
  rewrite decide_False by done.
  destruct (array_index k) as [n|] eqn:En; [|done].
  induction o as [|[k1 v1] o IH]; simpl in *; [done|].
  inversion Hwf as [|?? Hs Hall]; subst.
  assert (key_before k1 k) as [_ Hb].
  { rewrite Forall_forall in Hall. apply Hall. rewrite fmap_app. set_solver. }
  rewrite En in Hb. destruct (array_index k1) as [n1|]; [|done].
  destruct (Z.ltb_spec n n1); [lia|]. rewrite IH; [done|done|set_solver].
Qed.

(** A key that is no array index keeps its place or goes to the end. *)
Lemma obj_put_set k v o : array_index k = None → obj_put k v o = assoc_set k v o.
Proof.
  intros Hk. unfold obj_put. rewrite Hk. case_decide as Hin; [done|]. revert Hin.
  induction o as [|[k1 v1] o IH]; simpl; [done|]. intros [Hne Hnin]%not_elem_of_cons.
  rewrite decide_False by done. by rewrite IH.
Qed.

(** ** Reading a merged object *)

Lemma fold_put_get k es o :
  obj_get k (fold_left (λ acc kv, obj_put kv.1 kv.2 acc) es o) = obj_get k o ∧ k ∉ es.*1 ∨
  ∃ v, (k, v) ∈ es ∧ obj_get k (fold_left (λ acc kv, obj_put kv.1 kv.2 acc) es o) = v.
Proof.
  revert o. induction es as [|[k1 v1] es IH]; intros o; simpl.
  { left. split; [done|]. apply not_elem_of_nil. }
  destruct (IH (obj_put k1 v1 o)) as [[-> Hk]|(v & Hin & Hv)].
  - rewrite obj_put_get. destruct (decide (k = k1)) as [->|Hne].
    + right. exists v1. split; [left|done].
    + left. split; [done|]. by apply not_elem_of_cons.
  - right. exists v. split; [by right|done].
Qed.

(** A property of [{ ...o, ...es }]: the one of [es] if it has it. *)
Lemma fold_put_assoc k es o :
  NoDup (es.*1) →
  obj_get k (fold_left (λ acc kv, obj_put kv.1 kv.2 acc) es o)
  = match assoc_get k es with Some v => v | None => obj_get k o end.
Proof.
  intros Hnd. destruct (fold_put_get k es o) as [[-> Hk%assoc_get_None]|(v & Hin & ->)].
  - by rewrite Hk.
  - by rewrite (assoc_get_elem k v es).
Qed.

Lemma spread_assoc k es :
  NoDup (es.*1) → obj_get k (spread (JObj es)) = obj_get k es.
Proof. intros H. unfold spread, spread_over. simpl. by rewrite fold_put_assoc. Qed.
