(* ===== verification/JsJson.v ===== *)
(** * JSON.parse and JSON.stringify

    The parser is the RFC 8259 grammar that ECMAScript requires, run with
    fuel; [parse_value_fuel] shows that the fuel [JSON.parse] passes is
    always enough, so a [Throw] is a syntax error and nothing else.  The
    printer follows [SerializeJSONProperty], with and without indentation,
    including the escaping of control characters and lone surrogates.
    [json_roundtrip] is the law the components use: parsing undoes printing. *)

From stdpp Require Import base list strings gmap sorting.
From Stdlib Require Import ZArith Lia SpecFloat.
From S2P Require Import Prelude JsString JsNumber JsValue.
#[local] Open Scope Z_scope.

(** ** Parsing *)

Definition is_json_ws (c : Z) : bool := (c =? 9) || (c =? 10) || (c =? 13) || (c =? 32).

Fixpoint skip_ws (s : jsstr) : jsstr :=
  match s with
  | [] => []
  | c :: s' => if is_json_ws c then skip_ws s' else s
  end.

Definition hex4_value (a b c d : Z) : option Z :=
  match hex_digit a, hex_digit b, hex_digit c, hex_digit d with
  | Some x, Some y, Some z, Some w => Some (x * 4096 + y * 256 + z * 16 + w)
  | _, _, _, _ => None
  end.

Definition simple_escape (c : Z) : option Z :=
  if (c =? 34) || (c =? 92) || (c =? 47) then Some c
  else if c =? 98 then Some 8
  else if c =? 102 then Some 12
  else if c =? 110 then Some 10
  else if c =? 114 then Some 13
  else if c =? 116 then Some 9
  else None.

(** The characters of a string literal after its opening quote. *)
Fixpoint parse_string (s : jsstr) : option (jsstr * jsstr) :=
  match s with
  | [] => None
  | c :: r =>
      if c =? 34 then Some ([], r)
      else if c =? 92 then
        match r with
        | [] => None
        | e :: r' =>
            if e =? 117 then
              match r' with
              | a :: b :: c' :: d :: r' =>
                  match hex4_value a b c' d, parse_string r' with
                  | Some u, Some (w, r'') => Some (u :: w, r'')
                  | _, _ => None
                  end
              | _ => None
              end
            else
              match simple_escape e, parse_string r' with
              | Some u, Some (w, r'') => Some (u :: w, r'')
              | _, _ => None
              end
        end
      else if c <? 32 then None
      else match parse_string r with
           | Some (w, r'') => Some (c :: w, r'')
           | None => None
           end
  end.

Definition parse_number (s : jsstr) : option (num * jsstr) :=
  let '(neg, s1) := match eat 45 s with Some r => (true, r) | None => (false, s) end in
  let '(ip, s2) := span_digits s1 in
  if is_empty ip || (starts_with [48] ip && negb (is_empty (drop 1 ip))) then None
  else
    let frac :=
      match eat 46 s2 with
      | Some r =>
          let '(fp, s3) := span_digits r in
          if is_empty fp then None else Some (fp, s3)
      | None => Some ([], s2)
      end in
    match frac with
    | None => None
    | Some (fp, s3) =>
        let m := dec_value (ip ++ fp) in
        let sc := - Z.of_nat (length fp) in
        match s3 with
        | c :: _ =>
            if (c =? 101) || (c =? 69) then
              match read_exponent s3 with
              | Some (e, r) => Some (dec_to_num neg m (sc + e), r)
              | None => None
              end
            else Some (dec_to_num neg m sc, s3)
        | [] => Some (dec_to_num neg m sc, [])
        end
    end.

Fixpoint parse_value (f : nat) (s : jsstr) : option (jsval * jsstr) :=
  match f with
  | O => None
  | S f =>
      match skip_ws s with
      | [] => None
      | c :: r =>
          if c =? 34 then
            match parse_string r with Some (w, r') => Some (JStr w, r') | None => None end
          else if c =? 91 then
            match eat 93 (skip_ws r) with
            | Some r' => Some (JArr [], r')
            | None => parse_elems f r []
            end
          else if c =? 123 then
            match eat 125 (skip_ws r) with
            | Some r' => Some (JObj [], r')
            | None => parse_members f r []
            end
          else if starts_with (js "true") (c :: r) then Some (JBool true, drop 3 r)
          else if starts_with (js "false") (c :: r) then Some (JBool false, drop 4 r)
          else if starts_with (js "null") (c :: r) then Some (JNull, drop 3 r)
          else match parse_number (c :: r) with
               | Some (x, r') => Some (JNum x, r')
               | None => None
               end
      end
  end
with parse_elems (f : nat) (s : jsstr) (acc : list jsval) : option (jsval * jsstr) :=
  match f with
  | O => None
  | S f =>
      match parse_value f s with
      | None => None
      | Some (v, r) =>
          match eat 44 (skip_ws r), eat 93 (skip_ws r) with
          | Some r', _ => parse_elems f r' (acc ++ [v])
          | None, Some r' => Some (JArr (acc ++ [v]), r')
          | None, None => None
          end
      end
  end
with parse_members (f : nat) (s : jsstr) (o : list (jsstr * jsval)) : option (jsval * jsstr) :=
  match f with
  | O => None
  | S f =>
      match eat 34 (skip_ws s) with
      | None => None
      | Some r =>
          match parse_string r with
          | None => None
          | Some (k, r1) =>
              match eat 58 (skip_ws r1) with
              | None => None
              | Some r2 =>
                  match parse_value f r2 with
                  | None => None
                  | Some (v, r3) =>
                      match eat 44 (skip_ws r3), eat 125 (skip_ws r3) with
                      | Some r', _ => parse_members f r' (obj_put k v o)
                      | None, Some r' => Some (JObj (obj_put k v o), r')
                      | None, None => None
                      end
                  end
              end
          end
      end
  end.

(** [JSON.parse(s)] *)
Definition JSON_parse (s : jsstr) : res jsval :=
  match parse_value (2 * length s + 2) s with
  | Some (v, r) => if is_empty (skip_ws r) then Ok v else Throw
  | None => Throw
  end.

(** ** Printing *)

Definition hex_char (d : Z) : Z := if d <? 10 then 48 + d else 87 + d.

Definition unicode_escape (c : Z) : jsstr :=
  [92; 117; hex_char (c / 4096); hex_char (c / 256 mod 16); hex_char (c / 16 mod 16);
   hex_char (c mod 16)].

Definition quote_char (c : Z) : jsstr :=
  if c =? 34 then [92; 34]
  else if c =? 92 then [92; 92]
  else if c =? 8 then [92; 98]
  else if c =? 12 then [92; 102]
  else if c =? 10 then [92; 110]
  else if c =? 13 then [92; 114]
  else if c =? 9 then [92; 116]
  else if c <? 32 then unicode_escape c
  else [c].

Definition is_lead (c : Z) : bool := (55296 <=? c) && (c <=? 56319).
Definition is_trail (c : Z) : bool := (56320 <=? c) && (c <=? 57343).

Fixpoint quote_body (s : jsstr) : jsstr :=
  match s with
  | [] => []
  | c :: s' =>
      if is_lead c then
        match s' with
        | d :: s'' =>
            if is_trail d then c :: d :: quote_body s''
            else unicode_escape c ++ quote_body s'
        | [] => unicode_escape c
        end
      else if is_trail c then unicode_escape c ++ quote_body s'
      else quote_char c ++ quote_body s'
  end.

Definition quote (s : jsstr) : jsstr := 34 :: quote_body s ++ [34].

(** A bracketed list of items, broken over lines when there is a gap. *)
Definition bracket (gap ind : jsstr) (op cl : Z) (items : list jsstr) : jsstr :=
  if is_empty gap then [op] ++ join [44] items ++ [cl]
  else
    let brk := 10 :: ind ++ gap in
    [op] ++ brk ++ join (44 :: brk) items ++ 10 :: ind ++ [cl].

Fixpoint stringify_at (gap ind : jsstr) (v : jsval) : option jsstr :=
  match v with
  | JUndef | JFun _ => None
  | JNull => Some (js "null")
  | JBool b => Some (if b then js "true" else js "false")
  | JNum x => Some (if is_finite x then num_to_str x else js "null")
  | JStr s => Some (quote s)
  | JArr l =>
      Some match l with
           | [] => [91; 93]
           | _ => bracket gap ind 91 93
                    (map (λ x, default (js "null") (stringify_at gap (ind ++ gap) x)) l)
           end
  | JObj o =>
      let member k x :=
        match stringify_at gap (ind ++ gap) x with
        | Some t => [quote k ++ 58 :: (if is_empty gap then [] else [32]) ++ t]
        | None => []
        end in
      let items :=
        (fix go (o : list (jsstr * jsval)) : list jsstr :=
           match o with
           | [] => []
           | (k, x) :: o' => member k x ++ go o'
           end) o in
      Some (if items is [] then [123; 125] else bracket gap ind 123 125 items)
  end.

(** [JSON.stringify(v)] and [JSON.stringify(v, null, 2)] *)
Definition JSON_stringify (v : jsval) : option jsstr := stringify_at [] [] v.
Definition JSON_stringify_pretty (v : jsval) : option jsstr := stringify_at [32; 32] [] v.

(** ** Progress: every successful parse consumes input *)

Lemma skip_ws_length s : (length (skip_ws s) ≤ length s)%nat.
Proof. induction s as [|c s IH]; simpl; [done|]. case_match; simpl; lia. Qed.

Lemma eat_Some c s r : eat c s = Some r ↔ s = c :: r.
Proof.
  destruct s as [|a s]; simpl; [naive_solver|]. destruct (Z.eqb_spec a c); naive_solver.
Qed.

Lemma eat_skip_length c s r : eat c (skip_ws s) = Some r → (length r < length s)%nat.
Proof.
  intros H%eat_Some. pose proof (skip_ws_length s) as Hl. rewrite H in Hl. simpl in Hl. lia.
Qed.

Lemma span_digits_split s d r : span_digits s = (d, r) → s = d ++ r.
Proof.
  revert d r. induction s as [|c s IH]; intros d r; simpl; [naive_solver|].
  destruct (is_digit c); [|naive_solver].
  destruct (span_digits s) as [d' r'] eqn:E. intros ?; simplify_eq/=. f_equal. by apply IH.
Qed.

Lemma is_empty_false s : is_empty s = false → s ≠ [].
Proof. by destruct s. Qed.

Lemma read_exponent_length s e r : read_exponent s = Some (e, r) → (length r < length s)%nat.
Proof.
  unfold read_exponent. destruct s as [|c s1]; [done|]. case_match; [|done].
  destruct (match eat 43 s1, eat 45 s1 with
            | Some r, _ => (false, r) | _, Some r => (true, r) | _, _ => (false, s1) end)
    as [neg s2] eqn:E2.
  assert (length s2 ≤ length s1)%nat.
  { repeat case_match; simplify_eq; try lia;
      match goal with H : eat _ _ = Some _ |- _ => apply eat_Some in H end;
      subst; simpl; lia. }
  destruct (span_digits s2) as [d r2] eqn:E3. apply span_digits_split in E3.
  destruct (is_empty d); [done|]. intros; simplify_eq. simpl. rewrite length_app in *. lia.
Qed.

(** Induction on the length of a string. *)
Lemma str_length_ind (P : jsstr → Prop) :
  (∀ s, (∀ s', (length s' < length s)%nat → P s') → P s) → ∀ s, P s.
Proof.
  intros H s. remember (length s) as n eqn:En. revert s En.
  induction n as [n IH] using lt_wf_ind. intros s ->. apply H. intros s' Hs. by eapply IH.
Qed.

Lemma parse_string_length s w r : parse_string s = Some (w, r) → (length r < length s)%nat.
Proof.
  revert w r. induction s as [s IH] using str_length_ind. intros w r.
  destruct s as [|c s]; [done|]. simpl. intros H.
  repeat (case_match; simplify_eq/=; try done; try lia);
    match goal with E : parse_string _ = Some _ |- _ => apply IH in E; simpl in *; lia end.
Qed.

Lemma parse_number_length s x r : parse_number s = Some (x, r) → (length r < length s)%nat.
Proof.
  unfold parse_number.
  destruct (match eat 45 s with Some r => _ | None => _ end) as [neg s1] eqn:E1.
  assert (length s1 ≤ length s)%nat.
  { case_match eqn:E; simplify_eq; [|done]. apply eat_Some in E. subst; simpl; lia. }
  destruct (span_digits s1) as [ip s2] eqn:E2. apply span_digits_split in E2. subst s1.
  rewrite length_app in *.
  destruct (is_empty ip) eqn:Eip; [done|]. apply is_empty_false in Eip.
  assert (0 < length ip)%nat by (destruct ip; simpl; [done|lia]). cbn [orb].
  destruct (starts_with [48] ip && _); [done|].
  destruct (match eat 46 s2 with Some _ => _ | None => _ end) as [[fp s3]|] eqn:E3; [|done].
  assert (length s3 ≤ length s2)%nat.
  { destruct (eat 46 s2) as [r2|] eqn:E4; simplify_eq; [|done].
    apply eat_Some in E4. destruct (span_digits r2) as [d r3] eqn:E5.
    apply span_digits_split in E5. case_match; simplify_eq. simpl. rewrite length_app. lia. }
  clear E1 E3. destruct s3 as [|c s3]; [intros [= _ <-]; simpl; lia|].
  case_match; [|intros [= _ <-]; simpl in *; lia].
  destruct (read_exponent _) as [[e r']|] eqn:E6; [|done]. apply read_exponent_length in E6.
  intros [= _ <-]. lia.
Qed.

(** The three parsers at one fuel, so that their properties go by one induction. *)
Lemma parse_length f :
  (∀ s v r, parse_value f s = Some (v, r) → (length r < length s)%nat) ∧
  (∀ s acc v r, parse_elems f s acc = Some (v, r) → (length r < length s)%nat) ∧
  (∀ s o v r, parse_members f s o = Some (v, r) → (length r < length s)%nat).
Proof.
  induction f as [|f (IHv & IHe & IHm)]; [done|]. split_and!.
  - intros s v r. simpl. pose proof (skip_ws_length s) as Hs.
    destruct (skip_ws s) as [|c s1]; [done|]. simpl in Hs. intros H.
    repeat (case_match; simplify_eq/=; try done);
      repeat match goal with
      | E : parse_string _ = Some _ |- _ => apply parse_string_length in E
      | E : parse_number _ = Some _ |- _ => apply parse_number_length in E
      | E : eat _ (skip_ws _) = Some _ |- _ => apply eat_skip_length in E
      | E : parse_elems _ _ _ = Some _ |- _ => apply IHe in E
      | E : parse_members _ _ _ = Some _ |- _ => apply IHm in E
      | E : starts_with _ _ = true |- _ => clear E
      end; simpl in *; rewrite ?length_drop; lia.
  - intros s acc v r. simpl. destruct (parse_value f s) as [[v1 r1]|] eqn:E; [|done].
    apply IHv in E. intros H. repeat (case_match; simplify_eq/=; try done);
      repeat match goal with
      | E : eat _ (skip_ws _) = Some _ |- _ => apply eat_skip_length in E
      | E : parse_elems _ _ _ = Some _ |- _ => apply IHe in E
      end; lia.
  - intros s o v r. simpl. intros H. repeat (case_match; simplify_eq/=; try done);
      repeat match goal with
      | E : parse_string _ = Some _ |- _ => apply parse_string_length in E
      | E : eat _ (skip_ws _) = Some _ |- _ => apply eat_skip_length in E
      | E : parse_value _ _ = Some _ |- _ => apply IHv in E
      | E : parse_members _ _ _ = Some _ |- _ => apply IHm in E
      end; lia.
Qed.

(** Past a bound linear in the input, the result does not depend on the fuel. *)
Lemma parse_fuel f : ∀ f',
  (∀ s, (2 * length s + 1 ≤ f)%nat → (2 * length s + 1 ≤ f')%nat →
     parse_value f s = parse_value f' s) ∧
  (∀ s acc, (2 * length s + 2 ≤ f)%nat → (2 * length s + 2 ≤ f')%nat →
     parse_elems f s acc = parse_elems f' s acc) ∧
  (∀ s o, (2 * length s + 2 ≤ f)%nat → (2 * length s + 2 ≤ f')%nat →
     parse_members f s o = parse_members f' s o).
Proof.
  induction f as [|f IH]; intros f'; [split_and!; intros; lia|].
  destruct f' as [|f']; [split_and!; intros; lia|]. destruct (IH f') as (IHv & IHe & IHm).
  split_and!.
  - intros s H1 H2. simpl. pose proof (skip_ws_length s) as Hs.
    destruct (skip_ws s) as [|c s1]; [done|]. simpl in Hs.
    rewrite (IHe s1), (IHm s1) by lia. done.
  - intros s acc H1 H2. simpl. rewrite (IHv s) by lia.
    destruct (parse_value f' s) as [[v r]|] eqn:E; [|done].
    apply parse_length in E. destruct (eat 44 (skip_ws r)) as [r'|] eqn:E'; [|done].
    apply eat_skip_length in E'. apply IHe; lia.
  - intros s o H1 H2. simpl. destruct (eat 34 _) as [r|] eqn:E1; [|done].
    apply eat_skip_length in E1. destruct (parse_string r) as [[k r1]|] eqn:E2; [|done].
    apply parse_string_length in E2. destruct (eat 58 _) as [r2|] eqn:E3; [|done].
    apply eat_skip_length in E3. rewrite (IHv r2) by lia.
    destruct (parse_value f' r2) as [[v r3]|] eqn:E4; [|done]. apply parse_length in E4.
    destruct (eat 44 (skip_ws r3)) as [r'|] eqn:E5; [|done].
    apply eat_skip_length in E5. apply IHm; lia.
Qed.

Lemma parse_value_fuel f s :
  (2 * length s + 2 ≤ f)%nat → parse_value f s = parse_value (2 * length s + 2) s.
Proof. intros. apply parse_fuel; lia. Qed.

(** ** Round trip

    [json_ok v] characterises the values that survive printing: no
    [undefined] or function, code units in range, keys in enumeration order,
    and numbers whose printed form reads back as themselves (every finite
    double but [-0]). *)

Definition code_units (s : jsstr) : bool := forallb (λ c, (0 <=? c) && (c <? 65536)) s.

Definition key_beforeb (k k' : jsstr) : bool :=
  negb (bool_decide (k = k')) &&
  match array_index k, array_index k' with
  | Some n, Some n' => n <? n'
  | None, Some _ => false
  | _, None => true
  end.

Fixpoint wf_keysb (o : list jsstr) : bool :=
  match o with
  | [] => true
  | k :: o' => forallb (key_beforeb k) o' && wf_keysb o'
  end.

Definition num_prints (x : num) : bool :=
  is_finite x && bool_decide (parse_number (num_to_str x) = Some (x, [])).

Fixpoint json_ok (v : jsval) : bool :=
  match v with
  | JUndef | JFun _ => false
  | JNull | JBool _ => true
  | JNum x => num_prints x
  | JStr s => code_units s
  | JArr l => forallb json_ok l
  | JObj o => wf_keysb (o.*1) && forallb code_units (o.*1)
              && forallb (λ kv, json_ok kv.2) o
  end.

Lemma wf_keysb_spec o : wf_keysb (o.*1) = true → wf_keys o.
Proof.
  unfold wf_keys. induction (o.*1) as [|k ks IH]; simpl; [constructor|].
  intros [H1 H2]%andb_true_iff. constructor; [auto|].
  rewrite forallb_forall in H1. rewrite Forall_forall. intros k' Hk%list_elem_of_In.
  apply H1 in Hk. unfold key_beforeb, key_before in *.
  apply andb_true_iff in Hk as [Hk Hc]. apply negb_true_iff, bool_decide_eq_false in Hk.
  split; [done|]. repeat case_match; try done. lia.
Qed.

(** What may follow a value: nothing, white space, a comma or a bracket. *)
Definition value_end (r : jsstr) : Prop :=
  match r with
  | [] => True
  | c :: _ => (is_json_ws c || (c =? 44) || (c =? 93) || (c =? 125)) = true
  end.

Lemma skip_ws_app w r : forallb is_json_ws w = true → skip_ws (w ++ r) = skip_ws r.
Proof. induction w as [|c w IH]; simpl; [done|]. intros [-> ?]%andb_true_iff; auto. Qed.

Lemma skip_ws_cons c r : is_json_ws c = false → skip_ws (c :: r) = c :: r.
Proof. intros H. simpl. by rewrite H. Qed.

Lemma eat_skip_cons c r : is_json_ws c = false → eat c (skip_ws (c :: r)) = Some r.
Proof. intros H. rewrite skip_ws_cons by done. simpl. by rewrite Z.eqb_refl. Qed.

Lemma span_digits_app s r :
  value_end r → span_digits (s ++ r) = let '(d, r') := span_digits s in (d, r' ++ r).
Proof.
  intros Hr. induction s as [|c s IH]; simpl.
  - destruct r as [|c r]; [done|]. simpl in *. unfold is_digit, is_json_ws in *.
    destruct (_ && _) eqn:E; [lia|done].
  - destruct (is_digit c); [|done]. rewrite IH. by destruct (span_digits s).
Qed.

Lemma eat_app c s r : s ≠ [] → eat c (s ++ r) = (λ t, t ++ r) <$> eat c s.
Proof. destruct s; simpl; [done|]. by case_match. Qed.

Lemma eat_value_end c r :
  value_end r → is_json_ws c = false → c ≠ 44 → c ≠ 93 → c ≠ 125 → eat c r = None.
Proof.
  destruct r as [|a r]; simpl; [done|]. unfold is_json_ws. intros.
  destruct (Z.eqb_spec a c); [lia|done].
Qed.

Lemma read_exponent_app s e r' r :
  value_end r → read_exponent s = Some (e, r') → read_exponent (s ++ r) = Some (e, r' ++ r).
Proof.
  intros Hr. unfold read_exponent. destruct s as [|c s1]; [done|]. simpl.
  case_match; [|done]. destruct s1 as [|c1 s1]; [simpl; done|].
  rewrite !(eat_app _ (c1 :: s1)) by done.
  change (c1 :: s1 ++ r) with ((c1 :: s1) ++ r). generalize (c1 :: s1). intros t.
  destruct (eat 43 t) as [t1|], (eat 45 t) as [t2|]; simpl;
    rewrite span_digits_app by done; destruct (span_digits _) as [d r2];
    destruct (is_empty d); naive_solver.
Qed.

Lemma parse_number_app s x r' r :
  value_end r → parse_number s = Some (x, r') → parse_number (s ++ r) = Some (x, r' ++ r).
Proof.
  intros Hr Hs. assert (s ≠ []) as Hne by (by intros ->). revert Hs.
  unfold parse_number. rewrite eat_app by done.
  assert (∀ (neg : bool) s1,
    (match eat 45 s with Some r => (true, r) | None => (false, s) end) = (neg, s1) →
    (match (λ t, t ++ r) <$> eat 45 s with Some r => (true, r) | None => (false, s ++ r) end)
    = (neg, s1 ++ r)) as H1.
  { intros neg s1. destruct (eat 45 s); naive_solver. }
  destruct (match eat 45 s with Some r => (true, r) | None => (false, s) end) as [neg s1].
  rewrite (H1 neg s1) by done. clear H1. rewrite span_digits_app by done.
  destruct (span_digits s1) as [ip s2]. case_match; [done|].
  assert (∀ fp s3,
    match eat 46 s2 with
    | Some r0 => let '(fp, s3) := span_digits r0 in if is_empty fp then None else Some (fp, s3)
    | None => Some ([], s2) end = Some (fp, s3) →
    match eat 46 (s2 ++ r) with
    | Some r0 => let '(fp, s3) := span_digits r0 in if is_empty fp then None else Some (fp, s3)
    | None => Some ([], s2 ++ r) end = Some (fp, s3 ++ r)) as H2.
  { intros fp s3. destruct s2 as [|c2 s2]; [simpl; rewrite eat_value_end by done; naive_solver|].
    rewrite eat_app by done. destruct (eat 46 _) as [t|]; simpl; [|naive_solver].
    rewrite span_digits_app by done. destruct (span_digits t) as [d t'].
    case_match; naive_solver. }
  destruct (match eat 46 s2 with Some _ => _ | None => _ end) as [[fp s3]|]; [|done].
  rewrite (H2 fp s3) by done. clear H2.
  destruct s3 as [|c s3]; cbn [app].
  - intros [= <- <-]. destruct r as [|c r]; [done|]. simpl in Hr. unfold is_json_ws in Hr.
    destruct ((c =? 101) || (c =? 69)) eqn:E; [lia|done].
  - destruct ((c =? 101) || (c =? 69)); [|naive_solver].
    destruct (read_exponent (c :: s3)) as [[e r2]|] eqn:E; [|done].
    apply (read_exponent_app _ _ _ r) in E; [|done]. cbn [app] in E. rewrite E. naive_solver.
Qed.

Lemma parse_number_head s x r :
  parse_number s = Some (x, r) → ∃ c t, s = c :: t ∧ (c = 45 ∨ 48 <= c <= 57).
Proof.
  unfold parse_number. destruct s as [|c s]; [done|]. intros H. exists c, s. split; [done|].
  simpl in H. destruct (Z.eqb_spec c 45); [by left|right]. simpl in H.
  destruct (is_digit c) eqn:E; [unfold is_digit in E; lia|done].
Qed.

(** ** Strings *)

Lemma hex_char_digit d : 0 <= d < 16 → hex_digit (hex_char d) = Some d.
Proof.
  intros H. unfold hex_char, hex_digit, is_digit. destruct (Z.ltb_spec d 10).
  - rewrite (proj2 (andb_true_iff _ _)) by lia. f_equal. lia.
  - replace ((48 <=? 87 + d) && (87 + d <=? 57)) with false by lia.
    replace ((97 <=? 87 + d) && (87 + d <=? 102)) with true by lia. f_equal. lia.
Qed.

Lemma hex4_roundtrip c :
  0 <= c < 65536 →
  hex4_value (hex_char (c / 4096)) (hex_char (c / 256 mod 16)) (hex_char (c / 16 mod 16))
    (hex_char (c mod 16)) = Some c.
Proof.
  intros Hc. unfold hex4_value.
  rewrite !hex_char_digit; try (apply Z.mod_pos_bound; lia);
    [|split; [apply Z.div_pos; lia|apply Z.div_lt_upper_bound; lia]].
  f_equal.
  pose proof (Z.div_mod c 16 ltac:(lia)) as E1.
  pose proof (Z.div_mod (c / 16) 16 ltac:(lia)) as E2.
  pose proof (Z.div_mod (c / 16 / 16) 16 ltac:(lia)) as E3.
  rewrite !Z.div_div in * by lia. change (16 * 16) with 256 in *.
  change (256 * 16) with 4096 in *. lia.
Qed.

Lemma parse_string_unicode c t w r :
  0 <= c < 65536 → parse_string t = Some (w, r) →
  parse_string (unicode_escape c ++ t) = Some (c :: w, r).
Proof. intros Hc Ht. unfold unicode_escape. simpl. by rewrite hex4_roundtrip, Ht. Qed.

Lemma parse_string_plain c t w r :
  32 <= c → c ≠ 34 → c ≠ 92 → parse_string t = Some (w, r) →
  parse_string (c :: t) = Some (c :: w, r).
Proof.
  intros H1 H2 H3 Ht. simpl. destruct (Z.eqb_spec c 34); [done|].
  destruct (Z.eqb_spec c 92); [done|]. destruct (Z.ltb_spec c 32); [lia|]. by rewrite Ht.
Qed.

Lemma parse_string_char c t w r :
  0 <= c < 65536 → parse_string t = Some (w, r) →
  parse_string (quote_char c ++ t) = Some (c :: w, r).
Proof.
  intros Hc Ht. unfold quote_char.
  repeat match goal with
  | |- context [if c =? ?n then _ else _] =>
      destruct (Z.eqb_spec c n); [subst; simpl; by rewrite Ht|]
  end.
  destruct (Z.ltb_spec c 32); [by apply parse_string_unicode|]. apply parse_string_plain; [lia|done..].
Qed.

Lemma parse_quote_body s rest :
  code_units s = true → parse_string (quote_body s ++ 34 :: rest) = Some (s, rest).
Proof.
  induction s as [s IH] using str_length_ind.
  destruct s as [|c s]; [done|]. intros [Hc Hs]%andb_true_iff.
  assert (0 <= c < 65536) by lia. cbn [quote_body length] in *.
  assert (parse_string (quote_body s ++ 34 :: rest) = Some (s, rest)) as H0
    by (apply IH; [lia|done]).
  destruct (is_lead c) eqn:El.
  - destruct s as [|d s].
    + rewrite <- app_nil_r with (l := unicode_escape c) at 1. rewrite <- app_assoc.
      by apply parse_string_unicode.
    + destruct (is_trail d) eqn:Et.
      * simpl in Hs. apply andb_true_iff in Hs as [Hd Hs]. unfold is_lead, is_trail in *.
        cbn [app]. apply parse_string_plain; [lia..|]. apply parse_string_plain; [lia..|].
        apply IH; [simpl; lia|done].
      * rewrite <- app_assoc. by apply parse_string_unicode.
  - destruct (is_trail c); rewrite <- app_assoc;
      [by apply parse_string_unicode|by apply parse_string_char].
Qed.

(** ** Values *)

(** Arithmetic on the lengths of concatenations. *)
Ltac len_lia := repeat progress (rewrite ?length_app in *; cbn [length app] in *); lia.

Definition parses (s : jsstr) (v : jsval) (r : jsstr) : Prop :=
  ∀ f, (2 * length s + 1 ≤ f)%nat → parse_value f s = Some (v, r).

(** [t] is printed text for [v]: after white space and before anything that
    can follow a value, it parses as [v]. *)
Definition prints (t : jsstr) (v : jsval) : Prop :=
  (∃ c t', t = c :: t' ∧ is_json_ws c = false ∧ c ≠ 93 ∧ c ≠ 125) ∧
  ∀ w r, forallb is_json_ws w = true → value_end r → parses (w ++ t ++ r) v r.

Lemma value_end_ws w r :
  forallb is_json_ws w = true → value_end r → value_end (w ++ r).
Proof. destruct w as [|c w]; simpl; [done|]. by intros [-> _]%andb_true_iff. Qed.

Lemma join_shift brk t ts r :
  ts ≠ [] →
  brk ++ join (44 :: brk) (t :: ts) ++ r = brk ++ t ++ 44 :: brk ++ join (44 :: brk) ts ++ r.
Proof. destruct ts as [|t' ts]; [done|]. intros _. cbn [join]. rewrite <- !app_assoc. reflexivity. Qed.

Lemma parse_elems_print brk tail ts vs acc r f :
  forallb is_json_ws brk = true → forallb is_json_ws tail = true →
  Forall2 prints ts vs → ts ≠ [] →
  (2 * length (brk ++ join (44%Z :: brk) ts ++ tail ++ 93%Z :: r) + 2 ≤ f)%nat →
  parse_elems f (brk ++ join (44 :: brk) ts ++ tail ++ 93 :: r) acc
  = Some (JArr (acc ++ vs), r).
Proof.
  intros Hb Ht Hall. revert acc f.
  induction Hall as [|t v ts vs [_ Hp] Hall IH]; intros acc f Hne Hf; [done|].
  destruct f as [|f]; [lia|]. cbn [parse_elems].
  destruct ts as [|t' ts].
  - inversion Hall; subst. cbn [join] in *.
    rewrite Hp; [|done|by apply value_end_ws|lia].
    rewrite !skip_ws_app by done. simpl. by destruct acc.
  - rewrite (join_shift brk t (t' :: ts)) in * by done.
    rewrite Hp; [|done|done|lia]. rewrite eat_skip_cons by done.
    rewrite IH; [by rewrite <- app_assoc|done|].
    clear -Hf. len_lia.
Qed.

(** A printed member [key: value]; [sp] is the optional space after the colon. *)
Definition prints_member (sp t : jsstr) (kv : jsstr * jsval) : Prop :=
  code_units kv.1 = true ∧ ∃ u, t = quote kv.1 ++ 58 :: sp ++ u ∧ prints u kv.2.

Lemma parse_members_print sp brk tail ts o acc r f :
  forallb is_json_ws sp = true → forallb is_json_ws brk = true →
  forallb is_json_ws tail = true →
  Forall2 (prints_member sp) ts o → ts ≠ [] → wf_keys (acc ++ o) →
  (2 * length (brk ++ join (44%Z :: brk) ts ++ tail ++ 125%Z :: r) + 2 ≤ f)%nat →
  parse_members f (brk ++ join (44 :: brk) ts ++ tail ++ 125 :: r) acc
  = Some (JObj (acc ++ o), r).
Proof.
  intros Hsp Hb Ht Hall. revert acc f.
  induction Hall as [|t [k v] ts o [Hk (u & -> & [_ Hp])] Hall IH]; intros acc f Hne Hwf Hf;
    [done|].
  destruct f as [|f]; [lia|]. cbn [parse_members fst snd] in *.
  assert (wf_keys (acc ++ [(k, v)])) as Hwf1.
  { unfold wf_keys in *. rewrite fmap_app in *. simpl in *.
    clear -Hwf. induction (acc.*1) as [|k' ks IH]; simpl in *; [repeat constructor|].
    inversion Hwf as [|?? Hs Hall]; subst. constructor; [auto|].
    rewrite !Forall_app, !Forall_cons in *. naive_solver. }
  assert (∀ rest, value_end rest →
    (2 * length (brk ++ (quote k ++ 58%Z :: sp ++ u) ++ rest) + 2 ≤ S f)%nat →
    ∃ r1, eat 34 (skip_ws (brk ++ (quote k ++ 58 :: sp ++ u) ++ rest)) = Some r1 ∧
          parse_string r1 = Some (k, 58 :: sp ++ u ++ rest) ∧
          parse_value f (sp ++ u ++ rest) = Some (v, rest)) as Hmem.
  { intros rest Hrest Hlen. rewrite skip_ws_app by done. unfold quote.
    eexists. split_and!; [simpl; reflexivity| |].
    - rewrite <- !app_assoc. cbn [app]. rewrite <- !app_assoc. by apply parse_quote_body.
    - apply Hp; [done|done|]. unfold quote in Hlen. len_lia. }
  destruct ts as [|t' ts].
  - inversion Hall; subst. cbn [join] in *.
    destruct (Hmem (tail ++ 125 :: r)) as (r1 & -> & -> & Hv); [by apply value_end_ws|lia|].
    rewrite eat_skip_cons, Hv, !skip_ws_app by done. simpl. by rewrite obj_put_snoc.
  - rewrite (join_shift brk _ (t' :: ts)) in * by done.
    destruct (Hmem (44 :: brk ++ join (44 :: brk) (t' :: ts) ++ tail ++ 125 :: r))
      as (r1 & -> & -> & Hv); [done|lia|].
    rewrite eat_skip_cons, Hv, eat_skip_cons, obj_put_snoc by done.
    rewrite IH; [by rewrite <- app_assoc|done|by rewrite <- app_assoc|].
    clear -Hf. len_lia.
Qed.

Lemma parses_step s f v r : (∀ f, (2 * length s ≤ f)%nat → parse_value (S f) s = Some (v, r)) →
  (2 * length s + 1 ≤ f)%nat → parse_value f s = Some (v, r).
Proof. intros H Hf. destruct f as [|f]; [lia|]. apply H. lia. Qed.

Lemma bracket_shape gap ind op cl ts :
  forallb is_json_ws gap = true → forallb is_json_ws ind = true →
  ∃ brk tail, forallb is_json_ws brk = true ∧ forallb is_json_ws tail = true ∧
    bracket gap ind op cl ts = op :: brk ++ join (44 :: brk) ts ++ tail ++ [cl].
Proof.
  intros Hg Hi. unfold bracket. destruct (is_empty gap).
  - by exists [], [].
  - exists (10 :: ind ++ gap), (10 :: ind). simpl. rewrite forallb_app, Hg, Hi.
    split_and!; [done..|]. by rewrite <- app_assoc.
Qed.

Lemma eat_skip_join c brk ts r t0 :
  forallb is_json_ws brk = true →
  (∃ a t', t0 = a :: t' ∧ is_json_ws a = false ∧ a ≠ c) →
  eat c (skip_ws (brk ++ join (44 :: brk) (t0 :: ts) ++ r)) = None.
Proof.
  intros Hb (a & t' & -> & Hws & Hne). rewrite skip_ws_app by done.
  assert (∃ x, join (44 :: brk) ((a :: t') :: ts) ++ r = a :: x) as [x ->]
    by (destruct ts; simpl; eauto).
  rewrite skip_ws_cons by done. simpl. by destruct (Z.eqb_spec a c).
Qed.

Lemma prints_array gap ind ts vs :
  forallb is_json_ws gap = true → forallb is_json_ws ind = true →
  Forall2 prints ts vs → ts ≠ [] → prints (bracket gap ind 91 93 ts) (JArr vs).
Proof.
  intros Hg Hi Hall Hne.
  destruct (bracket_shape gap ind 91 93 ts Hg Hi) as (brk & tail & Hb & Ht & ->).
  split; [by eexists _, _|]. intros w r Hw Hr f Hf.
  destruct f as [|f]; [lia|]. cbn [parse_value]. rewrite skip_ws_app by done.
  change ((91 :: ?x) ++ r) with (91 :: x ++ r) in *. rewrite <- !app_assoc in *. cbn [app] in *.
  rewrite skip_ws_cons by done.
  change (91 =? 34) with false. change (91 =? 91) with true. cbv iota.
  destruct ts as [|t0 ts]; [done|].
  rewrite eat_skip_join; [|done|].
  - rewrite (parse_elems_print brk tail _ vs); [done..|]. len_lia.
  - inversion Hall as [|???? [(c & t' & -> & ? & ? & ?) _]]; subst. eauto 6.
Qed.

Lemma prints_object sp gap ind ts o :
  forallb is_json_ws sp = true → forallb is_json_ws gap = true → forallb is_json_ws ind = true →
  Forall2 (prints_member sp) ts o → ts ≠ [] → wf_keys o →
  prints (bracket gap ind 123 125 ts) (JObj o).
Proof.
  intros Hsp Hg Hi Hall Hne Hwf.
  destruct (bracket_shape gap ind 123 125 ts Hg Hi) as (brk & tail & Hb & Ht & ->).
  split; [by eexists _, _|]. intros w r Hw Hr f Hf.
  destruct f as [|f]; [lia|]. cbn [parse_value]. rewrite skip_ws_app by done.
  change ((123 :: ?x) ++ r) with (123 :: x ++ r) in *. rewrite <- !app_assoc in *.
  cbn [app] in *. rewrite skip_ws_cons by done.
  change (123 =? 34) with false. change (123 =? 91) with false.
  change (123 =? 123) with true. cbv iota.
  destruct ts as [|t0 ts]; [done|].
  rewrite eat_skip_join; [|done|].
  - rewrite (parse_members_print sp brk tail _ o); [done..|]. len_lia.
  - inversion Hall as [|???? (_ & u & -> & _)]; subst. unfold quote. eauto 6.
Qed.

(** A word or number token followed by the end of a value. *)
Lemma prints_token t v c t' :
  t = c :: t' → is_json_ws c = false → c ≠ 93 → c ≠ 125 →
  (∀ f r, value_end r → parse_value (S f) (t ++ r) = Some (v, r)) → prints t v.
Proof.
  intros -> Hws H1 H2 H. split; [eauto 8|]. intros w r Hw Hr f Hf.
  destruct f as [|f]; [lia|]. rewrite <- (H f r Hr). cbn [parse_value app].
  by rewrite skip_ws_app.
Qed.

Lemma prints_num x : num_prints x = true → prints (num_to_str x) (JNum x).
Proof.
  unfold num_prints. intros [_ Hx%bool_decide_eq_true]%andb_true_iff.
  pose proof (parse_number_head _ _ _ Hx) as (c & t & Ht & Hc).
  eapply (prints_token _ _ c t); [done|unfold is_json_ws; lia|lia..|].
  intros f r Hr. pose proof (parse_number_app _ _ _ r Hr Hx) as Hp. rewrite Ht in *.
  cbn [parse_value app] in *.
  rewrite skip_ws_cons by (unfold is_json_ws; lia).
  destruct (Z.eqb_spec c 34); [lia|]. destruct (Z.eqb_spec c 91); [lia|].
  destruct (Z.eqb_spec c 123); [lia|].
  assert (∀ a p, a ≠ c → starts_with (a :: p) (c :: t ++ r) = false) as Hsw.
  { intros a p Ha. simpl. by destruct (Z.eqb_spec a c). }
  change (js "true") with (116 :: js "rue"). change (js "false") with (102 :: js "alse").
  change (js "null") with (110 :: js "ull").
  rewrite !Hsw by lia. by rewrite Hp.
Qed.

Theorem stringify_prints gap v : ∀ ind,
  forallb is_json_ws gap = true → forallb is_json_ws ind = true → json_ok v = true →
  ∃ t, stringify_at gap ind v = Some t ∧ prints t v.
Proof.
  induction v as [| |b|x|s|l IH|o IH|n] using jsval_nested_ind; intros ind Hg Hi Hok; try done.
  - eexists. split; [done|]. by eapply prints_token.
  - eexists. split; [done|]. destruct b; by eapply prints_token.
  - eexists. simpl in *. split; [done|]. pose proof Hok as [-> _]%andb_true_iff.
    by apply prints_num.
  - eexists. split; [done|]. unfold quote. eapply prints_token; [done..|].
    intros f r Hr. cbn [parse_value app]. rewrite skip_ws_cons by done.
    change (34 =? 34) with true. cbv iota. rewrite <- app_assoc. cbn [app].
    by rewrite parse_quote_body.
  - assert (∃ ts, map (λ x, default (js "null") (stringify_at gap (ind ++ gap) x)) l = ts
                  ∧ Forall2 prints ts l) as (ts & Hts & Hall).
    { eexists. split; [done|]. simpl in Hok. induction IH as [|v l Hv _ IHl]; [constructor|].
      simpl in Hok. apply andb_true_iff in Hok as [Hok1 Hok2]. simpl. constructor; [|auto].
      destruct (Hv (ind ++ gap)) as (t & -> & Ht); [done|by rewrite forallb_app, Hi|done|done]. }
    destruct l as [|v l]; [eexists; split; [done|]; split; [eauto 8|]; intros w r Hw _ f Hf|].
    + destruct f as [|f]; [len_lia|]. cbn [parse_value]. by rewrite skip_ws_app.
    + cbn [stringify_at]. rewrite Hts. eexists. split; [done|].
      apply prints_array; [done..|]. by inversion Hall.
  - simpl in Hok. apply andb_true_iff in Hok as [[Hwf%wf_keysb_spec Hcu]%andb_true_iff Hok].
    set (sp := if is_empty gap then [] else [32]).
    assert (∃ ts, (fix go (o : list (jsstr * jsval)) : list jsstr :=
      match o with
      | [] => []
      | (k, x) :: o' =>
          (match stringify_at gap (ind ++ gap) x with
           | Some t => [quote k ++ 58 :: sp ++ t]
           | None => [] end) ++ go o'
      end) o = ts ∧ Forall2 (prints_member sp) ts o) as (ts & Hts & Hall).
    { eexists. split; [done|]. clear Hwf. induction IH as [|[k v] o Hv _ IHo]; [constructor|].
      simpl in *. apply andb_true_iff in Hok as [Hok1 Hok2], Hcu as [Hcu1 Hcu2].
      destruct (Hv (ind ++ gap)) as (t & -> & Ht); [done|by rewrite forallb_app, Hi|done|].
      simpl. constructor; [|auto]. split; [done|]. eauto. }
    eexists. split; [cbn [stringify_at]; fold sp; rewrite Hts; done|].
    destruct ts as [|t ts].
    + inversion Hall; subst. split; [eauto 8|]. intros w r Hw _ f Hf.
      destruct f as [|f]; [len_lia|]. cbn [parse_value]. by rewrite skip_ws_app.
    + apply (prints_object sp); [unfold sp; by destruct (is_empty gap)|done..].
Qed.

(** Parsing a printed value gives the value back, whatever the indentation. *)
Theorem stringify_parse gap v t :
  forallb is_json_ws gap = true → json_ok v = true →
  stringify_at gap [] v = Some t → JSON_parse t = Ok v.
Proof.
  intros Hg Hok Ht. destruct (stringify_prints gap v []) as (t' & Ht' & _ & Hp); [done..|].
  simplify_eq. specialize (Hp [] []). simpl in Hp. rewrite app_nil_r in Hp.
  unfold JSON_parse. rewrite (Hp eq_refl I); [done|]. lia.
Qed.

Lemma json_roundtrip v :
  json_ok v = true → ∃ t, JSON_stringify v = Some t ∧ JSON_parse t = Ok v.
Proof.
  intros Hok. destruct (stringify_prints [] v []) as (t & Ht & _); [done..|].
  exists t. split; [done|]. by apply (stringify_parse []).
Qed.

Lemma json_roundtrip_pretty v :
  json_ok v = true → ∃ t, JSON_stringify_pretty v = Some t ∧ JSON_parse t = Ok v.
Proof.
  intros Hok. destruct (stringify_prints [32; 32] v []) as (t & Ht & _); [done..|].
  exists t. split; [done|]. by apply (stringify_parse [32; 32]).
Qed.

Lemma stringify_object_head gap ind o t :
  stringify_at gap ind (JObj o) = Some t → ∃ t', t = 123 :: t'.
Proof.
  cbn [stringify_at]. intros [= <-]. unfold bracket. repeat case_match; eexists; reflexivity.
Qed.

(** ** The edges of a printed text *)

Definition number_char (c : Z) : Prop := 48 <= c <= 57 ∨ c ∈ [43; 45; 46; 69; 101].

Lemma number_char_not_ws c : number_char c → is_ws c = false.
Proof.
  intros [H|H]; [by apply is_digit_not_ws|].
  repeat (apply elem_of_cons in H as [->|H]; [reflexivity|]). by apply elem_of_nil in H.
Qed.

(** [s] is [r] after some characters of a number. *)
Definition number_prefix (s r : jsstr) : Prop := ∃ p, s = p ++ r ∧ Forall number_char p.

Lemma number_prefix_refl s : number_prefix s s.
Proof. by exists []. Qed.

Lemma number_prefix_trans s r t : number_prefix s r → number_prefix r t → number_prefix s t.
Proof.
  intros (p & -> & Hp) (q & -> & Hq). exists (p ++ q). split; [by rewrite app_assoc|by apply Forall_app].
Qed.

Lemma eat_prefix c s r : c ∈ [43; 45; 46; 69; 101] → eat c s = Some r → number_prefix s r.
Proof. intros Hc Hs. apply eat_Some in Hs as ->. exists [c]. split; [done|]. constructor; [by right|constructor]. Qed.

Lemma span_digits_prefix s d r : span_digits s = (d, r) → number_prefix s r.
Proof.
  intros Hs. exists d. split; [by apply span_digits_split|]. revert d r Hs.
  induction s as [|c s IH]; simpl; intros d r Hs; [by simplify_eq; constructor|].
  destruct (is_digit c) eqn:E; [|by simplify_eq; constructor].
  destruct (span_digits s) as [d' r']. simplify_eq. constructor; [|by eapply IH].
  left. unfold is_digit in E. lia.
Qed.

Lemma read_exponent_prefix s e r : read_exponent s = Some (e, r) → number_prefix s r.
Proof.
  destruct s as [|c s]; [done|]. cbn [read_exponent]. destruct (_ || _) eqn:Hc; [|done]. intros H.
  apply (number_prefix_trans _ s).
  { exists [c]. split; [done|]. constructor; [|constructor]. right.
    apply orb_true_iff in Hc as [Hc|Hc]; apply Z.eqb_eq in Hc as ->; set_solver. }
  destruct (eat 43 s) as [s1|] eqn:E1; [|destruct (eat 45 s) as [s1|] eqn:E2].
  - eapply number_prefix_trans; [by eapply eat_prefix; [|exact E1]; set_solver|].
    destruct (span_digits s1) as [d t] eqn:Hd. case_match; simplify_eq. by eapply span_digits_prefix.
  - eapply number_prefix_trans; [by eapply eat_prefix; [|exact E2]; set_solver|].
    destruct (span_digits s1) as [d t] eqn:Hd. case_match; simplify_eq. by eapply span_digits_prefix.
  - destruct (span_digits s) as [d t] eqn:Hd. case_match; simplify_eq. by eapply span_digits_prefix.
Qed.

Lemma parse_number_prefix s x r : parse_number s = Some (x, r) → number_prefix s r.
Proof.
  unfold parse_number. intros H.
  assert (∃ neg s1, (match eat 45 s with Some r => (true, r) | None => (false, s) end) = (neg, s1) ∧
    number_prefix s s1) as (neg & s1 & E1 & H1).
  { destruct (eat 45 s) as [s1|] eqn:E; eexists _, _; (split; [done|]).
    - eapply eat_prefix; [|exact E]. set_solver.
    - apply number_prefix_refl. }
  rewrite E1 in H. apply (number_prefix_trans _ _ _ H1). clear H1 E1.
  destruct (span_digits s1) as [ip s2] eqn:Hd. case_match; [done|].
  apply (number_prefix_trans _ s2); [by eapply span_digits_prefix|].
  assert (∀ fp s3, match eat 46 s2 with
    | Some r0 => let '(fp, s3) := span_digits r0 in if is_empty fp then None else Some (fp, s3)
    | None => Some ([], s2) end = Some (fp, s3) → number_prefix s2 s3) as H2.
  { intros fp s3. destruct (eat 46 s2) as [t|] eqn:E; [|intros [= <- <-]; apply number_prefix_refl].
    destruct (span_digits t) as [fp' t'] eqn:Hd'. intros Hs3. case_match; simplify_eq.
    eapply number_prefix_trans; [eapply eat_prefix; [|exact E]; set_solver|by eapply span_digits_prefix]. }
  destruct (match eat 46 s2 with Some _ => _ | None => _ end) as [[fp s3]|]; [|done].
  apply (number_prefix_trans _ s3); [by apply (H2 fp)|]. clear H2.
  destruct s3 as [|c s3]; [simplify_eq; apply number_prefix_refl|].
  destruct (_ || _) eqn:Hc in H; [|simplify_eq; apply number_prefix_refl].
  destruct (read_exponent _) as [[e t]|] eqn:E; [|done]. simplify_eq. by eapply read_exponent_prefix.
Qed.

Lemma num_prints_trimmed x : num_prints x = true → trimmed (num_to_str x).
Proof.
  intros [_ H%bool_decide_eq_true]%andb_true_iff. apply parse_number_prefix in H as (p & Hp & Hall).
  rewrite app_nil_r in Hp. rewrite Hp. apply nows_trimmed. rewrite Forall_forall in Hall.
  intros c Hc. by apply number_char_not_ws, Hall.
Qed.

Lemma edges_trimmed a b s : is_ws a = false → is_ws b = false → trimmed (a :: s ++ [b]).
Proof.
  intros Ha Hb. split; simpl; [done|]. rewrite reverse_cons, reverse_snoc. simpl. done.
Qed.

Lemma bracket_edges gap ind op cl items : ∃ s, bracket gap ind op cl items = op :: s ++ [cl].
Proof.
  unfold bracket. case_match; simpl; [by eexists|].
  exists (10 :: (ind ++ gap) ++ join (44 :: 10 :: ind ++ gap) items ++ 10 :: ind).
  simpl. by rewrite <- !app_assoc.
Qed.

(** The text of a value has no white space at its edges. *)
Lemma stringify_trimmed gap ind v t : json_ok v = true → stringify_at gap ind v = Some t → trimmed t.
Proof.
  destruct v as [| |b|x|s|l|o|f]; intros Hok H; try done; cbn [stringify_at] in H; simplify_eq.
  - apply nows_trimmed. intros c Hc. repeat (apply elem_of_cons in Hc as [->|Hc]; [reflexivity|]).
    by apply elem_of_nil in Hc.
  - apply nows_trimmed. intros c Hc.
    destruct b; (repeat (apply elem_of_cons in Hc as [->|Hc]; [reflexivity|])); by apply elem_of_nil in Hc.
  - simpl in Hok. pose proof Hok as [-> _]%andb_true_iff. by apply num_prints_trimmed.
  - by apply edges_trimmed.
  - case_match; [by apply (edges_trimmed 91 93 [])|].
    destruct (bracket_edges gap ind 91 93 (map (λ x, default (js "null") (stringify_at gap (ind ++ gap) x))
      (j :: l0))) as [s ->]. by apply edges_trimmed.
  - case_match; [by apply (edges_trimmed 123 125 [])|].
    match goal with |- trimmed (bracket ?g ?i ?a ?b ?items) => destruct (bracket_edges g i a b items) as [s ->] end.
    by apply edges_trimmed.
Qed.

(** ** Building a storable object *)

Lemma wf_keysb_snoc ks k :
  array_index k = None → k ∉ ks → wf_keysb ks = true → wf_keysb (ks ++ [k]) = true.
Proof.
  intros Hk. induction ks as [|k1 ks IH]; simpl; [done|]. intros [Hne Hnin]%not_elem_of_cons [H1 H2]%andb_true_iff.
  rewrite forallb_app, H1, IH by done. simpl. unfold key_beforeb. rewrite Hk.
  rewrite bool_decide_eq_false_2 by done. by destruct (array_index k1).
Qed.

Lemma forallb_assoc_set (p : jsval → bool) (k : jsstr) v o :
  forallb (λ kv, p kv.2) o = true → p v = true → forallb (λ kv, p kv.2) (assoc_set k v o) = true.
Proof.
  intros Ho Hv. induction o as [|[k1 v1] o IH]; simpl in *; [by rewrite Hv|].
  apply andb_true_iff in Ho as [H1 H2]. case_decide; simpl; by rewrite ?Hv, ?H1, ?H2, ?IH.
Qed.

Lemma json_ok_put k v o :
  array_index k = None → code_units k = true → json_ok v = true → json_ok (JObj o) = true →
  json_ok (JObj (obj_put k v o)) = true.
Proof.
  intros Hk Hc Hv Ho. cbn [json_ok] in *. apply andb_true_iff in Ho as [[Hw Hu]%andb_true_iff Ho].
  rewrite obj_put_set, forallb_assoc_set by done. rewrite keys_set. case_decide as Hin; [by rewrite app_nil_r, Hw, Hu|].
  rewrite wf_keysb_snoc by done. rewrite forallb_app, Hu. simpl. by rewrite Hc.
Qed.
