(* ===== verification/JsKeys.v ===== *)
(** * The keys of parsed objects

    Assigning members keeps the keys of an object in enumeration order
    ([put_ordered]), and the keys of a value read by [JSON.parse] from a string of
    code units are strings of code units ([parsed_keys]). *)

From stdpp Require Import base list sets strings.
From Stdlib Require Import ZArith Lia SpecFloat Wf_nat.
From S2P Require Import Prelude JsString JsNumber JsValue JsJson.
#[local] Open Scope Z_scope.

(** ** Array indices are canonical numerals *)

Lemma dec_value_snoc s c : dec_value (s ++ [c]) = dec_value s * 10 + (c - 48).
Proof. unfold dec_value, dec_value_from. by rewrite fold_left_app. Qed.

Lemma digits_snoc s c : forallb is_digit (s ++ [c]) = true → forallb is_digit s = true ∧ 48 <= c <= 57.
Proof. rewrite forallb_app. cbn [forallb]. unfold is_digit. intros [Hs Hc]%andb_true_iff. split; [done|lia]. Qed.

Lemma dec_value_bounds s :
  forallb is_digit s = true →
  0 <= dec_value s < 10 ^ Z.of_nat (length s) ∧
  (s ≠ [] → starts_with [48] s = false → 10 ^ (Z.of_nat (length s) - 1) <= dec_value s).
Proof.
  induction s as [|c s IH] using rev_ind; [done|]. intros [Hs Hc]%digits_snoc. destruct (IH Hs) as [[H0 H1] H2].
  rewrite dec_value_snoc, length_app. cbn [length]. rewrite Nat2Z.inj_add. change (Z.of_nat 1) with 1. split.
  - rewrite Z.pow_add_r by lia. lia.
  - intros _ Hz. replace (Z.of_nat (length s) + 1 - 1) with (Z.of_nat (length s)) by lia.
    destruct s as [|d s]; [destruct (Z.eq_dec c 48) as [->|]; [done|]; unfold dec_value, dec_value_from; cbn; lia|].
    specialize (H2 ltac:(done) Hz). replace (Z.of_nat (length (d :: s))) with (Z.of_nat (length (d :: s)) - 1 + 1) by lia.
    rewrite Z.pow_add_r by (cbn [length]; lia). lia.
Qed.

Lemma same_length_digits s s' :
  length s = length s' → forallb is_digit s = true → forallb is_digit s' = true → dec_value s = dec_value s' → s = s'.
Proof.
  revert s'. induction s as [|c s IH] using rev_ind; intros s' Hl Hs Hs' Hv; [by destruct s'|].
  destruct s' as [|c' s' _] using rev_ind; [rewrite length_app in Hl; cbn in Hl; lia|].
  apply digits_snoc in Hs as [Hs Hc], Hs' as [Hs' Hc']. rewrite !dec_value_snoc in Hv. rewrite !length_app in Hl.
  rewrite (IH s'); [by replace c' with c by lia|cbn in Hl; lia|done|done|lia].
Qed.

Lemma array_index_inj k k' n : array_index k = Some n → array_index k' = Some n → k = k'.
Proof.
  assert (∀ k, array_index k = Some n → forallb is_digit k = true ∧ k ≠ [] ∧ dec_value k = n ∧
    (length k = 1%nat ∨ starts_with [48] k = false)) as H.
  { clear. intros k. unfold array_index, all_digits. destruct k as [|c k]; [done|].
    destruct (forallb is_digit (c :: k)); [|done]. cbn [is_empty negb andb].
    destruct (Z.ltb_spec 1 (Z.of_nat (length (c :: k)))); cbn [andb].
    - destruct (starts_with [48] (c :: k)) eqn:E; [done|]. cbn [negb]. destruct (_ <? 4294967295); [|done].
      intros [= <-]. split_and!; [done..|by right].
    - cbn [negb]. destruct (_ <? 4294967295); [|done]. intros [= <-]. split_and!; [done..|left]. cbn [length] in *. lia. }
  intros (D & N & V & L)%H (D' & N' & V' & L')%H. clear H.
  destruct (dec_value_bounds k D) as [[? B1] B2], (dec_value_bounds k' D') as [[? B1'] B2'].
  assert (∀ a b : jsstr, b ≠ [] → dec_value a < 10 ^ Z.of_nat (length a) →
    (length b = 1%nat ∨ 10 ^ (Z.of_nat (length b) - 1) <= dec_value b) → dec_value a = dec_value b → a ≠ [] →
    (length b <= length a)%nat) as Hle.
  { intros a b Hb Ha Hor E Hna. destruct Hor as [->|Hor]; [destruct a; [done|cbn; lia]|].
    destruct (Nat.le_gt_cases (length b) (length a)) as [|Hgt]; [done|].
    pose proof (Z.pow_le_mono_r 10 (Z.of_nat (length a)) (Z.of_nat (length b) - 1)). lia. }
  apply same_length_digits; [|done|done|lia]. apply Nat.le_antisymm; apply Hle; try done; try lia; naive_solver.
Qed.

(** ** Enumeration order *)

Lemma insert_keys n k v o :
  (obj_insert_index n k v o).*1 =
    (fix go l := match l with [] => [k] | k' :: l' => match array_index k' with
       | Some n' => if n <? n' then k :: l else k' :: go l' | None => k :: l end end) o.*1.
Proof.
  induction o as [|[k' v'] o IH]; [done|]. cbn [obj_insert_index fmap list_fmap fst].
  destruct (array_index k'); [|done]. destruct (_ <? _); [done|]. cbn [fmap list_fmap fst]. by rewrite IH.
Qed.

Lemma key_before_refl k k' : key_beforeb k k' = true → k ≠ k'.
Proof. unfold key_beforeb. intros [H _]%andb_true_iff. by apply negb_true_iff, bool_decide_eq_false in H. Qed.

Lemma before_index n k k' : array_index k = Some n → k ≠ k' →
  match array_index k' with Some n' => n < n' | None => True end → key_beforeb k k' = true.
Proof. intros H Hne Hn. unfold key_beforeb. rewrite H, bool_decide_eq_false_2 by done. destruct (array_index k'); [|done]. cbn. lia. Qed.

Lemma insert_ordered n k v o :
  array_index k = Some n → k ∉ o.*1 → wf_keysb o.*1 = true → wf_keysb (obj_insert_index n k v o).*1 = true.
Proof.
  intros Hk. rewrite insert_keys. induction (o.*1) as [|k' ks IH]; [done|]. intros [Hne Hnin]%not_elem_of_cons Hw.
  pose proof Hw as [H1 H2]%andb_true_iff. rewrite forallb_forall in H1.
  assert (∀ x, x ∈ ks → key_beforeb k' x = true) as Hb by (intros x Hx; by apply H1, list_elem_of_In).
  destruct (array_index k') as [n'|] eqn:E'.
  - destruct (Z.ltb_spec n n') as [Hlt|Hge].
    + change (forallb (key_beforeb k) (k' :: ks) && wf_keysb (k' :: ks) = true). rewrite Hw, andb_true_r. apply forallb_forall. intros x Hx.
      apply list_elem_of_In in Hx. apply (before_index n); [done|set_solver|].
      apply elem_of_cons in Hx as [->|Hx]; [by rewrite E'|]. apply Hb in Hx. unfold key_beforeb in Hx.
      rewrite E' in Hx. destruct (array_index x); [lia|done].
    + assert (n' < n) as Hlt. { assert (n' ≠ n); [|lia]. intros ->. apply Hne. by eapply array_index_inj. }
      cbn [wf_keysb]. rewrite IH, andb_true_r by done. apply forallb_forall. intros x Hx.
      assert (x = k ∨ x ∈ ks) as [->|Hin].
      { apply list_elem_of_In in Hx. clear -Hx. induction ks as [|y ks IH]; [set_solver|].
        destruct (array_index y); [destruct (_ <? _)|]; set_solver. }
      * apply (before_index n'); [done|done|]. by rewrite Hk.
      * by apply Hb.
  - change (forallb (key_beforeb k) (k' :: ks) && wf_keysb (k' :: ks) = true). rewrite Hw, andb_true_r. apply forallb_forall. intros x Hx.
    apply list_elem_of_In in Hx. apply (before_index n); [done|set_solver|].
    apply elem_of_cons in Hx as [->|Hx]; [by rewrite E'|]. apply Hb in Hx. unfold key_beforeb in Hx.
    rewrite E' in Hx. by destruct (array_index x); [rewrite andb_false_r in Hx|].
Qed.

Lemma put_ordered k v o : wf_keysb o.*1 = true → wf_keysb (obj_put k v o).*1 = true.
Proof.
  intros Hw. unfold obj_put. case_decide as Hin; [by rewrite keys_set, decide_True, app_nil_r|].
  destruct (array_index k) as [n|] eqn:E; [by apply insert_ordered|]. rewrite fmap_app. by apply wf_keysb_snoc.
Qed.

Lemma put_keys k v o x : x ∈ (obj_put k v o).*1 → x = k ∨ x ∈ o.*1.
Proof.
  unfold obj_put. case_decide as Hin; [rewrite keys_set, decide_True, app_nil_r by done; auto|].
  destruct (array_index k) as [n|]; [|rewrite fmap_app; set_solver]. rewrite insert_keys. clear Hin.
  induction (o.*1) as [|y ks IH]; [set_solver|]. destruct (array_index y); [destruct (_ <? _)|]; set_solver.
Qed.

(** ** Keys read from a text *)

Definition units (s : jsstr) : Prop := code_units s = true.

Lemma units_cons c s : units (c :: s) ↔ 0 <= c < 65536 ∧ units s.
Proof. unfold units, code_units. cbn [forallb]. rewrite !andb_true_iff, Z.leb_le, Z.ltb_lt. tauto. Qed.

Lemma units_tail c s : units (c :: s) → units s.
Proof. intros H. apply units_cons in H. tauto. Qed.

Lemma units_drop n s : units s → units (drop n s).
Proof.
  revert n. induction s as [|c s IH]; intros [|n] H; [done..|]. cbn [drop]. apply IH. by eapply units_tail.
Qed.

Lemma units_skip s : units s → units (skip_ws s).
Proof.
  induction s as [|c s IH]; [done|]. intros H. cbn [skip_ws]. destruct (is_json_ws c); [|done].
  apply IH. by eapply units_tail.
Qed.

Lemma units_eat c s r : units s → eat c s = Some r → units r.
Proof. destruct s as [|a s]; [done|]. cbn [eat]. destruct (a =? c); [|done]. by intros [_ H]%units_cons [= <-]. Qed.

Lemma units_span s : units s → units (span_digits s).2.
Proof.
  induction s as [|c s IH]; [done|]. intros H. cbn [span_digits]. destruct (is_digit c); [|done].
  apply units_cons in H as [_ H%IH]. by destruct (span_digits s).
Qed.

Lemma units_exponent s e r : units s → read_exponent s = Some (e, r) → units r.
Proof.
  destruct s as [|c s]; [done|]. intros [_ H]%units_cons. cbn [read_exponent]. destruct (_ || _); [|done].
  set (q := match eat 43 s, eat 45 s with Some r, _ => (false, r) | _, Some r => (true, r) | _, _ => (false, s) end).
  assert (units q.2) as Hq.
  { subst q. destruct (eat 43 s) eqn:E1; [by eapply units_eat|]. destruct (eat 45 s) eqn:E2; [by eapply units_eat|done]. }
  destruct q as [neg s2]. cbn [snd] in Hq. apply units_span in Hq. destruct (span_digits s2) as [d r']. cbn [snd] in Hq.
  destruct (is_empty d); [done|]. by intros [= _ <-].
Qed.

Lemma units_number s x r : units s → parse_number s = Some (x, r) → units r.
Proof.
  intros H. unfold parse_number.
  set (q := match eat 45 s with Some r => (true, r) | None => (false, s) end).
  assert (units q.2) as Hq by (subst q; destruct (eat 45 s) eqn:E; [by eapply units_eat|done]).
  destruct q as [neg s1]. cbn [snd] in Hq. apply units_span in Hq. destruct (span_digits s1) as [ip s2]. cbn [snd] in Hq.
  destruct (_ || _); [done|]. destruct (eat 46 s2) as [r1|] eqn:E.
  - apply units_eat in E; [|done]. apply units_span in E. destruct (span_digits r1) as [fp s3]. cbn [snd] in E.
    destruct (is_empty fp); [done|]. destruct s3 as [|c s3]; [by intros [= _ <-]|]. destruct (_ || _); [|by intros [= _ <-]].
    destruct (read_exponent (c :: s3)) as [[e r2]|] eqn:Ee; [|done]. intros [= _ <-]. by eapply units_exponent.
  - destruct s2 as [|c s3]; [by intros [= _ <-]|]. destruct (_ || _); [|by intros [= _ <-]].
    destruct (read_exponent (c :: s3)) as [[e r2]|] eqn:Ee; [|done]. intros [= _ <-]. by eapply units_exponent.
Qed.

Lemma hex_digit_range c x : hex_digit c = Some x → 0 <= x < 16.
Proof. unfold hex_digit, is_digit. repeat case_match; intros [= <-]; lia. Qed.

Lemma units_string s : ∀ w r, units s → parse_string s = Some (w, r) → units w ∧ units r.
Proof.
  induction s as [s IH] using (induction_ltof1 _ length). unfold ltof in IH.
  assert (∀ r u w r', (length r < length s)%nat → units r → 0 <= u < 65536 →
    match parse_string r with Some (w, r') => Some (u :: w, r') | None => None end = Some (w, r') → units w ∧ units r') as Hstep.
  { intros r u w r' Hl Hr Hu. destruct (parse_string r) as [[w' r'']|] eqn:E; [|done]. intros [= <- <-].
    destruct (IH r Hl w' r'' Hr E). split; [by apply units_cons|done]. }
  destruct s as [|c s]; [done|]. intros w r [Hc Hs]%units_cons. cbn [parse_string]. cbn [length] in *.
  destruct (c =? 34); [by intros [= <- <-]|]. destruct (c =? 92).
  - destruct s as [|e s]; [done|]. apply units_cons in Hs as [He Hs]. cbn [length] in *. destruct (e =? 117).
    + destruct s as [|a [|b [|c' [|d s]]]]; try done. cbn [length] in *. rewrite !units_cons in Hs.
      destruct (hex4_value a b c' d) as [u|] eqn:Eu; [|done]. apply Hstep; [lia|tauto|]. unfold hex4_value in Eu.
      repeat (match type of Eu with match hex_digit ?x with _ => _ end = _ => destruct (hex_digit x) eqn:?E; [|done] end).
      repeat match goal with H : hex_digit _ = Some _ |- _ => apply hex_digit_range in H end. injection Eu as <-. lia.
    + destruct (simple_escape e) as [u|] eqn:Eu; [|done]. apply Hstep; [lia|done|]. unfold simple_escape in Eu.
      repeat case_match; simplify_eq; lia.
  - destruct (c <? 32); [done|]. by apply Hstep; [lia|..].
Qed.

Definition units_keys (v : jsval) : Prop := match v with JObj o => Forall units o.*1 | _ => True end.

Lemma put_units k v o : units k → Forall units o.*1 → Forall units (obj_put k v o).*1.
Proof. rewrite !Forall_forall. intros Hk Ho x [->|Hx]%put_keys; auto. Qed.

Lemma units_parse f :
  (∀ s v r, units s → parse_value f s = Some (v, r) → units_keys v ∧ units r) ∧
  (∀ s acc v r, units s → parse_elems f s acc = Some (v, r) → units_keys v ∧ units r) ∧
  (∀ s o v r, units s → Forall units o.*1 → parse_members f s o = Some (v, r) → units_keys v ∧ units r).
Proof.
  induction f as [|f (IHv & IHe & IHm)]; [done|]. split_and!.
  - intros s v r Hs. cbn [parse_value]. apply units_skip in Hs. destruct (skip_ws s) as [|c t]; [done|].
    pose proof Hs as [Hc Ht]%units_cons. destruct (c =? 34).
    { destruct (parse_string t) as [[w r']|] eqn:E; [|done]. intros [= <- <-]. apply units_string in E as [_ Hr]; done. }
    destruct (c =? 91).
    { destruct (eat 93 (skip_ws t)) eqn:E; [|by apply IHe]. intros [= <- <-]. split; [done|].
      eapply units_eat, E. by apply units_skip. }
    destruct (c =? 123).
    { destruct (eat 125 (skip_ws t)) eqn:E; [|apply IHm; [done|constructor]]. intros [= <- <-]. split; [constructor|].
      eapply units_eat, E. by apply units_skip. }
    repeat (destruct (starts_with _ _); [intros [= <- <-]; split; [done|by apply units_drop]|]).
    destruct (parse_number (c :: t)) as [[x r']|] eqn:E; [|done]. intros [= <- <-]. split; [done|]. eapply units_number, E. done.
  - intros s acc v r Hs. cbn [parse_elems]. destruct (parse_value f s) as [[x r1]|] eqn:E; [|done].
    apply IHv in E as [_ Hr]; [|done]. apply units_skip in Hr.
    destruct (eat 44 (skip_ws r1)) eqn:E1; [apply IHe; by eapply units_eat|].
    destruct (eat 93 (skip_ws r1)) eqn:E2; [|done]. intros [= <- <-]. split; [done|]. by eapply units_eat.
  - intros s o v r Hs Ho. cbn [parse_members]. apply units_skip in Hs.
    destruct (eat 34 (skip_ws s)) as [r0|] eqn:E0; [|done]. apply units_eat in E0; [|done].
    destruct (parse_string r0) as [[k r1]|] eqn:E1; [|done]. apply units_string in E1 as [Hk Hr1]; [|done].
    apply units_skip in Hr1. destruct (eat 58 (skip_ws r1)) as [r2|] eqn:E2; [|done]. apply units_eat in E2; [|done].
    destruct (parse_value f r2) as [[x r3]|] eqn:E3; [|done]. apply IHv in E3 as [_ Hr3]; [|done]. apply units_skip in Hr3.
    destruct (eat 44 (skip_ws r3)) eqn:E4; [apply IHm; [by eapply units_eat|by apply put_units]|].
    destruct (eat 125 (skip_ws r3)) eqn:E5; [|done]. intros [= <- <-]. split; [by apply put_units|by eapply units_eat].
Qed.

Lemma index_units i : units (Z_to_str (Z.of_nat i)).
Proof.
  apply forallb_forall. intros c Hc%list_elem_of_In. eapply all_digits_elem in Hc; [|by apply Z_to_str_digits; lia]. lia.
Qed.

(** The keys of what a text says *)
Lemma parsed_keys text v es : units text → JSON_parse text = Ok v → entries v = Ok es → Forall units es.*1.
Proof.
  intros Ht. unfold JSON_parse. destruct (parse_value _ text) as [[w r]|] eqn:E; [|done].
  destruct (is_empty (skip_ws r)); [|done]. intros [= <-] Hes.
  destruct (units_parse (2 * length text + 2)) as [Hv _]. apply Hv in E as [Hk _]; [|done].
  destruct w; cbn [entries] in Hes; simplify_eq; try done; rewrite fmap_imap; apply Forall_forall; intros x Hx;
    apply elem_of_lookup_imap in Hx as (i & y & -> & _); apply index_units.
Qed.
