(* ===== verification/StatusCodes.v ===== *)
(** * HTTP status-code rules and redirect guards

    [HttpStatusCodeRules] models web/default/src/lib/http-status-code-rules.ts:
    the parser of rule lists such as ["401,403,500-599"] and the merging of
    their ranges.  [StatusCodeRiskGuard] models
    web/default/src/features/channels/lib/status-code-risk-guard.ts: the checks
    on a channel's status-code mapping.

    A status code is a [Z]: [Number.parseInt] of a digit string is its exact
    value up to 2^53 and rounds monotonically above, so the comparisons with
    100 and 599 decide the same way. *)

From stdpp Require Import base list strings gmap sorting.
From Stdlib Require Import ZArith Lia SpecFloat.
From S2P Require Import Prelude JsString JsNumber JsValue JsJson.
#[local] Open Scope Z_scope.

Module HttpStatusCodeRules.

Record StatusCodeRange := Range { start : Z; end_ : Z }.

Record ParsedHttpStatusCodeRules := Parsed {
  ok : bool;
  ranges : list StatusCodeRange;
  tokens : list jsstr;
  normalized : jsstr;
  invalidTokens : list jsstr
}.

#[export] Instance range_eq_dec : EqDecision StatusCodeRange.
Proof. solve_decision. Defined.

(** [isNumber]: [/^\d+$/.test(s)] *)
Definition isNumber (s : jsstr) : bool := all_digits s.

Definition isValidCode (code : Z) : bool := (100 <=? code) && (code <=? 599).

Definition parseToken (token : jsstr) : option StatusCodeRange :=
  let cleaned := strip_ws (trim token) in
  if is_empty cleaned then None
  else if includes (js "-") cleaned then
    match split_char 45 cleaned with
    | a :: b :: _ =>
        if negb (isNumber a) || negb (isNumber b) then None
        else
          let st := dec_value a in
          let en := dec_value b in
          if negb (isValidCode st) || negb (isValidCode en) || (en <? st) then None
          else Some (Range st en)
    | _ => None
    end
  else if negb (isNumber cleaned) then None
  else
    let code := dec_value cleaned in
    if negb (isValidCode code) then None else Some (Range code code).

(** The comparator of [sort]: by start, then by end. *)
Definition range_le (a b : StatusCodeRange) : bool :=
  if negb (start a =? start b) then start a <=? start b else end_ a <=? end_ b.

(** One step of the [reduce]; [merged] is the array built so far. *)
Definition merge_step (merged : list StatusCodeRange) (current : StatusCodeRange)
    : list StatusCodeRange :=
  match last merged with
  | None => merged ++ [current]
  | Some l =>
      if start current >? end_ l + 1 then merged ++ [current]
      else take (length merged - 1) merged ++ [Range (start l) (Z.max (end_ l) (end_ current))]
  end.

Definition mergeRanges (rs : list StatusCodeRange) : list StatusCodeRange :=
  if decide (rs = []) then []
  else fold_left merge_step (sort_by range_le rs) [].

Definition range_token (r : StatusCodeRange) : jsstr :=
  if start r =? end_ r then Z_to_str (start r)
  else Z_to_str (start r) ++ js "-" ++ Z_to_str (end_ r).

(** [sanitized.split(',').map(trim).filter(Boolean)] *)
Definition rule_segments (raw : jsstr) : list jsstr :=
  filter (λ s, is_empty s = false) (map trim (split_char 44 (replace_char 65292 44 raw))).

Definition parse_rules (raw : jsstr) : ParsedHttpStatusCodeRules :=
  if is_empty raw then Parsed true [] [] [] []
  else
    let segments := rule_segments raw in
    let invalid := filter (λ s, parseToken s = None) segments in
    let rs := omap parseToken segments in
    if (0 <? length invalid)%nat then Parsed false [] [] raw invalid
    else
      let merged := mergeRanges rs in
      let toks := map range_token merged in
      Parsed true merged toks (join (js ",") toks) [].

Definition parseHttpStatusCodeRules (input : jsval) : res ParsedHttpStatusCodeRules :=
  let* s := to_str (js_coalesce input (JStr [])) in
  Ok (parse_rules (trim s)).

(** ** Merging computes the union of the ranges *)

Definition in_range (code : Z) (r : StatusCodeRange) : Prop := start r <= code <= end_ r.
Definition covered (rs : list StatusCodeRange) (code : Z) : Prop :=
  ∃ r, r ∈ rs ∧ in_range code r.

(** Strictly increasing and separated by at least one uncovered code. *)
Definition separated (a b : StatusCodeRange) : Prop := end_ a + 1 < start b.
Definition canonical (rs : list StatusCodeRange) : Prop :=
  StronglySorted separated rs ∧ Forall (λ r, start r <= end_ r) rs.

Lemma covered_app a b code : covered (a ++ b) code ↔ covered a code ∨ covered b code.
Proof. unfold covered. set_solver. Qed.

Lemma covered_singleton r code : covered [r] code ↔ in_range code r.
Proof. unfold covered. set_solver. Qed.

Lemma covered_cons r rs code : covered (r :: rs) code ↔ in_range code r ∨ covered rs code.
Proof. unfold covered. setoid_rewrite elem_of_cons. naive_solver. Qed.

Lemma covered_nil code : ¬ covered [] code.
Proof. unfold covered. set_solver. Qed.

Lemma covered_perm a b code : a ≡ₚ b → covered a code ↔ covered b code.
Proof. intros H. unfold covered. by setoid_rewrite H. Qed.

Lemma range_le_total a b : range_le a b = false → range_le b a = true.
Proof. unfold range_le. repeat case_match; lia. Qed.

Lemma range_le_trans a b c : range_le a b = true → range_le b c = true → range_le a c = true.
Proof. unfold range_le. repeat case_match; lia. Qed.

(** The invariant of the [reduce]: the prefix built is canonical, covers what
    was consumed, and starts no later than what is still to come. *)
Lemma merge_step_inv merged cur code :
  canonical merged → start cur <= end_ cur →
  (∀ l, last merged = Some l → start l <= start cur) →
  canonical (merge_step merged cur) ∧
  (covered (merge_step merged cur) code ↔ covered merged code ∨ in_range code cur) ∧
  (∃ l, last (merge_step merged cur) = Some l ∧ start l <= start cur).
Proof.
  intros [Hs Hne] Hc Hl. unfold merge_step. destruct (last merged) as [l|] eqn:El.
  2:{ apply last_None in El as ->. simpl. split_and!.
      - split; [repeat constructor|by constructor].
      - rewrite covered_singleton. unfold covered. set_solver.
      - eexists. split; [done|lia]. }
  specialize (Hl l eq_refl). pose proof (last_split _ _ El) as Hsp.
  destruct (start cur >? end_ l + 1) eqn:Egt.
  - split_and!.
    + split; [|by apply Forall_app; split; [|by constructor]].
      rewrite StronglySorted_snoc. split; [done|].
      rewrite Hsp in Hs |- *. apply StronglySorted_snoc in Hs as [_ Hs].
      rewrite Forall_app, Forall_singleton. split; [|unfold separated; lia].
      eapply Forall_impl; [exact Hs|]. intros r Hr. unfold separated in *.
      rewrite Hsp, Forall_app, Forall_singleton in Hne. lia.
    + by rewrite covered_app, covered_singleton.
    + rewrite last_snoc. eexists. split; [done|lia].
  - set (p := take (length merged - 1) merged) in *. clearbody p. subst merged.
    apply StronglySorted_snoc in Hs as [Hs Hx].
    apply Forall_app in Hne as [Hne Hnl%Forall_singleton]. split_and!.
    + split; [rewrite StronglySorted_snoc; split; [done|exact Hx]|].
      rewrite Forall_app, Forall_singleton. simpl. split; [done|lia].
    + rewrite !covered_app, !covered_singleton. unfold in_range. simpl.
      split; [|intros [[?|?]|?]]; [|by left|right; lia|right; lia].
      intros [?|?]; [tauto|]. destruct (decide (code <= end_ l)); [left; right; lia|right; lia].
    + rewrite last_snoc. eexists. split; [done|]. simpl. lia.
Qed.

Lemma merge_fold_inv rs : ∀ merged code,
  canonical merged → Forall (λ r, start r <= end_ r) rs →
  StronglySorted (λ a b, range_le a b = true) rs →
  (∀ l r, last merged = Some l → r ∈ rs → start l <= start r) →
  canonical (fold_left merge_step rs merged) ∧
  (covered (fold_left merge_step rs merged) code ↔ covered merged code ∨ covered rs code).
Proof.
  induction rs as [|r rs IH]; intros merged code Hc Hok Hs Hl; simpl.
  { split; [done|]. pose proof (covered_nil code). tauto. }
  apply Forall_cons in Hok as [Hr Hok]. inversion Hs as [|?? Hs' Hall]; subst.
  destruct (merge_step_inv merged r code) as (Hc' & Hcov & l' & Hl' & Hle);
    [done|done|intros l Hll; apply (Hl l); [done|set_solver]|].
  destruct (IH (merge_step merged r) code) as [HA HB]; [done..| |split; [done|]].
  - intros l r' Hll Hin. simplify_eq. rewrite Forall_forall in Hall.
    specialize (Hall r' Hin). unfold range_le in Hall. case_match; lia.
  - rewrite HB, Hcov, covered_cons. tauto.
Qed.

Lemma canonical_nil : canonical [].
Proof. split; constructor. Qed.

Lemma mergeRanges_spec rs code :
  Forall (λ r, start r <= end_ r) rs →
  canonical (mergeRanges rs) ∧ (covered (mergeRanges rs) code ↔ covered rs code).
Proof.
  intros Hok. unfold mergeRanges. case_decide as E; [subst; split; [apply canonical_nil|done]|].
  destruct (merge_fold_inv (sort_by range_le rs) [] code) as [HA HB].
  - apply canonical_nil.
  - by rewrite sort_by_perm.
  - apply sort_by_sorted; [apply range_le_total|apply range_le_trans].
  - done.
  - split; [done|]. rewrite HB, (covered_perm (sort_by range_le rs) rs) by apply sort_by_perm.
    pose proof (covered_nil code). tauto.
Qed.

(** ** Tokens *)

Lemma parseToken_valid t r :
  parseToken t = Some r → 100 <= start r ∧ start r <= end_ r ∧ end_ r <= 599.
Proof.
  unfold parseToken, isValidCode. intros H.
  repeat (case_match; simplify_eq/=; try done); bool_prop; lia.
Qed.

(** A canonical list is already sorted, and merging leaves it alone. *)
Lemma canonical_le rs : canonical rs → StronglySorted (λ a b, range_le a b = true) rs.
Proof.
  intros [Hs Hok]. induction Hs as [|r rs Hs IH Hall]; [constructor|].
  apply Forall_cons in Hok as [Hr Hok]. constructor; [auto|].
  eapply Forall_impl; [exact Hall|]. intros r' Hsep. unfold separated, range_le in *.
  case_match; lia.
Qed.

Lemma merge_step_append merged cur :
  (∀ l, last merged = Some l → separated l cur) → merge_step merged cur = merged ++ [cur].
Proof.
  intros H. unfold merge_step. destruct (last merged) as [l|]; [|done].
  specialize (H l eq_refl). unfold separated in H.
  destruct (start cur >? end_ l + 1) eqn:E; [done|lia].
Qed.

Lemma merge_fold_canonical rs merged :
  StronglySorted separated (merged ++ rs) → fold_left merge_step rs merged = merged ++ rs.
Proof.
  revert merged. induction rs as [|r rs IH]; intros merged Hs; simpl; [by rewrite app_nil_r|].
  rewrite cons_middle, app_assoc in Hs. rewrite merge_step_append.
  - rewrite IH by done. by rewrite <- app_assoc.
  - intros l Hl%last_split. rewrite Hl in Hs.
    assert (StronglySorted separated ((take (length merged - 1) merged ++ [l]) ++ [r])) as Hs'.
    { clear -Hs. revert Hs. generalize ((take (length merged - 1) merged ++ [l]) ++ [r]).
      intros l0. induction l0 as [|x l0 IH]; simpl; [constructor|]. inversion 1; subst.
      constructor; [auto|].
      match goal with H : Forall _ (_ ++ _) |- _ => apply Forall_app in H; tauto end. }
    apply StronglySorted_snoc in Hs' as [_ Hs']. rewrite Forall_app, Forall_singleton in Hs'.
    tauto.
Qed.

Lemma mergeRanges_canonical rs : canonical rs → mergeRanges rs = rs.
Proof.
  intros Hc. unfold mergeRanges. case_decide; [by subst|].
  rewrite sort_by_id by (by apply canonical_le). apply merge_fold_canonical. apply Hc.
Qed.

(** Printing a range in bounds and parsing it back. *)
Lemma digits_no_char n c : 0 <= n → ¬ (48 <= c <= 57) → c ∉ Z_to_str n.
Proof. intros Hn Hc Hin. apply Hc. eapply all_digits_elem; [by apply Z_to_str_digits|done]. Qed.

Definition valid_range (r : StatusCodeRange) : Prop :=
  100 <= start r ∧ start r <= end_ r ∧ end_ r <= 599.

Lemma range_token_elem r c : valid_range r → c ∈ range_token r → c = 45 ∨ 48 <= c <= 57.
Proof.
  intros (? & ? & ?). unfold range_token. case_match.
  - intros Hc. right. eapply all_digits_elem; [apply Z_to_str_digits|done]. lia.
  - rewrite !elem_of_app. intros [Hc|[Hc|Hc]].
    + right. eapply all_digits_elem; [apply Z_to_str_digits|done]. lia.
    + left. by apply list_elem_of_singleton in Hc.
    + right. eapply all_digits_elem; [apply Z_to_str_digits|done]. lia.
Qed.

Lemma range_token_nonempty r : valid_range r → is_empty (range_token r) = false.
Proof.
  intros (? & ? & ?). unfold range_token. pose proof (Z_to_str_digits (start r)) as Hd.
  unfold all_digits in Hd. case_match; destruct (Z_to_str (start r)); simpl in *; try done; lia.
Qed.

Lemma range_token_trimmed r : valid_range r → trimmed (range_token r).
Proof.
  intros Hv. apply nows_trimmed. intros c Hc%range_token_elem; [|done].
  unfold is_ws. lia.
Qed.

Lemma parseToken_range_token r : valid_range r → parseToken (range_token r) = Some r.
Proof.
  intros Hv. pose proof Hv as (? & ? & ?). unfold parseToken.
  rewrite trim_trimmed_id by (by apply range_token_trimmed).
  rewrite strip_ws_nows.
  2:{ intros c Hc%range_token_elem; [|done]. unfold is_ws. lia. }
  rewrite range_token_nonempty by done. change (js "-") with [45].
  assert (∀ n, 100 <= n <= 599 → isValidCode n = true) as HV by (unfold isValidCode; lia).
  unfold range_token. destruct (Z.eqb_spec (start r) (end_ r)) as [E|E].
  - rewrite includes_char_false by (apply digits_no_char; lia).
    unfold isNumber. rewrite Z_to_str_digits, Z_to_str_value, HV by lia.
    destruct r; simpl in *; by subst.
  - change (js "-") with [45]. cbn [app].
    rewrite includes_char_true by set_solver.
    rewrite split_char_app by (apply digits_no_char; lia).
    rewrite split_char_single by (apply digits_no_char; lia).
    unfold isNumber. rewrite !Z_to_str_digits, !Z_to_str_value, !HV by lia. simpl.
    destruct (Z.ltb_spec (end_ r) (start r)); [lia|]. by destruct r.
Qed.

(** ** The parser as a whole *)

Lemma parse_rules_ok raw :
  ok (parse_rules raw) = true ↔ Forall (λ s, parseToken s ≠ None) (rule_segments raw).
Proof.
  unfold parse_rules. destruct raw as [|c raw]; [simpl; split; [intros _; apply Forall_nil_2|done]|].
  cbn [is_empty]. set (segs := rule_segments (c :: raw)).
  rewrite Forall_forall. destruct (Nat.ltb_spec 0 (length (filter (λ s, parseToken s = None) segs)))
    as [Hlt|Hge]; simpl.
  - split; [done|]. intros H. exfalso.
    destruct (filter (λ s, parseToken s = None) segs) as [|s0 l] eqn:E; [simpl in Hlt; lia|].
    assert (s0 ∈ filter (λ s, parseToken s = None) segs) as [Hp Hs]%list_elem_of_filter
      by (rewrite E; left).
    by apply (H s0).
  - split; [|done]. intros _ s Hs Hp.
    assert (s ∈ filter (λ s, parseToken s = None) segs) as Hin by (by apply list_elem_of_filter).
    destruct (filter _ segs); [by apply not_elem_of_nil in Hin|simpl in Hge; lia].
Qed.

Lemma parse_rules_ranges raw :
  ok (parse_rules raw) = true →
  parse_rules raw =
    let merged := mergeRanges (omap parseToken (rule_segments raw)) in
    Parsed true merged (map range_token merged) (join (js ",") (map range_token merged)) [].
Proof. unfold parse_rules. destruct raw as [|c raw]; [done|]. simpl. by case_match. Qed.

Lemma omap_parse_valid segs : Forall valid_range (omap parseToken segs).
Proof.
  rewrite Forall_forall. intros r (t & _ & Ht)%list_elem_of_omap.
  by apply parseToken_valid in Ht.
Qed.

Lemma covered_valid rs code :
  Forall valid_range rs → covered rs code → 100 <= code <= 599.
Proof.
  rewrite Forall_forall. intros Hv (r & Hr & Hin). apply Hv in Hr as (? & ? & ?).
  unfold in_range in Hin. lia.
Qed.

Lemma mergeRanges_valid rs : Forall valid_range rs → Forall valid_range (mergeRanges rs).
Proof.
  intros Hv. assert (Forall (λ r, start r <= end_ r) rs) as Hok
    by (eapply Forall_impl; [exact Hv|]; unfold valid_range; lia).
  destruct (mergeRanges_spec rs 0 Hok) as [[_ Hle] _]. rewrite Forall_forall in Hle |- *.
  intros r Hr. specialize (Hle r Hr).
  assert (∀ code, in_range code r → 100 <= code <= 599) as Hb.
  { intros code Hc. apply (covered_valid rs); [done|]. apply (mergeRanges_spec rs code Hok).
    by exists r. }
  unfold in_range in Hb. pose proof (Hb (start r)). pose proof (Hb (end_ r)).
  unfold valid_range. lia.
Qed.

Lemma parse_rules_shape raw :
  ok (parse_rules raw) = true →
  canonical (ranges (parse_rules raw)) ∧ Forall valid_range (ranges (parse_rules raw)) ∧
  (∀ code, covered (ranges (parse_rules raw)) code ↔
           covered (omap parseToken (rule_segments raw)) code).
Proof.
  intros Hok. rewrite (parse_rules_ranges raw Hok). simpl.
  pose proof (omap_parse_valid (rule_segments raw)) as Hv.
  assert (Forall (λ r, start r <= end_ r) (omap parseToken (rule_segments raw))) as Hle
    by (eapply Forall_impl; [exact Hv|]; unfold valid_range; lia).
  split_and!; [apply (mergeRanges_spec _ 0 Hle)|by apply mergeRanges_valid|].
  intros code. apply mergeRanges_spec. done.
Qed.

Lemma rule_segments_tokens toks :
  Forall (λ t, trimmed t ∧ is_empty t = false ∧ ∀ c, c ∈ t → c ≠ 44 ∧ c ≠ 65292) toks →
  rule_segments (join (js ",") toks) = toks.
Proof.
  intros Hall. unfold rule_segments. change (js ",") with [44].
  assert (replace_char 65292 44 (join [44] toks) = join [44] toks) as ->.
  { unfold replace_char. rewrite <- map_id. apply map_ext_in. intros c Hc%list_elem_of_In.
    apply elem_of_join in Hc as [->%list_elem_of_singleton|(t & Ht & Hc)]; [done|].
    rewrite Forall_forall in Hall. apply Hall in Ht as (_ & _ & H). apply H in Hc as [_ Hc].
    by destruct (Z.eqb_spec c 65292). }
  destruct toks as [|t toks]; [done|].
  rewrite split_join; [|done|].
  - assert (map trim (t :: toks) = t :: toks) as ->.
    { rewrite <- map_id. apply map_ext_in. intros x Hx%list_elem_of_In.
      rewrite Forall_forall in Hall. apply trim_trimmed_id. by apply Hall. }
    rewrite list_filter_all; [done|]. eapply Forall_impl; [exact Hall|]. naive_solver.
  - eapply Forall_impl; [exact Hall|]. intros x (_ & _ & H) Hin. naive_solver.
Qed.

Lemma join_trimmed toks :
  Forall (λ t, ∀ c, c ∈ t → is_ws c = false) toks → trimmed (join (js ",") toks).
Proof.
  intros Hall. apply nows_trimmed. intros c Hc. change (js ",") with [44] in Hc.
  apply elem_of_join in Hc as [->%list_elem_of_singleton|(t & Ht & Hc)]; [done|].
  rewrite Forall_forall in Hall. by apply (Hall t).
Qed.

Lemma parse_rules_normalized raw :
  ok (parse_rules raw) = true →
  parse_rules (trim (normalized (parse_rules raw))) = parse_rules raw.
Proof.
  intros Hok. destruct (parse_rules_shape raw Hok) as (Hcan & Hval & _).
  rewrite (parse_rules_ranges raw Hok) in *. simpl in *.
  set (m := mergeRanges _) in *. clearbody m. rewrite Forall_forall in Hval.
  assert (Forall (λ t, trimmed t ∧ is_empty t = false ∧ ∀ c, c ∈ t → c ≠ 44 ∧ c ≠ 65292)
            (map range_token m)) as Htok.
  { apply Forall_forall. intros t (r & -> & Hr)%list_elem_of_fmap. apply Hval in Hr.
    split_and!; [by apply range_token_trimmed|by apply range_token_nonempty|].
    intros c Hc%range_token_elem; [lia|done]. }
  rewrite trim_trimmed_id.
  2:{ apply join_trimmed. apply Forall_forall. intros t (r & -> & Hr)%list_elem_of_fmap c Hc.
      apply range_token_elem in Hc; [unfold is_ws; lia|auto]. }
  pose proof (rule_segments_tokens _ Htok) as Hseg.
  assert (omap parseToken (map range_token m) = m) as Hom.
  { clear Hcan Htok Hseg. induction m as [|r m IH]; [done|]. simpl.
    rewrite parseToken_range_token by (apply Hval; left). f_equal. apply IH.
    intros; apply Hval; by right. }
  rewrite parse_rules_ranges.
  - rewrite Hseg, Hom, mergeRanges_canonical by done. done.
  - apply parse_rules_ok. rewrite Hseg. apply Forall_forall.
    intros t (r & -> & Hr)%list_elem_of_fmap. rewrite parseToken_range_token by auto. done.
Qed.

(** C28. When every token of a rule list is accepted, the ranges returned are
    sorted, pairwise disjoint and non-adjacent, lie within 100..599, and cover
    exactly the codes that some token of the input covers. *)
Theorem parse_rules_exact_union (s : jsstr) (p : ParsedHttpStatusCodeRules)
  (Hparse : parseHttpStatusCodeRules (JStr s) = Ok p) (Hok : ok p = true) :
  canonical (ranges p) ∧ Forall valid_range (ranges p) ∧
  ∀ code, covered (ranges p) code ↔
    ∃ seg r, seg ∈ rule_segments (trim s) ∧ parseToken seg = Some r ∧ in_range code r.
Proof.
  injection Hparse as <-. destruct (parse_rules_shape _ Hok) as (Hc & Hv & Hcov).
  split_and!; [done..|]. intros code. rewrite Hcov. unfold covered.
  setoid_rewrite list_elem_of_omap. naive_solver.
Qed.

(** Normalisation is stable: parsing the normalised text of an accepted
    rule list returns the very same result (ranges, tokens and text). *)
Theorem parse_rules_normalized_fixpoint (input : jsval) (p : ParsedHttpStatusCodeRules)
  (Hparse : parseHttpStatusCodeRules input = Ok p) (Hok : ok p = true) :
  parseHttpStatusCodeRules (JStr (normalized p)) = Ok p.
Proof.
  unfold parseHttpStatusCodeRules in *. destruct (to_str _) as [s|]; [|done].
  injection Hparse as <-. simpl. f_equal. by apply parse_rules_normalized.
Qed.

(** A rule list is rejected exactly when some token is invalid; the result
    then carries no range, keeps the text as typed and lists precisely the
    offending tokens, in order. *)
Theorem parse_rules_rejects (s : jsstr) (p : ParsedHttpStatusCodeRules)
  (Hparse : parseHttpStatusCodeRules (JStr s) = Ok p) :
  (ok p = false ↔ ∃ seg, seg ∈ rule_segments (trim s) ∧ parseToken seg = None) ∧
  (ok p = false → ranges p = [] ∧ tokens p = [] ∧ normalized p = trim s) ∧
  invalidTokens p = filter (λ t, parseToken t = None) (rule_segments (trim s)).
Proof.
  injection Hparse as <-. pose proof (parse_rules_ok (trim s)) as Hiff.
  split_and!.
  - split.
    + intros Hf. destruct (decide (Exists (λ t, parseToken t = None) (rule_segments (trim s))))
        as [He|He]; [by apply Exists_exists in He|]. exfalso.
      assert (ok (parse_rules (trim s)) = true); [|congruence].
      apply Hiff, Forall_forall. intros t Ht Hn. apply He, Exists_exists. eauto.
    + intros (t & Ht & Hn). destruct (ok (parse_rules (trim s))); [|done].
      assert (Forall (λ s, parseToken s ≠ None) (rule_segments (trim s))) as HF by tauto.
      rewrite Forall_forall in HF. by destruct (HF t Ht).
  - unfold parse_rules. repeat case_match; naive_solver.
  - unfold parse_rules. destruct (trim s) as [|c t] eqn:E; [done|]. cbn [is_empty].
    destruct (Nat.ltb_spec 0 (length (filter (λ s, parseToken s = None)
      (rule_segments (c :: t))))) as [|Hge]; [done|]. simpl.
    destruct (filter _ (rule_segments (c :: t))); [done|simpl in Hge; lia].
Qed.

(** ** Tokens with a third part

    [const [a, b] = cleaned.split('-')] ignores what follows a second hyphen. *)

Lemma strip_ws_app a b : strip_ws (a ++ b) = strip_ws a ++ strip_ws b.
Proof. apply filter_app. Qed.

Lemma strip_ws_all_ws p : Forall (λ c, is_ws c = true) p → strip_ws p = [].
Proof.
  unfold strip_ws. induction 1 as [|c p Hc _ IH]; [done|].
  rewrite filter_cons_False; [done|]. congruence.
Qed.

Lemma strip_ws_drop_ws s : strip_ws (drop_ws s) = strip_ws s.
Proof.
  destruct (drop_ws_suffix s) as (p & Hp & Hall). rewrite Hp at 2.
  by rewrite strip_ws_app, (strip_ws_all_ws p).
Qed.

Lemma strip_ws_trim s : strip_ws (trim s) = strip_ws s.
Proof.
  unfold trim, strip_ws. rewrite filter_reverse.
  change (filter (λ c, is_ws c = false)) with strip_ws.
  rewrite strip_ws_drop_ws. unfold strip_ws at 1. rewrite filter_reverse, reverse_involutive.
  apply strip_ws_drop_ws.
Qed.

(** A range token keeps its meaning whatever follows a second hyphen:
    ["401-403-999"] is accepted as 401-403, although the server's parser of the
    same setting rejects a token with more than two parts. *)
Theorem parseToken_ignores_third_part (a b : Z) (junk : jsstr)
  (Ha : 100 <= a) (Hab : a <= b) (Hb : b <= 599) :
  parseToken (Z_to_str a ++ js "-" ++ Z_to_str b ++ js "-" ++ junk) = Some (Range a b).
Proof.
  unfold parseToken. rewrite strip_ws_trim. change (js "-") with [45].
  assert (∀ n, 0 <= n → strip_ws (Z_to_str n) = Z_to_str n) as Hd.
  { intros n Hn. apply strip_ws_nows. intros c Hc.
    eapply is_digit_not_ws, all_digits_elem; [by apply Z_to_str_digits|done]. }
  rewrite !strip_ws_app, !Hd by lia. change (strip_ws [45]) with [45]. cbn [app].
  rewrite includes_char_true by set_solver.
  rewrite split_char_app by (apply digits_no_char; lia).
  rewrite split_char_app by (apply digits_no_char; lia).
  unfold isNumber. rewrite !Z_to_str_digits, !Z_to_str_value by lia.
  assert (∀ n, 100 <= n <= 599 → isValidCode n = true) as HV by (unfold isValidCode; lia).
  rewrite !HV by lia. destruct (Z.ltb_spec b a); [lia|]. simpl.
  destruct (Z_to_str a ++ _) eqn:E; [|done]. by apply app_nil in E as [_ ?].
Qed.

Lemma parseToken_ignores_third_part_witness :
  parseToken (js "401-403-999") = Some (Range 401 403).
Proof. exact (parseToken_ignores_third_part 401 403 (js "999") ltac:(lia) ltac:(lia) ltac:(lia)). Defined.

Lemma parse_rules_exact_union_witness :
  let p := Parsed true [Range 401 403; Range 500 505] [js "401-403"; js "500-505"]
             (js "401-403,500-505") [] in
  parseHttpStatusCodeRules (JStr (js "500-505,504,401,403,402")) = Ok p ∧
  (covered (ranges p) 504 ↔
    ∃ seg r, seg ∈ rule_segments (trim (js "500-505,504,401,403,402")) ∧
             parseToken seg = Some r ∧ in_range 504 r).
Proof.
  split; [vm_compute; reflexivity|].
  apply (parse_rules_exact_union (js "500-505,504,401,403,402")
    (Parsed true [Range 401 403; Range 500 505] [js "401-403"; js "500-505"]
             (js "401-403,500-505") [])); vm_compute; reflexivity.
Defined.

Lemma parse_rules_normalized_fixpoint_witness :
  parseHttpStatusCodeRules (JStr (js "401-403,500-505")) =
  parseHttpStatusCodeRules (JStr (js "500-505 ,, 504，401,403,402")).
Proof.
  exact (parse_rules_normalized_fixpoint (JStr (js "500-505 ,, 504，401,403,402"))
    (Parsed true [Range 401 403; Range 500 505] [js "401-403"; js "500-505"]
             (js "401-403,500-505") []) ltac:(vm_compute; reflexivity) eq_refl).
Defined.

Lemma parse_rules_rejects_witness :
  let p := Parsed false [] [] (js "99,600,foo,404") [js "99"; js "600"; js "foo"] in
  invalidTokens p = filter (λ t, parseToken t = None) (rule_segments (trim (js "99,600,foo,404"))).
Proof.
  apply (parse_rules_rejects (js "99,600,foo,404")
    (Parsed false [] [] (js "99,600,foo,404") [js "99"; js "600"; js "foo"])).
  vm_compute; reflexivity.
Defined.

End HttpStatusCodeRules.

(** * The status-code mapping of a channel *)

Module StatusCodeRiskGuard.

Definition NON_REDIRECTABLE_STATUS_CODES : list Z := [504; 524].

(** [/^[1-5]\d{2}$/.test(s)] *)
Definition three_digit_code (s : jsstr) : bool :=
  match s with
  | [a; b; c] => (49 <=? a) && (a <=? 53) && is_digit b && is_digit c
  | _ => false
  end.

Definition parseStatusCodeKey (rawKey : jsstr) : option Z :=
  let normalized := trim rawKey in
  if negb (three_digit_code normalized) then None else Some (dec_value normalized).

Definition parseStatusCodeMappingTarget (rawValue : jsval) : option Z :=
  match rawValue with
  | JNum x =>
      if is_integer x then
        if num_leb (num_of_Z 100) x && num_leb x (num_of_Z 599) then Some (trunc_Z x) else None
      else None
  | JStr s =>
      let normalized := trim s in
      if negb (three_digit_code normalized) then None
      else
        let code := dec_value normalized in
        if (100 <=? code) && (code <=? 599) then Some code else None
  | _ => None
  end.

(** The guard shared by both collectors: the parsed mapping's entries, or
    nothing when the text is blank, is not JSON or is not an object. *)
Definition mapping_entries (statusCodeMappingStr : jsstr) : list (jsstr * jsval) :=
  if is_empty (trim statusCodeMappingStr) then []
  else match JSON_parse statusCodeMappingStr with
       | Throw => []
       | Ok parsed =>
           if not_plain_object parsed then []
           else catch (entries parsed) []
       end.

(** [`${rawKey} → ${rawValue}`] *)
Definition invalid_entry_text (kv : jsstr * jsval) : res jsstr :=
  res_map (λ t, kv.1 ++ js " → " ++ t) (to_str kv.2).

Definition entry_invalid (kv : jsstr * jsval) : bool :=
  is_none (parseStatusCodeKey kv.1) || is_none (parseStatusCodeMappingTarget kv.2).

Definition collectInvalidStatusCodeEntries (statusCodeMappingStr : jsstr) : res (list jsstr) :=
  res_mapM invalid_entry_text
    (filter (λ kv, entry_invalid kv = true) (mapping_entries statusCodeMappingStr)).

(** The text of a risky redirect, when the entry is one. *)
Definition risky_mapping (kv : jsstr * jsval) : option jsstr :=
  match parseStatusCodeKey kv.1, parseStatusCodeMappingTarget kv.2 with
  | Some fromCode, Some toCode =>
      if negb (bool_decide (fromCode ∈ NON_REDIRECTABLE_STATUS_CODES)) then None
      else if fromCode =? toCode then None
      else Some (Z_to_str fromCode ++ js " -> " ++ Z_to_str toCode)
  | _, _ => None
  end.

(** The default order of [sort()]: UTF-16 code units, lexicographically. *)
Fixpoint str_le (a b : jsstr) : bool :=
  match a, b with
  | [], _ => true
  | _ :: _, [] => false
  | x :: a', y :: b' => (x <? y) || ((x =? y) && str_le a' b')
  end.

Definition collectDisallowedStatusCodeRedirects (statusCodeMappingStr : jsstr) : list jsstr :=
  sort_by str_le (dedup (omap risky_mapping (mapping_entries statusCodeMappingStr))).

Definition collectNewDisallowedStatusCodeRedirects (originalStr currentStr : jsstr)
    : list jsstr :=
  let currentRisky := collectDisallowedStatusCodeRedirects currentStr in
  if decide (currentRisky = []) then []
  else
    let originalRiskySet := collectDisallowedStatusCodeRedirects originalStr in
    filter (λ m, m ∉ originalRiskySet) currentRisky.

Lemma str_le_total a b : str_le a b = false → str_le b a = true.
Proof.
  revert b. induction a as [|x a IH]; intros [|y b]; simpl; try done.
  intros [H1 H2]%orb_false_iff. apply andb_false_iff in H2 as [H2|H2]; [lia|].
  apply IH in H2. rewrite H2. lia.
Qed.

Lemma str_le_trans a b c : str_le a b = true → str_le b c = true → str_le a c = true.
Proof.
  revert b c. induction a as [|x a IH]; intros [|y b] [|z c]; simpl; try done.
  intros H1 H2. apply orb_true_iff in H1, H2. rewrite andb_true_iff in H1, H2.
  destruct H1 as [H1|[H1 H1']], H2 as [H2|[H2 H2']]; try lia.
  rewrite (IH b c) by done. lia.
Qed.

Lemma three_digit_value s : three_digit_code s = true → 100 <= dec_value s <= 599.
Proof.
  destruct s as [|a [|b [|c [|d s]]]]; simpl; try done.
  unfold is_digit, dec_value, dec_value_from. simpl. lia.
Qed.

(** The redirects reported for a mapping are exactly the texts of the
    entries that send 504 or 524 to a different valid code, each once and in
    the default sort order. *)
Theorem disallowed_redirects_exact (m : jsstr) :
  (∀ t, t ∈ collectDisallowedStatusCodeRedirects m ↔
    ∃ k v from to, (k, v) ∈ mapping_entries m ∧
      parseStatusCodeKey k = Some from ∧ parseStatusCodeMappingTarget v = Some to ∧
      (from = 504 ∨ from = 524) ∧ from ≠ to ∧
      t = Z_to_str from ++ js " -> " ++ Z_to_str to) ∧
  NoDup (collectDisallowedStatusCodeRedirects m) ∧
  StronglySorted (λ a b, str_le a b = true) (collectDisallowedStatusCodeRedirects m).
Proof.
  unfold collectDisallowedStatusCodeRedirects. split_and!.
  - intros t. rewrite elem_of_sort_by, elem_of_dedup, list_elem_of_omap. split.
    + intros ([k v] & Hin & Hr). unfold risky_mapping in Hr. simpl in Hr.
      repeat (case_match; simplify_eq/=; try done). bool_prop.
      do 4 eexists. split_and!; [done..| |lia|done].
      unfold NON_REDIRECTABLE_STATUS_CODES in *. set_solver.
    + intros (k & v & from & to & Hin & Hk & Hv & Hf & Hne & ->). exists (k, v).
      split; [done|]. unfold risky_mapping. simpl. rewrite Hk, Hv.
      rewrite bool_decide_true by (unfold NON_REDIRECTABLE_STATUS_CODES; set_solver). simpl.
      by destruct (Z.eqb_spec from to).
  - apply NoDup_sort_by, NoDup_dedup.
  - apply sort_by_sorted; [apply str_le_total|apply str_le_trans].
Qed.

(** Saving asks for confirmation only about redirects the edit introduces:
    the new ones are those of the current mapping absent from the original, so
    none are reported when the risky redirects did not grow. *)
Theorem new_disallowed_redirects_exact (o c : jsstr) :
  (∀ t, t ∈ collectNewDisallowedStatusCodeRedirects o c ↔
    t ∈ collectDisallowedStatusCodeRedirects c ∧ t ∉ collectDisallowedStatusCodeRedirects o) ∧
  (collectNewDisallowedStatusCodeRedirects o c = [] ↔
    ∀ t, t ∈ collectDisallowedStatusCodeRedirects c → t ∈ collectDisallowedStatusCodeRedirects o).
Proof.
  assert (∀ t, t ∈ collectNewDisallowedStatusCodeRedirects o c ↔
    t ∈ collectDisallowedStatusCodeRedirects c ∧ t ∉ collectDisallowedStatusCodeRedirects o) as H.
  { intros t. unfold collectNewDisallowedStatusCodeRedirects. case_decide as E.
    - rewrite E. set_solver.
    - rewrite list_elem_of_filter. tauto. }
  split; [done|]. split.
  - intros E t Ht. destruct (decide (t ∈ collectDisallowedStatusCodeRedirects o)); [done|].
    destruct (not_elem_of_nil t). rewrite <- E. by apply H.
  - intros Hsub. destruct (collectNewDisallowedStatusCodeRedirects o c) as [|t l]; [done|].
    destruct (H t) as [[H1 H2] _]; [left|]. by apply Hsub in H1.
Qed.

(** The codes both parsers accept are HTTP status codes. *)
Lemma parseStatusCodeKey_range k n : parseStatusCodeKey k = Some n → 100 <= n <= 599.
Proof.
  unfold parseStatusCodeKey. destruct (three_digit_code (trim k)) eqn:E; simpl; [|done].
  intros [= <-]. by apply three_digit_value.
Qed.

End StatusCodeRiskGuard.
