(* ===== verification/ModelMapping.v ===== *)
(** * Channel models and model mappings

    [ModelMappingValidation] models
    web/default/src/features/channels/lib/model-mapping-validation.ts (the model
    list of a channel and the JSON object that redirects model names), and
    [UpstreamUpdates] models upstream-update-utils.ts in the same directory. *)

From stdpp Require Import base list strings gmap sorting.
From Stdlib Require Import ZArith Lia.
From S2P Require Import Prelude JsString JsNumber JsValue JsJson.
#[local] Open Scope Z_scope.

(** [xs.filter(Boolean)] on strings *)
Definition non_empty (l : list jsstr) : list jsstr := filter (λ s, is_empty s = false) l.

Lemma elem_of_non_empty s l : s ∈ non_empty l ↔ is_empty s = false ∧ s ∈ l.
Proof. unfold non_empty. by rewrite list_elem_of_filter. Qed.

Module ModelMappingValidation.

Definition parseModelsString (modelsStr : jsstr) : list jsstr :=
  if is_empty modelsStr then [] else non_empty (map trim (split_char 44 modelsStr)).

Definition formatModelsArray (models : list jsstr) : jsstr := join (js ",") (dedup models).

Definition normalizeModelName (model : jsval) : jsstr :=
  match model with JStr s => trim s | _ => [] end.

(** The entries of the mapping text, [None] when it is not a JSON object. *)
Definition object_entries (text : jsstr) : option (list (jsstr * jsval)) :=
  match JSON_parse text with
  | Throw => None
  | Ok parsed =>
      if not_plain_object parsed then None
      else match entries parsed with Ok es => Some es | Throw => None end
  end.

Definition extractMappingSourceModels (modelMapping : jsval) : list jsstr :=
  match modelMapping with
  | JStr s =>
      let trimmed := trim s in
      if is_empty trimmed then []
      else match object_entries trimmed with
           | None => []
           | Some es => dedup (non_empty (map trim (es.*1)))
           end
  | _ => []
  end.

(** [typeof value === 'string' ? value.trim() : undefined], then [Boolean] *)
Definition string_value (v : jsval) : option jsstr :=
  match v with
  | JStr s => if is_empty (trim s) then None else Some (trim s)
  | _ => None
  end.

Definition extractRedirectModels (modelMapping : jsval) : list jsstr :=
  match modelMapping with
  | JStr s =>
      let trimmed := trim s in
      if is_empty trimmed then []
      else match object_entries trimmed with
           | None => []
           | Some es => dedup (omap string_value (es.*2))
           end
  | _ => []
  end.

(** The element-wise loop over two arrays of the same length. *)
Fixpoint models_differ (current initial : list jsstr) : bool :=
  match current, initial with
  | a :: current', b :: initial' =>
      if bool_decide (a = b) then models_differ current' initial' else true
  | _, _ => false
  end.

Definition hasModelConfigChanged (currentModels : list jsstr) (currentModelMapping : jsstr)
    (initialModels : list jsstr) (initialModelMapping : jsstr) : bool :=
  if (length initialModels =? 0)%nat && is_empty initialModelMapping then true
  else if negb (length currentModels =? length initialModels)%nat then true
  else if models_differ currentModels initialModels then true
  else negb (bool_decide (trim currentModelMapping = trim initialModelMapping)).

Definition findMissingModelsInMapping (modelMapping : jsstr) (currentModels : list jsstr)
    : list jsstr :=
  if is_empty modelMapping || is_empty (trim modelMapping) then []
  else match object_entries modelMapping with
       | None => []
       | Some es =>
           let modelSet := map (λ m, normalizeModelName (JStr m)) currentModels in
           dedup (filter (λ key, is_empty key = false ∧ key ∉ modelSet)
                    (map (λ key, normalizeModelName (JStr key)) (es.*1)))
       end.

Inductive MappingError := NotAnObject | ValuesNotStrings | NotJson.

Definition error_text (e : MappingError) : jsstr :=
  match e with
  | NotAnObject => js "Model mapping must be a valid JSON object"
  | ValuesNotStrings => js "Model mapping values must be strings"
  | NotJson => js "Model mapping must be valid JSON format"
  end.

(** [None] is [{ valid: true }]; [Some e] is [{ valid: false, error }]. *)
Definition validateModelMappingJson (modelMapping : jsstr) : option MappingError :=
  if is_empty modelMapping || is_empty (trim modelMapping) then None
  else match JSON_parse modelMapping with
       | Throw => Some NotJson
       | Ok parsed =>
           if not_plain_object parsed then Some NotAnObject
           else match entries parsed with
                | Throw => Some NotJson
                | Ok es =>
                    if existsb (λ v, negb (is_string v)) (es.*2) then Some ValuesNotStrings
                    else None
                end
       end.

Definition findExposedTargetModels (modelMapping : jsval) (currentModels : list jsstr)
    : list jsstr :=
  let redirectModels := extractRedirectModels modelMapping in
  if decide (redirectModels = []) then []
  else
    let modelSet := map (λ m, normalizeModelName (JStr m)) currentModels in
    filter (λ model, normalizeModelName (JStr model) ∈ modelSet) redirectModels.

Record Categories := Categorized {
  normalizedCurrentModels : list jsstr;
  normalizedRedirectModels : list jsstr;
  classificationSet : list jsstr;
  redirectOnlySet : list jsstr
}.

Definition categorizeModelsWithRedirect (currentModels redirectModels : list jsstr)
    : Categories :=
  let normalizedCurrent :=
    dedup (non_empty (map (λ m, normalizeModelName (JStr m)) currentModels)) in
  let normalizedRedirect :=
    dedup (non_empty (map (λ m, normalizeModelName (JStr m)) redirectModels)) in
  Categorized normalizedCurrent normalizedRedirect
    (dedup (normalizedCurrent ++ normalizedRedirect))
    (dedup (filter (λ m, m ∉ normalizedCurrent) normalizedRedirect)).

(** ** The model list *)

Lemma parseModelsString_words s w :
  w ∈ parseModelsString s → trimmed w ∧ is_empty w = false ∧ 44 ∉ w.
Proof.
  unfold parseModelsString. destruct (is_empty s); [by intros ?%not_elem_of_nil|].
  rewrite elem_of_non_empty. intros [Hne (u & -> & Hu)%list_elem_of_fmap].
  split_and!; [apply trim_trimmed|done|].
  intros Hc%elem_of_trim. by apply split_char_no_sep in Hu.
Qed.

Lemma parseModelsString_join ws :
  Forall (λ w, trimmed w ∧ is_empty w = false ∧ 44 ∉ w) ws →
  parseModelsString (join (js ",") ws) = ws.
Proof.
  intros Hall. change (js ",") with [44]. unfold parseModelsString.
  destruct ws as [|w ws]; [done|].
  assert (is_empty (join [44] (w :: ws)) = false) as ->.
  { apply Forall_cons in Hall as [(_ & Hne & _) _]. by destruct w, ws. }
  rewrite split_join; [|done|eapply Forall_impl; [exact Hall|]; naive_solver].
  assert (map trim (w :: ws) = w :: ws) as ->.
  { rewrite <- map_id. apply map_ext_in. intros x Hx%list_elem_of_In.
    rewrite Forall_forall in Hall. apply trim_trimmed_id. by apply Hall. }
  apply list_filter_all. eapply Forall_impl; [exact Hall|]. naive_solver.
Qed.

(** Saving and reloading a model list keeps its distinct names: for any
    text typed by the user, parsing the formatted list of its models returns
    those models in order, without duplicates. *)
Theorem models_string_roundtrip (s : jsstr) :
  parseModelsString (formatModelsArray (parseModelsString s)) = dedup (parseModelsString s).
Proof.
  unfold formatModelsArray. apply parseModelsString_join. apply Forall_forall.
  intros w Hw. rewrite elem_of_dedup in Hw. exact (parseModelsString_words s w Hw).
Qed.

Lemma models_differ_spec a b :
  length a = length b → models_differ a b = false ↔ a = b.
Proof.
  revert b. induction a as [|x a IH]; intros [|y b] Hl; simplify_eq/=; [done|].
  case_bool_decide as E; [|by split; [|intros [= ? ?]]].
  subst. rewrite IH by lia. split; congruence.
Qed.

(** The form is reported unchanged exactly when it edits an existing
    configuration (some initial model or mapping) and both the model list and
    the trimmed mapping text are what they were. *)
Theorem hasModelConfigChanged_exact (cm : list jsstr) (cmap : jsstr) (im : list jsstr)
    (imap : jsstr) :
  hasModelConfigChanged cm cmap im imap = false ↔
  (im ≠ [] ∨ imap ≠ []) ∧ cm = im ∧ trim cmap = trim imap.
Proof.
  unfold hasModelConfigChanged.
  destruct ((length im =? 0)%nat && is_empty imap) eqn:E0.
  { apply andb_true_iff in E0 as [E1 E2]. apply Nat.eqb_eq, nil_length_inv in E1 as ->.
    destruct imap; naive_solver. }
  assert (im ≠ [] ∨ imap ≠ []) as Hne.
  { destruct im, imap; naive_solver. }
  destruct (Nat.eqb_spec (length cm) (length im)) as [El|El]; simpl.
  2:{ split; [done|]. intros (_ & -> & _). done. }
  destruct (models_differ cm im) eqn:Em.
  - split; [done|]. intros (_ & E & _). apply (models_differ_spec _ _ El) in E. congruence.
  - apply models_differ_spec in Em; [|done]. rewrite negb_false_iff, bool_decide_eq_true.
    naive_solver.
Qed.

(** ** Missing and exposed models *)

Lemma elem_of_missing m ms key :
  key ∈ findMissingModelsInMapping m ms ↔
  is_empty (trim m) = false ∧
  ∃ es k, object_entries m = Some es ∧ k ∈ es.*1 ∧ key = trim k ∧
          is_empty key = false ∧ key ∉ map trim ms.
Proof.
  unfold findMissingModelsInMapping.
  assert (is_empty m || is_empty (trim m) = is_empty (trim m)) as -> by (by destruct m).
  destruct (is_empty (trim m)); [split; [by intros ?%not_elem_of_nil|naive_solver]|].
  destruct (object_entries m) as [es|]; [|split; [by intros ?%not_elem_of_nil|naive_solver]].
  rewrite elem_of_dedup, list_elem_of_filter. simpl. split.
  - intros [[H1 H2] (k & -> & Hk)%list_elem_of_fmap]. split; [done|]. by exists es, k.
  - intros (_ & es' & k & [= <-] & Hk & -> & H1 & H2). split; [done|].
    apply list_elem_of_fmap. eauto.
Qed.

(** Adding the reported missing models to the channel's list settles the
    check: nothing is missing afterwards, whatever the mapping and the list. *)
Theorem adding_missing_models_settles (m : jsstr) (ms : list jsstr) :
  findMissingModelsInMapping m (ms ++ findMissingModelsInMapping m ms) = [].
Proof.
  destruct (findMissingModelsInMapping m (ms ++ findMissingModelsInMapping m ms)) as [|key l] eqn:E;
    [done|].
  assert (key ∈ findMissingModelsInMapping m (ms ++ findMissingModelsInMapping m ms)) as Hk
    by (rewrite E; left).
  apply elem_of_missing in Hk as (Hm & es & k & He & Hk & -> & Hne & Hnin).
  exfalso. apply Hnin. rewrite map_app, elem_of_app. right.
  destruct (decide (trim k ∈ map trim ms)) as [Hin|Hnin'].
  { exfalso. apply Hnin. rewrite map_app, elem_of_app. by left. }
  apply list_elem_of_fmap. exists (trim k). split; [by rewrite trim_idemp|].
  apply elem_of_missing. split; [done|]. by exists es, k.
Qed.

Lemma extractRedirectModels_trimmed m w : w ∈ extractRedirectModels m → trim w = w.
Proof.
  unfold extractRedirectModels. destruct m; try by intros ?%not_elem_of_nil.
  repeat case_match; try by intros ?%not_elem_of_nil.
  rewrite elem_of_dedup, list_elem_of_omap. intros (v & _ & Hv).
  unfold string_value in Hv. repeat case_match; simplify_eq. apply trim_idemp.
Qed.

Lemma elem_of_exposed m ms w :
  w ∈ findExposedTargetModels m ms ↔ w ∈ extractRedirectModels m ∧ w ∈ map trim ms.
Proof.
  unfold findExposedTargetModels. case_decide as E.
  { rewrite E. set_solver. }
  rewrite list_elem_of_filter. simpl. split.
  - intros [H1 H2]. rewrite (extractRedirectModels_trimmed m) in H1 by done. done.
  - intros [H1 H2]. rewrite (extractRedirectModels_trimmed m) by done. done.
Qed.

(** Removing the exposed redirect targets from the model list leaves none
    exposed and removes nothing else. *)
Theorem removing_exposed_targets_settles (m : jsval) (ms : list jsstr) :
  let kept := filter (λ x, trim x ∉ findExposedTargetModels m ms) ms in
  findExposedTargetModels m kept = [] ∧
  ∀ x, x ∈ ms → x ∉ kept → trim x ∈ extractRedirectModels m.
Proof.
  intros kept. split.
  - destruct (findExposedTargetModels m kept) as [|w l] eqn:E; [done|].
    assert (w ∈ findExposedTargetModels m kept) as Hw by (rewrite E; left).
    apply elem_of_exposed in Hw as [Hr (x & -> & Hx)%list_elem_of_fmap].
    apply list_elem_of_filter in Hx as [Hnin Hx]. exfalso. apply Hnin, elem_of_exposed.
    split; [done|]. apply list_elem_of_fmap. eauto.
  - intros x Hx Hnk. destruct (decide (trim x ∈ findExposedTargetModels m ms)) as [Hin|Hnin].
    + by apply elem_of_exposed in Hin as [? _].
    + exfalso. apply Hnk, list_elem_of_filter. done.
Qed.

(** The categories shown in the model picker partition the names: the
    classification is the disjoint union of the current models and the
    redirect-only ones, without duplicates, and the redirect-only ones are the
    redirect targets that are not current. *)
Theorem categorize_partition (cur red : list jsstr) :
  let c := categorizeModelsWithRedirect cur red in
  classificationSet c ≡ₚ normalizedCurrentModels c ++ redirectOnlySet c ∧
  NoDup (classificationSet c) ∧
  (∀ m, m ∈ redirectOnlySet c ↔
        m ∈ normalizedRedirectModels c ∧ m ∉ normalizedCurrentModels c) ∧
  (∀ m, m ∈ normalizedCurrentModels c ↔ is_empty m = false ∧ m ∈ map trim cur).
Proof.
  simpl. set (nc := dedup (non_empty (map _ cur))). set (nr := dedup (non_empty (map _ red))).
  assert (NoDup nc) by apply NoDup_dedup.
  assert (∀ m, m ∈ dedup (filter (λ m, m ∉ nc) nr) ↔ m ∈ nr ∧ m ∉ nc) as Hro.
  { intros m. rewrite elem_of_dedup, list_elem_of_filter. tauto. }
  split_and!; [|apply NoDup_dedup|done|].
  - apply NoDup_Permutation; [apply NoDup_dedup| |].
    + apply NoDup_app. split_and!; [done| |apply NoDup_dedup].
      intros m Hm Hr. rewrite Hro in Hr. tauto.
    + intros m. rewrite elem_of_dedup, !elem_of_app, Hro.
      destruct (decide (m ∈ nc)); tauto.
  - intros m. unfold nc. rewrite elem_of_dedup, elem_of_non_empty. done.
Qed.

(** ** Validation *)

(** A non-blank mapping passes validation exactly when it is the JSON text
    of an object all of whose values are strings; the redirect targets
    extracted from it are then the trimmed values that are not blank. *)
Theorem validateModelMappingJson_exact (m : jsstr) (Hm : is_empty (trim m) = false) :
  (validateModelMappingJson m = None ↔
   ∃ o, JSON_parse m = Ok (JObj o) ∧ Forall (λ kv, is_string kv.2 = true) o) ∧
  (∀ o, JSON_parse (trim m) = Ok (JObj o) →
     ∀ w, w ∈ extractRedirectModels (JStr m) ↔
          is_empty w = false ∧ ∃ k v, (k, JStr v) ∈ o ∧ w = trim v).
Proof.
  split.
  - unfold validateModelMappingJson.
    assert (is_empty m || is_empty (trim m) = false) as -> by (rewrite Hm; by destruct m).
    destruct (JSON_parse m) as [v|]; [|split; [done|naive_solver]].
    destruct (not_plain_object v) eqn:E.
    { split; [done|]. intros (o & [= ->] & _). done. }
    apply not_plain_object_false in E as [o ->]. simpl.
    assert (existsb (λ v, negb (is_string v)) (o.*2) = false ↔
            Forall (λ kv, is_string kv.2 = true) o) as Hex.
    { induction o as [|kv o IH]; simpl; [split; [constructor|done]|].
      rewrite orb_false_iff, negb_false_iff, IH, Forall_cons. done. }
    split.
    + intros H. exists o. split; [done|]. apply Hex. by case_match.
    + intros (o' & [= <-] & Ho). apply Hex in Ho. by rewrite Ho.
  - intros o Ho w. unfold extractRedirectModels. rewrite Hm. unfold object_entries.
    rewrite Ho. simpl. rewrite elem_of_dedup, list_elem_of_omap. split.
    + intros (v & ([k v'] & -> & Hin)%list_elem_of_fmap & Hv). simpl in Hv.
      unfold string_value in Hv. repeat case_match; simplify_eq. eauto.
    + intros (Hne & k & v & Hin & ->). exists (JStr v). split.
      * apply list_elem_of_fmap. by exists (k, JStr v).
      * unfold string_value. by rewrite Hne.
Qed.

Lemma validateModelMappingJson_exact_witness :
  let m := js "{}" in
  validateModelMappingJson m = None ↔
  ∃ o, JSON_parse m = Ok (JObj o) ∧ Forall (λ kv, is_string kv.2 = true) o.
Proof. apply (validateModelMappingJson_exact (js "{}")). vm_compute; reflexivity. Defined.

End ModelMappingValidation.

(** * Models detected upstream *)

Module UpstreamUpdates.

(** [String(model || '').trim()] *)
Definition model_text (model : jsval) : res jsstr :=
  res_map trim (to_str (js_or model (JStr []))).

(** [models] is only iterated when it is an array; a truthy value without a
    [map] method makes the call throw. *)
Definition normalizeModelList (models : jsval) : res (list jsstr) :=
  match js_or models (JArr []) with
  | JArr l => res_map (λ ts, dedup (non_empty ts)) (res_mapM model_text l)
  | _ => Throw
  end.

Record UpdateMeta := Meta {
  enabled : bool;
  pendingAddModels : list jsstr;
  pendingRemoveModels : list jsstr
}.

(** [parsed]: the settings object itself, or its parsed text. *)
Definition settings_object (settings : jsval) : jsval :=
  if truthy settings && is_object_type settings && negb (is_array settings) then settings
  else match settings with
       | JStr s => catch (JSON_parse s) JNull
       | _ => JNull
       end.

Definition parseUpstreamUpdateMeta (settings : jsval) : res UpdateMeta :=
  let parsed := settings_object settings in
  if negb (truthy parsed) || negb (is_object_type parsed) then Ok (Meta false [] [])
  else
    let field k := get_prop_opt (js k) parsed in
    let* adds := normalizeModelList
      (js_or (field "upstream_model_update_last_detected_models"%string) (JArr [])) in
    let* removes := normalizeModelList
      (js_or (field "upstream_model_update_last_removed_models"%string) (JArr [])) in
    Ok (Meta (is_true (field "upstream_model_update_check_enabled"%string)) adds removes).

Lemma normalizeModelList_clean models l :
  normalizeModelList models = Ok l →
  NoDup l ∧ ∀ w, w ∈ l → trimmed w ∧ is_empty w = false.
Proof.
  unfold normalizeModelList. destruct (js_or models (JArr [])); try done.
  intros (ts & Hts & ->)%res_map_Ok. split; [apply NoDup_dedup|].
  intros w Hw. rewrite elem_of_dedup, elem_of_non_empty in Hw. destruct Hw as [Hne Hw].
  split; [|done]. apply res_mapM_ok in Hts.
  apply list_elem_of_lookup in Hw as [i Hi].
  eapply Forall2_lookup_r in Hts as (v & _ & Hv); [|exact Hi].
  unfold model_text in Hv. apply res_map_Ok in Hv as (s & _ & ->). apply trim_trimmed.
Qed.

(** The pending upstream changes of a channel, whenever they can be read,
    are duplicate-free lists of trimmed, non-empty model names; settings that
    are not an object (or are unreadable text) yield no pending change and a
    disabled check instead of an error. *)
Theorem upstream_update_meta_clean (settings : jsval) :
  (∀ meta, parseUpstreamUpdateMeta settings = Ok meta →
     (NoDup (pendingAddModels meta) ∧ NoDup (pendingRemoveModels meta)) ∧
     ∀ w, w ∈ pendingAddModels meta ++ pendingRemoveModels meta →
          trimmed w ∧ is_empty w = false) ∧
  (∀ s, settings = JStr s → JSON_parse s = Throw →
     parseUpstreamUpdateMeta settings = Ok (Meta false [] [])).
Proof.
  split.
  - intros meta. unfold parseUpstreamUpdateMeta. case_match.
    { intros [= <-]. simpl. split; [split; constructor|]. by intros w ?%not_elem_of_nil. }
    intros (adds & Ea & (rems & Er & [= <-])%res_bind_Ok)%res_bind_Ok.
    cbn [pendingAddModels pendingRemoveModels].
    apply normalizeModelList_clean in Ea as [Ha1 Ha2], Er as [Hr1 Hr2].
    split; [done|]. intros w [?|?]%elem_of_app; [by apply Ha2|by apply Hr2].
  - intros s -> Hp. unfold parseUpstreamUpdateMeta, settings_object. simpl.
    rewrite Hp. simpl. by destruct (is_empty s).
Qed.

End UpstreamUpdates.
