(* ===== verification/AdvancedCustom.v ===== *)
(** * Advanced custom channels

    The route table of an "advanced custom" channel
    ([features/channels/lib/advanced-custom.ts]): the option tables of the
    editor, the configuration templates, and parsing, normalisation,
    validation and printing of a configuration.

    A configuration comes out of [JSON.parse] and is cast, not checked, so it
    is a [jsval]: reading a field of a route that is [null], or calling
    [trim] on a field that is not a string, throws.  [new URL] is a parameter
    ([UrlParser]); the theorems assume nothing of it. *)

From stdpp Require Import base list strings gmap sorting.
From Stdlib Require Import ZArith Lia.
From S2P Require Import Prelude JsString JsNumber JsValue JsJson.
#[local] Open Scope Z_scope.

(** [new URL(value)]: the parts the code reads, or a [TypeError]. *)
Record URLParts := Url { host : jsstr; protocol : jsstr }.
Class UrlParser := new_URL : jsstr → res URLParts.

Module AdvancedCustom.

(** ** Option tables *)

Record Option := Opt { value : jsstr; label : jsstr }.

Definition CHANNEL_TYPE_ADVANCED_CUSTOM : Z := 58.
Definition ADVANCED_CUSTOM_MODEL_LIST_PATH : jsstr := js "/v1/models".

Definition opt (p : string * string) : Option := Opt (js p.1) (js p.2).

Definition ADVANCED_CUSTOM_CONVERTER_OPTIONS : list Option :=
  map opt
    [("none", "Native forwarding");
     ("anthropic_messages_to_openai_chat_completions", "Anthropic Messages to OpenAI Chat");
     ("openai_chat_completions_to_anthropic_messages", "OpenAI Chat to Anthropic Messages");
     ("openai_chat_completions_to_openai_responses", "OpenAI Chat to OpenAI Responses");
     ("gemini_generate_content_to_openai_chat_completions",
      "Gemini Generate Content to OpenAI Chat");
     ("openai_chat_completions_to_gemini_generate_content",
      "OpenAI Chat to Gemini Generate Content")]%string.

Definition ADVANCED_CUSTOM_AUTH_MODE_OPTIONS : list Option :=
  map opt
    [("default", "Default Bearer"); ("none", "No Auth"); ("header", "Header");
     ("query", "Query")]%string.

Definition ADVANCED_CUSTOM_INCOMING_PATH_OPTIONS : list Option :=
  map opt
    [("/v1/chat/completions", "OpenAI Chat");
     ("/v1/responses", "OpenAI Responses");
     ("/v1/responses/compact", "OpenAI Responses Compact");
     ("/v1/models", "OpenAI Models");
     ("/v1/embeddings", "OpenAI Embeddings");
     ("/v1/images/generations", "OpenAI Image Generations");
     ("/v1/images/edits", "OpenAI Image Edits");
     ("/v1/completions", "OpenAI Completions");
     ("/v1/audio/speech", "OpenAI Audio Speech");
     ("/v1/audio/transcriptions", "OpenAI Audio Transcriptions");
     ("/v1/audio/translations", "OpenAI Audio Translations");
     ("/v1/rerank", "OpenAI Rerank");
     ("/v1/realtime", "OpenAI Realtime");
     ("/v1/messages", "Claude Messages");
     ("/v1beta/models/{model}:generateContent", "Gemini Generate Content");
     ("/v1beta/models/{model}:embedContent", "Gemini Embed Content");
     ("/v1beta/models/{model}:batchEmbedContents", "Gemini Batch Embed Contents")]%string.

Definition ADVANCED_CUSTOM_ROUTE_SUMMARY_LABELS : list (jsstr * jsval) :=
  [(js "/v1/chat/completions", JStr (js "OpenAI Chat"));
   (ADVANCED_CUSTOM_MODEL_LIST_PATH, JStr (js "OpenAI Models"))].

Record AdvancedCustomValidationError := ValidationError {
  message : jsstr;
  routeIndex : option nat;
}.

(** ** Templates *)

Definition str_obj (fields : list (string * string)) : jsval :=
  JObj (map (λ f, (js f.1, JStr (js f.2))) fields).

Definition bearerHeaderAuth : jsval :=
  str_obj [("type", "header"); ("name", "Authorization"); ("value", "Bearer {api_key}")]%string.
Definition apiKeyHeaderAuth : jsval :=
  str_obj [("type", "header"); ("name", "x-api-key"); ("value", "{api_key}")]%string.
Definition geminiQueryAuth : jsval :=
  str_obj [("type", "query"); ("name", "key"); ("value", "{api_key}")]%string.

(** A route literal: incoming path, upstream path, converter, auth. *)
Definition template_route (incoming upstream converter : string) (auth : jsval) : jsval :=
  JObj [(js "incoming_path", JStr (js incoming)); (js "upstream_path", JStr (js upstream));
        (js "converter", JStr (js converter)); (js "auth", auth)].

Definition config_of (routes : list jsval) : jsval :=
  JObj [(js "advanced_routes", JArr routes)].

Record TemplateOption := Template { tvalue : jsstr; tlabel : jsstr; config : jsval }.

Definition same_route (path : string) (auth : jsval) : jsval := template_route path path "none" auth.

Definition ADVANCED_CUSTOM_TEMPLATE_OPTIONS : list TemplateOption :=
  [Template (js "official_openai_chat") (js "Official OpenAI Chat")
     (config_of [same_route "/v1/chat/completions" bearerHeaderAuth]);
   Template (js "official_openai_responses") (js "Official OpenAI Responses")
     (config_of [same_route "/v1/responses" bearerHeaderAuth]);
   Template (js "official_openai_embeddings") (js "Official OpenAI Embeddings")
     (config_of [same_route "/v1/embeddings" bearerHeaderAuth]);
   Template (js "official_openai_images") (js "Official OpenAI Images")
     (config_of [same_route "/v1/images/generations" bearerHeaderAuth;
                 same_route "/v1/images/edits" bearerHeaderAuth]);
   Template (js "official_claude_messages") (js "Official Claude Messages")
     (config_of [same_route "/v1/messages" apiKeyHeaderAuth]);
   Template (js "official_gemini_native") (js "Official Gemini Native")
     (config_of [same_route "/v1beta/models/{model}:generateContent" geminiQueryAuth;
                 same_route "/v1beta/models/{model}:embedContent" geminiQueryAuth;
                 same_route "/v1beta/models/{model}:batchEmbedContents" geminiQueryAuth]);
   Template (js "official_gemini_from_openai_chat") (js "Official Gemini from OpenAI Chat")
     (config_of [template_route "/v1/chat/completions"
                   "/v1beta/models/{model}:generateContent"
                   "openai_chat_completions_to_gemini_generate_content" geminiQueryAuth])].

Definition cloneAdvancedCustomConfig (config : jsval) : res jsval :=
  match JSON_stringify config with Some text => JSON_parse text | None => Throw end.

(** [find(..) || ADVANCED_CUSTOM_TEMPLATE_OPTIONS[0]]; the table has a first
    entry, so the last case does not arise. *)
Definition getAdvancedCustomTemplateConfig (templateKey : jsstr) : res jsval :=
  match List.find (λ o, bool_decide (tvalue o = templateKey)) ADVANCED_CUSTOM_TEMPLATE_OPTIONS,
        ADVANCED_CUSTOM_TEMPLATE_OPTIONS with
  | Some template, _ => cloneAdvancedCustomConfig (config template)
  | None, first :: _ => cloneAdvancedCustomConfig (config first)
  | None, [] => Throw
  end.

Definition createAdvancedCustomRoute : jsval :=
  str_obj [("incoming_path", "/v1/chat/completions"); ("upstream_path", "/v1/chat/completions");
           ("converter", "none")]%string.

Definition createAdvancedCustomConfig : jsval := config_of [createAdvancedCustomRoute].

Definition getAdvancedCustomUpstreamPathPlaceholder (converter : jsstr) : jsstr :=
  if decide (converter = js "openai_chat_completions_to_gemini_generate_content")
  then js "/v1beta/models/{model}:generateContent"
  else if decide (converter = js "openai_chat_completions_to_anthropic_messages")
  then js "/v1/messages"
  else js "/v1/chat/completions".

(** ** Converters and paths *)

(** The converter may be any value of a parsed route. *)
Definition isConverterPathAllowed (incomingPath : jsstr) (converter : jsval) : bool :=
  if is_str (js "none") converter then true
  else if is_str (js "anthropic_messages_to_openai_chat_completions") converter
  then bool_decide (incomingPath = js "/v1/messages")
  else if is_str (js "openai_chat_completions_to_anthropic_messages") converter
       || is_str (js "openai_chat_completions_to_openai_responses") converter
       || is_str (js "openai_chat_completions_to_gemini_generate_content") converter
  then bool_decide (incomingPath = js "/v1/chat/completions")
  else includes (js ":generateContent") incomingPath
       || includes (js ":streamGenerateContent") incomingPath.

Definition isAdvancedCustomConverter (v : jsval) : bool :=
  existsb (λ o, is_str (value o) v) ADVANCED_CUSTOM_CONVERTER_OPTIONS.

Definition getAdvancedCustomIncomingPathOptions (converter : jsstr) : list Option :=
  filter (λ o, isConverterPathAllowed (value o) (JStr converter) = true)
    ADVANCED_CUSTOM_INCOMING_PATH_OPTIONS.

(** [options[0]?.value || '/v1/chat/completions'] *)
Definition getDefaultAdvancedCustomIncomingPath (converter : jsstr) : jsstr :=
  match getAdvancedCustomIncomingPathOptions converter with
  | o :: _ => if is_empty (value o) then js "/v1/chat/completions" else value o
  | [] => js "/v1/chat/completions"
  end.

Definition isAdvancedCustomIncomingPathAllowed (incomingPath converter : jsstr) : bool :=
  isConverterPathAllowed incomingPath (JStr converter).

Definition getAdvancedCustomConverterOptions (incomingPath : jsstr) : list Option :=
  let normalizedIncomingPath := trim incomingPath in
  filter (λ o, bool_decide (value o = js "none")
               || isConverterPathAllowed normalizedIncomingPath (JStr (value o)) = true)
    ADVANCED_CUSTOM_CONVERTER_OPTIONS.

Definition getAdvancedCustomIncomingPathLabel (v : jsstr) : jsstr :=
  match List.find (λ o, bool_decide (value o = v)) ADVANCED_CUSTOM_INCOMING_PATH_OPTIONS with
  | Some o => if is_empty (label o) then v else label o
  | None => v
  end.

(** ** Normalisation, parsing and printing *)

Definition getAdvancedCustomRouteUpstreamPath (route : jsval) : res jsstr :=
  let* upstream := get_prop (js "upstream_path") route in
  js_trim (js_or upstream (JStr [])).

Definition normalizeRouteAuth (auth : jsval) : res jsval :=
  let* type := get_prop (js "type") auth in
  let* name := get_prop (js "name") auth in
  let* val := get_prop (js "value") auth in
  Ok (JObj [(js "type", type); (js "name", js_or name (JStr []));
            (js "value", js_or val (JStr []))]).

Definition normalizeAdvancedCustomRoute (route : jsval) : res jsval :=
  let* incoming := get_prop (js "incoming_path") route in
  let* upstream := getAdvancedCustomRouteUpstreamPath route in
  let* converter := get_prop (js "converter") route in
  let* auth := get_prop (js "auth") route in
  let nextRoute :=
    [(js "incoming_path", js_or incoming (JStr []));
     (js "upstream_path", JStr upstream);
     (js "converter", js_or converter (JStr (js "none")))] in
  if truthy auth then
    let* auth' := normalizeRouteAuth auth in
    Ok (JObj (nextRoute ++ [(js "auth", auth')]))
  else Ok (JObj nextRoute).

Definition normalizeAdvancedCustomConfig (config : jsval) : res jsval :=
  let* advanced_routes := get_prop (js "advanced_routes") config in
  let* routes :=
    match advanced_routes with
    | JArr l => res_mapM normalizeAdvancedCustomRoute l
    | _ => Ok []
    end in
  Ok (config_of routes).

Definition parseAdvancedCustomConfig (v : option jsstr) : option jsval :=
  match v with
  | None => None
  | Some text =>
      if is_empty (trim text) then None
      else
        catch
          (let* parsed := JSON_parse text in
           if not_plain_object parsed then Ok None
           else res_map Some (normalizeAdvancedCustomConfig parsed))
          None
  end.

(** [JSON.stringify(.., null, 2)]; [None] would be [undefined]. *)
Definition stringifyAdvancedCustomConfig (config : jsval) : res (option jsstr) :=
  res_map JSON_stringify_pretty (normalizeAdvancedCustomConfig config).

(** [normalized.advanced_routes || []] *)
Definition config_routes (normalized : jsval) : res (list jsval) :=
  let* routes := get_prop (js "advanced_routes") normalized in
  Ok match js_or routes (JArr []) with JArr l => l | _ => [] end.

(** ** Validation *)

Definition validateRouteAuth (auth : jsval) : res (option jsstr) :=
  if negb (truthy auth) then Ok None
  else
    let* type := get_prop (js "type") auth in
    if is_str (js "none") type then Ok None
    else if negb (is_str (js "header") type) && negb (is_str (js "query") type)
    then Ok (Some (js "Auth type is invalid"))
    else
      let* name := get_prop (js "name") auth in
      let* name' := js_trim_or_empty name in
      if is_empty name' then Ok (Some (js "Auth name is required"))
      else
        let* val := get_prop (js "value") auth in
        let* val' := js_trim_or_empty val in
        if is_empty val' then Ok (Some (js "Auth value is required"))
        else Ok None.

Section url.
Context {url : UrlParser}.

Definition isFullHttpURLOrAbsolutePath (v : jsstr) : bool :=
  if starts_with (js "/") v then negb (starts_with (js "//") v)
  else catch (let* parsed := new_URL v in
              Ok (negb (is_empty (host parsed))
                  && (bool_decide (protocol parsed = js "http:")
                      || bool_decide (protocol parsed = js "https:")))) false.

Definition fail_at (index : nat) (msg : string) : res (option AdvancedCustomValidationError) :=
  Ok (Some (ValidationError (js msg) (Some index))).

(** The loop over the routes, with the paths already seen. *)
Fixpoint validate_routes (index : nat) (seenPaths : list jsstr) (routes : list jsval)
    : res (option AdvancedCustomValidationError) :=
  match routes with
  | [] => Ok None
  | route :: routes' =>
      let* incoming := get_prop (js "incoming_path") route in
      let* incomingPath := js_trim_or_empty incoming in
      let* upstreamPath := getAdvancedCustomRouteUpstreamPath route in
      let* conv := get_prop (js "converter") route in
      let converter := js_or conv (JStr (js "none")) in
      if is_empty incomingPath then fail_at index "Incoming path is required"
      else if negb (starts_with (js "/") incomingPath)
      then fail_at index "Incoming path must start with /"
      else if includes (js "?") incomingPath
      then fail_at index "Incoming path must not include query"
      else if bool_decide (incomingPath = ADVANCED_CUSTOM_MODEL_LIST_PATH)
              && negb (is_str (js "none") converter)
      then fail_at index "OpenAI Models route must use native forwarding"
      else if bool_decide (incomingPath = ADVANCED_CUSTOM_MODEL_LIST_PATH)
              && includes (js "{model}") upstreamPath
      then fail_at index "OpenAI Models upstream path must not contain {model}"
      else if bool_decide (incomingPath ∈ seenPaths)
      then fail_at index "Incoming path must be unique"
      else if is_empty upstreamPath then fail_at index "Upstream path is required"
      else if negb (isFullHttpURLOrAbsolutePath upstreamPath)
      then fail_at index "Upstream path must be a full URL or a path starting with /"
      else if negb (isAdvancedCustomConverter converter)
      then fail_at index "Converter is not registered"
      else if negb (isConverterPathAllowed incomingPath converter)
      then fail_at index "Converter does not match incoming path"
      else
        let* auth := get_prop (js "auth") route in
        let* authError := validateRouteAuth auth in
        match authError with
        | Some e =>
            if is_empty e then validate_routes (S index) (incomingPath :: seenPaths) routes'
            else Ok (Some (ValidationError e (Some index)))
        | None => validate_routes (S index) (incomingPath :: seenPaths) routes'
        end
  end.

Definition validateAdvancedCustomConfig (config : jsval)
    : res (option AdvancedCustomValidationError) :=
  if negb (truthy config)
  then Ok (Some (ValidationError (js "Advanced custom configuration is required") None))
  else
    let* normalized := normalizeAdvancedCustomConfig config in
    let* routes := config_routes normalized in
    match routes with
    | [] => Ok (Some (ValidationError
                        (js "Advanced custom configuration requires at least one route") None))
    | _ => validate_routes 0 [] routes
    end.

(** [route.incoming_path?.trim() === ADVANCED_CUSTOM_MODEL_LIST_PATH] *)
Definition is_model_list_route (route : jsval) : res bool :=
  let* incoming := get_prop (js "incoming_path") route in
  let* path := js_trim_opt incoming in
  Ok (is_str ADVANCED_CUSTOM_MODEL_LIST_PATH path).

(** [Array.prototype.some] with a predicate that may throw *)
Fixpoint res_some {A} (f : A → res bool) (l : list A) : res bool :=
  match l with
  | [] => Ok false
  | x :: l' => let* b := f x in if (b : bool) then Ok true else res_some f l'
  end.

Definition hasValidAdvancedCustomModelListRoute (config : jsval) : res bool :=
  if negb (truthy config) then Ok false
  else
    let* err := validateAdvancedCustomConfig config in
    match err with
    | Some _ => Ok false
    | None =>
        let* normalized := normalizeAdvancedCustomConfig config in
        let* routes := config_routes normalized in
        res_some is_model_list_route routes
    end.

Definition advancedCustomConfigUsesRelativeUpstreamPath (config : jsval) : res bool :=
  if negb (truthy config) then Ok false
  else
    let* normalized := normalizeAdvancedCustomConfig config in
    let* routes := config_routes normalized in
    res_some (λ route, let* up := getAdvancedCustomRouteUpstreamPath route in
                       Ok (starts_with (js "/") up)) routes.

(** ** Summary of a stored configuration *)

(** The label table is a plain object, so a path such as [constructor] reads
    an inherited member; the label is then that member and not a string. *)
Definition getAdvancedCustomRouteSummaryLabel (route : jsval) : res (option jsval) :=
  let* incoming := get_prop (js "incoming_path") route in
  let* incomingPath := js_trim_or_empty incoming in
  if is_empty incomingPath then Ok None
  else Ok (Some (js_or (obj_get incomingPath ADVANCED_CUSTOM_ROUTE_SUMMARY_LABELS)
                       (JStr (getAdvancedCustomIncomingPathLabel incomingPath)))).

(** [===] on the labels, which are strings or inherited functions *)
Definition same_label (a b : jsval) : bool :=
  match a, b with
  | JStr s, JStr t => bool_decide (s = t)
  | JFun f, JFun g => bool_decide (f = g)
  | _, _ => false
  end.

Fixpoint collect_labels (labels : list jsval) (routes : list jsval) : res (list jsval) :=
  match routes with
  | [] => Ok labels
  | route :: routes' =>
      let* label := getAdvancedCustomRouteSummaryLabel route in
      match label with
      | Some l =>
          if negb (truthy l) || existsb (same_label l) labels then collect_labels labels routes'
          else collect_labels (labels ++ [l]) routes'
      | None => collect_labels labels routes'
      end
  end.

Record Stats := Stat { routeCount : nat; valid : bool; routeTypeLabels : list jsval }.

Definition getAdvancedCustomStats (v : option jsstr) : res Stats :=
  match parseAdvancedCustomConfig v with
  | None => Ok (Stat 0 false [])
  | Some config =>
      let* normalized := normalizeAdvancedCustomConfig config in
      let* routes := config_routes normalized in
      let* labels := collect_labels [] routes in
      let* err := validateAdvancedCustomConfig normalized in
      Ok (Stat (length routes) (is_none err) labels)
  end.
End url.

(** ** Authentication editor *)

Definition getAdvancedCustomAuthMode (route : jsval) : res jsval :=
  let* auth := get_prop (js "auth") route in
  Ok (js_or (get_prop_opt (js "type") auth) (JStr (js "default"))).

Definition buildAdvancedCustomAuth (mode : jsstr) (previousAuth : jsval) : jsval :=
  let auth type name val :=
    JObj [(js "type", JStr (js type));
          (js "name", js_or (get_prop_opt (js "name") previousAuth) (JStr (js name)));
          (js "value", js_or (get_prop_opt (js "value") previousAuth) (JStr (js val)))] in
  if decide (mode = js "default") then JUndef
  else if decide (mode = js "none") then JObj [(js "type", JStr (js "none"))]
  else if decide (mode = js "header") then auth "header" "Authorization" "Bearer {api_key}"
  else auth "query" "api_key" "{api_key}".

(** ** Normalised routes

    What normalisation returns, as a typed record: the fields of the
    interface [AdvancedCustomRoute] after their defaults were filled in. *)

Record AdvancedCustomRouteAuth := Auth { type : jsval; name : jsval; auth_value : jsval }.
Record AdvancedCustomRoute := Route {
  incoming_path : jsval;
  upstream_path : jsstr;
  converter : jsval;
  auth : option AdvancedCustomRouteAuth;
}.

Definition auth_val (a : AdvancedCustomRouteAuth) : jsval :=
  JObj [(js "type", type a); (js "name", name a); (js "value", auth_value a)].

Definition route_val (r : AdvancedCustomRoute) : jsval :=
  JObj ([(js "incoming_path", incoming_path r); (js "upstream_path", JStr (upstream_path r));
         (js "converter", converter r)]
        ++ match auth r with Some a => [(js "auth", auth_val a)] | None => [] end).

(** A field that was defaulted to the empty string. *)
Definition defaulted (v : jsval) : Prop := js_or v (JStr []) = v.

Definition normal_route (r : AdvancedCustomRoute) : Prop :=
  defaulted (incoming_path r) ∧ trimmed (upstream_path r) ∧ truthy (converter r) = true ∧
  match auth r with Some a => defaulted (name a) ∧ defaulted (auth_value a) | None => True end.

(** ** What a valid configuration is *)

Section spec.
Context {url : UrlParser}.

Definition auth_ok (a : option AdvancedCustomRouteAuth) : Prop :=
  match a with
  | None => True
  | Some a =>
      type a = JStr (js "none") ∨
      (type a = JStr (js "header") ∨ type a = JStr (js "query")) ∧
      ∃ n v, name a = JStr n ∧ auth_value a = JStr v ∧
             is_empty (trim n) = false ∧ is_empty (trim v) = false
  end.

(** A route serving the incoming path [p]. *)
Definition route_ok (r : AdvancedCustomRoute) (p : jsstr) : Prop :=
  (∃ inc, incoming_path r = JStr inc ∧ p = trim inc) ∧
  (∃ rest, p = js "/" ++ rest) ∧ includes (js "?") p = false ∧
  (p = ADVANCED_CUSTOM_MODEL_LIST_PATH →
     converter r = JStr (js "none") ∧ includes (js "{model}") (upstream_path r) = false) ∧
  is_empty (upstream_path r) = false ∧ isFullHttpURLOrAbsolutePath (upstream_path r) = true ∧
  (∃ o, o ∈ ADVANCED_CUSTOM_CONVERTER_OPTIONS ∧ converter r = JStr (value o)) ∧
  isConverterPathAllowed p (converter r) = true ∧ auth_ok (auth r).
End spec.

(** ** Lemmas *)

Lemma js_or_idemp a b : js_or (js_or a b) b = js_or a b.
Proof. unfold js_or. destruct (truthy a) eqn:E; [by rewrite E|]. by destruct (truthy b). Qed.

Lemma js_or_truthy a b : truthy b = true → truthy (js_or a b) = true.
Proof. unfold js_or. by destruct (truthy a) eqn:E. Qed.

Lemma js_or_of_truthy a b : truthy a = true → js_or a b = a.
Proof. unfold js_or. by intros ->. Qed.

Lemma is_str_spec s v : is_str s v = true ↔ v = JStr s.
Proof.
  destruct v; simpl; try by split. rewrite bool_decide_eq_true. naive_solver.
Qed.

Lemma get_incoming_path r : get_prop (js "incoming_path") (route_val r) = Ok (incoming_path r).
Proof. reflexivity. Qed.
Lemma get_upstream_path r : get_prop (js "upstream_path") (route_val r) = Ok (JStr (upstream_path r)).
Proof. reflexivity. Qed.
Lemma get_converter r : get_prop (js "converter") (route_val r) = Ok (converter r).
Proof. reflexivity. Qed.
Lemma get_auth r :
  get_prop (js "auth") (route_val r)
  = Ok match auth r with Some a => auth_val a | None => JUndef end.
Proof. by destruct r as [? ? ? [a|]]. Qed.
Lemma get_type a : get_prop (js "type") (auth_val a) = Ok (type a).
Proof. reflexivity. Qed.
Lemma get_name a : get_prop (js "name") (auth_val a) = Ok (name a).
Proof. reflexivity. Qed.
Lemma get_value a : get_prop (js "value") (auth_val a) = Ok (auth_value a).
Proof. reflexivity. Qed.
Lemma get_routes l : get_prop (js "advanced_routes") (config_of l) = Ok (JArr l).
Proof. reflexivity. Qed.
#[local] Hint Rewrite get_incoming_path get_upstream_path get_converter get_auth get_type
  get_name get_value get_routes : route_fields.

Lemma config_routes_of l : config_routes (config_of l) = Ok l.
Proof. reflexivity. Qed.

Lemma normal_upstream r :
  normal_route r → getAdvancedCustomRouteUpstreamPath (route_val r) = Ok (upstream_path r).
Proof.
  intros (_ & Ht & _). unfold getAdvancedCustomRouteUpstreamPath.
  rewrite get_upstream_path. cbn [res_bind]. unfold js_or.
  destruct (upstream_path r) as [|c s]; [done|].
  cbn [truthy is_empty negb js_trim]. by rewrite trim_trimmed_id.
Qed.

Lemma normalize_route_shape v n :
  normalizeAdvancedCustomRoute v = Ok n → ∃ r, normal_route r ∧ n = route_val r.
Proof.
  unfold normalizeAdvancedCustomRoute.
  intros H. res_step H as inc Hinc. res_step H as up Hup. res_step H as conv Hconv.
  res_step H as a Ha. unfold getAdvancedCustomRouteUpstreamPath in Hup. res_step Hup as u Hu.
  assert (trimmed up) as Ht.
  { destruct (js_or u (JStr [])); simplify_eq/=. apply trim_trimmed. }
  set (base := Route (js_or inc (JStr [])) up (js_or conv (JStr (js "none")))).
  destruct (truthy a).
  - res_step H as a' Ha'. injection H as <-. unfold normalizeRouteAuth in Ha'.
    res_step Ha' as t Ht'. res_step Ha' as nm Hnm. res_step Ha' as vl Hvl. injection Ha' as <-.
    exists (base (Some (Auth t (js_or nm (JStr [])) (js_or vl (JStr []))))).
    split; [|done]. split_and!; [apply js_or_idemp|done|by apply js_or_truthy|].
    split; apply js_or_idemp.
  - injection H as <-. exists (base None). split; [|done].
    split_and!; [apply js_or_idemp|done|by apply js_or_truthy|done].
Qed.

Lemma normalize_route_val r :
  normal_route r → normalizeAdvancedCustomRoute (route_val r) = Ok (route_val r).
Proof.
  intros Hn. pose proof (normal_upstream r Hn) as Hup. destruct Hn as (Hi & _ & Hc & Ha).
  unfold normalizeAdvancedCustomRoute. autorewrite with route_fields. cbn [res_bind].
  rewrite Hup. cbn [res_bind]. rewrite Hi, (js_or_of_truthy _ _ Hc).
  destruct r as [i u c [a|]]; [|done]. destruct Ha as [Hnm Hvl]. cbn [auth].
  unfold normalizeRouteAuth. autorewrite with route_fields.
  cbn -[js js_or]. cbn in Hnm, Hvl. by rewrite Hnm, Hvl.
Qed.

Lemma normalize_config_shape v n :
  normalizeAdvancedCustomConfig v = Ok n →
  ∃ rs, Forall normal_route rs ∧ n = config_of (map route_val rs).
Proof.
  unfold normalizeAdvancedCustomConfig.
  intros H. res_step H as routes Hr. res_step H as l Hl. injection H as <-.
  assert (∃ rs, Forall normal_route rs ∧ l = map route_val rs) as (rs & ? & ->);
    [|by exists rs].
  destruct routes; try (injection Hl as <-; by exists []).
  apply res_mapM_ok in Hl. clear Hr. induction Hl as [|x y xs ys Hx _ (rs & Hrs & ->)]; [by exists []|].
  apply normalize_route_shape in Hx as (r & Hr & ->). exists (r :: rs). auto.
Qed.

Lemma normalize_config_of rs :
  Forall normal_route rs →
  normalizeAdvancedCustomConfig (config_of (map route_val rs)) = Ok (config_of (map route_val rs)).
Proof.
  intros Hrs. unfold normalizeAdvancedCustomConfig. rewrite get_routes. cbn [res_bind].
  rewrite (res_mapM_pure _ id).
  - cbn [res_bind]. by rewrite map_id.
  - apply Forall_map. eapply Forall_impl; [exact Hrs|]. intros r Hr. by apply normalize_route_val.
Qed.

Lemma normalize_idemp v n :
  normalizeAdvancedCustomConfig v = Ok n → normalizeAdvancedCustomConfig n = Ok n.
Proof.
  intros (rs & Hrs & ->)%normalize_config_shape. by apply normalize_config_of.
Qed.

Lemma parse_of_object t o :
  is_empty (trim t) = false → JSON_parse t = Ok (JObj o) →
  parseAdvancedCustomConfig (Some t)
  = catch (res_map Some (normalizeAdvancedCustomConfig (JObj o))) None.
Proof. intros Ht Hp. unfold parseAdvancedCustomConfig. by rewrite Ht, Hp. Qed.

(** Saving and loading a route table loses nothing: a normalised table
    whose strings are well formed is printed as text that parses back to the
    same table, and printing it again gives the same text. *)
Theorem config_text_roundtrip (v n : jsval)
  (Hn : normalizeAdvancedCustomConfig v = Ok n) (Hok : json_ok n = true) :
  ∃ t, stringifyAdvancedCustomConfig v = Ok (Some t) ∧
       parseAdvancedCustomConfig (Some t) = Some n ∧
       stringifyAdvancedCustomConfig n = Ok (Some t).
Proof.
  pose proof (normalize_idemp v n Hn) as Hn'.
  destruct (json_roundtrip_pretty n Hok) as (t & Ht & Hp). exists t.
  unfold stringifyAdvancedCustomConfig. rewrite Hn, Hn'. cbn [res_map]. rewrite Ht.
  split_and!; [done| |done].
  destruct (normalize_config_shape v n Hn) as (rs & _ & ->).
  assert (∃ t', t = 123 :: t') as (t' & E)
    by (unfold JSON_stringify_pretty, config_of in Ht; eapply stringify_object_head, Ht).
  rewrite (parse_of_object t [(js "advanced_routes", JArr (map route_val rs))]); [|subst t; by apply trim_nonempty|exact Hp].
  fold (config_of (map route_val rs)). by rewrite Hn'.
Qed.

Lemma config_text_roundtrip_witness :
  ∃ t, stringifyAdvancedCustomConfig createAdvancedCustomConfig = Ok (Some t) ∧
       parseAdvancedCustomConfig (Some t) = Some createAdvancedCustomConfig ∧
       stringifyAdvancedCustomConfig createAdvancedCustomConfig = Ok (Some t).
Proof.
  apply (config_text_roundtrip createAdvancedCustomConfig createAdvancedCustomConfig);
    vm_compute; reflexivity.
Defined.

(** ** Validation *)

Section validation.
Context {url : UrlParser}.

Lemma is_str_false s v : is_str s v = false ↔ v ≠ JStr s.
Proof. rewrite <- not_true_iff_false, is_str_spec. done. Qed.

Lemma registered_spec v :
  isAdvancedCustomConverter v = true ↔
  ∃ o, o ∈ ADVANCED_CUSTOM_CONVERTER_OPTIONS ∧ v = JStr (value o).
Proof.
  unfold isAdvancedCustomConverter. rewrite existsb_exists.
  setoid_rewrite is_str_spec. by setoid_rewrite list_elem_of_In.
Qed.

(** A defaulted field is blank, a string, or makes [trim] throw. *)
Lemma trim_defaulted v s :
  defaulted v → js_trim_or_empty v = Ok s → ∃ w, v = JStr w ∧ s = trim w.
Proof.
  unfold defaulted, js_trim_or_empty. destruct v; intros Hd H; simplify_eq/=; eauto.
Qed.

Lemma validate_auth_spec a :
  match a with Some a => defaulted (name a) ∧ defaulted (auth_value a) | None => True end →
  validateRouteAuth (match a with Some a => auth_val a | None => JUndef end) = Ok None
  ↔ auth_ok a.
Proof.
  destruct a as [a|]; [|by split]. intros [Hn Hv]. unfold validateRouteAuth.
  autorewrite with route_fields. cbn [truthy auth_val negb res_bind auth_ok].
  destruct (is_str (js "none") (type a)) eqn:E0.
  { apply is_str_spec in E0. split; [by left|done]. }
  apply is_str_false in E0.
  assert (type a = JStr (js "header") ∨ type a = JStr (js "query") ↔
          negb (is_str (js "header") (type a)) && negb (is_str (js "query") (type a)) = false)
    as Ht.
  { rewrite andb_false_iff, !negb_false_iff, !is_str_spec. done. }
  destruct (negb _ && negb _).
  { split; [done|]. intros [?|[?%Ht _]]; done. }
  split.
  - intros H. right. split; [by apply Ht|]. res_step H as n Hn'.
    destruct (trim_defaulted _ _ Hn Hn') as (n0 & -> & ->).
    destruct (is_empty (trim n0)) eqn:En; [done|]. res_step H as w Hw.
    destruct (trim_defaulted _ _ Hv Hw) as (v0 & -> & ->).
    destruct (is_empty (trim v0)) eqn:Ev; [done|]. eauto 8.
  - intros [?|(_ & n & v & -> & -> & En & Ev)]; [done|]. cbn. by rewrite En, Ev.
Qed.

Lemma validate_auth_message a e : validateRouteAuth a = Ok (Some e) → is_empty e = false.
Proof.
  unfold validateRouteAuth. destruct (negb (truthy a)); [done|]. intros H.
  res_step H as t Ht. repeat (case_match; simplify_eq; try done). res_step H as n Hn.
  res_step H as n' Hn'. case_match; simplify_eq; [done|]. res_step H as w Hw.
  res_step H as w' Hw'. by case_match; simplify_eq.
Qed.

Lemma model_list_guards p c u :
  bool_decide (p = ADVANCED_CUSTOM_MODEL_LIST_PATH) && negb (is_str (js "none") c) = false →
  bool_decide (p = ADVANCED_CUSTOM_MODEL_LIST_PATH) && includes (js "{model}") u = false →
  p = ADVANCED_CUSTOM_MODEL_LIST_PATH →
  c = JStr (js "none") ∧ includes (js "{model}") u = false.
Proof.
  intros H1 H2 E. rewrite bool_decide_eq_true_2 in H1, H2 by done. simpl in H1, H2.
  apply negb_false_iff, is_str_spec in H1. done.
Qed.

Lemma validate_route_sound i seen r rest :
  normal_route r → validate_routes i seen (route_val r :: rest) = Ok None →
  ∃ p, route_ok r p ∧ p ∉ seen ∧ validate_routes (S i) (p :: seen) rest = Ok None.
Proof.
  intros Hn H. pose proof (normal_upstream r Hn) as Hup. destruct Hn as (Hi & _ & Hc & Ha).
  cbn [validate_routes] in H. autorewrite with route_fields in H. cbn [res_bind] in H.
  res_step H as p Hp. apply trim_defaulted in Hp as (inc & Einc & Ep); [|done].
  rewrite Hup, (js_or_of_truthy _ _ Hc) in H. cbn [res_bind] in H. unfold fail_at in H.
  repeat match type of H with (if ?b then Ok (Some _) else _) = _ =>
    destruct b eqn:?; [done|] end.
  res_step H as e He. exists p.
  assert (validateRouteAuth match auth r with Some a => auth_val a | None => JUndef end = Ok None
          ∧ validate_routes (S i) (p :: seen) rest = Ok None) as [Hv Hrest].
  { destruct e as [e|]; [|done]. by rewrite (validate_auth_message _ _ He) in H. }
  apply validate_auth_spec in Hv; [|done]. bool_prop. split; [|by split].
  unfold route_ok. split_and!; try done; [eauto|by apply starts_with_spec| |by apply registered_spec].
  by apply model_list_guards.
Qed.

Lemma validate_route_complete i seen r rest p :
  normal_route r → route_ok r p → p ∉ seen →
  validate_routes i seen (route_val r :: rest) = validate_routes (S i) (p :: seen) rest.
Proof.
  intros Hn ((inc & Hinc & ->) & Hsl%starts_with_spec & Hq & Hml & Hu & Hurl &
             Hreg%registered_spec & Hal & Hau) Hs.
  pose proof (normal_upstream r Hn) as Hup. destruct Hn as (_ & _ & Hc & Ha).
  cbn [validate_routes]. autorewrite with route_fields. cbn [res_bind].
  rewrite Hup, (js_or_of_truthy _ _ Hc), Hinc. cbn [res_bind js_trim_or_empty nullish js_trim].
  apply (validate_auth_spec _ Ha) in Hau.
  assert (is_empty (trim inc) = false) as -> by (destruct (trim inc); [done|done]).
  rewrite Hsl, Hq, Hu, Hurl, Hreg, Hal, Hau, (bool_decide_eq_false_2 _ Hs). cbn [negb res_bind].
  case_bool_decide as E; [|done]. destruct (Hml E) as [-> ->]. done.
Qed.

Lemma validate_routes_spec rs : Forall normal_route rs → ∀ i seen,
  validate_routes i seen (map route_val rs) = Ok None ↔
  ∃ ps, Forall2 route_ok rs ps ∧ NoDup ps ∧ ∀ p, p ∈ ps → p ∉ seen.
Proof.
  induction 1 as [|r rs Hr _ IH]; intros i seen.
  { split; [|done]. intros _. exists []. split_and!; [constructor..|].
    by intros p ?%not_elem_of_nil. }
  cbn [map]. split.
  - intros (p & Hp & Hs & (ps & Hps & Hnd & Hseen)%IH)%validate_route_sound; [|done].
    exists (p :: ps). split_and!; [by constructor| |].
    + constructor; [|done]. intros Hin. apply (Hseen p Hin). left.
    + intros q [->|Hq]%elem_of_cons; [done|]. intros Hqs. apply (Hseen q Hq). by right.
  - intros (ps & Hps & Hnd & Hseen). inversion Hps as [|? p ? ps' Hp Hps']; subst.
    apply NoDup_cons in Hnd as [Hnin Hnd].
    rewrite (validate_route_complete _ _ _ _ p); [|done..|apply Hseen; left].
    apply IH. exists ps'. split_and!; [done..|]. intros q Hq [->|Hqs]%elem_of_cons; [done|].
    apply (Hseen q); [by right|done].
Qed.

(** Validation accepts a configuration exactly when its normalised table
    has at least one route and every route serves its own distinct trimmed
    path that starts with a slash and has no query, forwards to an absolute
    path or a full HTTP URL, names a registered converter that fits the path,
    keeps the model-list path native, and carries complete credentials. *)
Theorem validate_config_exact (v : jsval) (Hv : truthy v = true) :
  validateAdvancedCustomConfig v = Ok None ↔
  ∃ rs ps, normalizeAdvancedCustomConfig v = Ok (config_of (map route_val rs)) ∧
           Forall normal_route rs ∧ rs ≠ [] ∧ Forall2 route_ok rs ps ∧ NoDup ps.
Proof.
  unfold validateAdvancedCustomConfig. rewrite Hv. cbn [negb]. split.
  - intros H. res_step H as n Hn. destruct (normalize_config_shape v n Hn) as (rs & Hrs & ->).
    rewrite config_routes_of in H. cbn [res_bind] in H. destruct rs as [|r rs]; [done|].
    change (validate_routes 0 [] (map route_val (r :: rs)) = Ok None) in H.
    apply validate_routes_spec in H as (ps & Hps & Hnd & _); [|done].
    by exists (r :: rs), ps.
  - intros (rs & ps & -> & Hrs & Hne & Hps & Hnd). cbn [res_bind].
    rewrite config_routes_of. cbn [res_bind]. destruct rs as [|r rs]; [done|].
    change (validate_routes 0 [] (map route_val (r :: rs)) = Ok None).
    apply validate_routes_spec; [done|]. exists ps. split_and!; [done..|].
    by intros p _ ?%not_elem_of_nil.
Qed.
End validation.

Lemma validate_config_exact_witness :
  let url : UrlParser := λ _, Throw in
  ∃ rs ps, normalizeAdvancedCustomConfig createAdvancedCustomConfig
             = Ok (config_of (map route_val rs)) ∧
           Forall normal_route rs ∧ rs ≠ [] ∧ Forall2 (route_ok (url:=url)) rs ps ∧ NoDup ps.
Proof.
  intros url. apply (validate_config_exact createAdvancedCustomConfig);
    vm_compute; reflexivity.
Defined.

(** ** Templates and menus *)

Lemma bool_decide_eq_iff (P Q : Prop) `{Decision P, Decision Q} :
  bool_decide P = bool_decide Q → (P ↔ Q).
Proof. repeat case_bool_decide; naive_solver. Qed.

Lemma clone_id v : json_ok v = true → cloneAdvancedCustomConfig v = Ok v.
Proof.
  intros (t & Ht & Hp)%json_roundtrip. unfold cloneAdvancedCustomConfig. by rewrite Ht.
Qed.

Lemma template_facts {url : UrlParser} t :
  t ∈ ADVANCED_CUSTOM_TEMPLATE_OPTIONS →
  json_ok (config t) = true ∧ validateAdvancedCustomConfig (config t) = Ok None.
Proof.
  assert (Forall (λ t, json_ok (config t) = true ∧ validateAdvancedCustomConfig (config t) = Ok None)
            ADVANCED_CUSTOM_TEMPLATE_OPTIONS) as H.
  { repeat constructor; vm_compute; reflexivity. }
  rewrite Forall_forall in H. apply H.
Qed.

(** Whatever template key is asked for, the editor receives a private copy
    of a template of the table (the one with that key, the first one for an
    unknown key), and that configuration passes validation whatever the URL
    parser is. *)
Theorem template_config_valid {url : UrlParser} (key : jsstr) :
  ∃ t, t ∈ ADVANCED_CUSTOM_TEMPLATE_OPTIONS ∧
       getAdvancedCustomTemplateConfig key = Ok (config t) ∧
       validateAdvancedCustomConfig (config t) = Ok None ∧
       (tvalue t = key ∨
        head ADVANCED_CUSTOM_TEMPLATE_OPTIONS = Some t ∧
        ∀ t', t' ∈ ADVANCED_CUSTOM_TEMPLATE_OPTIONS → tvalue t' ≠ key).
Proof.
  unfold getAdvancedCustomTemplateConfig. destruct (List.find _ _) as [t|] eqn:E.
  - apply find_some in E as [Hin%list_elem_of_In Hk]. bool_prop. exists t.
    destruct (template_facts t Hin) as [Hj Hv]. rewrite (clone_id _ Hj). auto.
  - set (t := Template (js "official_openai_chat") (js "Official OpenAI Chat")
                (config_of [same_route "/v1/chat/completions" bearerHeaderAuth])).
    assert (t ∈ ADVANCED_CUSTOM_TEMPLATE_OPTIONS) as Hin by left.
    exists t. destruct (template_facts t Hin) as [Hj Hv].
    unfold ADVANCED_CUSTOM_TEMPLATE_OPTIONS at 2. fold t. rewrite (clone_id _ Hj).
    split_and!; [done..|]. right. split; [done|]. intros t' Ht' Hk.
    apply list_elem_of_In, (find_none _ _ E) in Ht'. bool_prop. done.
Qed.

(** The two menus of the route editor are consistent: a path is offered
    for a converter exactly when the converter is offered for the path, and a
    route made of any converter, its default path and its upstream
    placeholder passes validation. *)
Theorem converter_menus_agree {url : UrlParser} :
  Forall (λ c,
    Forall (λ p, value p ∈ map value (getAdvancedCustomIncomingPathOptions (value c)) ↔
                 value c ∈ map value (getAdvancedCustomConverterOptions (value p)))
      ADVANCED_CUSTOM_INCOMING_PATH_OPTIONS ∧
    isAdvancedCustomIncomingPathAllowed
      (getDefaultAdvancedCustomIncomingPath (value c)) (value c) = true ∧
    validateAdvancedCustomConfig
      (config_of [JObj [(js "incoming_path", JStr (getDefaultAdvancedCustomIncomingPath (value c)));
                        (js "upstream_path", JStr (getAdvancedCustomUpstreamPathPlaceholder (value c)));
                        (js "converter", JStr (value c))]]) = Ok None)
    ADVANCED_CUSTOM_CONVERTER_OPTIONS.
Proof.
  apply Forall_forall. intros c Hc. split_and!.
  - apply Forall_forall. intros p Hp. apply (bool_decide_eq_iff _ _). revert p Hp. apply Forall_forall.
    revert c Hc. apply Forall_forall. apply (bool_decide_unpack _). vm_compute. exact I.
  - revert c Hc. apply Forall_forall. repeat constructor; vm_compute; reflexivity.
  - revert c Hc. apply Forall_forall. repeat constructor; vm_compute; reflexivity.
Qed.

(** A path that is the name of an inherited member is summarised by that
    member, not by a text: the labels of a stored table need not be strings. *)
Example summary_label_inherited {url : UrlParser} :
  res_map routeTypeLabels
    (getAdvancedCustomStats
       (Some (replace_char 39 34 (js "{'advanced_routes':[{'incoming_path':'constructor'}]}"))))
  = Ok [JFun (js "constructor")].
Proof. vm_compute. reflexivity. Qed.

End AdvancedCustom.
