(* ===== verification/Navigation.v ===== *)
(** * Navigation: roles, header modules and the sidebar

    [lib/roles.ts], [lib/nav-modules.ts] (which header entries and guarded
    pages are open) and [hooks/use-sidebar-config.ts] (which sidebar entries a
    user sees).  The configurations are JSON texts of the server's status
    record and of the user's profile, cast without checks, hence [jsval]. *)

From stdpp Require Import base list strings gmap sorting.
From Stdlib Require Import ZArith Lia SpecFloat.
From S2P Require Import Prelude JsString JsNumber JsValue JsJson.
#[local] Open Scope Z_scope.

(** ** Roles *)

Module Roles.

Definition GUEST : num := num_of_Z 0.
Definition USER : num := num_of_Z 1.
Definition ADMIN : num := num_of_Z 10.
Definition SUPER_ADMIN : num := num_of_Z 100.

(** Keyed by the number's string form, as object keys are. *)
Definition ROLE_LABEL_KEYS : list (jsstr * jsval) :=
  [(js "0", JStr (js "Guest")); (js "1", JStr (js "User")); (js "10", JStr (js "Admin"));
   (js "100", JStr (js "Super Admin"))].

Definition getRoleLabelKey (role : option num) : jsval :=
  let key := match role with Some r => num_to_str r | None => js "undefined" end in
  js_coalesce (obj_get key ROLE_LABEL_KEYS) (obj_get (num_to_str GUEST) ROLE_LABEL_KEYS).

End Roles.

(** ** Header navigation modules *)

Module NavModules.

Record ModuleAccess := Access { enabled : bool; requireAuth : bool }.

Definition access_val (a : ModuleAccess) : jsval :=
  JObj [(js "enabled", JBool (enabled a)); (js "requireAuth", JBool (requireAuth a))].

(** The object [HeaderNavModules]: the two access records, and the flags in
    enumeration order. *)
Record HeaderNavModules := Modules {
  pricing : ModuleAccess;
  rankings : ModuleAccess;
  flags : list (jsstr * jsval);
}.

Definition default_access : ModuleAccess := Access true false.

Definition DEFAULT_HEADER_NAV_MODULES : HeaderNavModules :=
  Modules default_access default_access
    [(js "home", JBool true); (js "console", JBool true); (js "docs", JBool true);
     (js "about", JBool true)].

(** The names of the two header modules with an access record. *)
Inductive HeaderNavModule := Rankings | Pricing.

Definition DEFAULTS (m : HeaderNavModule) : ModuleAccess :=
  match m with
  | Pricing => pricing DEFAULT_HEADER_NAV_MODULES
  | Rankings => rankings DEFAULT_HEADER_NAV_MODULES
  end.

(** A fresh copy of immutable data is the data. *)
Definition cloneHeaderNavDefaults : HeaderNavModules :=
  Modules (pricing DEFAULT_HEADER_NAV_MODULES) (rankings DEFAULT_HEADER_NAV_MODULES)
    (flags DEFAULT_HEADER_NAV_MODULES).

Definition parseHeaderNavBoolean (raw : jsval) (fallback : bool) : bool :=
  match raw with
  | JBool b => b
  | JNum x =>
      if num_eqb x (num_of_Z 1) then true
      else if num_eqb x (num_of_Z 0) then false else fallback
  | JStr s =>
      let normalized := to_lower (trim s) in
      if decide (normalized = js "true" ∨ normalized = js "1") then true
      else if decide (normalized = js "false" ∨ normalized = js "0") then false
      else fallback
  | _ => fallback
  end.

Definition parseAccess (raw : jsval) (fallback : ModuleAccess) : ModuleAccess :=
  match raw with
  | JBool _ | JNum _ | JStr _ =>
      Access (parseHeaderNavBoolean raw (enabled fallback)) (requireAuth fallback)
  | JObj _ | JArr _ =>
      Access (parseHeaderNavBoolean (get_prop_opt (js "enabled") raw) (enabled fallback))
             (parseHeaderNavBoolean (get_prop_opt (js "requireAuth") raw) (requireAuth fallback))
  | _ => fallback
  end.

(** [None] is [null]. *)
Definition parseHeaderNavRecord (raw : jsval) : res (option jsval) :=
  if negb (truthy raw) then Ok None
  else
    let* text := to_str raw in
    if is_empty (trim text) then Ok None
    else if is_object_type raw then Ok (Some raw)
    else Ok (catch (res_map Some (JSON_parse text)) None).

Definition is_boolean (v : jsval) : bool := match v with JBool _ => true | _ => false end.
Definition is_number (v : jsval) : bool := match v with JNum _ => true | _ => false end.

Definition apply_entry (result : HeaderNavModules) (entry : jsstr * jsval) : HeaderNavModules :=
  let '(key, v) := entry in
  if decide (key = js "pricing") then
    Modules (parseAccess v (pricing result)) (rankings result) (flags result)
  else if decide (key = js "rankings") then
    Modules (pricing result) (parseAccess v (rankings result)) (flags result)
  else
    let fallback := obj_get key (flags result) in
    if is_boolean fallback || is_boolean v || is_number v || is_string v then
      let dflt := match fallback with JBool b => b | _ => true end in
      Modules (pricing result) (rankings result)
        (assign_prop key (JBool (parseHeaderNavBoolean v dflt)) (flags result))
    else result.

Definition parseHeaderNavModules (raw : jsval) : res HeaderNavModules :=
  let result := cloneHeaderNavDefaults in
  let* parsed := parseHeaderNavRecord raw in
  match parsed with
  | Some v =>
      if negb (truthy v) then Ok result
      else let* es := entries v in Ok (fold_left apply_entry es result)
  | None => Ok result
  end.

Definition parseHeaderNavModulesFromStatus (status : jsval) : res HeaderNavModules :=
  parseHeaderNavModules (get_prop_opt (js "HeaderNavModules") status).

(** The entry ['status'] of [window.localStorage]: what [getItem] returns
    ([None] is [null]) or that it throws, and whether [setItem] succeeds (it
    throws when the quota is exhausted or storage is denied). *)
Record Storage := Store { item : res (option jsstr); writable : bool }.

Definition getCachedStatus (storage : Storage) : jsval :=
  catch (let* raw := item storage in
         match raw with
         | Some text => if is_empty text then Ok JNull else JSON_parse text
         | None => Ok JNull
         end) JNull.

Definition cacheStatus (status : jsval) (storage : Storage) : Storage :=
  if truthy status && writable storage then
    Store (Ok (Some (default (js "undefined") (JSON_stringify status)))) true
  else storage.

(** The parsed record always holds both modules, so the fallback to
    [DEFAULTS] is never taken. *)
Definition module_of (m : HeaderNavModule) (r : HeaderNavModules) : ModuleAccess :=
  match m with Pricing => pricing r | Rankings => rankings r end.

Definition getModuleAccessFromStatus (status : jsval) (m : HeaderNavModule) : res ModuleAccess :=
  res_map (module_of m) (parseHeaderNavModulesFromStatus status).

Definition getModuleAccess (storage : Storage) (m : HeaderNavModule) : res ModuleAccess :=
  getModuleAccessFromStatus (getCachedStatus storage) m.

(** The settled response of [getStatus()] is an argument; the result is the
    access and the storage afterwards. *)
Definition getFreshModuleAccess (response : res jsval) (storage : Storage) (m : HeaderNavModule)
    : ModuleAccess * Storage :=
  match response with
  | Ok status =>
      (catch (getModuleAccessFromStatus status m) (Access false true), cacheStatus status storage)
  | Throw => (Access false true, storage)
  end.

Definition isSidebarModuleEnabled (storage : Storage) (section module : jsstr) : res bool :=
  let status := getCachedStatus storage in
  if negb (truthy status) then Ok true
  else
    let* raw := get_prop (js "SidebarModulesAdmin") status in
    if negb (truthy raw) then Ok true
    else
      let* text := to_str raw in
      if is_empty (trim text) then Ok true
      else
        Ok (catch
              (let* parsed := JSON_parse text in
               let* sectionConfig := get_prop section parsed in
               if negb (truthy sectionConfig) then Ok true
               else
                 let* enabled := get_prop (js "enabled") sectionConfig in
                 if is_false enabled then Ok false
                 else
                   let* flag := get_prop module sectionConfig in
                   if is_false flag then Ok false else Ok true)
              true).

(** ** The parsed header configuration *)

Definition flags_ok (fl : list (jsstr * jsval)) : Prop :=
  (∀ k, k ∉ object_prototype_keys → obj_get k fl = JUndef ∨ ∃ b, obj_get k fl = JBool b) ∧
  (∀ k, k ∈ map js ["home"; "console"; "docs"; "about"]%string → ∃ b, obj_get k fl = JBool b).

Lemma flags_ok_assign k b fl : flags_ok fl → flags_ok (assign_prop k (JBool b) fl).
Proof.
  intros [H1 H2]. unfold assign_prop. case_decide; [done|].
  split; intros k' Hk'; rewrite obj_put_get; case_decide; eauto.
Qed.

Lemma flags_ok_entry r e : flags_ok (flags r) → flags_ok (flags (apply_entry r e)).
Proof.
  intros H. destruct e as [k v]. unfold apply_entry.
  case_decide; [done|]. case_decide; [done|]. cbv zeta.
  destruct (_ || _); [|done]. cbn [flags]. by apply flags_ok_assign.
Qed.

Lemma flags_ok_default : flags_ok (flags cloneHeaderNavDefaults).
Proof.
  split; intros k Hk.
  - unfold obj_get. destruct (assoc_get k _) as [v|] eqn:E; [|by rewrite decide_False; auto].
    right. apply assoc_get_Some_elem in E.
    repeat (apply elem_of_cons in E as [[= -> ->]|E]; [eauto|]). by apply not_elem_of_nil in E.
  - repeat (apply elem_of_cons in Hk as [->|Hk]; [eexists; reflexivity|]).
    by apply not_elem_of_nil in Hk.
Qed.

(** C39. Whatever the server stores as header configuration, parsing it either
    throws or yields a record of its declared type: the built-in entries are
    booleans, and every other entry is a boolean or absent. *)
Theorem header_modules_typed (raw : jsval) (r : HeaderNavModules)
  (Hr : parseHeaderNavModules raw = Ok r) : flags_ok (flags r).
Proof.
  unfold parseHeaderNavModules in Hr. res_step Hr as p Hp.
  destruct p as [v|]; [|injection Hr as <-; apply flags_ok_default].
  destruct (negb (truthy v)); [injection Hr as <-; apply flags_ok_default|].
  res_step Hr as es Hes. injection Hr as <-. clear Hp Hes.
  generalize flags_ok_default. generalize cloneHeaderNavDefaults.
  induction es as [|e es IH]; intros r Hr; simpl; [done|]. by apply IH, flags_ok_entry.
Qed.

Lemma header_modules_typed_witness :
  ∃ r, parseHeaderNavModules (JStr (replace_char 39 34 (js "{'home':'0','extra':1}"))) = Ok r ∧
       flags_ok (flags r).
Proof.
  eexists. split; [vm_compute; reflexivity|].
  apply (header_modules_typed (JStr (replace_char 39 34 (js "{'home':'0','extra':1}")))).
  vm_compute. reflexivity.
Defined.

(** Page access fails closed and its cache is coherent: a failed status
    request, or one whose header configuration cannot be read, denies access
    and asks for a sign-in; a successful one stores a status from which the
    cached check gives the same answer. *)
Theorem fresh_access_cached (status : jsval) (storage : Storage) (m : HeaderNavModule)
  (a : ModuleAccess) (Hst : truthy status = true) (Hok : json_ok status = true)
  (Hw : writable storage = true) (Ha : getModuleAccessFromStatus status m = Ok a) :
  ∃ storage', getFreshModuleAccess (Ok status) storage m = (a, storage') ∧
              getModuleAccess storage' m = Ok a ∧
              getFreshModuleAccess Throw storage' m = (Access false true, storage') ∧
              ∀ bad, getModuleAccessFromStatus bad m = Throw →
                     fst (getFreshModuleAccess (Ok bad) storage' m) = Access false true.
Proof.
  destruct (json_roundtrip status Hok) as (t & Ht & Hp).
  unfold getFreshModuleAccess, cacheStatus. rewrite Hst, Hw, Ha, Ht. cbn [andb catch from_option].
  eexists. split; [done|]. split; [|split; [done|by intros bad ->]].
  unfold getModuleAccess, getCachedStatus. cbn [item res_bind]. destruct t; [done|].
  unfold id. cbn [is_empty]. rewrite Hp. exact Ha.
Qed.

Lemma fresh_access_cached_witness :
  let status := JObj [(js "HeaderNavModules", JStr (replace_char 39 34
                         (js "{'pricing':{'enabled':true,'requireAuth':true}}")))] in
  ∃ storage', getFreshModuleAccess (Ok status) (Store (Ok None) true) Pricing
                = (Access true true, storage') ∧
              getModuleAccess storage' Pricing = Ok (Access true true) ∧
              getFreshModuleAccess Throw storage' Pricing = (Access false true, storage') ∧
              ∀ bad, getModuleAccessFromStatus bad Pricing = Throw →
                     fst (getFreshModuleAccess (Ok bad) storage' Pricing) = Access false true.
Proof.
  intros status. apply (fresh_access_cached status (Store (Ok None) true) Pricing (Access true true));
    vm_compute; reflexivity.
Defined.

End NavModules.

(** ** The sidebar *)

Module SidebarConfig.
Import Roles.

Definition DEFAULT_SIDEBAR_MODULES : list (jsstr * list jsstr) :=
  [(js "chat", map js ["enabled"; "playground"; "chat"]%string);
   (js "console", map js ["enabled"; "detail"; "token"; "log"; "model_monitor"; "tickets";
                          "empty_response"; "midjourney"; "task"]%string);
   (js "personal", map js ["enabled"; "topup"; "personal"]%string)].

(** Every module of the default configuration is on. *)
Definition default_section (modules : list jsstr) : list (jsstr * jsval) :=
  map (λ m, (m, JBool true)) modules.

Definition default_config : jsval :=
  JObj (map (λ s, (s.1, JObj (default_section s.2))) DEFAULT_SIDEBAR_MODULES).

(** [{ ...defaultSection, ...existingSection }], then the modules still
    [undefined] are set. *)
Definition merge_section (modules : list jsstr) (existing : jsval) : list (jsstr * jsval) :=
  fold_left (λ o m, if is_undef (obj_get m o) then obj_put m (JBool true) o else o)
    modules (spread_over (default_section modules) existing).

Definition merge_one (merged : list (jsstr * jsval)) (s : jsstr * list jsstr)
    : list (jsstr * jsval) :=
  let existing := obj_get s.1 merged in
  if negb (truthy existing) then obj_put s.1 (JObj (default_section s.2)) merged
  else obj_put s.1 (JObj (merge_section s.2 existing)) merged.

Definition mergeWithDefaultSidebarModules (config : jsval) : jsval :=
  JObj (fold_left merge_one DEFAULT_SIDEBAR_MODULES (spread config)).

Definition URL_TO_CONFIG_MAP : list (jsstr * (jsstr * jsstr)) :=
  map (λ '(u, s, m), (js u, (js s, js m)))
    [("/playground", "chat", "playground");
     ("/dashboard", "console", "detail");
     ("/dashboard/overview", "console", "detail");
     ("/dashboard/models", "console", "detail");
     ("/dashboard/users", "console", "detail");
     ("/keys", "console", "token");
     ("/usage-logs", "console", "log");
     ("/usage-logs/common", "console", "log");
     ("/model-monitor", "console", "model_monitor");
     ("/tickets", "console", "tickets");
     ("/empty-response", "console", "empty_response");
     ("/usage-logs/drawing", "console", "midjourney");
     ("/usage-logs/task", "console", "task");
     ("/wallet", "personal", "topup");
     ("/profile", "personal", "personal");
     ("/channels", "admin", "channel");
     ("/models", "admin", "models");
     ("/models/metadata", "admin", "models");
     ("/models/deployments", "admin", "models");
     ("/tickets/manage", "admin", "ticket_admin");
     ("/users", "admin", "user");
     ("/redemption-codes", "admin", "redemption");
     ("/subscriptions", "admin", "subscription");
     ("/system-settings", "admin", "setting");
     ("/system-settings/site", "admin", "setting")]%string.

(** [URL_TO_CONFIG_MAP[url]]: an inherited member has neither [section] nor
    [module], which then index as the property name [undefined]. *)
Definition url_mapping (url : jsstr) : option (jsstr * jsstr) :=
  match assoc_get url URL_TO_CONFIG_MAP with
  | Some m => Some m
  | None =>
      if decide (url ∈ object_prototype_keys) then Some (js "undefined", js "undefined")
      else None
  end.

(** [delete parsed.admin]: throws on [null]; a primitive has no such property. *)
Definition delete_admin (parsed : jsval) : res jsval :=
  match parsed with
  | JUndef | JNull => Throw
  | JObj o => Ok (JObj (assoc_del (js "admin") o))
  | v => Ok v
  end.

(** [value] is [status.SidebarModulesAdmin], cast to a string: a truthy value
    that is not a string has no [trim] and throws. *)
Definition parseSidebarConfig (value : jsval) : res jsval :=
  if negb (truthy value) then Ok default_config
  else
    let* text := js_trim value in
    if is_empty text then Ok default_config
    else
      Ok (catch (let* raw := to_str value in
                 let* parsed := JSON_parse raw in
                 let* kept := delete_admin parsed in
                 Ok (mergeWithDefaultSidebarModules kept)) default_config).

(** [JNull] is the [null] result. *)
Definition parseUserSidebarConfig (value : jsval) : res jsval :=
  if negb (truthy value) then Ok JNull
  else
    let* text := js_trim value in
    if is_empty text then Ok JNull
    else
      Ok (catch (let* raw := to_str value in
                 let* parsed := JSON_parse raw in
                 Ok (if negb (truthy parsed) || negb (is_object_type parsed) then JNull
                     else parsed)) JNull).

(** The feature switches of the status record. *)
Record Features := Switches {
  ticketEnabled : bool;
  ticketAdminManageEnabled : bool;
  emptyResponseEnabled : bool;
}.

(** [Boolean(s && s.enabled && s[module] === true)] *)
Definition section_allows (s : jsval) (module : jsstr) : bool :=
  truthy s && truthy (get_prop_opt (js "enabled") s) && is_true (get_prop_opt module s).

(** What is left of the user layer of a section that is not [admin]. *)
Definition user_keeps (userConfig : jsval) (section module : jsstr) : bool :=
  if negb (truthy userConfig) then true
  else
    let userSection := get_prop_opt section userConfig in
    if negb (truthy userSection) then true
    else if is_false (get_prop_opt (js "enabled") userSection) then false
    else negb (is_false (get_prop_opt module userSection)).

Definition isModuleEnabled (url : jsstr) (adminConfig userConfig : jsval)
    (userRole : option num) (f : Features) : bool :=
  let role := default (num_of_Z 0) userRole in
  if bool_decide (url = js "/tickets") && negb (ticketEnabled f) then false
  else if bool_decide (url = js "/empty-response") && negb (emptyResponseEnabled f) then false
  else if bool_decide (url = js "/tickets/manage")
          && (negb (ticketEnabled f)
              || (match userRole with Some r => num_eqb r ADMIN | None => false end
                  && negb (ticketAdminManageEnabled f))) then false
  else
    match url_mapping url with
    | None => true
    | Some (section, module) =>
        if decide (section = js "admin") then
          if num_ltb role ADMIN then false
          else if num_leb SUPER_ADMIN role then true
          else section_allows (get_prop_opt (js "admin") userConfig) module
        else if negb (section_allows (get_prop_opt section adminConfig) module) then false
        else user_keeps userConfig section module
    end.

(** ** Navigation items *)

Section items.
Context {Icon : Type}.

Record BaseNavItem := Base {
  title : jsstr;
  badge : option jsstr;
  icon : option Icon;
  activeUrls : option (list jsstr);
  configUrls : option (list jsstr);
}.

Inductive NavItem :=
| NavLink (base : BaseNavItem) (url : jsstr)
| NavCollapsible (base : BaseNavItem) (items : list (BaseNavItem * jsstr))
| NavChatPresets (base : BaseNavItem).

Record NavGroup := Group { id : option jsstr; group_title : jsstr; items : list NavItem }.

Section visibility.
Context (adminConfig userConfig : jsval) (userRole : option num) (f : Features).

Definition url_enabled (url : jsstr) : bool := isModuleEnabled url adminConfig userConfig userRole f.

Definition isNavItemVisible (item : NavItem) : bool :=
  match item with
  | NavChatPresets _ =>
      let adminChat := get_prop_opt (js "chat") adminConfig in
      if negb (truthy (get_prop_opt (js "enabled") adminChat)
               && is_true (get_prop_opt (js "chat") adminChat)) then false
      else user_keeps userConfig (js "chat") (js "chat")
  | NavLink base url =>
      if is_empty url then true
      else existsb url_enabled (default [url] (configUrls base))
  | NavCollapsible _ subItems => existsb (λ s, url_enabled s.2) subItems
  end.

Definition filter_subitems (item : NavItem) : NavItem :=
  match item with
  | NavCollapsible base subItems =>
      NavCollapsible base (filter (λ s, url_enabled s.2 = true) subItems)
  | _ => item
  end.

Definition filterNavItems (l : list NavItem) : list NavItem :=
  filter (λ i, isNavItemVisible i = true) (map filter_subitems l).

Definition filter_groups (navGroups : list NavGroup) : list NavGroup :=
  filter (λ g, items g ≠ [])
    (map (λ g, Group (id g) (group_title g) (filterNavItems (items g))) navGroups).
End visibility.

(** ** The hooks

    Their inputs: the status record, and the fields they read of the signed-in
    user ([permissions.sidebar_settings], [sidebar_modules] and [role]). *)

Record Session := Inputs {
  status : jsval;
  sidebar_settings : jsval;
  sidebar_modules : jsval;
  role : option num;
}.

Definition not_false (v : jsval) : bool := negb (is_false v).

Definition features (s : Session) : Features :=
  Switches (not_false (get_prop_opt (js "ticket_enabled") (status s)))
    (not_false (get_prop_opt (js "ticket_admin_manage_enabled") (status s)))
    (not_false (get_prop_opt (js "empty_response_enabled") (status s))).

Definition admin_layer (s : Session) : res jsval :=
  parseSidebarConfig (get_prop_opt (js "SidebarModulesAdmin") (status s)).

Definition user_layer (s : Session) : res jsval :=
  if is_false (sidebar_settings s) then Ok JNull else parseUserSidebarConfig (sidebar_modules s).

Definition useSidebarConfig (s : Session) (navGroups : list NavGroup) : res (list NavGroup) :=
  let* adminConfig := admin_layer s in
  let* userConfig := user_layer s in
  Ok (filter_groups adminConfig userConfig (role s) (features s) navGroups).

(** The seventh argument is left out, so [emptyResponseEnabled] is [true]. *)
Definition useIsSidebarModuleVisible (s : Session) (url : jsstr) : res bool :=
  let* adminConfig := admin_layer s in
  let* userConfig := user_layer s in
  let f := features s in
  Ok (isModuleEnabled url adminConfig userConfig (role s)
        (Switches (ticketEnabled f) (ticketAdminManageEnabled f) true)).
End items.

(** ** The two layers *)

(** Who sees a sidebar page: outside the admin section the administrator's
    configuration is authoritative and the user's can only hide more; in the
    admin section the page needs the administrator role, and an administrator
    who is not the super administrator needs it switched on explicitly in
    their own configuration. *)
Theorem module_gate (url : jsstr) (admin user : jsval) (r : option num) (f : Features)
  (section module : jsstr) (Hmap : url_mapping url = Some (section, module))
  (Hen : isModuleEnabled url admin user r f = true) :
  (section ≠ js "admin" →
     isModuleEnabled url admin JNull r f = true ∧
     section_allows (get_prop_opt section admin) module = true ∧
     user_keeps user section module = true) ∧
  (section = js "admin" →
     num_ltb (default (num_of_Z 0) r) ADMIN = false ∧
     (num_leb SUPER_ADMIN (default (num_of_Z 0) r) = true ∨
      section_allows (get_prop_opt (js "admin") user) module = true)).
Proof.
  unfold isModuleEnabled in *. rewrite Hmap in *.
  repeat match goal with |- context [if (?b && ?c : bool) then false else _] =>
    destruct (b && c); [done|] end.
  split; intros Hs.
  - rewrite decide_False in Hen by done.
    rewrite decide_False by done. by destruct (section_allows _ module).
  - rewrite decide_True in Hen by done. destruct (num_ltb _ ADMIN); [done|].
    split; [done|]. destruct (num_leb _ _); [by left|by right].
Qed.

Lemma module_gate_witness :
  let cfg := JObj [(js "personal", JObj [(js "enabled", JBool true); (js "topup", JBool true)])] in
  let f := Switches true true true in
  isModuleEnabled (js "/wallet") cfg JNull None f = true ∧
  section_allows (get_prop_opt (js "personal") cfg) (js "topup") = true ∧
  user_keeps JNull (js "personal") (js "topup") = true.
Proof.
  intros cfg f.
  apply (module_gate (js "/wallet") cfg JNull None f (js "personal") (js "topup"));
    [vm_compute; reflexivity..|]. by vm_compute.
Defined.

Lemma admin_role_gate url admin user r f m :
  url_mapping url = Some (js "admin", m) → isModuleEnabled url admin user r f = true →
  num_ltb (default (num_of_Z 0) r) ADMIN = false.
Proof.
  unfold isModuleEnabled. intros -> H.
  repeat match type of H with (if ?b then false else _) = true => destruct b; [done|] end.
  rewrite decide_True in H by done. by destruct (num_ltb _ ADMIN).
Qed.

(** What an item of the sidebar offers: a link with the pages that show it (its
    [configUrls], or else the page itself), or the menu of chat presets. *)
Inductive Entry := Link (url : jsstr) (pages : list jsstr) | Presets.

Definition offers {Icon} (i : @NavItem Icon) (e : Entry) : Prop :=
  match i with
  | NavLink base u => e = Link u (default [u] (configUrls base))
  | NavCollapsible _ subs => ∃ s, s ∈ subs ∧ e = Link s.2 [s.2]
  | NavChatPresets _ => e = Presets
  end.

(** A link is enabled when one of its pages is, the menu of presets when both
    layers have the chat. *)
Definition entry_enabled (admin user : jsval) (r : option num) (f : Features) (e : Entry) : bool :=
  match e with
  | Link url pages => is_empty url || existsb (λ page, isModuleEnabled page admin user r f) pages
  | Presets =>
      let adminChat := get_prop_opt (js "chat") admin in
      truthy (get_prop_opt (js "enabled") adminChat) && is_true (get_prop_opt (js "chat") adminChat) &&
      user_keeps user (js "chat") (js "chat")
  end.

Lemma page_enabled a u r f url : entry_enabled a u r f (Link url [url]) = isModuleEnabled url a u r f.
Proof. cbn [entry_enabled existsb]. rewrite orb_false_r. by destruct url. Qed.

Lemma offers_filter {Icon} a u r f (i : @NavItem Icon) e :
  offers (filter_subitems a u r f i) e ∧ isNavItemVisible a u r f (filter_subitems a u r f i) = true
  ↔ offers i e ∧ entry_enabled a u r f e = true.
Proof.
  destruct i as [base w|base subs|base]; cbn [filter_subitems offers].
  - split; intros [-> H]; (split; [done|]); revert H; cbn [isNavItemVisible entry_enabled]; by destruct (is_empty w).
  - cbn [isNavItemVisible]. split.
    + intros [(x & [He Hx]%list_elem_of_filter & ->) _]. rewrite page_enabled. split; [by exists x|done].
    + intros [(x & Hx & ->) He]. rewrite page_enabled in He.
      assert (x ∈ filter (λ s, url_enabled a u r f s.2 = true) subs) as Hin by by apply list_elem_of_filter.
      split; [by exists x|]. apply existsb_exists. exists x. by rewrite <-list_elem_of_In.
  - split; intros [-> H]; (split; [done|]); revert H; cbn [isNavItemVisible entry_enabled]; destruct (truthy _ && is_true _); done.
Qed.

(** A group of that heading has an item that offers the entry. *)
Definition listed {Icon} (gs : list (@NavGroup Icon)) (gid : option jsstr) (gtitle : jsstr) (e : Entry) : Prop :=
  ∃ g i, g ∈ gs ∧ id g = gid ∧ group_title g = gtitle ∧ i ∈ items g ∧ offers i e.

Lemma listed_filter {Icon} a u r f (gs : list (@NavGroup Icon)) gid gtitle e :
  listed (filter_groups a u r f gs) gid gtitle e ↔ listed gs gid gtitle e ∧ entry_enabled a u r f e = true.
Proof.
  unfold listed, filter_groups, filterNavItems. setoid_rewrite list_elem_of_filter. setoid_rewrite list_elem_of_fmap. split.
  - intros (g & i & [_ (g0 & -> & Hg)] & <- & <- & Hi & Hl). cbn [id group_title items] in *.
    apply list_elem_of_filter in Hi as [Hv (i0 & -> & Hi)%list_elem_of_fmap].
    destruct (proj1 (offers_filter a u r f i0 e)) as [Hl' He]; [done|]. split; [|done]. by exists g0, i0.
  - intros [(g & i & Hg & <- & <- & Hi & Hl) He].
    destruct (proj2 (offers_filter a u r f i e)) as [Hl' Hv]; [done|]. set (i' := filter_subitems a u r f i) in *.
    assert (i' ∈ filter (λ i, isNavItemVisible a u r f i = true) (map (filter_subitems a u r f) (items g))) as Hin.
    { apply list_elem_of_filter. split; [done|]. apply list_elem_of_fmap. by exists i. }
    eexists (Group (id g) (group_title g) _), i'. split_and!; [|by exists g|done..].
    cbn [items]. intros E. rewrite E in Hin. by apply not_elem_of_nil in Hin.
Qed.


(** The link of the task logs, shown with either of two pages. *)
Definition task_logs : @NavItem unit :=
  NavLink (Base (js "Task Logs") None None None (Some [js "/usage-logs/drawing"; js "/usage-logs/task"])) (js "/usage-logs/task").

Definition task_session (drawing : string) : Session :=
  Inputs (JObj [(js "SidebarModulesAdmin",
    JStr (replace_char 39 34 (js "{'console':{'enabled':true,'task':false,'midjourney':" ++ js drawing ++ js "}}")))])
    JUndef JUndef None.


(** ** The administrator's layer and its defaults *)

Lemma obj_get_del k k' o :
  k ≠ k' → obj_get k (assoc_del k' o) = obj_get k o.
Proof. intros H. unfold obj_get. by rewrite assoc_get_del, decide_False. Qed.

Lemma default_section_get m mods :
  m ∈ mods → obj_get m (default_section mods) = JBool true.
Proof.
  unfold obj_get, default_section. induction mods as [|m' mods IH]; intros Hm.
  { by apply not_elem_of_nil in Hm. }
  simpl. destruct (decide (m = m')); [done|]. apply elem_of_cons in Hm as [?|Hm]; [done|auto].
Qed.

Lemma fill_undefined_get m mods o :
  is_undef (obj_get m o) = false →
  obj_get m (fold_left (λ o m, if is_undef (obj_get m o) then obj_put m (JBool true) o else o)
               mods o) = obj_get m o.
Proof.
  revert o. induction mods as [|m' mods IH]; intros o Hm; simpl; [done|].
  destruct (is_undef (obj_get m' o)) eqn:E; [|by apply IH].
  assert (m ≠ m') by congruence.
  rewrite IH; rewrite obj_put_get, decide_False; done.
Qed.

(** A merged module: what the existing section says, or on. *)
Lemma merge_section_get m mods es :
  NoDup (es.*1) → m ∈ mods → is_undef (default (JBool true) (assoc_get m es)) = false →
  obj_get m (merge_section mods (JObj es)) = default (JBool true) (assoc_get m es).
Proof.
  intros Hnd Hm Hu. unfold merge_section, spread_over. cbn [entries catch].
  assert (obj_get m (fold_left (λ acc kv, obj_put kv.1 kv.2 acc) es (default_section mods))
          = default (JBool true) (assoc_get m es)) as E.
  { rewrite fold_put_assoc by done. destruct (assoc_get m es); [done|]. by apply default_section_get. }
  rewrite fill_undefined_get; [done|]. by rewrite E.
Qed.

Definition merged_section (mods : list jsstr) (existing : jsval) : jsval :=
  JObj (if truthy existing then merge_section mods existing else default_section mods).

Lemma merge_one_get k m s :
  obj_get k (merge_one m s)
  = if decide (k = s.1) then merged_section s.2 (obj_get s.1 m) else obj_get k m.
Proof.
  unfold merge_one, merged_section. destruct (truthy (obj_get s.1 m)); simpl;
    rewrite obj_put_get; by case_decide.
Qed.

Lemma merge_all_get k ss m :
  NoDup (ss.*1) →
  obj_get k (fold_left merge_one ss m)
  = match assoc_get k ss with Some mods => merged_section mods (obj_get k m) | None => obj_get k m end.
Proof.
  revert m. induction ss as [|[k1 mods] ss IH]; intros m; simpl; [done|].
  intros [Hk Hnd]%NoDup_cons. rewrite IH by done. rewrite merge_one_get. simpl.
  destruct (decide (k = k1)) as [->|Hne]; [|done].
  rewrite (proj2 (assoc_get_None k1 ss)) by done. done.
Qed.

Lemma merged_config_get k o :
  NoDup (o.*1) →
  get_prop_opt k (mergeWithDefaultSidebarModules (JObj o))
  = match assoc_get k DEFAULT_SIDEBAR_MODULES with
    | Some mods => merged_section mods (obj_get k o)
    | None => obj_get k o
    end.
Proof.
  intros Hnd. unfold mergeWithDefaultSidebarModules, get_prop_opt. cbn [get_prop catch].
  rewrite merge_all_get by (apply (bool_decide_unpack _); vm_compute; exact I).
  by rewrite spread_assoc.
Qed.

(** The flags of a section are booleans where they are set. *)
Definition boolean_flag (v : jsval) : Prop := v = JUndef ∨ ∃ b, v = JBool b.

(** [section] of a parsed configuration is absent, or an object with distinct
    keys whose [enabled] and [module] are booleans where they are set. *)
Definition typed_section (o : list (jsstr * jsval)) (section module : jsstr) : Prop :=
  obj_get section o = JUndef ∨
  ∃ es, obj_get section o = JObj es ∧ NoDup (es.*1) ∧
        (∀ k, k = js "enabled" ∨ k = module →
              assoc_get k es = None ∨ ∃ b, assoc_get k es = Some (JBool b)).

(** Every module named by the default configuration, with its section. *)
Definition is_default (section module : jsstr) : Prop :=
  ∃ mods, assoc_get section DEFAULT_SIDEBAR_MODULES = Some mods ∧ module ∈ mods.

Lemma default_section_names section mods :
  assoc_get section DEFAULT_SIDEBAR_MODULES = Some mods →
  js "enabled" ∈ mods ∧ section ≠ js "admin" ∧
  Forall (λ m, m ∉ object_prototype_keys) mods ∧ section ∉ object_prototype_keys.
Proof.
  intros Hin%assoc_get_Some_elem.
  assert (Forall (λ p : jsstr * list jsstr, js "enabled" ∈ p.2 ∧ p.1 ≠ js "admin" ∧
    Forall (λ m, m ∉ object_prototype_keys) p.2 ∧ p.1 ∉ object_prototype_keys)
    DEFAULT_SIDEBAR_MODULES) as H.
  { apply (bool_decide_unpack _). vm_compute. exact I. }
  rewrite Forall_forall in H. by apply (H (section, mods)).
Qed.

Lemma flag_get k es :
  k ∉ object_prototype_keys → obj_get k es = default JUndef (assoc_get k es).
Proof. intros Hk. unfold obj_get. case_match; [done|]. by rewrite decide_False. Qed.

(** What the merged section says of a module, flag by flag. *)
Lemma merged_allows mods m es :
  NoDup (es.*1) → js "enabled" ∈ mods → m ∈ mods →
  (∀ k, k = js "enabled" ∨ k = m → assoc_get k es = None ∨ ∃ b, assoc_get k es = Some (JBool b)) →
  section_allows (merged_section mods (JObj es)) m
  = negb (is_false (default JUndef (assoc_get (js "enabled") es)))
    && negb (is_false (default JUndef (assoc_get m es))).
Proof.
  intros Hnd He Hm Hty. unfold section_allows, merged_section. cbn [truthy andb].
  change (get_prop_opt ?k (JObj ?o)) with (obj_get k o).
  assert (∀ k, k = js "enabled" ∨ k = m →
            is_undef (default (JBool true) (assoc_get k es)) = false) as Hu.
  { intros k Hk. by destruct (Hty k Hk) as [->|[b ->]]. }
  rewrite !merge_section_get by auto.
  destruct (Hty _ (or_introl eq_refl)) as [->|[[] ->]],
    (Hty _ (or_intror eq_refl)) as [->|[[] ->]]; done.
Qed.

Lemma default_section_allows mods m :
  js "enabled" ∈ mods → m ∈ mods → section_allows (JObj (default_section mods)) m = true.
Proof.
  intros He Hm. unfold section_allows. cbn [truthy andb].
  change (get_prop_opt ?k (JObj ?o)) with (obj_get k o).
  by rewrite !default_section_get.
Qed.

Lemma default_config_allows section module :
  is_default section module → section_allows (get_prop_opt section default_config) module = true.
Proof.
  intros (mods & Hs & Hm). destruct (default_section_names _ _ Hs) as (He & _).
  assert (get_prop_opt section default_config = JObj (default_section mods)) as ->.
  { unfold get_prop_opt, default_config, obj_get. cbn [get_prop catch]. unfold obj_get.
    revert Hs. generalize DEFAULT_SIDEBAR_MODULES. intros l.
    induction l as [|[k v] l IH]; simpl; [done|].
    destruct (decide (section = k)); [intros; by simplify_eq|apply IH]. }
  by apply default_section_allows.
Qed.

(** C38. The route guard and the sidebar read the administrator's text alike:
    for every section and module the console knows, a configuration that is
    not JSON, or an object that gives the section boolean flags (or leaves
    them out), opens the guarded page exactly when the parsed sidebar
    configuration allows the module. *)
Theorem route_guard_agrees (storage : NavModules.Storage) (st : list (jsstr * jsval))
  (text section module : jsstr)
  (Hst : NavModules.getCachedStatus storage = JObj st)
  (Htext : obj_get (js "SidebarModulesAdmin") st = JStr text)
  (Hdef : is_default section module)
  (Hty : ∀ v, JSON_parse text = Ok v →
           ∃ o, v = JObj o ∧ NoDup (o.*1) ∧ typed_section o section module) :
  ∃ cfg, parseSidebarConfig (JStr text) = Ok cfg ∧
         NavModules.isSidebarModuleEnabled storage section module
         = Ok (section_allows (get_prop_opt section cfg) module).
Proof.
  unfold NavModules.isSidebarModuleEnabled, parseSidebarConfig. rewrite Hst.
  cbn [truthy negb get_prop res_bind]. rewrite Htext. cbn [truthy negb js_trim to_str res_bind].
  pose proof (default_config_allows _ _ Hdef) as Hd. destruct (is_empty text); cbn [negb].
  { exists default_config. by rewrite Hd. }
  destruct (is_empty (trim text)). { exists default_config. by rewrite Hd. }
  eexists. split; [done|]. destruct (JSON_parse text) as [v|] eqn:Ep; cbn [res_bind catch].
  2:{ by rewrite Hd. }
  destruct (Hty v eq_refl) as (o & -> & Hnd & Hsec). destruct Hdef as (mods & Hs & Hm).
  destruct (default_section_names _ _ Hs) as (He & Hna & Hnp & _).
  cbn [get_prop res_bind delete_admin catch].
  rewrite merged_config_get by (by apply NoDup_keys_del). rewrite Hs, obj_get_del by done.
  rewrite Forall_forall in Hnp. destruct Hsec as [->|(es & -> & Hnd' & Hflags)].
  - cbn [truthy negb]. unfold merged_section. cbn [truthy]. by rewrite default_section_allows.
  - cbn [truthy negb get_prop res_bind]. rewrite merged_allows, !flag_get by auto.
    by destruct (is_false (default JUndef (assoc_get (js "enabled") es))),
      (is_false (default JUndef (assoc_get module es))).
Qed.

Lemma route_guard_agrees_witness :
  let text := replace_char 39 34 (js "{'chat':{'enabled':true,'playground':false}}") in
  let st := [(js "SidebarModulesAdmin", JStr text)] in
  let storage := NavModules.Store (Ok (JSON_stringify (JObj st))) true in
  ∃ cfg, parseSidebarConfig (JStr text) = Ok cfg ∧
         NavModules.isSidebarModuleEnabled storage (js "chat") (js "playground")
         = Ok (section_allows (get_prop_opt (js "chat") cfg) (js "playground")).
Proof.
  intros text st storage.
  apply (route_guard_agrees storage st text (js "chat") (js "playground")).
  - vm_compute. reflexivity.
  - vm_compute. reflexivity.
  - exists (map js ["enabled"; "playground"; "chat"]%string).
    split; [vm_compute; reflexivity|apply (bool_decide_unpack _); vm_compute; exact I].
  - intros v Hv.
    vm_compute in Hv. injection Hv as <-.
    eexists. split; [reflexivity|]. split; [apply (bool_decide_unpack _); vm_compute; exact I|].
    right. eexists. split; [reflexivity|].
    split; [apply (bool_decide_unpack _); vm_compute; exact I|].
    intros k [->| ->]; right; eexists; reflexivity.
Defined.

(** A page outside the sidebar is shown by the same rule as in it, except
    the empty-response page: its switch is not passed on, so the page counts
    as visible even when the server has switched the feature off. *)
Theorem module_visible_ignores_empty_response (s : Session) (url : jsstr) (a u : jsval)
  (Ha : admin_layer s = Ok a) (Hu : user_layer s = Ok u) :
  (url ≠ js "/empty-response" ∨ emptyResponseEnabled (features s) = true →
     useIsSidebarModuleVisible s url = Ok (isModuleEnabled url a u (role s) (features s))) ∧
  (url = js "/empty-response" →
     useIsSidebarModuleVisible s url
     = Ok (section_allows (get_prop_opt (js "console") a) (js "empty_response")
           && user_keeps u (js "console") (js "empty_response"))).
Proof.
  unfold useIsSidebarModuleVisible. rewrite Ha, Hu. cbn [res_bind]. split.
  - intros H. f_equal. unfold isModuleEnabled. destruct (features s) as [t ta e].
    cbn [ticketEnabled ticketAdminManageEnabled emptyResponseEnabled] in *.
    destruct H as [H| ->]; [|done]. by rewrite (bool_decide_eq_false_2 (url = js "/empty-response")).
  - intros ->. f_equal. unfold isModuleEnabled.
    rewrite !(bool_decide_eq_false_2 (js "/empty-response" = _)) by done.
    cbn [emptyResponseEnabled negb andb]. rewrite andb_false_r.
    change (url_mapping (js "/empty-response")) with (Some (js "console", js "empty_response")).
    cbv iota beta. rewrite decide_False by done. by destruct (section_allows _ _).
Qed.

Lemma module_visible_ignores_empty_response_witness :
  let s := Inputs (JObj [(js "empty_response_enabled", JBool false)]) JUndef JUndef None in
  emptyResponseEnabled (features s) = false ∧
  useIsSidebarModuleVisible s (js "/empty-response") = Ok true.
Proof.
  intros s. split; [vm_compute; reflexivity|].
  rewrite (proj2 (module_visible_ignores_empty_response s (js "/empty-response")
                    default_config JNull eq_refl eq_refl) eq_refl).
  vm_compute. reflexivity.
Defined.

End SidebarConfig.
