(* ===== verification/Playground.v ===== *)
(** * Playground: messages, requests and stored history

    [features/playground]: the message record and its updates
    ([lib/message-utils.ts]), the request payload ([lib/payload-builder.ts])
    and the history kept in local storage ([lib/storage.ts]).  Identifiers
    drawn by [nanoid] are arguments. *)

From stdpp Require Import base list strings gmap sorting.
From Stdlib Require Import ZArith Lia SpecFloat.
From S2P Require Import Prelude JsString JsNumber JsValue JsJson.
#[local] Open Scope Z_scope.

(** ** Data *)

Module Types.

Inductive MessageRole := User | Assistant | System.
Inductive MessageStatus := LOADING | STREAMING | COMPLETE | ERROR.

#[export] Instance MessageRole_eq_dec : EqDecision MessageRole.
Proof. solve_decision. Defined.
#[export] Instance MessageStatus_eq_dec : EqDecision MessageStatus.
Proof. solve_decision. Defined.

(** [id] is absent in a version that was spread from no version. *)
Record MessageVersion := Version {
  id : option jsstr;
  content : jsstr;
  images : option (list jsstr);
}.

Record Reasoning := Reason { rcontent : jsstr; duration : num }.
Record Source := MkSource { href : jsstr; title : jsstr }.

(** [errorCode] is a string, [null], or whatever the server sent. *)
Record Message := Msg {
  key : jsstr;
  from : MessageRole;
  versions : list MessageVersion;
  sources : option (list Source);
  reasoning : option Reasoning;
  isReasoningStreaming : option bool;
  isReasoningComplete : option bool;
  isContentComplete : option bool;
  status : option MessageStatus;
  errorCode : option jsval;
}.

Inductive ContentPart :=
| TextPart (text : jsstr)
| ImagePart (url : jsstr).

Inductive Content := Plain (s : jsstr) | Parts (l : list ContentPart).

Record ChatCompletionMessage := ApiMessage { role : MessageRole; api_content : Content }.

(** A configuration, or the switches of its parameters: the own properties of
    an object that was merged with what local storage held. *)
Definition PlaygroundConfig := list (jsstr * jsval).
Definition ParameterEnabled := list (jsstr * jsval).

(** The fixed fields, and the optional parameters that were set, in order. *)
Record ChatCompletionRequest := Request {
  req_model : jsval;
  req_group : jsval;
  req_messages : list ChatCompletionMessage;
  req_stream : jsval;
  req_params : list (jsstr * jsval);
}.

Definition DEFAULT_GROUP : jsstr := js "default".

Definition DEFAULT_CONFIG : PlaygroundConfig :=
  [(js "model", JStr (js "gpt-4o")); (js "group", JStr DEFAULT_GROUP);
   (js "temperature", JNum (dec_to_num false 7 (-1))); (js "top_p", JNum (num_of_Z 1));
   (js "max_tokens", JNum (num_of_Z 4096)); (js "frequency_penalty", JNum (num_of_Z 0));
   (js "presence_penalty", JNum (num_of_Z 0)); (js "seed", JNull); (js "stream", JBool true)].

Definition DEFAULT_PARAMETER_ENABLED : ParameterEnabled :=
  [(js "temperature", JBool true); (js "top_p", JBool true); (js "max_tokens", JBool false);
   (js "frequency_penalty", JBool true); (js "presence_penalty", JBool true);
   (js "seed", JBool false)].

Definition API_REQUEST_ERROR : jsstr := js "Request error occurred".
Definition PARSE_ERROR : jsstr := js "Error parsing response data".
Definition STREAM_START_ERROR : jsstr := js "Error establishing connection".
Definition CONNECTION_CLOSED : jsstr := js "Connection closed".
Definition INTERRUPTED : jsstr := js "Generation was interrupted".

End Types.
Import Types.

(** ** Messages *)

Module MessageUtils.

Definition createMessageVersion (nanoid : jsstr) (content : jsstr) (images : option (list jsstr))
    : MessageVersion :=
  Version (Some nanoid) content
    match images with Some (_ :: _) => images | _ => None end.

Definition getCurrentVersion (message : Message) : MessageVersion :=
  match versions message with
  | v :: _ => v
  | [] => Version (Some (js "default")) [] None
  end.

Definition with_versions (vs : list MessageVersion) (m : Message) : Message :=
  Msg (key m) (from m) vs (sources m) (reasoning m) (isReasoningStreaming m)
    (isReasoningComplete m) (isContentComplete m) (status m) (errorCode m).

Definition with_reasoning (r : option Reasoning) (streaming : bool) (m : Message) : Message :=
  Msg (key m) (from m) (versions m) (sources m) r (Some streaming)
    (isReasoningComplete m) (isContentComplete m) (status m) (errorCode m).

Definition with_status (s : MessageStatus) (m : Message) : Message :=
  Msg (key m) (from m) (versions m) (sources m) (reasoning m) (isReasoningStreaming m)
    (isReasoningComplete m) (isContentComplete m) (Some s) (errorCode m).

(** [{ ...m, status, isReasoningStreaming: false, errorCode }] *)
Definition with_error (code : jsval) (m : Message) : Message :=
  Msg (key m) (from m) (versions m) (sources m) (reasoning m) (Some false)
    (isReasoningComplete m) (isContentComplete m) (Some ERROR) (Some code).

Definition updateCurrentVersionContent (message : Message) (text : jsstr) : Message :=
  let v := getCurrentVersion message in
  with_versions [Version (id v) text (images v)] message.

Definition createUserMessage (nanoid_key nanoid_version : jsstr) (text : jsstr)
    (images : option (list jsstr)) : Message :=
  Msg nanoid_key User [createMessageVersion nanoid_version text images]
    None None None None None None None.

Definition createLoadingAssistantMessage (nanoid_key nanoid_version : jsstr) : Message :=
  Msg nanoid_key Assistant [createMessageVersion nanoid_version [] None]
    None None (Some false) (Some false) (Some false) (Some LOADING) None.

Definition nonblank (s : jsstr) : Prop := is_empty (trim s) = false.
#[export] Instance nonblank_dec s : Decision (nonblank s).
Proof. unfold nonblank. apply _. Defined.

Definition buildMessageContent (text : jsstr) (imageUrls : list jsstr) : Content :=
  match filter nonblank imageUrls with
  | [] => Plain text
  | validImages => Parts (TextPart text :: map (λ url, ImagePart (trim url)) validImages)
  end.

Definition is_text_part (p : ContentPart) : bool :=
  match p with TextPart _ => true | _ => false end.

Definition getTextContent (c : Content) : jsstr :=
  match c with
  | Plain s => s
  | Parts l => match List.find is_text_part l with Some (TextPart t) => t | _ => [] end
  end.

Definition formatMessageForAPI (message : Message) : ChatCompletionMessage :=
  let v := getCurrentVersion message in
  match filter nonblank (default [] (images v)) with
  | [] => ApiMessage (from message) (Plain (content v))
  | imgs =>
      ApiMessage (from message)
        (Parts (TextPart (content v) :: map (λ url, ImagePart (trim url)) imgs))
  end.

Definition isValidMessage (message : Message) : bool :=
  match versions message with
  | [] => false
  | v :: _ => negb (bool_decide (from message = Assistant) && is_empty (trim (content v)))
  end.

(** *** Think tags *)

Definition OPEN : jsstr := js "<think>".
Definition CLOSE : jsstr := js "</think>".

Record Thoughts := Parsed {
  visibleContent : jsstr;
  reasoningText : jsstr;
  hasUnclosedTag : bool;
}.

(** The [while (true)] loop: positions in [text], the parts collected so far.
    Each round consumes an opening and a closing tag. *)
Fixpoint think_loop (fuel : nat) (text : jsstr) (currentPos : nat)
    (visibleParts reasoningParts : list jsstr) : list jsstr * list jsstr * bool :=
  match fuel with
  | O => (visibleParts, reasoningParts, false)
  | S fuel =>
      match index_of_from OPEN text currentPos with
      | None =>
          let visibleParts :=
            if (currentPos <? length text)%nat then visibleParts ++ [drop currentPos text]
            else visibleParts in
          (visibleParts, reasoningParts, false)
      | Some openPos =>
          let visibleParts :=
            if (currentPos <? openPos)%nat
            then visibleParts ++ [substring text currentPos openPos] else visibleParts in
          match index_of_from CLOSE text (openPos + 7) with
          | None => (visibleParts, reasoningParts ++ [drop (openPos + 7) text], true)
          | Some closePos =>
              think_loop fuel text (closePos + 8) visibleParts
                (reasoningParts ++ [substring text (openPos + 7) closePos])
          end
      end
  end.

Definition parseThinkTags (text : jsstr) : Thoughts :=
  if negb (includes OPEN text) then Parsed text [] false
  else
    let '(visibleParts, reasoningParts, hasUnclosed) :=
      think_loop (S (length text)) text 0 [] [] in
    Parsed (trim (join [] visibleParts)) (trim (join [10; 10] reasoningParts)) hasUnclosed.

(** *** Updates of the last assistant message *)

Definition updateLastAssistantMessage (messages : list Message) (updater : Message → Message)
    : list Message :=
  match last messages with
  | Some m =>
      if decide (from m = Assistant)
      then take (length messages - 1) messages ++ [updater m]
      else messages
  | None => messages
  end.

Definition updateAssistantMessageWithError (messages : list Message) (errorMessage : jsstr)
    (code : jsval) : list Message :=
  updateLastAssistantMessage messages (λ message,
    with_error (js_or code JNull)
      (updateCurrentVersionContent message (API_REQUEST_ERROR ++ js ": " ++ errorMessage))).

(** An absent chunk and an empty one leave the content as it is. *)
Definition processStreamingContent (message : Message) (contentChunk : jsstr) : Message :=
  let fullContent := content (getCurrentVersion message) ++ contentChunk in
  let t := parseThinkTags fullContent in
  let finalReasoning :=
    if is_empty (reasoningText t) then reasoning message
    else Some (Reason (reasoningText t) (num_of_Z 0)) in
  with_reasoning finalReasoning (hasUnclosedTag t)
    (updateCurrentVersionContent message fullContent).

Definition str_or (a b : jsstr) : jsstr := if is_empty a then b else a.

Definition finalizeMessage (message : Message) (apiReasoningContent : jsstr) : Message :=
  let t := parseThinkTags (content (getCurrentVersion message)) in
  let existing := match reasoning message with Some r => rcontent r | None => [] end in
  let finalReasoning := str_or apiReasoningContent (str_or existing (reasoningText t)) in
  let dur := match reasoning message with
             | Some r => if num_truthy (duration r) then duration r else num_of_Z 0
             | None => num_of_Z 0 end in
  with_reasoning (if is_empty finalReasoning then None else Some (Reason finalReasoning dur))
    false (updateCurrentVersionContent message (visibleContent t)).

(** *** Loading a stored history *)

Definition stuck (m : Message) : bool :=
  bool_decide (from m = Assistant)
  && (bool_decide (status m = Some LOADING) || bool_decide (status m = Some STREAMING)).

(** The index of the last stuck message. *)
Fixpoint last_stuck (messages : list Message) : option nat :=
  match messages with
  | [] => None
  | m :: l =>
      match last_stuck l with
      | Some i => Some (S i)
      | None => if stuck m then Some 0%nat else None
      end
  end.

Definition sanitize_one (m : Message) : Message :=
  let finalized := finalizeMessage m [] in
  let hasContent :=
    match versions finalized with v :: _ => negb (is_empty (trim (content v))) | [] => false end in
  let hasReasoning :=
    match reasoning finalized with Some r => negb (is_empty (trim (rcontent r))) | None => false end in
  if hasContent || hasReasoning
  then with_status COMPLETE (with_reasoning (reasoning finalized) false finalized)
  else
    let m' := updateCurrentVersionContent finalized
                (API_REQUEST_ERROR ++ js ": " ++ INTERRUPTED) in
    with_status ERROR (with_reasoning (reasoning m') false m').

(** [None]: the input array itself is returned. *)
Definition sanitizeMessagesOnLoad (messages : list Message) : option (list Message) :=
  match last_stuck messages with
  | None => None
  | Some i => Some (alter sanitize_one i messages)
  end.

Lemma sanitize_one_stable m : stuck (sanitize_one m) = false.
Proof.
  unfold sanitize_one. destruct (_ || _); unfold stuck; simpl; by rewrite andb_false_r.
Qed.

Lemma last_stuck_None ms : last_stuck ms = None ↔ Forall (λ m, stuck m = false) ms.
Proof.
  induction ms as [|m ms IH]; simpl; [by split|]. rewrite Forall_cons.
  destruct (last_stuck ms); [naive_solver|]. destruct (stuck m); naive_solver.
Qed.

Lemma last_stuck_Some ms i :
  last_stuck ms = Some i → ∃ m, ms !! i = Some m ∧ stuck m = true ∧
    ∀ j m', ms !! j = Some m' → stuck m' = true → (j ≤ i)%nat.
Proof.
  revert i. induction ms as [|m ms IH]; intros i; simpl; [done|].
  destruct (last_stuck ms) as [k|] eqn:E.
  - intros [= <-]. destruct (IH k eq_refl) as (m' & Hm' & Hs & Hmax). exists m'.
    split_and!; [done..|]. intros [|j] m'' Hj Hs'; [lia|]. specialize (Hmax j m'' Hj Hs'). lia.
  - destruct (stuck m) eqn:Es; [|done]. intros [= <-]. exists m. split_and!; [done..|].
    intros [|j] m'' Hj Hs'; [lia|]. exfalso. apply last_stuck_None in E.
    rewrite Forall_forall in E. rewrite (E m'') in Hs'; [done|]. by eapply list_elem_of_lookup_2.
Qed.

(** At most one message is being generated. *)
Definition single_stuck (ms : list Message) : Prop :=
  ∀ i j m m', ms !! i = Some m → ms !! j = Some m' → stuck m = true → stuck m' = true → i = j.

(** The history after sanitising: only the last stuck message changes. *)
Lemma sanitize_effect ms :
  let out := default ms (sanitizeMessagesOnLoad ms) in
  length out = length ms ∧
  (∀ i m, ms !! i = Some m → out !! i = Some m ∨ stuck m = true ∧ out !! i = Some (sanitize_one m)) ∧
  (single_stuck ms → Forall (λ m, stuck m = false) out).
Proof.
  unfold sanitizeMessagesOnLoad. destruct (last_stuck ms) as [i|] eqn:E; cbn [from_option].
  2:{ split_and!; [done|auto|]. intros _. by apply last_stuck_None. }
  unfold Datatypes.id. destruct (last_stuck_Some ms i E) as (m & Hm & Hs & Hmax). split_and!.
  - by rewrite length_alter.
  - intros j m' Hj. destruct (decide (i = j)) as [<-|Hne].
    + right. rewrite list_lookup_alter_eq, Hm. simplify_eq. done.
    + left. by rewrite list_lookup_alter_ne.
  - intros H1. apply Forall_lookup. intros j m' Hj. destruct (decide (i = j)) as [<-|Hne].
    + rewrite list_lookup_alter_eq, Hm in Hj. injection Hj as <-. apply sanitize_one_stable.
    + rewrite list_lookup_alter_ne in Hj by done. destruct (stuck m') eqn:Es; [|done].
      exfalso. by apply Hne, (H1 i j m m').
Qed.

(** *** What the think tags mean

    A text is a sequence of visible pieces, each followed by a closed thought,
    and a tail that is visible text, with or without a thought that was opened
    and not closed. *)

Inductive Tail := Closed (v : jsstr) | Unclosed (v r : jsstr).
Record Doc := MkDoc { segments : list (jsstr * jsstr); tail : Tail }.

Definition render_tail (t : Tail) : jsstr :=
  match t with Closed v => v | Unclosed v r => v ++ OPEN ++ r end.
Definition render_from (segs : list (jsstr * jsstr)) (t : Tail) : jsstr :=
  foldr (λ s acc, s.1 ++ OPEN ++ s.2 ++ CLOSE ++ acc) (render_tail t) segs.
Definition render (d : Doc) : jsstr := render_from (segments d) (tail d).

(** No visible piece contains an opening tag, no thought a closing one. *)
Definition tail_wf (t : Tail) : Prop :=
  match t with
  | Closed v => index_of OPEN v = None
  | Unclosed v r => index_of OPEN v = None ∧ index_of CLOSE r = None
  end.
Definition segment_wf (s : jsstr * jsstr) : Prop :=
  index_of OPEN s.1 = None ∧ index_of CLOSE s.2 = None.
Definition doc_wf (d : Doc) : Prop := Forall segment_wf (segments d) ∧ tail_wf (tail d).

Definition tail_visible (t : Tail) : jsstr := match t with Closed v | Unclosed v _ => v end.
Definition tail_thoughts (t : Tail) : list jsstr :=
  match t with Closed _ => [] | Unclosed _ r => [r] end.
Definition tail_open (t : Tail) : bool := match t with Closed _ => false | _ => true end.

Definition visible_text (d : Doc) : jsstr := concat (segments d).*1 ++ tail_visible (tail d).
Definition thoughts (d : Doc) : list jsstr := (segments d).*2 ++ tail_thoughts (tail d).

(** The declared result: a text without thoughts is left as it is. *)
Definition parsed_doc (d : Doc) : Thoughts :=
  match segments d, tail d with
  | [], Closed v => Parsed v [] false
  | _, _ => Parsed (trim (visible_text d)) (trim (join [10; 10] (thoughts d))) (tail_open (tail d))
  end.

Lemma index_of_open v r : index_of OPEN v = None → index_of OPEN (v ++ OPEN ++ r) = Some (length v).
Proof. apply (index_of_app 60 (js "think>")). by apply (bool_decide_unpack _). Qed.

Lemma index_of_close v r :
  index_of CLOSE v = None → index_of CLOSE (v ++ CLOSE ++ r) = Some (length v).
Proof. apply (index_of_app 60 (js "/think>")). by apply (bool_decide_unpack _). Qed.

Lemma find_open text pos v rest :
  index_of OPEN v = None → drop pos text = v ++ OPEN ++ rest →
  index_of_from OPEN text pos = Some (pos + length v)%nat ∧
  substring text pos (pos + length v) = v ∧ drop (pos + length v + 7) text = rest.
Proof.
  intros Hv E. unfold index_of_from, substring. rewrite E, index_of_open by done.
  split; [done|]. replace (pos + length v - pos)%nat with (length v) by lia.
  split; [by rewrite take_app_length|].
  replace (pos + length v + 7)%nat with (pos + (length v + 7))%nat by lia.
  rewrite <- drop_drop, E. rewrite app_assoc.
  replace (length v + 7)%nat with (length (v ++ OPEN)) by (rewrite length_app; done).
  by rewrite drop_app_length.
Qed.

Lemma find_close text pos r rest :
  index_of CLOSE r = None → drop pos text = r ++ CLOSE ++ rest →
  index_of_from CLOSE text pos = Some (pos + length r)%nat ∧
  substring text pos (pos + length r) = r ∧ drop (pos + length r + 8) text = rest.
Proof.
  intros Hv E. unfold index_of_from, substring. rewrite E, index_of_close by done.
  split; [done|]. replace (pos + length r - pos)%nat with (length r) by lia.
  split; [by rewrite take_app_length|].
  replace (pos + length r + 8)%nat with (pos + (length r + 8))%nat by lia.
  rewrite <- drop_drop, E. rewrite app_assoc.
  replace (length r + 8)%nat with (length (r ++ CLOSE)) by (rewrite length_app; done).
  by rewrite drop_app_length.
Qed.

(** Pushing a part only when it is not empty does not change the joined text. *)
Lemma push_visible text pos v vis :
  substring text pos (pos + length v) = v →
  concat (if (pos <? pos + length v)%nat then vis ++ [substring text pos (pos + length v)] else vis)
  = concat vis ++ v.
Proof.
  intros E. rewrite E. destruct (Nat.ltb_spec pos (pos + length v)).
  - rewrite concat_app. simpl. by rewrite app_nil_r.
  - destruct v; [by rewrite app_nil_r|simpl in *; lia].
Qed.

Lemma think_loop_render segs t : ∀ text pos fuel vis rea,
  Forall segment_wf segs → tail_wf t → drop pos text = render_from segs t →
  (length segs < fuel)%nat →
  ∃ vis', think_loop fuel text pos vis rea = (vis', rea ++ segs.*2 ++ tail_thoughts t, tail_open t) ∧
          concat vis' = concat vis ++ concat segs.*1 ++ tail_visible t.
Proof.
  induction segs as [|[v r] segs IH]; intros text pos fuel vis rea Hs Ht E Hf;
    (destruct fuel as [|fuel]; [simpl in Hf; lia|]).
  - destruct t as [v|v r]; simpl in *.
    + unfold index_of_from. rewrite E, Ht. simpl. eexists. split; [by rewrite app_nil_r|].
      destruct (Nat.ltb_spec pos (length text)) as [Hl|Hl].
      * rewrite concat_app. simpl. by rewrite app_nil_r.
      * rewrite drop_ge in E by lia. subst v. by rewrite app_nil_r.
    + destruct Ht as [Hv Hr]. destruct (find_open _ _ _ _ Hv E) as (-> & Hsub & Hd).
      unfold index_of_from at 1. rewrite Hd, Hr. simpl. eexists. split; [done|].
      by rewrite push_visible.
  - apply Forall_cons in Hs as [[Hv Hr] Hs]. simpl in Hv, Hr, E, Hf.
    cbn [think_loop]. destruct (find_open _ _ _ _ Hv E) as (-> & Hsub & Hd).
    destruct (find_close _ _ _ _ Hr Hd) as (-> & Hsub' & Hd').
    destruct (IH text (pos + length v + 7 + length r + 8)%nat fuel
      (if (pos <? pos + length v)%nat then vis ++ [substring text pos (pos + length v)] else vis)
      (rea ++ [substring text (pos + length v + 7) (pos + length v + 7 + length r)]))
      as (vis' & Hl & Hc); [done..|lia|].
    exists vis'. rewrite Hl, Hc, push_visible, Hsub' by done. simpl.
    split; [by rewrite <- app_assoc|by rewrite <- !app_assoc].
Qed.

Lemma render_length segs t : (length segs ≤ length (render_from segs t))%nat.
Proof.
  unfold render_from. induction segs as [|[v r] segs IH]; [simpl; lia|].
  cbn [foldr fst snd length]. rewrite !length_app. change (length OPEN) with 7%nat. lia.
Qed.

Lemma render_includes segs t :
  tail_wf t → includes OPEN (render_from segs t) = false → segs = [] ∧ ∃ v, t = Closed v.
Proof.
  intros Ht Hi%includes_false.
  assert (∀ v r, index_of OPEN (v ++ OPEN ++ r) ≠ None) as H.
  { intros v r E. apply (index_of_None _ _ (length v) r E). by rewrite drop_app_length. }
  destruct segs as [|[v r] segs]; [|by apply H in Hi].
  split; [done|]. destruct t as [v|v r]; [eauto|by apply H in Hi].
Qed.


Lemma index_of_split_at c q s i :
  index_of (c :: q) s = Some i →
  ∃ v r, s = v ++ (c :: q) ++ r ∧ index_of (c :: q) v = None.
Proof.
  intros H. exists (take i s), (drop (i + length (c :: q)) s).
  split; [by apply index_of_Some|by apply index_of_take].
Qed.

Lemma render_exists text : ∃ d, doc_wf d ∧ render d = text.
Proof.
  induction text as [text IH] using (well_founded_induction
    (Wf_nat.well_founded_ltof _ (length (A := Z)))).
  unfold Wf_nat.ltof in IH. destruct (index_of OPEN text) as [i|] eqn:Eo.
  2:{ exists (MkDoc [] (Closed text)). split; [|done]. by split; [constructor|]. }
  destruct (index_of_split_at 60 (js "think>") text i Eo) as (v & rest & -> & Hv).
  change (60 :: js "think>") with OPEN in *.
  destruct (index_of CLOSE rest) as [j|] eqn:Ec.
  2:{ exists (MkDoc [] (Unclosed v rest)). split; [|done]. by split; [constructor|]. }
  destruct (index_of_split_at 60 (js "/think>") rest j Ec) as (r & rest' & -> & Hr).
  change (60 :: js "/think>") with CLOSE in *.
  destruct (IH rest') as (d & [Hs Ht] & Hd).
  { rewrite !length_app. change (length OPEN) with 7%nat. lia. }
  exists (MkDoc ((v, r) :: segments d) (tail d)).
  split; [split; [by constructor|done]|]. rewrite <- Hd. done.
Qed.

(** The thinking part of an answer is separated exactly: every text is a
    sequence of visible pieces and tagged thoughts, possibly ending in a
    thought that is not closed yet, and the parser returns the visible pieces
    joined, the thoughts joined by blank lines, and whether one is open. *)
Theorem think_tags_exact :
  (∀ text, ∃ d, doc_wf d ∧ render d = text) ∧
  (∀ d, doc_wf d → parseThinkTags (render d) = parsed_doc d).
Proof.
  split; [apply render_exists|]. intros [segs t] [Hs Ht]. unfold parseThinkTags.
  unfold render in *. cbn [segments tail] in *.
  destruct (includes OPEN (render_from segs t)) eqn:Ei; cbn [negb].
  - destruct (think_loop_render segs t (render_from segs t) 0 (S (length (render_from segs t))) [] [])
      as (vis & -> & Hc); [done..| |].
    { pose proof (render_length segs t). lia. }
    rewrite join_nil_concat, Hc. cbn [app concat]. unfold parsed_doc, visible_text, thoughts.
    cbn [segments tail]. destruct segs as [|s segs]; [|done]. destruct t as [v|v r]; [|done].
    apply includes_false in Ht. simpl in Ei. congruence.
  - apply render_includes in Ei as [-> [v ->]]; done.
Qed.

End MessageUtils.


(** ** Requests *)

Module PayloadBuilder.
Import MessageUtils.

Definition parameterKeys : list jsstr :=
  map js ["temperature"; "top_p"; "max_tokens"; "frequency_penalty"; "presence_penalty";
          "seed"]%string.

(** The parameter [k] of the payload, if it is switched on and has a value. *)
Definition parameter (config : PlaygroundConfig) (parameterEnabled : ParameterEnabled)
    (k : jsstr) : option (jsstr * jsval) :=
  if truthy (obj_get k parameterEnabled) then
    let v := obj_get k config in
    if nullish v then None else Some (k, v)
  else None.

Definition buildChatCompletionPayload (messages : list Message) (config : PlaygroundConfig)
    (parameterEnabled : ParameterEnabled) : ChatCompletionRequest :=
  let processedMessages :=
    map formatMessageForAPI (filter (λ m, isValidMessage m = true) messages) in
  Request (obj_get (js "model") config) (obj_get (js "group") config) processedMessages
    (obj_get (js "stream") config) (omap (parameter config parameterEnabled) parameterKeys).

(** What is sent to the server: the valid messages in order, so never an
    assistant placeholder without text, each with its current version and its
    non-blank images; and a parameter exactly when it is switched on and has
    a value, each at most once. *)
Theorem payload_exact (ms : list Message) (c : PlaygroundConfig) (p : ParameterEnabled) :
  let r := buildChatCompletionPayload ms c p in
  (∃ valid, sublist valid ms ∧ req_messages r = map formatMessageForAPI valid ∧
            ∀ m, m ∈ ms → (m ∈ valid ↔ versions m ≠ [] ∧
                           (from m = Assistant → nonblank (content (getCurrentVersion m))))) ∧
  (∀ k v, (k, v) ∈ req_params r ↔
     k ∈ parameterKeys ∧ truthy (obj_get k p) = true ∧ obj_get k c = v ∧ nullish v = false) ∧
  NoDup (req_params r).*1.
Proof.
  cbn [buildChatCompletionPayload req_messages req_params]. split_and!.
  - exists (filter (λ m, isValidMessage m = true) ms).
    split_and!; [apply sublist_filter|done|]. intros m Hm.
    rewrite list_elem_of_filter. unfold isValidMessage, getCurrentVersion, nonblank.
    destruct (versions m) as [|v vs]; [naive_solver|].
    case_bool_decide; simpl; destruct (is_empty (trim (content v))); naive_solver.
  - intros k v. rewrite list_elem_of_omap. unfold parameter. split.
    + intros (k' & Hk & H). repeat (case_match; simplify_eq/=; try done).
    + intros (Hk & Ht & <- & Hn). exists k. rewrite Ht, Hn. done.
  - assert (NoDup parameterKeys) as Hnd by (apply (bool_decide_unpack _); vm_compute; exact I).
    induction Hnd as [|k ks Hk _ IH]; [constructor|]. cbn [omap list_omap].
    destruct (parameter c p k) as [[k' v]|] eqn:E; [|done]. cbn [fmap list_fmap fst].
    assert (k' = k) as -> by (unfold parameter in E; by repeat case_match; simplify_eq).
    constructor; [|done]. intros ([k' v'] & -> & Hin)%list_elem_of_fmap.
    apply list_elem_of_omap in Hin as (k'' & Hin & E').
    assert (k' = k'') as -> by (unfold parameter in E'; by repeat case_match; simplify_eq). done.
Qed.

End PayloadBuilder.

(** ** Stored history

    The three entries of local storage, and whether reading and writing
    succeed (both throw when storage is denied, writing also when the quota is
    exhausted). *)

Module PlaygroundStorage.
Import MessageUtils.

Record LocalStorage := Local {
  s_config : option jsstr;
  s_params : option jsstr;
  s_messages : option jsstr;
  readable : bool;
  writable : bool;
}.

Definition load_object (readable : bool) (saved : option jsstr) : jsval :=
  if readable then
    match saved with
    | Some text => if is_empty text then JObj [] else catch (JSON_parse text) (JObj [])
    | None => JObj []
    end
  else JObj [].

Definition loadConfig (st : LocalStorage) : jsval := load_object (readable st) (s_config st).
Definition loadParameterEnabled (st : LocalStorage) : jsval :=
  load_object (readable st) (s_params st).

(** An object always has a text. *)
Definition text_of (v : jsval) : jsstr := default (js "undefined") (JSON_stringify v).

Definition saveConfig (config : PlaygroundConfig) (st : LocalStorage) : LocalStorage :=
  if writable st
  then Local (Some (text_of (JObj config))) (s_params st) (s_messages st) (readable st) true
  else st.

Definition saveParameterEnabled (p : ParameterEnabled) (st : LocalStorage) : LocalStorage :=
  if writable st
  then Local (s_config st) (Some (text_of (JObj p))) (s_messages st) (readable st) true
  else st.

(** *** Messages as objects

    [JSON.stringify] leaves out the fields that are [undefined]; the model
    writes the others in the order of the interface. *)

Definition role_str (r : MessageRole) : jsstr :=
  match r with User => js "user" | Assistant => js "assistant" | System => js "system" end.
Definition status_str (s : MessageStatus) : jsstr :=
  match s with
  | LOADING => js "loading" | STREAMING => js "streaming" | COMPLETE => js "complete"
  | ERROR => js "error"
  end.

Definition field (k : string) (v : option jsval) : list (jsstr * jsval) :=
  match v with Some v => [(js k, v)] | None => [] end.

Definition strs (l : list jsstr) : jsval := JArr (map JStr l).

Definition version_val (v : MessageVersion) : jsval :=
  JObj (field "id" (JStr <$> id v) ++ field "content" (Some (JStr (content v)))
        ++ field "images" (strs <$> images v)).

Definition source_val (s : Source) : jsval :=
  JObj [(js "href", JStr (href s)); (js "title", JStr (title s))].

Definition reasoning_val (r : Reasoning) : jsval :=
  JObj [(js "content", JStr (rcontent r)); (js "duration", JNum (duration r))].

Definition message_val (m : Message) : jsval :=
  JObj (field "key" (Some (JStr (key m))) ++ field "from" (Some (JStr (role_str (from m))))
        ++ field "versions" (Some (JArr (map version_val (versions m))))
        ++ field "sources" ((λ l, JArr (map source_val l)) <$> sources m)
        ++ field "reasoning" (reasoning_val <$> reasoning m)
        ++ field "isReasoningStreaming" (JBool <$> isReasoningStreaming m)
        ++ field "isReasoningComplete" (JBool <$> isReasoningComplete m)
        ++ field "isContentComplete" (JBool <$> isContentComplete m)
        ++ field "status" ((λ s, JStr (status_str s)) <$> status m)
        ++ field "errorCode" (errorCode m)).

(** Reading a stored value at its declared type: [None] when the value does
    not have it (the code casts without checking). *)
Definition as_str (v : jsval) : option jsstr := match v with JStr s => Some s | _ => None end.
Definition as_num (v : jsval) : option num := match v with JNum x => Some x | _ => None end.
Definition as_bool (v : jsval) : option bool := match v with JBool b => Some b | _ => None end.
Definition as_list {A} (f : jsval → option A) (v : jsval) : option (list A) :=
  match v with JArr l => mapM f l | _ => None end.
Definition as_obj (v : jsval) : option (list (jsstr * jsval)) :=
  match v with JObj o => Some o | _ => None end.

Definition required {A} (f : jsval → option A) (k : string) (o : list (jsstr * jsval)) : option A :=
  v ← assoc_get (js k) o; f v.
Definition optional {A} (f : jsval → option A) (k : string) (o : list (jsstr * jsval))
    : option (option A) :=
  match assoc_get (js k) o with Some v => Some <$> f v | None => Some None end.

Definition role_of (v : jsval) : option MessageRole :=
  if is_str (js "user") v then Some User else if is_str (js "assistant") v then Some Assistant
  else if is_str (js "system") v then Some System else None.
Definition status_of (v : jsval) : option MessageStatus :=
  if is_str (js "loading") v then Some LOADING else if is_str (js "streaming") v then Some STREAMING
  else if is_str (js "complete") v then Some COMPLETE
  else if is_str (js "error") v then Some ERROR else None.

Definition version_of (v : jsval) : option MessageVersion :=
  o ← as_obj v; i ← optional as_str "id" o; c ← required as_str "content" o;
  im ← optional (as_list as_str) "images" o; Some (Version i c im).
Definition source_of (v : jsval) : option Source :=
  o ← as_obj v; h ← required as_str "href" o; t ← required as_str "title" o; Some (MkSource h t).
Definition reasoning_of (v : jsval) : option Reasoning :=
  o ← as_obj v; c ← required as_str "content" o; d ← required as_num "duration" o;
  Some (Reason c d).

Definition message_of (v : jsval) : option Message :=
  o ← as_obj v;
  k ← required as_str "key" o;
  fr ← required role_of "from" o;
  vs ← required (as_list version_of) "versions" o;
  so ← optional (as_list source_of) "sources" o;
  re ← optional reasoning_of "reasoning" o;
  rs ← optional as_bool "isReasoningStreaming" o;
  rc ← optional as_bool "isReasoningComplete" o;
  cc ← optional as_bool "isContentComplete" o;
  st ← optional status_of "status" o;
  ec ← optional Some "errorCode" o;
  Some (Msg k fr vs so re rs rc cc st ec).

Definition strip_version (v : MessageVersion) : MessageVersion :=
  match images v with
  | Some (_ :: _) => Version (id v) (content v) (Some [])
  | _ => v
  end.

Definition strip_images (m : Message) : Message := with_versions (map strip_version (versions m)) m.

Definition messages_val (l : list Message) : jsval := JArr (map message_val l).

Definition saveMessages (messages : list Message) (st : LocalStorage) : LocalStorage :=
  if writable st
  then Local (s_config st) (s_params st) (Some (text_of (messages_val (map strip_images messages))))
         (readable st) true
  else st.

(** The history ([None] is [null]) and the storage afterwards; [None] when the
    stored array is not an array of messages. *)
Definition loadMessages (st : LocalStorage) : option (option (list Message) * LocalStorage) :=
  match (if readable st then s_messages st else None) with
  | None => Some (None, st)
  | Some saved =>
      if is_empty saved then Some (None, st)
      else
        match JSON_parse saved with
        | Throw => Some (None, st)
        | Ok (JArr l) =>
            parsed ← mapM message_of l;
            match sanitizeMessagesOnLoad parsed with
            | None => Some (Some parsed, st)
            | Some sanitized => Some (Some sanitized, saveMessages sanitized st)
            end
        | Ok _ => Some (None, st)
        end
  end.

Definition clearPlaygroundData (st : LocalStorage) : LocalStorage :=
  if readable st then Local None None None true (writable st) else st.

(** *** Saving and loading *)

Lemma mapM_map {A B C} (f : B → option C) (g : A → B) (h : A → C) l :
  (∀ x, f (g x) = Some (h x)) → mapM f (map g l) = Some (map h l).
Proof. intros H. induction l as [|x l IH]; simpl; [done|]. by rewrite H; simpl; rewrite IH. Qed.

Lemma mapM_map_id {A B} (f : B → option A) (g : A → B) l :
  (∀ x, f (g x) = Some x) → mapM f (map g l) = Some l.
Proof. intros H. rewrite (mapM_map f g (λ x, x)) by done. by rewrite map_id. Qed.

Lemma as_strs l : as_list as_str (strs l) = Some l.
Proof. by apply mapM_map_id. Qed.

Lemma role_roundtrip r : role_of (JStr (role_str r)) = Some r.
Proof. by destruct r. Qed.
Lemma status_roundtrip st : status_of (JStr (status_str st)) = Some st.
Proof. by destruct st. Qed.

(** Looking a field up among optional fields. *)
Lemma field_hit k v rest :
  assoc_get (js k) (field k v ++ rest)
  = match v with Some v => Some v | None => assoc_get (js k) rest end.
Proof. destruct v; [|done]. cbn [field app assoc_get]. by rewrite decide_True. Qed.

Lemma field_skip k k' v rest :
  bool_decide (js k = js k') = false →
  assoc_get (js k) (field k' v ++ rest) = assoc_get (js k) rest.
Proof.
  intros H%bool_decide_eq_false. destruct v; [|done]. cbn [field app assoc_get].
  by rewrite decide_False.
Qed.

Lemma optional_hit {A} (f : jsval → option A) (g : A → jsval) k x o rest :
  assoc_get (js k) o = match g <$> x with Some v => Some v | None => assoc_get (js k) rest end →
  assoc_get (js k) rest = None → (∀ y, f (g y) = Some y) → optional f k o = Some x.
Proof. unfold optional. intros -> -> Hf. destruct x; simpl; [by rewrite Hf|done]. Qed.

Lemma required_hit {A} (f : jsval → option A) k o v x :
  assoc_get (js k) o = Some v → f v = Some x → required f k o = Some x.
Proof. unfold required. by intros ->. Qed.

(** Reads a required or optional field of an object built from [field]s. *)
Ltac find_field := repeat rewrite field_skip by (vm_compute; reflexivity); rewrite field_hit.
Ltac read_required k Hf :=
  erewrite (required_hit _ k); [|find_field; reflexivity|apply Hf]; cbn [mbind option_bind].
Ltac read_optional k Hf :=
  erewrite (optional_hit _ _ k); [|find_field; reflexivity|
    repeat rewrite field_skip by (vm_compute; reflexivity); reflexivity|apply Hf];
  cbn [mbind option_bind].

Lemma version_roundtrip v : version_of (version_val v) = Some v.
Proof.
  destruct v as [i c im]. unfold version_of, version_val. cbn [as_obj mbind option_bind].
  rewrite <- (app_nil_r (field "images" _)).
  read_optional "id" (λ s : jsstr, eq_refl (Some s)).
  read_required "content" (eq_refl (Some c)). by read_optional "images" as_strs.
Qed.

Lemma source_roundtrip so : source_of (source_val so) = Some so.
Proof. by destruct so. Qed.
Lemma reasoning_roundtrip r : reasoning_of (reasoning_val r) = Some r.
Proof. by destruct r. Qed.

Lemma message_roundtrip m : message_of (message_val m) = Some m.
Proof.
  destruct m as [k fr vs so re rs rc cc st ec].
  assert (as_list version_of (JArr (map version_val vs)) = Some vs) as Hv
    by (apply mapM_map_id, version_roundtrip).
  assert (∀ l, as_list source_of (JArr (map source_val l)) = Some l) as Hs
    by (intros l; apply mapM_map_id, source_roundtrip).
  unfold message_of, message_val. cbn [as_obj mbind option_bind].
  rewrite <- (app_nil_r (field "errorCode" _)).
  read_required "key" (eq_refl (Some k)). read_required "from" role_roundtrip.
  read_required "versions" Hv. read_optional "sources" Hs.
  read_optional "reasoning" reasoning_roundtrip.
  read_optional "isReasoningStreaming" (λ b : bool, eq_refl (Some b)).
  read_optional "isReasoningComplete" (λ b : bool, eq_refl (Some b)).
  read_optional "isContentComplete" (λ b : bool, eq_refl (Some b)).
  read_optional "status" status_roundtrip.
  cbn [errorCode]. erewrite (optional_hit Some (λ v, v) "errorCode" ec);
    [done|find_field; by destruct ec|done|done].
Qed.

(** The history survives a reload: loading what was saved returns the same
    messages without their inline images, except that a message left half
    generated is finished; when at most one was, none of the loaded messages
    is still being generated. *)
Theorem history_roundtrip (ms : list Message) (st : LocalStorage)
  (Hr : readable st = true) (Hw : writable st = true)
  (Hok : json_ok (messages_val (map strip_images ms)) = true) :
  ∃ out st', loadMessages (saveMessages ms st) = Some (Some out, st') ∧
    length out = length ms ∧
    (∀ i m, ms !! i = Some m →
       out !! i = Some (strip_images m) ∨
       stuck m = true ∧ out !! i = Some (sanitize_one (strip_images m))) ∧
    (single_stuck ms → Forall (λ m, stuck m = false) out).
Proof.
  destruct (json_roundtrip _ Hok) as (t & Ht & Hp).
  set (kept := map strip_images ms) in *.
  assert (∃ st', loadMessages (saveMessages ms st)
                 = Some (Some (default kept (sanitizeMessagesOnLoad kept)), st')) as [st' Hl].
  { unfold saveMessages, text_of. fold kept. rewrite Hw, Ht. unfold loadMessages.
    cbn [readable s_messages from_option]. unfold Datatypes.id. rewrite Hr.
    destruct t as [|c t]; [done|]. cbn [is_empty]. rewrite Hp. unfold messages_val.
    rewrite (mapM_map_id message_of message_val) by apply message_roundtrip.
    cbn [mbind option_bind]. destruct (sanitizeMessagesOnLoad kept); by eexists. }
  exists (default kept (sanitizeMessagesOnLoad kept)), st'. split; [done|].
  destruct (sanitize_effect kept) as (Hlen & Heff & Hone).
  assert (∀ m, stuck (strip_images m) = stuck m) as Hst by done.
  split_and!.
  - by rewrite Hlen; unfold kept; rewrite length_map.
  - intros i m Hm. apply (Heff i (strip_images m)). change kept with (strip_images <$> ms).
    by rewrite list_lookup_fmap, Hm.
  - intros H1. apply Hone. unfold kept. intros i j m m' Hi Hj.
    apply list_lookup_fmap_Some in Hi as (m0 & -> & Hi), Hj as (m1 & -> & Hj).
    rewrite !Hst. by apply H1.
Qed.

Lemma history_roundtrip_witness :
  let ms := [createUserMessage (js "k1") (js "v1") (js "hi") (Some [js "data:x"]);
             createLoadingAssistantMessage (js "k2") (js "v2")] in
  ∃ out st', loadMessages (saveMessages ms (Local None None None true true)) = Some (Some out, st') ∧
    length out = length ms ∧
    (∀ i m, ms !! i = Some m →
       out !! i = Some (strip_images m) ∨
       stuck m = true ∧ out !! i = Some (sanitize_one (strip_images m))) ∧
    (single_stuck ms → Forall (λ m, stuck m = false) out).
Proof.
  intros ms. apply (history_roundtrip ms (Local None None None true true));
    [reflexivity|reflexivity|vm_compute; reflexivity].
Defined.

End PlaygroundStorage.
