(* ===== verification/PlaygroundChat.v ===== *)
(** * Playground: the chat as a state machine

    [hooks/use-playground-state.ts], [hooks/use-stream-request.ts],
    [hooks/use-chat-handler.ts] and the message actions of
    [features/playground/index.tsx].  The state is what the hooks keep between
    renders: configuration, messages, local storage, the current event source
    and the completion flag.  The environment (user, SSE library, server)
    chooses the events, in any order and from any source; an event is handled
    by one function of the state. *)

From stdpp Require Import base list strings gmap sorting.
From Stdlib Require Import ZArith Lia SpecFloat.
From S2P Require Import Prelude JsString JsNumber JsValue JsJson Playground.
Import Types MessageUtils PayloadBuilder PlaygroundStorage.
#[local] Open Scope Z_scope.

Module Chat.

(** ** State *)

(** [closed]: the sources that were told to close; [opened]: how many were
    created; [toasts]: the error texts shown, latest first. *)
Record State := MkState {
  config : PlaygroundConfig;
  parameterEnabled : ParameterEnabled;
  messages : list Message;
  storage : LocalStorage;
  sseSource : option nat;
  isStreamComplete : bool;
  opened : nat;
  closed : list nat;
  toasts : list jsstr;
}.

(** *** [usePlaygroundState] *)

(** The initial state: [None] when the stored history is not an array of
    messages (see [loadMessages]). *)
Definition usePlaygroundState (st : LocalStorage) : option State :=
  '(loaded, st') ← loadMessages st;
  Some (MkState (spread_over DEFAULT_CONFIG (loadConfig st))
          (spread_over DEFAULT_PARAMETER_ENABLED (loadParameterEnabled st))
          (default [] loaded) st' None false 0 [] []).

Definition updateConfig (k : jsstr) (v : jsval) (c : State) : State :=
  let updated := obj_put k v (config c) in
  MkState updated (parameterEnabled c) (messages c) (saveConfig updated (storage c))
    (sseSource c) (isStreamComplete c) (opened c) (closed c) (toasts c).

Definition updateParameterEnabled (k : jsstr) (v : bool) (c : State) : State :=
  let updated := obj_put k (JBool v) (parameterEnabled c) in
  MkState (config c) updated (messages c) (saveParameterEnabled updated (storage c))
    (sseSource c) (isStreamComplete c) (opened c) (closed c) (toasts c).

Definition updateMessages (updater : list Message → list Message) (c : State) : State :=
  let newMessages := updater (messages c) in
  MkState (config c) (parameterEnabled c) newMessages (saveMessages newMessages (storage c))
    (sseSource c) (isStreamComplete c) (opened c) (closed c) (toasts c).

Definition clearMessages (c : State) : State := updateMessages (λ _, []) c.

Definition resetConfig (c : State) : State :=
  MkState DEFAULT_CONFIG DEFAULT_PARAMETER_ENABLED (messages c)
    (saveParameterEnabled DEFAULT_PARAMETER_ENABLED (saveConfig DEFAULT_CONFIG (storage c)))
    (sseSource c) (isStreamComplete c) (opened c) (closed c) (toasts c).

(** *** Callbacks of the chat handler *)

Inductive ChunkType := ReasoningChunk | ContentChunk.

Definition stream_update (type : ChunkType) (chunk : jsstr) (message : Message) : Message :=
  if decide (status message = Some ERROR) then message
  else match type with
       | ReasoningChunk =>
           let before := match reasoning message with Some r => rcontent r | None => [] end in
           with_status STREAMING
             (with_reasoning (Some (Reason (before ++ chunk) (num_of_Z 0))) true message)
       | ContentChunk => with_status STREAMING (processStreamingContent message chunk)
       end.

Definition handleStreamUpdate (type : ChunkType) (chunk : jsstr) (c : State) : State :=
  updateMessages (λ prev, updateLastAssistantMessage prev (stream_update type chunk)) c.

Definition stream_complete (message : Message) : Message :=
  if decide (status message = Some COMPLETE ∨ status message = Some ERROR) then message
  else with_status COMPLETE (finalizeMessage message []).

Definition handleStreamComplete (c : State) : State :=
  updateMessages (λ prev, updateLastAssistantMessage prev stream_complete) c.

Definition toast_error (text : jsstr) (c : State) : State :=
  MkState (config c) (parameterEnabled c) (messages c) (storage c) (sseSource c)
    (isStreamComplete c) (opened c) (closed c) (text :: toasts c).

Definition handleStreamError (error : jsstr) (errorCode : jsval) (c : State) : State :=
  updateMessages (λ prev, updateAssistantMessageWithError prev error errorCode)
    (toast_error error c).

(** *** [useStreamRequest] *)

Definition set_source (s : option nat) (complete : bool) (c : State) : State :=
  MkState (config c) (parameterEnabled c) (messages c) (storage c) s complete (opened c)
    (closed c) (toasts c).

Definition close (src : nat) (c : State) : State :=
  MkState (config c) (parameterEnabled c) (messages c) (storage c) (sseSource c)
    (isStreamComplete c) (opened c) (src :: closed c) (toasts c).

Definition closeSource (src : nat) (c : State) : State :=
  let c := close src c in set_source None (isStreamComplete c) c.

Definition handleError (src : nat) (errorMessage : jsstr) (errorCode : jsval) (c : State) : State :=
  if isStreamComplete c then c
  else closeSource src (handleStreamError errorMessage errorCode c).

(** A new source; [start_ok] is false when [source.stream()] throws.  The
    payload does not affect the state of the page. *)
Definition sendStreamRequest (start_ok : bool) (c : State) : State :=
  let src := opened c in
  let c := MkState (config c) (parameterEnabled c) (messages c) (storage c) (Some src) false
             (S (opened c)) (closed c) (toasts c) in
  if start_ok then c
  else
    let c := handleStreamError STREAM_START_ERROR JUndef c in
    set_source None (isStreamComplete c) c.

(** The chunks of one event, in the order they are applied. *)
Definition event_deltas (data : jsstr) : res (list (ChunkType * jsval)) :=
  let* chunk := JSON_parse data in
  let* choices := get_prop (js "choices") chunk in
  let delta := get_prop_opt (js "delta") (get_prop_opt (js "0") choices) in
  if truthy delta then
    let reasoning := get_prop_opt (js "reasoning_content") delta in
    let content := get_prop_opt (js "content") delta in
    Ok ((if truthy reasoning then [(ReasoningChunk, reasoning)] else [])
        ++ (if truthy content then [(ContentChunk, content)] else []))
  else Ok [].

(** Appending a chunk converts it to a string; a conversion that throws ends
    the handler. The flag tells whether one did. *)
Fixpoint apply_deltas (l : list (ChunkType * jsval)) (c : State) : State * bool :=
  match l with
  | [] => (c, false)
  | (type, v) :: l' =>
      match to_str v with
      | Ok chunk => apply_deltas l' (handleStreamUpdate type chunk c)
      | Throw => (c, true)
      end
  end.

Definition on_message (src : nat) (data : jsstr) (c : State) : State :=
  if decide (data = js "[DONE]") then
    handleStreamComplete (closeSource src (set_source (sseSource c) true c))
  else
    match event_deltas data with
    | Ok deltas =>
        let '(c', failed) := apply_deltas deltas c in
        if failed then handleError src PARSE_ERROR JUndef c' else c'
    | Throw => handleError src PARSE_ERROR JUndef c
    end.

(** [e.data] ([None] is [undefined]) and [source.readyState]. *)
Definition on_error (src : nat) (data : option jsstr) (readyState : Z) (c : State) : res State :=
  if readyState =? 2 then Ok c
  else
    let text := default [] data in
    let errorMessage := JStr (if is_empty text then API_REQUEST_ERROR else text) in
    let '(msg, code) :=
      if is_empty text then (errorMessage, JUndef)
      else
        let error := catch (let* parsed := JSON_parse text in
                            Ok (get_prop_opt (js "error") parsed)) JUndef in
        if truthy error then
          (js_or (get_prop_opt (js "message") error) errorMessage,
           js_or (get_prop_opt (js "code") error) JUndef)
        else (errorMessage, JUndef) in
    let* shown := to_str msg in
    Ok (handleError src shown code c).

(** [e.readyState] and [source.status], where defined. *)
Definition on_readystatechange (src : nat) (readyState status : option Z) (c : State) : State :=
  match readyState, status with
  | Some r, Some s =>
      if (2 <=? r) && negb (s =? 200) then
        handleError src (js "HTTP " ++ Z_to_str s ++ js ": " ++ CONNECTION_CLOSED) JUndef c
      else c
  | _, _ => c
  end.

Definition stopStream (c : State) : State :=
  match sseSource c with
  | Some src => closeSource src c
  | None => c
  end.

Definition isStreaming (c : State) : bool := negb (is_none (sseSource c)).

(** *** [useChatHandler] *)

Definition stop_message (message : Message) : Message :=
  if decide (status message = Some LOADING ∨ status message = Some STREAMING)
  then with_status COMPLETE (finalizeMessage message [])
  else message.

Definition stopGeneration (c : State) : State :=
  updateMessages (λ prev, updateLastAssistantMessage prev stop_message) (stopStream c).

(** A settled completion request: the choices of the response (message
    content and reasoning, where present), or what the error carries. *)
Record Choice := MkChoice { choice_content : option jsstr; reasoning_content : option jsstr }.
Record RequestError := MkError {
  data_message : option jsstr;
  error_message : option jsstr;
  error_code : option jsstr;
}.

Definition answer (choice : Choice) (message : Message) : Message :=
  let v := match versions message with
           | v :: _ => Version (id v) (default [] (choice_content choice)) (images v)
           | [] => Version None (default [] (choice_content choice)) None
           end in
  with_status COMPLETE
    (finalizeMessage (with_versions [v] message) (default [] (reasoning_content choice))).

Definition on_response (r : list Choice + RequestError) (c : State) : State :=
  match r with
  | inl [] => c
  | inl (choice :: _) =>
      updateMessages (λ prev, updateLastAssistantMessage prev (answer choice)) c
  | inr e =>
      handleStreamError
        (str_or (default [] (data_message e))
           (str_or (default [] (error_message e)) API_REQUEST_ERROR))
        (match error_code e with Some code => JStr code | None => JUndef end) c
  end.

(** The request of a non-streaming chat is pending until [on_response]. *)
Definition sendChat (start_ok : bool) (c : State) : State :=
  if truthy (obj_get (js "stream") (config c)) then sendStreamRequest start_ok c else c.

(** *** Actions of the page *)

(** The identifiers [nanoid] draws for a new message. *)
Record Ids := MkIds { key_id : jsstr; version_id : jsstr }.

Definition loading (n : Ids) : Message := createLoadingAssistantMessage (key_id n) (version_id n).

Definition handleSendMessage (n1 n2 : Ids) (text : jsstr) (imgs : option (list jsstr))
    (start_ok : bool) (c : State) : State :=
  let newMessages :=
    messages c ++ [createUserMessage (key_id n1) (version_id n1) text imgs; loading n2] in
  sendChat start_ok (updateMessages (λ _, newMessages) c).

Definition find_key (k : jsstr) (l : list Message) : option nat :=
  fst <$> list_find (λ m, key m = k) l.

Definition handleRegenerateMessage (k : jsstr) (n : Ids) (start_ok : bool) (c : State) : State :=
  match find_key k (messages c) with
  | None => c
  | Some i =>
      sendChat start_ok (updateMessages (λ _, take i (messages c) ++ [loading n]) c)
  end.

Definition edit_content (text : jsstr) (m : Message) : Message :=
  with_versions
    [match versions m with
     | v :: _ => Version (id v) text (images v)
     | [] => Version None text None
     end] m.

Definition applyEdit (k text : jsstr) (submit : bool) (n : Ids) (start_ok : bool) (c : State)
    : State :=
  if is_empty k then c
  else match find_key k (messages c) with
  | None => c
  | Some i =>
      let updated := map (λ m, if decide (key m = k) then edit_content text m else m) (messages c) in
      if negb submit || negb (bool_decide (from <$> updated !! i = Some User))
      then updateMessages (λ _, updated) c
      else sendChat start_ok (updateMessages (λ _, take (S i) updated ++ [loading n]) c)
  end.

Definition handleDeleteMessage (k : jsstr) (c : State) : State :=
  updateMessages (λ _, filter (λ m, key m ≠ k) (messages c)) c.

(** ** Steps *)

Inductive Event :=
| Send (n1 n2 : Ids) (text : jsstr) (imgs : option (list jsstr)) (start_ok : bool)
| Regenerate (k : jsstr) (n : Ids) (start_ok : bool)
| Edit (k text : jsstr) (submit : bool) (n : Ids) (start_ok : bool)
| Delete (k : jsstr)
| Stop
| Clear
| SetConfig (k : jsstr) (v : jsval)
| SetParameter (k : jsstr) (v : bool)
| ResetConfig
| SseMessage (src : nat) (data : jsstr)
| SseError (src : nat) (data : option jsstr) (readyState : Z)
| SseReadyState (src : nat) (readyState status : option Z)
| Response (r : list Choice + RequestError).

Definition exec (e : Event) (c : State) : res State :=
  match e with
  | Send n1 n2 text imgs ok => Ok (handleSendMessage n1 n2 text imgs ok c)
  | Regenerate k n ok => Ok (handleRegenerateMessage k n ok c)
  | Edit k text submit n ok => Ok (applyEdit k text submit n ok c)
  | Delete k => Ok (handleDeleteMessage k c)
  | Stop => Ok (stopGeneration c)
  | Clear => Ok (clearMessages c)
  | SetConfig k v => Ok (updateConfig k v c)
  | SetParameter k v => Ok (updateParameterEnabled k v c)
  | ResetConfig => Ok (resetConfig c)
  | SseMessage src data => Ok (on_message src data c)
  | SseError src data rs => on_error src data rs c
  | SseReadyState src rs st => Ok (on_readystatechange src rs st c)
  | Response r => Ok (on_response r c)
  end.

(** Runs: any sequence of events that do not throw. *)
Inductive runs : State → list Event → State → Prop :=
| runs_nil c : runs c [] c
| runs_cons c e c' es c'' : exec e c = Ok c' → runs c' es c'' → runs c (e :: es) c''.

(** ** The saved history follows the screen *)

(** Local storage holds the text of the messages shown, without their inline
    images. *)
Definition stored_as_shown (c : State) : Prop :=
  s_messages (storage c) = Some (text_of (messages_val (map strip_images (messages c)))).

(** The messages shown and stored are those of [c0]. *)
Definition untouched (c0 c : State) : Prop :=
  messages c = messages c0 ∧ s_messages (storage c) = s_messages (storage c0).

Section since.
Context (c0 : State).

Definition synced (c : State) : Prop := writable (storage c) = true → stored_as_shown c ∨ untouched c0 c.

Lemma updateMessages_synced f c : synced (updateMessages f c).
Proof.
  unfold synced, stored_as_shown, updateMessages, saveMessages. cbn [storage messages].
  destruct (writable (storage c)) eqn:E; [by left|congruence].
Qed.

Lemma synced_view c c' :
  messages c' = messages c → s_messages (storage c') = s_messages (storage c) →
  writable (storage c') = writable (storage c) → synced c → synced c'.
Proof. unfold synced, stored_as_shown, untouched. by intros -> -> ->. Qed.

Lemma closeSource_synced src c : synced c → synced (closeSource src c).
Proof. by apply synced_view. Qed.

Lemma handleError_synced src msg code c : synced c → synced (handleError src msg code c).
Proof.
  intros H. unfold handleError. destruct (isStreamComplete c); [done|].
  apply closeSource_synced, updateMessages_synced.
Qed.

Lemma sendChat_synced ok c : synced c → synced (sendChat ok c).
Proof.
  intros H. unfold sendChat, sendStreamRequest. destruct (truthy _); [|done].
  destruct ok; [by apply (synced_view c)|]. eapply synced_view; [done..|].
  apply updateMessages_synced.
Qed.

Lemma apply_deltas_synced l c : synced c → synced (apply_deltas l c).1.
Proof.
  revert c. induction l as [|[t v] l IH]; intros c H; simpl; [done|].
  destruct (to_str v); [|done]. apply IH, updateMessages_synced.
Qed.

#[local] Hint Resolve updateMessages_synced closeSource_synced handleError_synced
  sendChat_synced apply_deltas_synced : nexus.

Lemma on_message_synced src data c : synced c → synced (on_message src data c).
Proof.
  intros H. unfold on_message. case_decide; [apply updateMessages_synced|].
  destruct (event_deltas data) as [l|]; [|auto with nexus].
  pose proof (apply_deltas_synced l c H) as Hl. destruct (apply_deltas l c) as [c' []]; simpl in Hl;
    auto with nexus.
Qed.

Lemma exec_synced e c c' : exec e c = Ok c' → synced c → synced c'.
Proof.
  intros He H. destruct e; simpl in He; simplify_eq.
  - unfold handleSendMessage. auto with nexus.
  - unfold handleRegenerateMessage. case_match; auto with nexus.
  - unfold applyEdit. repeat case_match; auto with nexus.
  - unfold handleDeleteMessage. auto with nexus.
  - unfold stopGeneration. auto with nexus.
  - unfold clearMessages. auto with nexus.
  - apply (synced_view c); [done|..|done]; unfold updateConfig, saveConfig; simpl; by case_match.
  - apply (synced_view c); [done|..|done]; unfold updateParameterEnabled, saveParameterEnabled;
      simpl; by case_match.
  - apply (synced_view c); [done|..|done]; unfold resetConfig, saveParameterEnabled, saveConfig;
      simpl; destruct (writable (storage c)) eqn:E; simpl; by rewrite ?E.
  - by apply on_message_synced.
  - unfold on_error in He. case_match; [by simplify_eq|]. cbv zeta in He.
    destruct (if is_empty _ then _ else _) as [msg code]. res_step He as t Ht.
    injection He as <-. auto with nexus.
  - unfold on_readystatechange. repeat case_match; auto with nexus.
  - unfold on_response, handleStreamError. repeat case_match; auto with nexus.
Qed.

End since.

(** C16. The stored history is never behind the screen: on a page opened on any
    local storage, along any sequence of user actions, stream events in any order
    and server answers, as long as storage can be written it holds exactly the
    messages shown, without their inline images, or neither the messages shown
    nor the stored text have been touched since the page was opened. *)
Theorem history_always_saved (st : LocalStorage) (c c' : State) (es : list Event)
  (Hopen : usePlaygroundState st = Some c) (Hr : runs c es c') (Hw : writable (storage c') = true) :
  stored_as_shown c' ∨ untouched c c'.
Proof.
  assert (synced c c) as H0 by by right. revert Hw. change (synced c c').
  clear Hopen. revert H0. generalize c at 1 3 as c0. intros c0.
  induction Hr as [|c e c1 es c2 He _ IH]; [done|]. eauto using exec_synced.
Qed.

Lemma history_always_saved_witness :
  let st := Local None None None true true in
  ∃ c c', usePlaygroundState st = Some c ∧
    runs c [Send (MkIds (js "a") (js "b")) (MkIds (js "c") (js "d")) (js "hi") None true; Stop] c' ∧
    length (messages c') = 2%nat ∧ stored_as_shown c'.
Proof.
  intros st. eexists _, _. split; [vm_compute; reflexivity|].
  match goal with |- runs ?c0 ?es _ ∧ _ =>
    assert (runs c0 es (stopGeneration (handleSendMessage (MkIds (js "a") (js "b")) (MkIds (js "c") (js "d"))
                 (js "hi") None true c0))) as Hr
      by (eapply runs_cons; [reflexivity|]; eapply runs_cons; [reflexivity|]; apply runs_nil);
    split; [exact Hr|]; split; [vm_compute; reflexivity|];
    destruct (history_always_saved st c0 _ es ltac:(vm_compute; reflexivity) Hr ltac:(vm_compute; reflexivity)) as [H|[H _]];
    [exact H|]
  end.
  exfalso. apply (f_equal length) in H. vm_compute in H. discriminate.
Defined.

(** ** One streamed answer *)

Lemma update_last pre m f :
  from m = Assistant → updateLastAssistantMessage (pre ++ [m]) f = pre ++ [f m].
Proof.
  intros Hm. unfold updateLastAssistantMessage. rewrite last_snoc, decide_True by done.
  rewrite length_app. simpl. replace (length pre + 1 - 1)%nat with (length pre) by lia.
  by rewrite take_app_length.
Qed.

(** An event that carries pieces of text, of the answer or of its reasoning. *)
Definition Piece : Type := ChunkType * jsstr.

Definition text_event (data : jsstr) (pieces : list Piece) : Prop :=
  data ≠ js "[DONE]" ∧ event_deltas data = Ok (map (λ d, (d.1, JStr d.2)) pieces).

#[export] Instance chunk_type_eq_dec : EqDecision ChunkType.
Proof. solve_decision. Defined.

(** The text of the pieces of one kind *)
Definition text_of_kind (k : ChunkType) (pieces : list Piece) : jsstr :=
  concat (map (λ d, if decide (d.1 = k) then d.2 else []) pieces).

Lemma on_text_event src data pieces c :
  text_event data pieces →
  on_message src data c = fold_left (λ c d, handleStreamUpdate d.1 d.2 c) pieces c.
Proof.
  intros [Hd He]. unfold on_message. rewrite decide_False, He by done. clear Hd He.
  assert (∀ c, apply_deltas (map (λ d, (d.1, JStr d.2)) pieces) c =
    (fold_left (λ c d, handleStreamUpdate d.1 d.2 c) pieces c, false)) as ->; [|done].
  induction pieces as [|[k w] pieces IH]; [done|]. intros c'. cbn [map apply_deltas fst snd to_str fold_left]. apply IH.
Qed.

(** The message while it is streamed: the raw text so far, and a reasoning that is
    settled as long as the text has no think tag, or when only the text carries
    thoughts and they are not empty. *)
Definition streaming_message (n : Ids) (total thoughts : jsstr) (m : Message) : Prop :=
  key m = key_id n ∧ from m = Assistant ∧
  versions m = [Version (Some (version_id n)) total None] ∧
  (status m = Some LOADING ∨ status m = Some STREAMING) ∧
  (includes OPEN total = false →
   reasoning m = Some (Reason thoughts (num_of_Z 0)) ∨ reasoning m = None ∧ thoughts = []) ∧
  (thoughts = [] → is_empty (reasoningText (parseThinkTags total)) = false →
   reasoning m = Some (Reason (reasoningText (parseThinkTags total)) (num_of_Z 0))).

Lemma includes_prefix p a b : includes p (a ++ b) = false → includes p a = false.
Proof.
  rewrite !includes_false. intros H. destruct (index_of p a) as [i|] eqn:E; [|done].
  exfalso. pose proof (index_of_Some _ _ _ E) as Es. pose proof (index_of_bound _ _ _ E) as Hb.
  apply (index_of_None p (a ++ b) i (drop (i + length p) a ++ b) H).
  rewrite drop_app_le by lia. rewrite Es at 1.
  rewrite drop_app_length', <- app_assoc by (rewrite length_take; lia). done.
Qed.

Lemma no_tag_parse t : includes OPEN t = false → parseThinkTags t = Parsed t [] false.
Proof. unfold parseThinkTags. by intros ->. Qed.

Lemma content_step n total thoughts m chunk :
  streaming_message n total thoughts m →
  streaming_message n (total ++ chunk) thoughts (stream_update ContentChunk chunk m).
Proof.
  intros (Hk & Hf & Hv & Hst & Hno & _). unfold stream_update.
  rewrite decide_False by (destruct Hst as [->| ->]; done).
  assert (content (getCurrentVersion m) = total) as Hc by (unfold getCurrentVersion; by rewrite Hv).
  unfold processStreamingContent. rewrite Hc. unfold streaming_message.
  cbn [with_status with_reasoning key from versions status reasoning].
  unfold updateCurrentVersionContent, getCurrentVersion. rewrite Hv.
  cbn [with_versions key from versions id images].
  split_and!; [done|done|done|by right| |by intros _ ->].
  intros Hi. rewrite (no_tag_parse _ Hi). cbn [reasoningText is_empty].
  apply Hno. by eapply includes_prefix.
Qed.

Lemma reasoning_step n total thoughts m chunk :
  streaming_message n total thoughts m →
  streaming_message n total (thoughts ++ chunk) (stream_update ReasoningChunk chunk m).
Proof.
  intros (Hk & Hf & Hv & Hst & Hno & Hre). unfold stream_update.
  rewrite decide_False by (destruct Hst as [->| ->]; done). unfold streaming_message.
  cbn [with_status with_reasoning key from versions status reasoning]. split_and!; [done|done|done|by right| |].
  - intros Hi. left. destruct (Hno Hi) as [->|[-> ->]]; done.
  - intros [-> ->]%app_nil Hne. rewrite (Hre eq_refl Hne). cbn [rcontent]. by rewrite app_nil_r.
Qed.

Lemma piece_step n total thoughts m (d : Piece) :
  streaming_message n total thoughts m →
  streaming_message n (total ++ text_of_kind ContentChunk [d]) (thoughts ++ text_of_kind ReasoningChunk [d])
    (stream_update d.1 d.2 m).
Proof.
  destruct d as [[] w]; unfold text_of_kind; cbn [map concat fst snd];
    repeat (first [rewrite decide_True by done|rewrite decide_False by done]); rewrite !app_nil_r;
    auto using content_step, reasoning_step.
Qed.

Lemma text_of_kind_app k a b : text_of_kind k (a ++ b) = text_of_kind k a ++ text_of_kind k b.
Proof. unfold text_of_kind. by rewrite map_app, concat_app. Qed.

Lemma stream_pieces n pre pieces c m total thoughts :
  messages c = pre ++ [m] → streaming_message n total thoughts m →
  ∃ m', messages (fold_left (λ c d, handleStreamUpdate d.1 d.2 c) pieces c) = pre ++ [m'] ∧
        streaming_message n (total ++ text_of_kind ContentChunk pieces) (thoughts ++ text_of_kind ReasoningChunk pieces) m'.
Proof.
  revert c m total thoughts. induction pieces as [|d pieces IH]; intros c m total thoughts Hm Hs.
  - exists m. unfold text_of_kind. cbn. by rewrite !app_nil_r.
  - cbn [fold_left]. rewrite (text_of_kind_app ContentChunk [d] pieces : text_of_kind _ (d :: pieces) = _),
      (text_of_kind_app ReasoningChunk [d] pieces : text_of_kind _ (d :: pieces) = _), !app_assoc.
    apply (IH _ (stream_update d.1 d.2 m)); [|by apply piece_step].
    unfold handleStreamUpdate, updateMessages. cbn [messages]. rewrite Hm, update_last; [done|]. apply Hs.
Qed.

Lemma stream_events src n pre datas pieces c m total thoughts :
  Forall2 text_event datas pieces → messages c = pre ++ [m] → streaming_message n total thoughts m →
  ∃ m', messages (fold_left (λ c d, on_message src d c) datas c) = pre ++ [m'] ∧
        streaming_message n (total ++ text_of_kind ContentChunk (concat pieces))
          (thoughts ++ text_of_kind ReasoningChunk (concat pieces)) m'.
Proof.
  intros Hd. revert c m total thoughts. induction Hd as [|d ps ds pss Hdk _ IH]; intros c m total thoughts Hm Hs.
  - exists m. unfold text_of_kind. cbn. by rewrite !app_nil_r.
  - cbn [fold_left concat]. rewrite (on_text_event src d ps c Hdk), !text_of_kind_app, !app_assoc.
    destruct (stream_pieces n pre ps c m total thoughts Hm Hs) as (m1 & Hm1 & Hs1). by apply (IH _ m1).
Qed.

Lemma loading_streaming n : streaming_message n [] [] (loading n).
Proof. split_and!; try done; [by left|by right]. Qed.

(** C1. A streamed answer is assembled exactly: whatever pieces the answer and its
    reasoning arrive in, after the end marker the placeholder is complete and shows
    the visible part of the whole answer, no other message has changed, and the
    source is closed.  Its reasoning is the whole reasoning that was sent when the
    answer has no think tag, and the thoughts between the tags of the answer when
    no reasoning was sent and they are not empty. *)
Theorem stream_answer (c : State) (src : nat) (n : Ids) (pre : list Message)
  (datas : list jsstr) (pieces : list (list Piece))
  (Hm : messages c = pre ++ [loading n]) (Hd : Forall2 text_event datas pieces) :
  let c' := on_message src (js "[DONE]") (fold_left (λ c d, on_message src d c) datas c) in
  let answer := text_of_kind ContentChunk (concat pieces) in
  let sent := text_of_kind ReasoningChunk (concat pieces) in
  let t := parseThinkTags answer in
  ∃ m, messages c' = pre ++ [m] ∧ key m = key_id n ∧ status m = Some COMPLETE ∧
    versions m = [Version (Some (version_id n)) (visibleContent t) None] ∧
    isReasoningStreaming m = Some false ∧
    (includes OPEN answer = false →
     reasoning m = if is_empty sent then None else Some (Reason sent (num_of_Z 0))) ∧
    (sent = [] → is_empty (reasoningText t) = false → reasoning m = Some (Reason (reasoningText t) (num_of_Z 0))) ∧
    sseSource c' = None ∧ isStreamComplete c' = true ∧ src ∈ closed c'.
Proof.
  intros c' answer sent t.
  destruct (stream_events src n pre datas pieces c _ [] [] Hd Hm (loading_streaming n))
    as (m & Hm' & Hk & Hf & Hv & Hst & Hno & Hre).
  rewrite !app_nil_l in *. fold answer sent in Hv, Hno, Hre. subst c'. set (c1 := fold_left _ datas c) in *.
  exists (stream_complete m). unfold on_message. rewrite decide_True by done.
  unfold handleStreamComplete, closeSource, close, set_source, updateMessages.
  cbn [messages sseSource isStreamComplete closed]. rewrite Hm', update_last by done.
  split; [done|]. unfold stream_complete.
  rewrite decide_False by (destruct Hst as [->| ->]; naive_solver).
  assert (getCurrentVersion m = Version (Some (version_id n)) answer None) as Hc
    by (unfold getCurrentVersion; by rewrite Hv).
  unfold finalizeMessage, updateCurrentVersionContent. rewrite Hc. fold t in Hre |- *.
  cbn [content with_status with_reasoning with_versions key status versions reasoning
       isReasoningStreaming id images str_or is_empty].
  split_and!; [done..| | |done|done|left].
  - intros Hi. fold t. replace (reasoningText t) with ([] : jsstr) by (unfold t; by rewrite no_tag_parse).
    destruct (Hno Hi) as [->|[-> ->]]; [|done]. cbn [rcontent duration]. by destruct sent.
  - intros Hs Hne. rewrite (Hre Hs Hne). cbn [rcontent duration]. unfold str_or. by rewrite Hne, ?Hne.
Qed.

Lemma stream_answer_witness :
  let n := MkIds (js "k") (js "v") in
  let c := MkState [] [] [loading n] (Local None None None true true) (Some 0%nat) false 1 [] [] in
  let data := replace_char 39 34 (js "{'choices':[{'delta':{'content':'<think>a</think>b'}}]}") in
  ∃ m, messages (on_message 0 (js "[DONE]") (on_message 0 data c)) = [m] ∧
       status m = Some COMPLETE ∧ versions m = [Version (Some (js "v")) (js "b") None] ∧
       reasoning m = Some (Reason (js "a") (num_of_Z 0)).
Proof.
  intros n c data.
  assert (Forall2 text_event [data] [[(ContentChunk, js "<think>a</think>b")]]) as Hd.
  { apply Forall2_cons_2; [|by apply Forall2_nil_2].
    split; [apply (bool_decide_unpack _); vm_compute; exact I|vm_compute; reflexivity]. }
  destruct (stream_answer c 0 n [] [data] _ eq_refl Hd) as (m & Hm & _ & Hs & Hv & _ & _ & Hr & _).
  exists m. split_and!; [exact Hm|exact Hs|rewrite Hv; vm_compute; reflexivity|].
  rewrite Hr; vm_compute; reflexivity.
Defined.

(** The reasoning shown for a text depends on where its pieces are cut: an
    empty thought whose closing tag is split leaves the half tag behind. *)
Theorem split_close_tag_reasoning :
  let n := MkIds (js "k") (js "v") in
  let c := MkState [] [] [loading n] (Local None None None true true) (Some 0%nat) false 1 [] [] in
  let receive chunks := handleStreamComplete
        (fold_left (λ c k, handleStreamUpdate ContentChunk (js k) c) chunks c) in
  map reasoning (messages (receive ["<think></think>hi"]%string)) = [None] ∧
  map reasoning (messages (receive ["<think>"; "</thi"; "nk>hi"]%string))
  = [Some (Reason (js "</thi") (num_of_Z 0))].
Proof. split; vm_compute; reflexivity. Qed.

(** ** How a generation ends *)

(** The events that end the generation of the last message. *)
Definition ends_generation (c : State) (e : Event) : Prop :=
  match e with
  | Stop => True
  | SseMessage _ data => data = js "[DONE]"
  | SseReadyState _ (Some r) (Some s) => 2 <= r ∧ s ≠ 200 ∧ isStreamComplete c = false
  | SseError _ data r => r ≠ 2 ∧ isStreamComplete c = false
  | Response (inl (_ :: _)) | Response (inr _) => True
  | _ => False
  end.

Lemma finish_not_stuck s m :
  (s = COMPLETE ∨ s = ERROR) → status m = Some s → stuck m = false.
Proof. intros [->| ->] H; unfold stuck; rewrite H; simpl; by rewrite andb_false_r. Qed.

Lemma settled_by f pre m c :
  messages c = pre ++ [m] → from m = Assistant → stuck (f m) = false →
  ∃ m', messages (updateMessages (λ prev, updateLastAssistantMessage prev f) c) = pre ++ [m'] ∧
        stuck m' = false.
Proof.
  intros Hm Hf Hs. exists (f m). split; [|done]. unfold updateMessages. cbn [messages].
  by rewrite Hm, update_last.
Qed.

Lemma handleStreamError_settles msg code pre m c :
  messages c = pre ++ [m] → from m = Assistant →
  ∃ m', messages (handleStreamError msg code c) = pre ++ [m'] ∧ stuck m' = false.
Proof.
  intros Hm Hf. unfold handleStreamError, updateAssistantMessageWithError.
  apply (settled_by _ pre m); [done..|]. by apply (finish_not_stuck ERROR _); [right|].
Qed.

Lemma handleError_settles src msg code pre m c :
  messages c = pre ++ [m] → from m = Assistant → isStreamComplete c = false →
  ∃ m', messages (handleError src msg code c) = pre ++ [m'] ∧ stuck m' = false.
Proof.
  intros Hm Hf Hc. unfold handleError. rewrite Hc.
  by apply (handleStreamError_settles msg code pre m).
Qed.

(** C31. Every generation that ends is settled: after a stop, the end marker, a
    failed connection or an answer, the last message is no longer loading or
    streaming and the others are untouched; only an answer without any choice
    changes nothing, which leaves the placeholder loading. *)
Theorem generation_settles (c c' : State) (e : Event) (pre : list Message) (m : Message)
  (Hm : messages c = pre ++ [m]) (Hf : from m = Assistant) (He : exec e c = Ok c') :
  (ends_generation c e → ∃ m', messages c' = pre ++ [m'] ∧ stuck m' = false) ∧
  (e = Response (inl []) → c' = c).
Proof.
  split; [|intros ->; by injection He]. intros Hend.
  destruct e as [| | | | | | | | |src data|src data rs|src rs st|r]; try done; simpl in He, Hend.
  - injection He as <-. unfold stopGeneration.
    apply (settled_by _ pre m); [unfold stopStream; by case_match|done|].
    unfold stop_message. case_decide as E; [by apply (finish_not_stuck COMPLETE _); [left|]|].
    unfold stuck. rewrite (bool_decide_eq_false_2 (_ = Some LOADING)) by auto.
    rewrite (bool_decide_eq_false_2 (_ = Some STREAMING)) by auto. by rewrite andb_false_r.
  - injection He as <-. subst data. unfold on_message. rewrite decide_True by done.
    apply (settled_by _ pre m); [done..|]. unfold stream_complete.
    case_decide as E; [|by apply (finish_not_stuck COMPLETE _); [left|]].
    destruct E; [apply (finish_not_stuck COMPLETE)|apply (finish_not_stuck ERROR)]; auto.
  - destruct Hend as [Hr Hc]. unfold on_error in He. rewrite (proj2 (Z.eqb_neq _ _) Hr) in He.
    cbv zeta in He. destruct (if is_empty _ then _ else _) as [msg code]. res_step He as t Ht.
    injection He as <-. by apply (handleError_settles _ _ _ pre m).
  - injection He as <-. destruct rs as [r|], st as [s|]; try done.
    destruct Hend as (Hr & Hs & Hc). unfold on_readystatechange.
    rewrite (proj2 (Z.leb_le _ _) Hr), (proj2 (Z.eqb_neq _ _) Hs).
    by apply (handleError_settles _ _ _ pre m).
  - injection He as <-. destruct r as [[|ch chs]|err]; [done| |].
    + apply (settled_by _ pre m); [done..|]. by apply (finish_not_stuck COMPLETE _); [left|].
    + by apply (handleStreamError_settles _ _ pre m).
Qed.

Lemma generation_settles_witness :
  let n := MkIds (js "k") (js "v") in
  let c := MkState [] [] [loading n] (Local None None None true true) (Some 0%nat) false 1 [] [] in
  ∃ m', messages (stopGeneration c) = [] ++ [m'] ∧ stuck m' = false.
Proof.
  intros n c.
  apply (generation_settles c (stopGeneration c) Stop [] (loading n)); reflexivity.
Defined.

(** Late events do no harm: once the end marker was received, connection
    errors change nothing; and once a message has failed, further pieces and
    the end marker leave all messages as they are. *)
Theorem late_events_ignored (c : State) :
  (isStreamComplete c = true →
     (∀ src data rs c', exec (SseError src data rs) c = Ok c' → c' = c) ∧
     (∀ src rs st, exec (SseReadyState src rs st) c = Ok c)) ∧
  (∀ pre m, messages c = pre ++ [m] → from m = Assistant → status m = Some ERROR →
     (∀ t chunk, messages (handleStreamUpdate t chunk c) = messages c) ∧
     (∀ src, messages (on_message src (js "[DONE]") c) = messages c)).
Proof.
  split.
  - intros Hc.
    assert (∀ src msg code, handleError src msg code c = c) as Hh
      by (intros; unfold handleError; by rewrite Hc).
    split; intros; simpl in *.
    + unfold on_error in *. case_match; [by simplify_eq|]. cbv zeta in *.
      destruct (if is_empty _ then _ else _) as [msg code].
      match goal with H : _ = Ok _ |- _ => res_step H as t Ht; injection H as <- end. apply Hh.
    + unfold on_readystatechange. repeat case_match; rewrite ?Hh; done.
  - intros pre m Hm Hf Hs.
    assert (∀ f, f m = m → messages (updateMessages (λ prev, updateLastAssistantMessage prev f) c)
                           = messages c) as Hu.
    { intros f Hfm. unfold updateMessages. cbn [messages]. by rewrite Hm, update_last, Hfm. }
    split; intros.
    + apply Hu. unfold stream_update. by rewrite decide_True.
    + unfold on_message. rewrite decide_True by done.
      transitivity (messages (updateMessages (λ prev, updateLastAssistantMessage prev stream_complete) c));
        [done|]. apply Hu. unfold stream_complete. rewrite decide_True; [done|]. by right.
Qed.

End Chat.
