(* ===== verification/RatioSync.v ===== *)
(** * Upstream ratio synchronisation

    [features/system-settings/models/upstream-ratio-sync-helpers.ts]: the
    fields that differ from the upstreams, and the resolutions the
    administrator picks.  Objects used as maps, and [Map] and [Set], are
    finite maps and sets where no code observes their order; the differences
    of one model keep the order of their keys. *)

From stdpp Require Import base list strings gmap sorting.
From Stdlib Require Import ZArith Lia SpecFloat.
From S2P Require Import Prelude JsString JsNumber JsValue.
#[local] Open Scope Z_scope.

Module RatioSync.

Record RatioDifferenceEntry := Entry {
  current : jsval;
  upstreams : list (jsstr * jsval);
  confidence : list (jsstr * jsval);
}.

(** [Partial<Record<RatioType, RatioDifferenceEntry>>], in key order *)
Definition ModelDiffs := list (jsstr * RatioDifferenceEntry).

(** A resolution maps the fields of a model to the chosen values. *)
Notation Draft := (gmap jsstr jsval).
Notation ResolutionsMap := (gmap jsstr Draft).

Record ResolutionSelection := Select {
  model : jsstr;
  ratioType : jsstr;
  value : jsval;
  sourceName : jsstr;
}.

Record ResolutionRemoval := Remove { rmodel : jsstr; rratioType : jsstr }.
Notation ResolutionRemovalPlan := (gmap jsstr (gset jsstr)).

Definition OFFICIAL_CHANNEL_ID : Z := -100.
Definition OFFICIAL_CHANNEL_NAME : jsstr := js "官方倍率预设".
Definition MODELS_DEV_PRESET_ID : Z := -101.
Definition MODELS_DEV_PRESET_NAME : jsstr := js "models.dev 价格预设".

(** value and label *)
Definition RATIO_TYPE_OPTIONS : list (jsstr * jsstr) :=
  map (λ p, (js p.1, js p.2))
    [("model_ratio", "Model ratio"); ("completion_ratio", "Completion ratio");
     ("cache_ratio", "Cache ratio"); ("create_cache_ratio", "Create cache ratio");
     ("image_ratio", "Image ratio"); ("audio_ratio", "Audio ratio");
     ("audio_completion_ratio", "Audio completion ratio"); ("model_price", "Fixed price");
     ("billing_expr", "Expression billing")]%string.

Definition RATIO_SYNC_FIELDS : list jsstr :=
  map js ["model_ratio"; "completion_ratio"; "cache_ratio"; "create_cache_ratio";
          "image_ratio"; "audio_ratio"; "audio_completion_ratio"]%string.

Definition SYNC_FIELD_ORDER : list jsstr :=
  RATIO_SYNC_FIELDS ++ map js ["model_price"; "billing_mode"; "billing_expr"]%string.

Definition NUMERIC_SYNC_FIELDS : list jsstr := RATIO_SYNC_FIELDS ++ [js "model_price"].

Definition billing_expr : jsstr := js "billing_expr".
Definition billing_mode : jsstr := js "billing_mode".

(** ** Fields *)

Definition getSyncFieldLabel (ratioType : jsstr) (t : jsstr → jsstr) : jsstr :=
  match assoc_get ratioType RATIO_TYPE_OPTIONS with Some label => t label | None => ratioType end.

(** [filter]: [None] is [undefined]. *)
Definition getOrderedRatioTypes (ratioTypes : ModelDiffs) (flt : option jsstr) : list jsstr :=
  let keys := ratioTypes.*1 in
  let ordered := filter (λ f, f ∈ keys) SYNC_FIELD_ORDER
                 ++ filter (λ f, f ∉ SYNC_FIELD_ORDER) keys in
  match flt with
  | None => ordered
  | Some f =>
      if decide (f = [] ∨ f = js "__all__") then ordered else filter (λ g, g = f) ordered
  end.

Definition isSelectableUpstreamValue (v : jsval) : bool :=
  negb (nullish v) && negb (is_str (js "same") v).

(** [ratioTypes[field]?.upstreams?.[sourceName]] *)
Definition upstream_value (ratioTypes : ModelDiffs) (field sourceName : jsstr) : jsval :=
  match assoc_get field ratioTypes with
  | Some e => obj_get sourceName (upstreams e)
  | None => JUndef
  end.

Definition getPreferredSyncField (ratioTypes : ModelDiffs) (ratioType sourceName : jsstr) : jsstr :=
  if bool_decide (ratioType ≠ billing_expr)
     && isSelectableUpstreamValue (upstream_value ratioTypes billing_expr sourceName)
  then billing_expr else ratioType.

Definition getVisibleRatioTypesForSource (ratioTypes : ModelDiffs) (sourceName : jsstr)
    (flt : option jsstr) : list jsstr :=
  filter (λ f, getPreferredSyncField ratioTypes f sourceName = f)
    (getOrderedRatioTypes ratioTypes flt).

Definition getAlignedRatioTypes (ratioTypes : ModelDiffs) (sourceNames : list jsstr)
    (flt : option jsstr) : list jsstr :=
  let ordered := getOrderedRatioTypes ratioTypes flt in
  match sourceNames with
  | [] => ordered
  | _ =>
      let visible : gset jsstr :=
        list_to_set (sourceNames ≫= λ s, getVisibleRatioTypesForSource ratioTypes s flt) in
      filter (λ f, f ∈ visible) ordered
  end.

Inductive BillingCategory := Price | Ratio | Tiered.
#[export] Instance BillingCategory_eq_dec : EqDecision BillingCategory.
Proof. solve_decision. Defined.

Definition getBillingCategory (ratioType : jsstr) : BillingCategory :=
  if decide (ratioType = js "model_price") then Price
  else if decide (ratioType = billing_mode ∨ ratioType = billing_expr) then Tiered
  else Ratio.

Definition getUpstreamDisplayName (sourceName : jsstr) : jsstr :=
  let wire name id := name ++ js "(" ++ Z_to_str id ++ js ")" in
  if decide (sourceName = wire OFFICIAL_CHANNEL_NAME OFFICIAL_CHANNEL_ID)
  then OFFICIAL_CHANNEL_NAME
  else if decide (sourceName = wire MODELS_DEV_PRESET_NAME MODELS_DEV_PRESET_ID)
  then MODELS_DEV_PRESET_NAME
  else sourceName.

(** [===] on the values of resolutions, which are numbers and strings *)
Definition same_value (a b : jsval) : bool :=
  match a, b with
  | JNum x, JNum y => num_eqb x y
  | JStr s, JStr t => bool_decide (s = t)
  | _, _ => false
  end.

Definition isSelectedResolutionValue (resolutions : ResolutionsMap) (m rt : jsstr)
    (upstreamValue : jsval) : bool :=
  if negb (isSelectableUpstreamValue upstreamValue) then false
  else
    match resolutions !! m ≫= λ d, d !! rt with
    | None => false
    | Some selectedValue =>
        if decide (rt ∈ NUMERIC_SYNC_FIELDS) then
          let a := catch (to_num selectedValue) S754_nan in
          let b := catch (to_num upstreamValue) S754_nan in
          is_finite a && is_finite b && num_eqb a b
        else same_value selectedValue upstreamValue
    end.

(** ** Selections *)

(** [differences[model]]: an inherited member has no field of its own. *)
Definition model_diffs (differences : gmap jsstr ModelDiffs) (m : jsstr) : option ModelDiffs :=
  match differences !! m with
  | Some d => Some d
  | None => if decide (m ∈ object_prototype_keys) then Some [] else None
  end.

Definition resolveResolutionSelection (differences : gmap jsstr ModelDiffs)
    (s : ResolutionSelection) : ResolutionSelection :=
  let modelDiffs := model_diffs differences (model s) in
  let preferredType :=
    getPreferredSyncField (default [] modelDiffs) (ratioType s) (sourceName s) in
  let preferredValue :=
    if decide (preferredType = ratioType s) then value s
    else js_coalesce (upstream_value (default [] modelDiffs) preferredType (sourceName s)) (value s) in
  Select (model s) preferredType preferredValue (sourceName s).

Definition getDraftModelResolution (drafts : gmap jsstr Draft) (resolutions : ResolutionsMap)
    (m : jsstr) : Draft :=
  match drafts !! m with
  | Some existingDraft => existingDraft
  | None => default ∅ (resolutions !! m)
  end.

(** The fields that are left when a field of the given category is chosen. *)
Definition drop_other_category (category : BillingCategory) (d : Draft) : Draft :=
  filter (λ p, ¬ (category ≠ Tiered ∧ getBillingCategory p.1 ≠ Tiered ∧
                  getBillingCategory p.1 ≠ category)) d.

(** The billing mode and expression that come with a tiered choice. *)
Definition set_tiered (modelDiffs : ModelDiffs) (finalType source : jsstr) (d : Draft) : Draft :=
  let modeVal := upstream_value modelDiffs billing_mode source in
  let exprVal := upstream_value modelDiffs billing_expr source in
  let d :=
    if isSelectableUpstreamValue modeVal then <[billing_mode := modeVal]> d
    else if decide (finalType = billing_expr)
    then <[billing_mode := JStr (js "tiered_expr")]> d else d in
  if isSelectableUpstreamValue exprVal then <[billing_expr := exprVal]> d else d.

Definition applyResolutionSelectionToDraft (resolutions : ResolutionsMap)
    (differences : gmap jsstr ModelDiffs) (drafts : gmap jsstr Draft)
    (s : ResolutionSelection) : gmap jsstr Draft :=
  let modelDiffs := model_diffs differences (model s) in
  let resolved := resolveResolutionSelection differences s in
  let finalType := ratioType resolved in
  let category := getBillingCategory finalType in
  let newModelRes := getDraftModelResolution drafts resolutions (model s) in
  let newModelRes := <[finalType := value resolved]> (drop_other_category category newModelRes) in
  let newModelRes :=
    match category, modelDiffs with
    | Tiered, Some md => set_tiered md finalType (sourceName s) newModelRes
    | _, _ => newModelRes
    end in
  <[model s := newModelRes]> drafts.

(** A model whose draft is empty is removed, the others are replaced. *)
Definition store_draft (m : jsstr) (draft : Draft) (next : ResolutionsMap) : ResolutionsMap :=
  if decide (draft = ∅) then delete m next else <[m := draft]> next.

Definition applyResolutionSelections (resolutions : ResolutionsMap)
    (differences : gmap jsstr ModelDiffs) (selections : list ResolutionSelection)
    : ResolutionsMap :=
  match selections with
  | [] => resolutions
  | _ =>
      let drafts :=
        fold_left (applyResolutionSelectionToDraft resolutions differences) selections ∅ in
      map_fold store_draft resolutions drafts
  end.

Definition applyResolutionSelection (resolutions : ResolutionsMap)
    (differences : gmap jsstr ModelDiffs) (s : ResolutionSelection) : ResolutionsMap :=
  applyResolutionSelections resolutions differences [s].

(** The key of a resolved selection: model, a NUL and the field. *)
Definition selection_key (r : ResolutionSelection) : jsstr := model r ++ [0] ++ ratioType r.

Definition add_effective (differences : gmap jsstr ModelDiffs)
    (effectiveByKey : list (jsstr * ResolutionSelection)) (s : ResolutionSelection)
    : list (jsstr * ResolutionSelection) :=
  let resolved := resolveResolutionSelection differences s in
  let category := getBillingCategory (ratioType resolved) in
  let kept :=
    filter (λ kv, ¬ (category ≠ Tiered ∧ model kv.2 = model resolved ∧
                     getBillingCategory (ratioType kv.2) ≠ Tiered ∧
                     getBillingCategory (ratioType kv.2) ≠ category)) effectiveByKey in
  assoc_set (selection_key resolved) resolved kept.

Definition getEffectiveResolutionSelections (differences : gmap jsstr ModelDiffs)
    (selections : list ResolutionSelection) : list ResolutionSelection :=
  (fold_left (add_effective differences) selections []).*2.

(** ** Removals *)

Definition remove_field (rt : jsstr) (d : Draft) : Draft :=
  let d := delete rt d in
  let d := if decide (rt = billing_expr) then delete billing_mode d else d in
  if decide (rt = billing_mode) then delete billing_expr d else d.

Definition apply_removal (resolutions : ResolutionsMap) (m : jsstr) (ratioTypes : gset jsstr)
    (next : ResolutionsMap) : ResolutionsMap :=
  match resolutions !! m with
  | None => next
  | Some current => store_draft m (set_fold remove_field current ratioTypes) next
  end.

Definition applyResolutionRemovalPlan (resolutions : ResolutionsMap)
    (plan : ResolutionRemovalPlan) : ResolutionsMap :=
  map_fold (apply_removal resolutions) resolutions plan.

Definition add_removal (plan : ResolutionRemovalPlan) (r : ResolutionRemoval)
    : ResolutionRemovalPlan :=
  match plan !! rmodel r with
  | Some ratioTypes => <[rmodel r := ratioTypes ∪ {[rratioType r]}]> plan
  | None => <[rmodel r := {[rratioType r]}]> plan
  end.

Definition applyResolutionRemovals (resolutions : ResolutionsMap)
    (removals : list ResolutionRemoval) : ResolutionsMap :=
  match removals with
  | [] => resolutions
  | _ => applyResolutionRemovalPlan resolutions (fold_left add_removal removals ∅)
  end.

Definition deleteResolutionField (resolutions : ResolutionsMap) (m rt : jsstr) : ResolutionsMap :=
  applyResolutionRemovals resolutions [Remove m rt].

(** ** Lookups *)

(** The chosen value of a field of a model. *)
Definition field_of (res : ResolutionsMap) (m f : jsstr) : option jsval := res !! m ≫= λ d, d !! f.

Definition stored (d : Draft) : option Draft := if decide (d = ∅) then None else Some d.

Lemma stored_field (d : Draft) f : (stored d ≫= λ d, d !! f) = d !! f.
Proof. unfold stored. case_decide as E; [subst; by rewrite lookup_empty|done]. Qed.

Lemma store_draft_lookup m d next k :
  store_draft m d next !! k = if decide (k = m) then stored d else next !! k.
Proof.
  unfold store_draft, stored. repeat case_decide; subst;
    rewrite ?lookup_delete_eq, ?lookup_insert_eq, ?lookup_delete_ne, ?lookup_insert_ne; done.
Qed.

Lemma store_all_lookup (drafts : gmap jsstr Draft) (res : ResolutionsMap) k :
  map_fold store_draft res drafts !! k
  = match drafts !! k with Some d => stored d | None => res !! k end.
Proof.
  apply (map_fold_weak_ind (λ (next : ResolutionsMap) (ds : gmap jsstr Draft),
    next !! k = match ds !! k with Some d => stored d | None => res !! k end)).
  - by rewrite lookup_empty.
  - intros m d ds next Hm IH. rewrite store_draft_lookup.
    case_decide; subst; [by rewrite lookup_insert_eq|by rewrite lookup_insert_ne].
Qed.

Lemma removals_lookup (plan : ResolutionRemovalPlan) (res : ResolutionsMap) k :
  applyResolutionRemovalPlan res plan !! k
  = match plan !! k, res !! k with
    | Some X, Some cur => stored (set_fold remove_field cur X)
    | _, cur => cur
    end.
Proof.
  apply (map_fold_weak_ind (λ (next : ResolutionsMap) (pl : ResolutionRemovalPlan),
    next !! k = match pl !! k, res !! k with
                | Some X, Some cur => stored (set_fold remove_field cur X)
                | _, cur => cur end)).
  - by rewrite lookup_empty.
  - intros m X pl next Hm IH. unfold apply_removal.
    destruct (decide (m = k)) as [->|Hne].
    + rewrite lookup_insert_eq. rewrite Hm in IH.
      destruct (res !! k) as [cur|] eqn:E; [|done]. by rewrite store_draft_lookup, decide_True.
    + rewrite lookup_insert_ne by done.
      destruct (res !! m); [|done]. by rewrite store_draft_lookup, decide_False.
Qed.

(** ** Well-formed resolutions *)

(** A model is priced by ratios or by a fixed price, never by both. *)
Definition consistent (d : Draft) : Prop :=
  ∀ a b, is_Some (d !! a) → is_Some (d !! b) →
    getBillingCategory a ≠ Tiered → getBillingCategory b ≠ Tiered →
    getBillingCategory a = getBillingCategory b.

Definition wf (res : ResolutionsMap) : Prop := map_Forall (λ _ d, consistent d ∧ d ≠ ∅) res.

Lemma consistent_subset d d' : (∀ a, is_Some (d' !! a) → is_Some (d !! a)) → consistent d → consistent d'.
Proof. intros H Hc a b Ha Hb. apply Hc; auto. Qed.

Lemma consistent_tiered f v d : getBillingCategory f = Tiered → consistent d → consistent (<[f := v]> d).
Proof.
  intros Hf Hc a b [x Hx] [y Hy] Ha Hb.
  rewrite lookup_insert_ne in Hx by congruence. rewrite lookup_insert_ne in Hy by congruence.
  apply Hc; eauto.
Qed.

Lemma consistent_choose f v d :
  consistent d → consistent (<[f := v]> (drop_other_category (getBillingCategory f) d)).
Proof.
  intros Hc. destruct (decide (getBillingCategory f = Tiered)) as [E|E].
  { apply consistent_tiered; [done|]. eapply consistent_subset; [|exact Hc].
    intros a [x [Hx _]%map_lookup_filter_Some]. by exists x. }
  assert (∀ a, is_Some (<[f := v]> (drop_other_category (getBillingCategory f) d) !! a) →
               getBillingCategory a ≠ Tiered → getBillingCategory a = getBillingCategory f) as H.
  { intros a [x Hx] Ha. destruct (decide (f = a)) as [->|Hne]; [done|].
    rewrite lookup_insert_ne in Hx by done.
    apply map_lookup_filter_Some in Hx as [_ Hx]. simpl in Hx.
    destruct (decide (getBillingCategory a = getBillingCategory f)); [done|]. by destruct Hx. }
  intros a b Ha Hb Hta Htb. by rewrite (H a), (H b).
Qed.

Lemma tiered_modes : getBillingCategory billing_mode = Tiered ∧ getBillingCategory billing_expr = Tiered.
Proof. split; vm_compute; reflexivity. Qed.

Lemma consistent_set_tiered md ft src d : consistent d → consistent (set_tiered md ft src d).
Proof.
  intros Hc. destruct tiered_modes as [Hm He]. unfold set_tiered.
  repeat case_match; auto using consistent_tiered.
Qed.

Definition draft_wf (drafts : gmap jsstr Draft) : Prop := map_Forall (λ _ d, consistent d) drafts.

Lemma selection_draft_wf res diffs drafts s :
  wf res → draft_wf drafts → draft_wf (applyResolutionSelectionToDraft res diffs drafts s).
Proof.
  intros Hres Hd. unfold applyResolutionSelectionToDraft. cbv zeta.
  apply map_Forall_insert_2; [|done].
  assert (consistent (getDraftModelResolution drafts res (model s))) as H0.
  { unfold getDraftModelResolution. destruct (drafts !! model s) as [d|] eqn:E; [by apply (Hd _ _ E)|].
    destruct (res !! model s) as [d|] eqn:E'; [by apply (Hres _ _ E')|].
    simpl. intros a b [x Hx]. by rewrite lookup_empty in Hx. }
  set (r := resolveResolutionSelection diffs s).
  pose proof (consistent_choose (ratioType r) (value r) _ H0) as H1. revert H1.
  destruct (getBillingCategory (ratioType r)), (model_diffs diffs (model s));
    auto using consistent_set_tiered.
Qed.

Lemma stored_wf d d' : consistent d → stored d = Some d' → consistent d' ∧ d' ≠ ∅.
Proof. unfold stored. case_decide; intros Hc ?; simplify_eq. done. Qed.

Lemma remove_field_subset rt d a : is_Some (remove_field rt d !! a) → is_Some (d !! a).
Proof.
  unfold remove_field. intros [x Hx].
  repeat case_decide; rewrite ?lookup_delete_Some in Hx; destruct_and?; eauto.
Qed.

Lemma removals_subset (X : gset jsstr) (cur : Draft) a :
  is_Some (set_fold remove_field cur X !! a) → is_Some (cur !! a).
Proof.
  apply (set_fold_ind_L (λ (d : Draft) _, is_Some (d !! a) → is_Some (cur !! a))); [done|].
  intros x Y d _ IH H. by apply IH, (remove_field_subset x).
Qed.

(** The resolutions stay well formed: choosing upstream values and taking
    choices back never leaves a model with both a fixed price and a ratio,
    nor with no field at all. *)
Theorem resolutions_wf (res : ResolutionsMap) (Hres : wf res) :
  (∀ diffs sels, wf (applyResolutionSelections res diffs sels)) ∧
  (∀ removals, wf (applyResolutionRemovals res removals)).
Proof.
  split.
  - intros diffs sels. unfold applyResolutionSelections. destruct sels as [|s sels]; [done|].
    set (drafts := fold_left _ _ _). assert (draft_wf drafts) as Hd.
    { subst drafts. generalize (s :: sels). intros l.
      assert (draft_wf ∅) as H by apply map_Forall_empty. revert H. generalize (∅ : gmap jsstr Draft).
      induction l as [|s' l IH]; intros ds Hds; simpl; [done|]. by apply IH, selection_draft_wf. }
    intros m d. rewrite store_all_lookup. destruct (drafts !! m) as [d0|] eqn:E; [|apply Hres].
    apply stored_wf. by apply (Hd _ _ E).
  - intros rs. unfold applyResolutionRemovals. destruct rs as [|r rs]; [done|].
    intros m d. rewrite removals_lookup. case_match; [|apply Hres].
    destruct (res !! m) as [cur|] eqn:E; [|done]. apply stored_wf.
    eapply consistent_subset; [apply removals_subset|]. by apply (Hres _ _ E).
Qed.

Lemma resolutions_wf_witness :
  let res : ResolutionsMap := {[ js "gpt" := {[ js "model_ratio" := JNum (num_of_Z 1) ]} ]} in
  wf (applyResolutionSelections res ∅ [Select (js "gpt") (js "model_price") (JNum (num_of_Z 2)) (js "up")]).
Proof.
  intros res. assert (wf res) as Hres.
  { apply map_Forall_singleton. split.
    - intros a b [x Hx] [y Hy] _ _. apply lookup_singleton_Some in Hx as [<- _], Hy as [<- _]. done.
    - intros E. apply (f_equal (lookup (js "model_ratio"))) in E.
      by rewrite lookup_singleton_eq, lookup_empty in E. }
  exact (proj1 (resolutions_wf res Hres) _ _).
Defined.

(** ** What a removal removes *)

(** Removing the field [rt] also removes [f]: the field itself, and the two
    halves of an expression billing together. *)
Definition removes (rt f : jsstr) : Prop :=
  rt = f ∨ rt = billing_expr ∧ f = billing_mode ∨ rt = billing_mode ∧ f = billing_expr.

#[export] Instance removes_dec rt f : Decision (removes rt f).
Proof. unfold removes. apply _. Defined.

Lemma remove_field_lookup rt d f :
  remove_field rt d !! f = if decide (removes rt f) then None else d !! f.
Proof.
  assert (billing_expr ≠ billing_mode) as Hne by done.
  unfold remove_field, removes. destruct (decide (rt = f)) as [->|H1].
  { rewrite (decide_True (P := f = f ∨ _)) by auto.
    repeat case_decide; rewrite ?lookup_delete_None; auto. }
  rewrite (decide_ext (rt = f ∨ _) (rt = billing_expr ∧ f = billing_mode ∨
    rt = billing_mode ∧ f = billing_expr)) by tauto.
  repeat case_decide; destruct_or?; destruct_and?; subst; try done;
    rewrite ?lookup_delete_eq, ?lookup_delete_ne by naive_solver; try done;
    naive_solver.
Qed.

Lemma set_removal_lookup (X : gset jsstr) (cur : Draft) f :
  ((∃ rt, rt ∈ X ∧ removes rt f) → set_fold remove_field cur X !! f = None) ∧
  (¬ (∃ rt, rt ∈ X ∧ removes rt f) → set_fold remove_field cur X !! f = cur !! f).
Proof.
  apply (set_fold_ind_L (λ (d : Draft) (Y : gset jsstr),
    ((∃ rt, rt ∈ Y ∧ removes rt f) → d !! f = None) ∧
    (¬ (∃ rt, rt ∈ Y ∧ removes rt f) → d !! f = cur !! f))).
  - split; [|done]. intros (rt & Hrt & _). by apply not_elem_of_empty in Hrt.
  - intros x Y d _ [IH1 IH2]. rewrite remove_field_lookup. split.
    + intros (rt & Hrt & Hr). case_decide as E; [done|]. apply IH1. exists rt.
      split; [|done]. apply elem_of_union in Hrt as [->%elem_of_singleton|?]; done.
    + intros Hno. rewrite decide_False by (intros ?; apply Hno; exists x; split; [set_solver|done]).
      apply IH2. intros (rt & Hrt & Hr). apply Hno. exists rt. split; [set_solver|done].
Qed.

Lemma add_removal_spec plan r m rt :
  (∃ X, add_removal plan r !! m = Some X ∧ rt ∈ X) ↔
  (m = rmodel r ∧ rt = rratioType r) ∨ (∃ X, plan !! m = Some X ∧ rt ∈ X).
Proof.
  unfold add_removal. destruct (decide (rmodel r = m)) as [<-|Hne].
  - destruct (plan !! rmodel r) as [X0|] eqn:E.
    + setoid_rewrite lookup_insert_eq. split.
      * intros (X & [= <-] & H). set_solver.
      * intros H. eexists. split; [done|]. set_solver.
    + setoid_rewrite lookup_insert_eq. split.
      * intros (X & [= <-] & H). set_solver.
      * intros H. eexists. split; [done|]. set_solver.
  - destruct (plan !! rmodel r); setoid_rewrite lookup_insert_ne; naive_solver.
Qed.

Lemma removal_plan_spec rs m rt :
  (∃ X, fold_left add_removal rs ∅ !! m = Some X ∧ rt ∈ X) ↔ Remove m rt ∈ rs.
Proof.
  assert (∀ plan : ResolutionRemovalPlan, (∃ X, fold_left add_removal rs plan !! m = Some X ∧ rt ∈ X) ↔
            Remove m rt ∈ rs ∨ (∃ X, plan !! m = Some X ∧ rt ∈ X)) as H.
  { induction rs as [|[m' rt'] rs IH]; intros plan; simpl.
    - split; [by right|]. intros [?%not_elem_of_nil|?]; done.
    - rewrite IH, add_removal_spec, elem_of_cons. simpl. naive_solver. }
  rewrite H. split; [|by left]. intros [?|(X & HX & _)]; [done|]. by rewrite lookup_empty in HX.
Qed.

(** Taking choices back removes exactly what was asked for: a field is gone
    when its removal was requested, or when it is one half of an expression
    billing whose other half was; every other field of every model keeps its
    value. *)
Theorem removals_exact (res : ResolutionsMap) (rs : list ResolutionRemoval) (m f : jsstr) :
  let gone := ∃ rt, Remove m rt ∈ rs ∧ removes rt f in
  (gone → field_of (applyResolutionRemovals res rs) m f = None) ∧
  (¬ gone → field_of (applyResolutionRemovals res rs) m f = field_of res m f).
Proof.
  intros gone. unfold gone. setoid_rewrite <- removal_plan_spec.
  assert (applyResolutionRemovals res rs
          = applyResolutionRemovalPlan res (fold_left add_removal rs ∅)) as ->.
  { destruct rs; [|done]. unfold applyResolutionRemovalPlan. simpl. by rewrite map_fold_empty. }
  unfold field_of. rewrite removals_lookup. set (plan := fold_left add_removal rs ∅).
  destruct (plan !! m) as [X|] eqn:E.
  - destruct (res !! m) as [cur|] eqn:E'; [|by split].
    cbn [mbind option_bind]. rewrite stored_field.
    destruct (set_removal_lookup X cur f) as [H1 H2]. split.
    + intros (rt & (Y & [= <-] & Hrt) & Hr). apply H1. eauto.
    + intros Hno. apply H2. intros (rt & Hrt & Hr). apply Hno. eauto.
  - split; [|by destruct (res !! m)]. intros (rt & (Y & ? & _) & _). congruence.
Qed.

(** ** What a selection stores *)

(** The value [v] is what the source offers for the field. *)
Definition offered (diffs : gmap jsstr ModelDiffs) (s : ResolutionSelection) : Prop :=
  upstream_value (default [] (model_diffs diffs (model s))) (ratioType s) (sourceName s) = value s ∧
  isSelectableUpstreamValue (value s) = true.

Lemma set_tiered_keeps md ft src d v :
  upstream_value md ft src = v → isSelectableUpstreamValue v = true → d !! ft = Some v →
  set_tiered md ft src d !! ft = Some v.
Proof.
  intros <- Hs Hd. assert (billing_expr ≠ billing_mode) as Hne by done. unfold set_tiered. cbv zeta.
  destruct (decide (ft = billing_expr)) as [->|He].
  { rewrite Hs. by rewrite lookup_insert_eq. }
  assert (∀ (d' : Draft) w, (if isSelectableUpstreamValue w then <[billing_expr := w]> d' else d') !! ft
                            = d' !! ft) as ->.
  { intros d' w. case_match; [|done]. by rewrite lookup_insert_ne. }
  destruct (decide (ft = billing_mode)) as [->|Hm]; [by rewrite Hs, lookup_insert_eq|].
  case_match; [|done]. by rewrite lookup_insert_ne.
Qed.

(** Choosing an upstream value stores it: after a selection of a value the
    source offers, the model's resolution has that value at its field or, when
    the source bills by expression, the source's expression; and no other
    model is touched. *)
Theorem selection_stored (res : ResolutionsMap) (diffs : gmap jsstr ModelDiffs)
  (s : ResolutionSelection) (Hoff : offered diffs s) :
  let r := resolveResolutionSelection diffs s in
  let res' := applyResolutionSelection res diffs s in
  field_of res' (model s) (ratioType r) = Some (value r) ∧
  (ratioType r = ratioType s ∧ value r = value s ∨
   ratioType r = billing_expr ∧
   value r = upstream_value (default [] (model_diffs diffs (model s))) billing_expr (sourceName s)) ∧
  ∀ m, m ≠ model s → res' !! m = res !! m.
Proof.
  intros r res'. destruct Hoff as [Hv Hsel].
  set (md := default [] (model_diffs diffs (model s))) in *.
  assert (upstream_value md (ratioType r) (sourceName s) = value r ∧
          isSelectableUpstreamValue (value r) = true ∧
          (ratioType r = ratioType s ∧ value r = value s ∨
           ratioType r = billing_expr ∧ value r = upstream_value md billing_expr (sourceName s)))
    as (Hr & Hrs & Hcase).
  { subst r. unfold resolveResolutionSelection. fold md. cbn [ratioType value].
    unfold getPreferredSyncField. destruct (bool_decide _ && _) eqn:E; [|by rewrite decide_True; auto].
    apply andb_true_iff in E as [Ene%bool_decide_eq_true Es]. rewrite decide_False by done.
    assert (js_coalesce (upstream_value md billing_expr (sourceName s)) (value s)
            = upstream_value md billing_expr (sourceName s)) as ->; [|by auto].
    unfold isSelectableUpstreamValue in Es. unfold js_coalesce.
    by destruct (nullish (upstream_value md billing_expr (sourceName s))). }
  unfold res', applyResolutionSelection, applyResolutionSelections. cbn [fold_left].
  unfold applyResolutionSelectionToDraft. fold r. cbv zeta.
  set (d := match getBillingCategory (ratioType r) with Tiered => _ | _ => _ end).
  assert (d !! ratioType r = Some (value r)) as Hd.
  { subst d. destruct (getBillingCategory (ratioType r)); [by rewrite lookup_insert_eq..|].
    subst md. destruct (model_diffs diffs (model s)) as [md|]; [|by rewrite lookup_insert_eq].
    by apply set_tiered_keeps; [..|rewrite lookup_insert_eq]. }
  split_and!; [|done|].
  - unfold field_of. rewrite store_all_lookup, lookup_insert_eq, stored_field. done.
  - intros m Hm. by rewrite store_all_lookup, lookup_insert_ne, lookup_empty.
Qed.

Lemma selection_stored_witness :
  let e := Entry JNull [(js "up", JNum (num_of_Z 2))] [] in
  let diffs : gmap jsstr ModelDiffs := {[ js "gpt" := [(js "model_ratio", e)] ]} in
  let s := Select (js "gpt") (js "model_ratio") (JNum (num_of_Z 2)) (js "up") in
  field_of (applyResolutionSelection ∅ diffs s) (js "gpt") (js "model_ratio")
  = Some (JNum (num_of_Z 2)).
Proof.
  intros e diffs s. assert (offered diffs s) as Hoff by (split; vm_compute; reflexivity).
  pose proof (proj1 (selection_stored ∅ diffs s Hoff)) as H.
  assert (resolveResolutionSelection diffs s = s) as E by (vm_compute; reflexivity).
  rewrite E in H. exact H.
Defined.

End RatioSync.
