(* ===== verification/TableState.v ===== *)
(** * Table state in the URL

    [hooks/use-table-url-state.ts]: pagination, column filters and the global
    filter of a table, kept in the search part of the URL, with the page size
    remembered in local storage.  [navigate] hands its updater to the router, which
    says whether the URL changed ([Router]); only then the effect on [search] reads
    the column filters anew. *)

From stdpp Require Import base list strings gmap sorting.
From Stdlib Require Import ZArith Lia SpecFloat.
From S2P Require Import Prelude JsString JsNumber JsValue.
#[local] Open Scope Z_scope.

(** [Math.max(a, b)] *)
Definition num_max (a b : num) : num :=
  if is_nan a || is_nan b then S754_nan
  else if num_ltb a b then b
  else match a, b with S754_zero true, S754_zero false => b | _, _ => a end.

Module TableUrlState.

(** ** Remembered page size *)

(** The entry ['page-size'] of local storage, and whether storage works. *)
Record Storage := Store { page_size : option jsstr; available : bool }.

Definition getStoredPageSize (st : Storage) : option num :=
  if available st then
    let n := parseInt10 (default [] (page_size st)) in
    if num_ltb (num_of_Z 0) n then Some n else None
  else None.

Definition setStoredPageSize (size : num) (st : Storage) : Storage :=
  if available st then Store (Some (num_to_str size)) true else st.

(** ** Parameters *)

Record ColumnFilter := Filter { id : jsstr; value : jsval }.

(** [type] is [None] when it is left out. *)
Record ColumnFilterCfg := Cfg {
  columnId : jsstr;
  searchKey : jsstr;
  type : option jsstr;
  serialize : option (jsval → jsval);
  deserialize : option (jsval → jsval);
}.

Record UseTableUrlStateParams := Params {
  p_pageKey : option jsstr;
  p_pageSizeKey : option jsstr;
  p_defaultPage : option num;
  p_defaultPageSize : option num;
  p_globalKey : option jsstr;
  p_globalEnabled : option bool;
  p_globalTrim : option bool;
  columnFiltersCfg : list ColumnFilterCfg;
}.

Definition pageKey (p : UseTableUrlStateParams) : jsstr := default (js "page") (p_pageKey p).
Definition pageSizeKey (p : UseTableUrlStateParams) : jsstr :=
  default (js "pageSize") (p_pageSizeKey p).
Definition defaultPage (p : UseTableUrlStateParams) : num := default (num_of_Z 1) (p_defaultPage p).
Definition defaultPageSize (p : UseTableUrlStateParams) : num :=
  default (num_of_Z 20) (p_defaultPageSize p).
Definition globalFilterKey (p : UseTableUrlStateParams) : jsstr :=
  default (js "filter") (p_globalKey p).
Definition globalFilterEnabled (p : UseTableUrlStateParams) : bool :=
  default true (p_globalEnabled p).
Definition trimGlobal (p : UseTableUrlStateParams) : bool := default true (p_globalTrim p).

Record PaginationState := Page { pageIndex : num; pageSize : num }.

Definition SearchRecord := list (jsstr * jsval).

(** ** Reading the URL *)

Definition apply_opt (f : option (jsval → jsval)) (v : jsval) : jsval :=
  match f with Some g => g v | None => v end.

Definition is_string_cfg (cfg : ColumnFilterCfg) : bool :=
  bool_decide (type cfg = Some (js "string")).

(** A value that the filter of [cfg] can hold: a string that is not blank, or
    an array that is not empty. *)
Definition holds (cfg : ColumnFilterCfg) (v : jsval) : bool :=
  if is_string_cfg cfg
  then match v with JStr s => negb (is_empty (trim s)) | _ => false end
  else match v with JArr l => negb (length l =? 0)%nat | _ => false end.

Definition read_filter (search : SearchRecord) (cfg : ColumnFilterCfg) : option ColumnFilter :=
  let raw := obj_get (searchKey cfg) search in
  let dflt := if is_string_cfg cfg then JStr [] else JArr [] in
  let v := js_coalesce (apply_opt (deserialize cfg) raw) dflt in
  if holds cfg v then Some (Filter (columnId cfg) v) else None.

Definition initialColumnFilters (p : UseTableUrlStateParams) (search : SearchRecord)
    : list ColumnFilter := omap (read_filter search) (columnFiltersCfg p).

Definition as_number (v : jsval) : option num := match v with JNum x => Some x | _ => None end.

Definition pagination (p : UseTableUrlStateParams) (st : Storage) (search : SearchRecord)
    : PaginationState :=
  let pageNum := default (defaultPage p) (as_number (obj_get (pageKey p) search)) in
  let pageSizeNum :=
    match as_number (obj_get (pageSizeKey p) search) with
    | Some n => n
    | None => default (defaultPageSize p) (getStoredPageSize st)
    end in
  Page (num_max (num_of_Z 0) (num_sub pageNum (num_of_Z 1))) pageSizeNum.

(** ** The hook's state and handlers *)

Record Table := MkTable {
  search : SearchRecord;
  storage : Storage;
  columnFilters : list ColumnFilter;
  globalFilter : option jsstr;
}.

Definition useTableUrlState (p : UseTableUrlStateParams) (st : Storage) (s : SearchRecord) : Table :=
  MkTable s st (initialColumnFilters p s)
    (if globalFilterEnabled p
     then Some match obj_get (globalFilterKey p) s with JStr f => f | _ => [] end
     else None).

(** The router keeps the search record it had when a navigation changes no
    member of it. *)
Class Router := {
  url_changed : SearchRecord → SearchRecord → bool;
  url_changed_spec s s' : url_changed s s' = false ↔ ∀ k, obj_get k s = obj_get k s';
}.

Section hook.
Context {router : Router}.

(** [navigate] to [s'] with the state [cf] and [gf] set before it: when the URL
    changes, the effect on [search] reads the column filters anew. *)
Definition navigate (p : UseTableUrlStateParams) (t : Table) (s' : SearchRecord) (st : Storage)
    (cf : list ColumnFilter) (gf : option jsstr) : Table :=
  if url_changed (search t) s' then MkTable s' st (initialColumnFilters p s') gf
  else MkTable (search t) st cf gf.

Definition onPaginationChange (p : UseTableUrlStateParams)
    (updater : PaginationState → PaginationState) (t : Table) : Table :=
  let current := pagination p (storage t) (search t) in
  let next := updater current in
  let nextPage := num_add (pageIndex next) (num_of_Z 1) in
  let st := if num_eqb (pageSize next) (pageSize current) then storage t
            else setStoredPageSize (pageSize next) (storage t) in
  let s' := obj_put (pageSizeKey p) (JNum (pageSize next))
              (obj_put (pageKey p)
                 (if num_leb nextPage (defaultPage p) then JUndef else JNum nextPage)
                 (search t)) in
  navigate p t s' st (columnFilters t) (globalFilter t).

(** [undefined] when the global filter is disabled: no handler. *)
Definition onGlobalFilterChange (p : UseTableUrlStateParams) (updater : jsstr → jsstr) (t : Table)
    : option Table :=
  if globalFilterEnabled p then
    let next := updater (default [] (globalFilter t)) in
    let v := if trimGlobal p then trim next else next in
    Some (navigate p t
            (obj_put (globalFilterKey p) (if is_empty v then JUndef else JStr v)
               (obj_put (pageKey p) JUndef (search t)))
            (storage t) (columnFilters t) (Some v))
  else None.

Definition find_filter (cid : jsstr) (next : list ColumnFilter) : option ColumnFilter :=
  List.find (λ f, bool_decide (id f = cid)) next.

Definition patch_value (next : list ColumnFilter) (cfg : ColumnFilterCfg) : jsval :=
  match find_filter (columnId cfg) next with
  | Some f => if holds cfg (value f) then apply_opt (serialize cfg) (value f) else JUndef
  | None => JUndef
  end.

Definition filters_patch (next : list ColumnFilter) (cfgs : list ColumnFilterCfg) : SearchRecord :=
  fold_left (λ patch cfg, assign_prop (searchKey cfg) (patch_value next cfg) patch) cfgs [].

Definition onColumnFiltersChange (p : UseTableUrlStateParams)
    (updater : list ColumnFilter → list ColumnFilter) (t : Table) : Table :=
  let next := updater (columnFilters t) in
  let patch := filters_patch next (columnFiltersCfg p) in
  navigate p t (spread_over (obj_put (pageKey p) JUndef (search t)) (JObj patch))
    (storage t) next (globalFilter t).

Definition ensurePageInRange (p : UseTableUrlStateParams) (pageCount : num) (resetToLast : bool)
    (t : Table) : Table :=
  let pageNum := default (defaultPage p) (as_number (obj_get (pageKey p) (search t))) in
  if num_ltb (num_of_Z 0) pageCount && num_ltb pageCount pageNum then
    navigate p t
      (obj_put (pageKey p) (if resetToLast then JNum pageCount else JUndef) (search t))
      (storage t) (columnFilters t) (globalFilter t)
  else t.

End hook.

(** *** A router that compares the members *)

#[export] Instance jsval_eq_dec : EqDecision jsval.
Proof.
  refine (fix go (x y : jsval) : Decision (x = y) :=
    let _ : EqDecision jsval := go in
    match x, y with
    | JUndef, JUndef | JNull, JNull => left _
    | JBool a, JBool b => cast_if (decide (a = b))
    | JNum a, JNum b => cast_if (decide (a = b))
    | JStr a, JStr b => cast_if (decide (a = b))
    | JArr a, JArr b => cast_if (decide (a = b))
    | JObj a, JObj b => cast_if (decide (a = b))
    | JFun a, JFun b => cast_if (decide (a = b))
    | _, _ => right _
    end); abstract (by subst || congruence).
Defined.

Definition members_differ (s s' : SearchRecord) : bool :=
  negb (forallb (λ k, bool_decide (obj_get k s = obj_get k s')) (s.*1 ++ s'.*1)).

Lemma members_differ_spec s s' : members_differ s s' = false ↔ ∀ k, obj_get k s = obj_get k s'.
Proof.
  unfold members_differ. rewrite negb_false_iff, forallb_forall. split.
  - intros H k. destruct (decide (k ∈ s.*1 ++ s'.*1)) as [Hk|Hk].
    + apply list_elem_of_In, H in Hk. by apply bool_decide_eq_true in Hk.
    + apply not_elem_of_app in Hk as [H1 H2]. apply assoc_get_None in H1, H2. unfold obj_get. by rewrite H1, H2.
  - intros H k _. by apply bool_decide_eq_true.
Qed.

Definition comparing_router : Router := {| url_changed := members_differ; url_changed_spec := members_differ_spec |}.

(** ** Theorems *)

Section navigation.
Context {router : Router}.

(** After a navigation the URL has the members asked for. *)
Lemma navigated_get p t s' st cf gf k : obj_get k (search (navigate p t s' st cf gf)) = obj_get k s'.
Proof. unfold navigate. destruct (url_changed _ _) eqn:E; [done|]. cbn [search]. by apply url_changed_spec. Qed.

Lemma navigated_storage p t s' st cf gf : storage (navigate p t s' st cf gf) = st.
Proof. unfold navigate. by destruct (url_changed _ _). Qed.

Lemma navigated_global p t s' st cf gf : globalFilter (navigate p t s' st cf gf) = gf.
Proof. unfold navigate. by destruct (url_changed _ _). Qed.

Lemma filters_ext p s s' : (∀ k, obj_get k s = obj_get k s') → initialColumnFilters p s = initialColumnFilters p s'.
Proof.
  intros H. unfold initialColumnFilters. induction (columnFiltersCfg p) as [|c l IH]; [done|].
  cbn [omap list_omap]. rewrite IH. unfold read_filter. by rewrite H.
Qed.

Lemma navigated_filters p t s' st cf gf :
  initialColumnFilters p (search (navigate p t s' st cf gf)) = initialColumnFilters p s'.
Proof. apply filters_ext. intros k. apply navigated_get. Qed.

(** The filters shown: the ones of the new URL, or those set when it is the old one. *)
Lemma navigated_shown p t s' st cf gf :
  columnFilters (navigate p t s' st cf gf) = initialColumnFilters p s' ∨
  columnFilters (navigate p t s' st cf gf) = cf ∧ (∀ k, obj_get k (search t) = obj_get k s').
Proof.
  unfold navigate. destruct (url_changed _ _) eqn:E; [by left|right]. split; [done|]. by apply url_changed_spec.
Qed.
End navigation.

(** A page index that survives the shift to a page number and back. *)
Definition exact_index (i : num) : Prop :=
  num_max (num_of_Z 0) (num_sub (num_add i (num_of_Z 1)) (num_of_Z 1)) = i.

(** Turning pages is read back from the URL: after a change of pagination
    the table shows the requested page and page size, unless the page lies
    before the default page, in which case the default page is shown. *)
Theorem pagination_roundtrip {router : Router} (p : UseTableUrlStateParams) (t : Table) (next : PaginationState)
  (Hkeys : pageKey p ≠ pageSizeKey p) (Hex : exact_index (pageIndex next)) :
  let t' := onPaginationChange p (λ _, next) t in
  let nextPage := num_add (pageIndex next) (num_of_Z 1) in
  pageSize (pagination p (storage t') (search t')) = pageSize next ∧
  (num_leb nextPage (defaultPage p) = false ∨ nextPage = defaultPage p →
     pagination p (storage t') (search t') = next) ∧
  (num_leb nextPage (defaultPage p) = true →
     pageIndex (pagination p (storage t') (search t'))
     = num_max (num_of_Z 0) (num_sub (defaultPage p) (num_of_Z 1))).
Proof.
  intros t' nextPage. subst t'. unfold onPaginationChange.
  unfold pagination. rewrite !navigated_storage, !navigated_get. rewrite !obj_put_get, (decide_True (P := pageSizeKey p = pageSizeKey p)) by done.
  rewrite (decide_False (P := pageKey p = pageSizeKey p)) by done.
  rewrite (decide_True (P := pageKey p = pageKey p)) by done. fold nextPage.
  cbn [as_number pageSize pageIndex]. split; [done|]. destruct next as [i sz]. cbn [pageIndex pageSize] in *.
  destruct (num_leb nextPage (defaultPage p)) eqn:E; cbn [as_number from_option].
  - split; [|done]. intros [?| <-]; [done|]. f_equal. exact Hex.
  - split; [|done]. intros _. f_equal. exact Hex.
Qed.

Lemma pagination_roundtrip_witness :
  let router := comparing_router in
  let p := Params None None None None None None None [] in
  let t := MkTable [] (Store None true) [] None in
  let next := Page (num_of_Z 3) (num_of_Z 50) in
  let t' := onPaginationChange p (λ _, next) t in
  pagination p (storage t') (search t') = next.
Proof.
  intros router p t next t'. apply (pagination_roundtrip p t next).
  - apply (bool_decide_unpack _). vm_compute. exact I.
  - vm_compute. reflexivity.
  - left. vm_compute. reflexivity.
Defined.

Lemma assign_prop_assoc k k' v o :
  k' ≠ js "__proto__" →
  assoc_get k (assign_prop k' v o) = if decide (k = k') then Some v else assoc_get k o.
Proof. intros H. unfold assign_prop. rewrite decide_False by done. apply obj_put_assoc. Qed.

Lemma assign_prop_NoDup k v o : NoDup (o.*1) → NoDup ((assign_prop k v o).*1).
Proof. intros H. unfold assign_prop. case_decide; [done|]. by apply obj_put_NoDup. Qed.

Lemma filters_patch_NoDup next cfgs : NoDup ((filters_patch next cfgs).*1).
Proof.
  unfold filters_patch. assert (NoDup (([] : SearchRecord).*1)) as H by constructor.
  revert H. generalize ([] : SearchRecord).
  induction cfgs as [|c cfgs IH]; intros o Ho; simpl; [done|]. by apply IH, assign_prop_NoDup.
Qed.

Lemma filters_patch_get next cfgs cfg :
  NoDup (map searchKey cfgs) → Forall (λ c, searchKey c ≠ js "__proto__") cfgs → cfg ∈ cfgs →
  assoc_get (searchKey cfg) (filters_patch next cfgs) = Some (patch_value next cfg).
Proof.
  intros Hnd Hp Hin. unfold filters_patch.
  assert (∀ o, (cfg ∈ cfgs ∨ assoc_get (searchKey cfg) o = Some (patch_value next cfg) ∧
                             searchKey cfg ∉ map searchKey cfgs) →
    assoc_get (searchKey cfg)
      (fold_left (λ patch cfg, assign_prop (searchKey cfg) (patch_value next cfg) patch) cfgs o)
    = Some (patch_value next cfg)) as H; [|by apply H; left].
  clear Hin. induction cfgs as [|c cfgs IH]; intros o Ho; simpl.
  { by destruct Ho as [?%not_elem_of_nil|[? _]]. }
  cbn [map] in Hnd. apply NoDup_cons in Hnd as [Hc Hnd]. apply Forall_cons in Hp as [Hpc Hp].
  apply IH; [done|done|]. rewrite assign_prop_assoc by done.
  destruct Ho as [[->|Hin]%elem_of_cons|[Ho Hn]].
  - right. rewrite decide_True by done. done.
  - by left.
  - right. cbn [map] in Hn. apply not_elem_of_cons in Hn as [Hne Hn].
    by rewrite decide_False.
Qed.

(** The transformers of a column are inverse on the values its filter holds,
    and an absent parameter is read as absent. *)
Definition cfg_ok (cfg : ColumnFilterCfg) : Prop :=
  searchKey cfg ≠ js "__proto__" ∧
  nullish (apply_opt (deserialize cfg) JUndef) = true ∧
  ∀ v, holds cfg v = true → apply_opt (deserialize cfg) (apply_opt (serialize cfg) v) = v.

(** The filters of [next] that the table keeps, in the order of its columns. *)
Definition kept_filter (next : list ColumnFilter) (cfg : ColumnFilterCfg) : option ColumnFilter :=
  f ← find_filter (columnId cfg) next;
  if holds cfg (value f) then Some (Filter (columnId cfg) (value f)) else None.

Lemma empty_not_held cfg : holds cfg (if is_string_cfg cfg then JStr [] else JArr []) = false.
Proof. unfold holds. by destruct (is_string_cfg cfg). Qed.

Lemma holds_coalesce cfg v d : holds cfg v = true → js_coalesce v d = v.
Proof. unfold holds, js_coalesce. destruct v; by destruct (is_string_cfg cfg). Qed.

Lemma read_patched next cfg search :
  cfg_ok cfg → obj_get (searchKey cfg) search = patch_value next cfg →
  read_filter search cfg = kept_filter next cfg.
Proof.
  intros (_ & Hu & Hinv) Hs. unfold read_filter, kept_filter. rewrite Hs. unfold patch_value.
  assert (∀ d, js_coalesce (apply_opt (deserialize cfg) JUndef) d = d) as Hnone
    by (intros d; unfold js_coalesce; by rewrite Hu).
  destruct (find_filter (columnId cfg) next) as [f|]; simpl; [|by rewrite Hnone, empty_not_held].
  destruct (holds cfg (value f)) eqn:E; [|by rewrite Hnone, empty_not_held].
  by rewrite (Hinv _ E), (holds_coalesce cfg), E.
Qed.

(** *** The search record after a change of filters *)

Section filters_change.
Context (p : UseTableUrlStateParams) (s : SearchRecord) (next : list ColumnFilter).
Context (Hnd : NoDup (map searchKey (columnFiltersCfg p))) (Hok : Forall cfg_ok (columnFiltersCfg p)).

Let patch := filters_patch next (columnFiltersCfg p).
Let changed := spread_over (obj_put (pageKey p) JUndef s) (JObj patch).

Lemma cfgs_no_proto : Forall (λ c, searchKey c ≠ js "__proto__") (columnFiltersCfg p).
Proof. eapply Forall_impl; [exact Hok|]. by intros c (? & _). Qed.

Lemma changed_get k :
  obj_get k changed
  = match assoc_get k patch with Some v => v | None => obj_get k (obj_put (pageKey p) JUndef s) end.
Proof. unfold changed, spread_over. cbn [entries catch]. apply fold_put_assoc, filters_patch_NoDup. Qed.

(** Keys of no column are not touched, except the page. *)
Lemma changed_other k :
  k ∉ map searchKey (columnFiltersCfg p) →
  obj_get k changed = if decide (k = pageKey p) then JUndef else obj_get k s.
Proof.
  intros Hk. rewrite changed_get. assert (assoc_get k patch = None) as ->; [|by rewrite obj_put_get].
  pose proof cfgs_no_proto as Hp. clear Hok Hnd changed. apply assoc_get_None. unfold patch, filters_patch.
  assert (k ∉ ([] : SearchRecord).*1) as H by apply not_elem_of_nil. revert H.
  generalize ([] : SearchRecord). clear patch.
  induction (columnFiltersCfg p) as [|c l IH]; intros o Ho; simpl; [done|].
  cbn [map] in Hk. apply not_elem_of_cons in Hk as [Hne Hk].
  apply Forall_cons in Hp as [Hpc Hp]. apply IH; [done..|].
  rewrite <- assoc_get_None in *. by rewrite assign_prop_assoc, decide_False.
Qed.

Lemma changed_filters : initialColumnFilters p changed = omap (kept_filter next) (columnFiltersCfg p).
Proof.
  assert (∀ c, c ∈ columnFiltersCfg p → read_filter changed c = kept_filter next c) as Hr.
  { intros c Hc. pose proof Hok as Hok'. rewrite Forall_forall in Hok'. apply read_patched; [by apply Hok'|].
    rewrite changed_get. unfold patch. by rewrite filters_patch_get by (done || apply cfgs_no_proto). }
  unfold initialColumnFilters. revert Hr. generalize changed as s'. intros s' Hr. clear -Hr.
  induction (columnFiltersCfg p) as [|c l IH]; [done|].
  cbn [omap list_omap]. rewrite (Hr c) by left. rewrite IH; [done|]. intros c' Hc'. apply Hr. by right.
Qed.
End filters_change.

(** Column filters live in the URL: after a change of filters the URL has
    exactly the requested filters of the columns that hold a value (a string that
    is not blank, an array that is not empty), and it is back on the default page;
    the table shows these filters, or the requested ones when the URL did not
    change. *)
Theorem filters_roundtrip {router : Router} (p : UseTableUrlStateParams) (t : Table) (next : list ColumnFilter)
  (Hnd : NoDup (map searchKey (columnFiltersCfg p))) (Hok : Forall cfg_ok (columnFiltersCfg p))
  (Hpage : pageKey p ∉ map searchKey (columnFiltersCfg p)) :
  let t' := onColumnFiltersChange p (λ _, next) t in
  let kept := omap (kept_filter next) (columnFiltersCfg p) in
  initialColumnFilters p (search t') = kept ∧ columnFilters t' ∈ [kept; next] ∧
  obj_get (pageKey p) (search t') = JUndef ∧
  globalFilter t' = globalFilter t.
Proof.
  intros t' kept. subst t'. unfold onColumnFiltersChange. rewrite navigated_filters, navigated_get, navigated_global.
  rewrite changed_filters by done. split_and!; [done| |rewrite changed_other by done; by rewrite decide_True|done].
  destruct (navigated_shown p t (spread_over (obj_put (pageKey p) JUndef (search t))
    (JObj (filters_patch next (columnFiltersCfg p)))) (storage t) next (globalFilter t)) as [->|[-> _]]; [|set_solver].
  rewrite changed_filters by done. set_solver.
Qed.

Definition two_columns : UseTableUrlStateParams :=
  Params None None None None None None None
    [Cfg (js "name") (js "name") (Some (js "string")) None None;
     Cfg (js "status") (js "status") (Some (js "array")) None None].

Lemma two_columns_ok : Forall cfg_ok (columnFiltersCfg two_columns).
Proof. repeat constructor; try done; apply (bool_decide_unpack _); vm_compute; exact I. Qed.

Lemma filters_roundtrip_witness :
  let router := comparing_router in
  let next := [Filter (js "status") (JArr [JStr (js "1")]); Filter (js "name") (JStr (js " "))] in
  let t' := onColumnFiltersChange two_columns (λ _, next) (MkTable [] (Store None true) [] None) in
  initialColumnFilters two_columns (search t') = [Filter (js "status") (JArr [JStr (js "1")])].
Proof.
  intros router next t'.
  destruct (filters_roundtrip two_columns (MkTable [] (Store None true) [] None) next) as [H _].
  - apply (bool_decide_unpack _). vm_compute. exact I.
  - apply two_columns_ok.
  - apply (bool_decide_unpack _). vm_compute. exact I.
  - exact H.
Defined.

(** A blank text that changes nothing in the URL stays in the filters of the
    table, until the URL changes. *)
Example blank_filter_stays :
  let router := comparing_router in
  let blank := [Filter (js "name") (JStr (js " "))] in
  let t := onColumnFiltersChange two_columns (λ _, blank) (useTableUrlState two_columns (Store None true) []) in
  columnFilters t = blank ∧ columnFilters (useTableUrlState two_columns (storage t) (search t)) = [] ∧
  columnFilters (onPaginationChange two_columns (λ q, Page (num_of_Z 1) (pageSize q)) t) = [].
Proof. vm_compute. done. Qed.

(** ** The hook implements an abstract table

    The table without the URL: the page and the page size that were set, the
    filters that are set, the filters shown (which may be blank), and the global
    filter. *)

Record View := MkView {
  v_page : option num;
  v_size : option num;
  v_stored : Storage;
  v_filters : list ColumnFilter;
  v_shown : list ColumnFilter;
  v_global : option jsstr;
}.

Inductive event : Type :=
| Paginate (updater : PaginationState → PaginationState)
| SetGlobal (updater : jsstr → jsstr)
| SetFilters (updater : list ColumnFilter → list ColumnFilter)
| EnsureRange (pageCount : num) (resetToLast : bool).

Definition step {router : Router} (p : UseTableUrlStateParams) (t : Table) (e : event) : Table :=
  match e with
  | Paginate u => onPaginationChange p u t
  | SetGlobal u => default t (onGlobalFilterChange p u t)
  | SetFilters u => onColumnFiltersChange p u t
  | EnsureRange n last => ensurePageInRange p n last t
  end.

Definition view (p : UseTableUrlStateParams) (t : Table) : View :=
  MkView (as_number (obj_get (pageKey p) (search t))) (as_number (obj_get (pageSizeKey p) (search t)))
    (storage t) (initialColumnFilters p (search t)) (columnFilters t) (globalFilter t).

Definition shown (p : UseTableUrlStateParams) (v : View) : PaginationState :=
  Page (num_max (num_of_Z 0) (num_sub (default (defaultPage p) (v_page v)) (num_of_Z 1)))
    (match v_size v with Some n => n | None => default (defaultPageSize p) (getStoredPageSize (v_stored v)) end).

(** The filters of the table that hold a value *)
Definition set_filters (p : UseTableUrlStateParams) (filters : list ColumnFilter) : list ColumnFilter :=
  omap (kept_filter filters) (columnFiltersCfg p).

(** What an event asks for: each sets its own part; filters go back to the first
    page. *)
Definition view_event (p : UseTableUrlStateParams) (v : View) (e : event) : View :=
  match e with
  | Paginate u =>
      let next := u (shown p v) in
      let nextPage := num_add (pageIndex next) (num_of_Z 1) in
      MkView (if num_leb nextPage (defaultPage p) then None else Some nextPage) (Some (pageSize next))
        (if num_eqb (pageSize next) (pageSize (shown p v)) then v_stored v
         else setStoredPageSize (pageSize next) (v_stored v))
        (v_filters v) (v_shown v) (v_global v)
  | SetGlobal u =>
      if globalFilterEnabled p then
        let next := u (default [] (v_global v)) in
        MkView None (v_size v) (v_stored v) (v_filters v) (v_shown v) (Some (if trimGlobal p then trim next else next))
      else v
  | SetFilters u =>
      let next := u (v_shown v) in
      MkView None (v_size v) (v_stored v) (set_filters p next) next (v_global v)
  | EnsureRange n last =>
      if num_ltb (num_of_Z 0) n && num_ltb n (default (defaultPage p) (v_page v))
      then MkView (if last then Some n else None) (v_size v) (v_stored v) (v_filters v) (v_shown v) (v_global v)
      else v
  end.

(** The parts kept in the URL are the same. *)
Definition same_parts (v w : View) : Prop :=
  v_page v = v_page w ∧ v_size v = v_size w ∧ v_filters v = v_filters w ∧ v_global v = v_global w.

(** The table shows the filters that are set, except that the filters asked for
    stay as they are (blank ones included) when no part of the URL changes. *)
Definition view_step (p : UseTableUrlStateParams) (v : View) (e : event) (w : View) : Prop :=
  let x := view_event p v e in
  w = MkView (v_page x) (v_size x) (v_stored x) (v_filters x) (v_filters x) (v_global x) ∨ w = x ∧ same_parts v x.

Fixpoint view_steps (p : UseTableUrlStateParams) (v : View) (es : list event) (w : View) : Prop :=
  match es with
  | [] => w = v
  | e :: es => ∃ x, view_step p v e x ∧ view_steps p x es w
  end.

(** The keys of a table are different parameters of the URL, and its columns
    different columns. *)
Definition keys_apart (p : UseTableUrlStateParams) : Prop :=
  NoDup (pageKey p :: pageSizeKey p :: globalFilterKey p :: map searchKey (columnFiltersCfg p)) ∧
  NoDup (map columnId (columnFiltersCfg p)).

Definition global_of (p : UseTableUrlStateParams) (s : SearchRecord) : option jsstr :=
  if globalFilterEnabled p
  then Some match obj_get (globalFilterKey p) s with JStr f => f | _ => [] end else None.

(** What is set is what the URL says, and the filters that hold a value are the
    filters of the URL. *)
Definition agrees (p : UseTableUrlStateParams) (t : Table) : Prop :=
  set_filters p (columnFilters t) = initialColumnFilters p (search t) ∧ globalFilter t = global_of p (search t).

Section refinement.
Context {router : Router}.
Context (p : UseTableUrlStateParams) (Hkeys : keys_apart p) (Hok : Forall cfg_ok (columnFiltersCfg p)).

Lemma filters_put k v s :
  k ∉ map searchKey (columnFiltersCfg p) →
  initialColumnFilters p (obj_put k v s) = initialColumnFilters p s.
Proof.
  clear Hkeys Hok. intros Hk. unfold initialColumnFilters. induction (columnFiltersCfg p) as [|c l IH]; [done|].
  cbn [map] in Hk. apply not_elem_of_cons in Hk as [Hne Hk]. cbn [omap list_omap]. rewrite IH by done.
  unfold read_filter. by rewrite obj_put_get, decide_False.
Qed.

Lemma keys_facts :
  pageKey p ≠ pageSizeKey p ∧ pageKey p ≠ globalFilterKey p ∧ pageSizeKey p ≠ globalFilterKey p ∧
  pageKey p ∉ map searchKey (columnFiltersCfg p) ∧ pageSizeKey p ∉ map searchKey (columnFiltersCfg p) ∧
  globalFilterKey p ∉ map searchKey (columnFiltersCfg p) ∧ NoDup (map searchKey (columnFiltersCfg p)).
Proof. destruct Hkeys as [H _]. rewrite !NoDup_cons in H. set_solver. Qed.

Lemma read_filter_id s c f : read_filter s c = Some f → id f = columnId c ∧ holds c (value f) = true.
Proof. unfold read_filter. destruct (holds c _) eqn:E; [|done]. by intros [= <-]. Qed.

(** The filters of a URL all hold a value. *)
Lemma read_filters_set s : set_filters p (initialColumnFilters p s) = initialColumnFilters p s.
Proof.
  destruct Hkeys as [_ Hids]. unfold set_filters, initialColumnFilters at 2. set (cfgs := columnFiltersCfg p) in *.
  assert (∀ c, c ∈ cfgs → kept_filter (omap (read_filter s) cfgs) c = read_filter s c) as H.
  { intros c Hc. unfold kept_filter.
    assert (find_filter (columnId c) (omap (read_filter s) cfgs) = read_filter s c) as ->.
    { clear Hok Hkeys. revert Hids Hc. unfold find_filter. induction cfgs as [|d l IH]; [by intros _ ?%not_elem_of_nil|].
      cbn [map]. intros [Hd Hids]%NoDup_cons [->|Hc]%elem_of_cons; cbn [omap list_omap].
      - destruct (read_filter s d) as [f|] eqn:E; cbn [List.find].
        + apply read_filter_id in E as [E _]. by rewrite bool_decide_eq_true_2.
        + clear IH. assert (∀ l, columnId d ∉ map columnId l →
            List.find (λ f, bool_decide (id f = columnId d)) (omap (read_filter s) l) = None) as G; [|by apply G].
          clear. induction l as [|e l IH]; [done|]. cbn [map]. intros [Hne Hl]%not_elem_of_cons. cbn [omap list_omap].
          destruct (read_filter s e) as [f|] eqn:E; [|by apply IH]. cbn [List.find].
          apply read_filter_id in E as [E _]. rewrite bool_decide_eq_false_2 by congruence. by apply IH.
      - assert (columnId c ≠ columnId d) as Hne by (intros E; apply Hd; rewrite <-E; by apply list_elem_of_fmap_2).
        destruct (read_filter s d) as [f|] eqn:E; [|by apply IH]. cbn [List.find].
        apply read_filter_id in E as [E _]. rewrite bool_decide_eq_false_2 by congruence. by apply IH. }
    destruct (read_filter s c) as [[i v]|] eqn:E; [|done]. apply read_filter_id in E as [Ei Eh]. cbn in *. subst i. by rewrite Eh. }
  unfold initialColumnFilters. fold cfgs.
  assert (∀ (l : list ColumnFilterCfg) fs, (∀ c, c ∈ l → kept_filter fs c = read_filter s c) → omap (kept_filter fs) l = omap (read_filter s) l) as G;
    [|by apply G].
  clear. induction l as [|c l IH]; intros fs H; [done|]. cbn [omap list_omap]. rewrite H by left. rewrite IH; [done|].
  intros d Hd. apply H. by right.
Qed.

Lemma global_of_put k v s : k ≠ globalFilterKey p → global_of p (obj_put k v s) = global_of p s.
Proof. intros H. unfold global_of. by rewrite obj_put_get, decide_False. Qed.

(** A navigation whose filters [cf] and global filter are those of the new URL *)
Lemma navigated_agrees t s' st cf gf :
  set_filters p cf = initialColumnFilters p s' → gf = global_of p s' → agrees p (navigate p t s' st cf gf).
Proof.
  intros Hf Hg. split; [|rewrite navigated_global; unfold global_of; by rewrite navigated_get].
  rewrite navigated_filters. destruct (navigated_shown p t s' st cf gf) as [->|[-> _]]; [|done]. apply read_filters_set.
Qed.

Lemma step_agrees t e : agrees p t → agrees p (step p t e).
Proof.
  intros [Hf Hg]. destruct keys_facts as (H1 & H2 & H3 & H4 & H5 & H6 & H7).
  destruct e as [u|u|u|n last]; cbn [step].
  - apply navigated_agrees; [by rewrite !filters_put|by rewrite !global_of_put].
  - unfold onGlobalFilterChange. destruct (globalFilterEnabled p) eqn:E; [|done].
    apply navigated_agrees; [by rewrite !filters_put|]. unfold global_of. rewrite E, obj_put_get, decide_True by done.
    by destruct (if trimGlobal p then _ else _).
  - apply navigated_agrees; [by rewrite changed_filters|]. rewrite Hg. unfold global_of.
    rewrite changed_other by done. by rewrite decide_False.
  - unfold ensurePageInRange. destruct (_ && _); [|done].
    apply navigated_agrees; [by rewrite filters_put|by rewrite global_of_put].
Qed.

(** A navigation is a step of the abstract table when its new URL and state are
    what the event asks for. *)
Lemma navigated_view t s' st cf gf x :
  agrees p t → gf = global_of p s' →
  x = MkView (as_number (obj_get (pageKey p) s')) (as_number (obj_get (pageSizeKey p) s')) st
        (initialColumnFilters p s') cf gf →
  let w := view p (navigate p t s' st cf gf) in
  w = MkView (v_page x) (v_size x) (v_stored x) (v_filters x) (v_filters x) (v_global x) ∨ w = x ∧ same_parts (view p t) x.
Proof.
  intros [_ Hg] Hgf ->. cbn [v_page v_size v_stored v_filters v_global]. unfold view.
  rewrite !navigated_get, navigated_storage, navigated_filters, navigated_global.
  destruct (navigated_shown p t s' st cf gf) as [->|[-> Hs]]; [by left|right]. split; [done|].
  unfold same_parts. cbn [v_page v_size v_filters v_global]. rewrite !Hs. split_and!; [done..|by apply filters_ext|].
  rewrite Hg, Hgf. unfold global_of. by rewrite Hs.
Qed.

Lemma step_view t e : agrees p t → view_step p (view p t) e (view p (step p t e)).
Proof.
  intros Ha. pose proof Ha as [Hf Hg]. destruct keys_facts as (H1 & H2 & H3 & H4 & H5 & H6 & H7).
  assert (∀ v, same_parts v v) as Hrefl by done.
  unfold view_step. destruct e as [u|u|u|n last]; cbn [step].
  - apply navigated_view; [done|by rewrite !global_of_put|]. cbn [view_event v_filters v_shown v_global view v_stored].
    rewrite !filters_put, !obj_put_get by done.
    rewrite !(decide_True (P := pageKey p = pageKey p)), (decide_True (P := pageSizeKey p = pageSizeKey p)),
      (decide_False (P := pageKey p = pageSizeKey p)) by done.
    by destruct (num_leb _ _).
  - unfold onGlobalFilterChange. cbn [view_event]. destruct (globalFilterEnabled p) eqn:E; [|by right].
    cbn [default from_option]. unfold Datatypes.id at 1. apply navigated_view; [done| |].
    + unfold global_of. rewrite E, obj_put_get, decide_True by done. cbn [view v_global].
      by destruct (if trimGlobal p then _ else _).
    + cbn [view v_global v_size v_stored v_filters v_shown]. rewrite !filters_put, !obj_put_get by done.
      by repeat first [rewrite decide_True by done|rewrite decide_False by done].
  - apply navigated_view; [done| |].
    + rewrite Hg. unfold global_of. rewrite changed_other by done. by rewrite decide_False.
    + cbn [view_event view v_shown v_size v_stored v_global]. rewrite changed_filters, !changed_other by done.
      by rewrite decide_True, decide_False.
  - unfold ensurePageInRange. cbn [view_event view v_page]. destruct (_ && _); [|by right].
    apply navigated_view; [done|by rewrite global_of_put|]. cbn [v_size v_stored v_filters v_shown v_global].
    rewrite filters_put, !obj_put_get by done. rewrite decide_True, decide_False by done. by destruct last.
Qed.
End refinement.



(** A column without a declared type is read as an array column, although
    its declared type is the string one: a text filter of such a column is
    dropped from the table and from the URL. *)
Theorem untyped_column_drops_text (cid key text : jsstr) (next : list ColumnFilter)
  (Hf : find_filter cid next = Some (Filter cid (JStr text))) :
  let cfg := Cfg cid key None None None in
  patch_value next cfg = JUndef ∧
  ∀ s, obj_get key s = JStr text → read_filter s cfg = None.
Proof.
  intros cfg. split; [unfold patch_value; cbn [columnId cfg]; by rewrite Hf|].
  intros s Hs. unfold read_filter. cbn [searchKey cfg]. by rewrite Hs.
Qed.

Lemma untyped_column_drops_text_witness :
  patch_value [Filter (js "name") (JStr (js "gpt"))] (Cfg (js "name") (js "name") None None None)
  = JUndef.
Proof.
  apply (untyped_column_drops_text (js "name") (js "name") (js "gpt")
            [Filter (js "name") (JStr (js "gpt"))]).
  vm_compute. reflexivity.
Defined.

End TableUrlState.
