(* ===== verification/Metrics.v ===== *)
(** * Performance metrics and seeded numbers

    [features/performance-metrics/lib/weighted.ts]: weighted metrics of the
    rows the server reports (objects of numbers, possibly absent), in IEEE
    arithmetic; and [features/pricing/lib/seed.ts]: the string hash and the
    linear-congruential generator behind the placeholder figures, in 32-bit
    arithmetic. *)

From stdpp Require Import base list strings gmap sorting.
From Stdlib Require Import ZArith Lia SpecFloat.
From S2P Require Import Prelude JsString JsNumber JsValue.
#[local] Open Scope Z_scope.

Module Weighted.

(** A row: the own properties of a [PerformanceGroup], a
    [PerformanceSeriesPoint] or a [PerfModelSummary]. *)
Notation Row := (list (jsstr * jsval)).

Inductive WeightedMetricKey :=
| weighted_avg_tps | weighted_avg_ttft_ms | weighted_avg_latency_ms | weighted_success_rate.

Inductive WeightedSummaryMetricKey :=
| summary_avg_tps | summary_avg_latency_ms | summary_success_rate.

Definition key_name (k : WeightedMetricKey) : jsstr :=
  match k with
  | weighted_avg_tps => js "weighted_avg_tps"
  | weighted_avg_ttft_ms => js "weighted_avg_ttft_ms"
  | weighted_avg_latency_ms => js "weighted_avg_latency_ms"
  | weighted_success_rate => js "weighted_success_rate"
  end.

Definition metricFallbackMap (k : WeightedMetricKey) : jsstr :=
  match k with
  | weighted_avg_tps => js "avg_tps"
  | weighted_avg_ttft_ms => js "avg_ttft_ms"
  | weighted_avg_latency_ms => js "avg_latency_ms"
  | weighted_success_rate => js "success_rate"
  end.

Definition summary_key_name (k : WeightedSummaryMetricKey) : jsstr :=
  match k with
  | summary_avg_tps => js "weighted_avg_tps"
  | summary_avg_latency_ms => js "weighted_avg_latency_ms"
  | summary_success_rate => js "weighted_success_rate"
  end.

Definition summaryMetricFallbackMap (k : WeightedSummaryMetricKey) : jsstr :=
  match k with
  | summary_avg_tps => js "avg_tps"
  | summary_avg_latency_ms => js "avg_latency_ms"
  | summary_success_rate => js "success_rate"
  end.

(** [Number(value)] throws only on an object without a string form. *)
Definition finiteNumber (value : jsval) (fallback : num) : res num :=
  let* numberValue := to_num value in
  Ok (if is_finite numberValue then numberValue else fallback).

Definition zero : num := num_of_Z 0.

(** The metric under [key], or the plain one under [fallback]. *)
Definition metric_or (row : Row) (key fallback : jsstr) : res num :=
  let* weightedValue := to_num (obj_get key row) in
  if is_finite weightedValue then Ok weightedValue
  else finiteNumber (obj_get fallback row) zero.

Definition weightedMetric (group : Row) (k : WeightedMetricKey) : res num :=
  metric_or group (key_name k) (metricFallbackMap k).

(** An absent summary has no metric. *)
Definition weightedSummaryMetric (summary : option Row) (k : WeightedSummaryMetricKey) : res num :=
  match summary with
  | None => Ok S754_nan
  | Some row => metric_or row (summary_key_name k) (summaryMetricFallbackMap k)
  end.

Definition pointWeight (point : Row) : res num :=
  let* requestCount := finiteNumber (obj_get (js "request_count") point) zero in
  Ok (if num_ltb zero requestCount then requestCount else num_of_Z 1).

Definition groupWeight (group : Row) : res num :=
  let* weightedCount := finiteNumber (obj_get (js "weighted_request_count") group) zero in
  if num_ltb zero weightedCount then Ok weightedCount
  else pointWeight group.

Section average.
Context {A : Type} (valueSelector weightSelector : A → num) (predicate : num → bool).

(** [!predicate(value) || !Number.isFinite(weight) || weight <= 0] is false *)
Definition counts (row : A) : bool :=
  predicate (valueSelector row) && is_finite (weightSelector row)
  && negb (num_leb (weightSelector row) zero).

Definition add_row (acc : num * num) (row : A) : num * num :=
  if counts row then
    (num_add acc.1 (num_mul (valueSelector row) (weightSelector row)),
     num_add acc.2 (weightSelector row))
  else acc.

Definition weightedAverage (rows : list A) : num :=
  let '(weightedSum, weightSum) := fold_left add_row rows (zero, zero) in
  if num_ltb zero weightSum then num_div weightedSum weightSum else zero.

Lemma average_filter rows :
  weightedAverage rows = weightedAverage (filter (λ r, counts r = true) rows).
Proof.
  unfold weightedAverage.
  assert (∀ acc, fold_left add_row rows acc
                 = fold_left add_row (filter (λ r, counts r = true) rows) acc) as ->; [|done].
  induction rows as [|r rows IH]; intros acc; [done|]. rewrite filter_cons. simpl.
  case_decide as E; simpl; rewrite IH; [done|]. unfold add_row at 2.
  by destruct (counts r).
Qed.
End average.

Lemma finiteNumber_finite v d x : is_finite d = true → finiteNumber v d = Ok x → is_finite x = true.
Proof.
  intros Hd H. unfold finiteNumber in H. res_step H as y Hy. injection H as <-.
  by destruct (is_finite y) eqn:E.
Qed.

Lemma metric_or_finite row k f x : metric_or row k f = Ok x → is_finite x = true.
Proof.
  intros H. unfold metric_or in H. res_step H as y Hy. destruct (is_finite y) eqn:E.
  - by injection H as <-.
  - by eapply finiteNumber_finite in H.
Qed.

Lemma pointWeight_positive row w :
  pointWeight row = Ok w → is_finite w = true ∧ num_ltb zero w = true.
Proof.
  intros H. unfold pointWeight in H. res_step H as y Hy. injection H as <-.
  destruct (num_ltb zero y) eqn:E; [|by vm_compute]. split; [|done].
  by eapply finiteNumber_finite in Hy.
Qed.

(** Metrics are safe to show and to weigh: a metric read from a row is
    always finite, whatever the server sent; a row weighs a finite, positive
    amount; and an average depends only on the rows that count, being zero
    when none does. *)
Theorem metrics_well_defined :
  (∀ row k x, weightedMetric row k = Ok x → is_finite x = true) ∧
  (∀ row k x, weightedSummaryMetric (Some row) k = Ok x → is_finite x = true) ∧
  (∀ row w, groupWeight row = Ok w → is_finite w = true ∧ num_ltb zero w = true) ∧
  (∀ row w, pointWeight row = Ok w → is_finite w = true ∧ num_ltb zero w = true) ∧
  (∀ A (v w : A → num) p rows rows',
     filter (λ r, counts v w p r = true) rows = filter (λ r, counts v w p r = true) rows' →
     weightedAverage v w p rows = weightedAverage v w p rows') ∧
  (∀ A (v w : A → num) p rows,
     Forall (λ r, counts v w p r = false) rows → weightedAverage v w p rows = zero).
Proof.
  split_and!.
  - intros row k x. apply metric_or_finite.
  - intros row k x. apply metric_or_finite.
  - intros row w H. unfold groupWeight in H. res_step H as y Hy.
    destruct (num_ltb zero y) eqn:E; [|by apply pointWeight_positive in H].
    injection H as <-. split; [|done]. by eapply finiteNumber_finite in Hy.
  - apply pointWeight_positive.
  - intros A v w p rows rows' E. rewrite (average_filter v w p rows), E. by rewrite <- average_filter.
  - intros A v w p rows H. rewrite average_filter.
    assert (filter (λ r, counts v w p r = true) rows = []) as ->; [|by vm_compute].
    induction H as [|r rows Hr _ IH]; [done|]. rewrite filter_cons_False; [done|]. congruence.
Qed.

End Weighted.

(** ** Seeded numbers *)

Module Seed.

(** [x | 0] and [x >>> 0] of an integral number *)
Definition to_int32 (x : Z) : Z := (x + 2147483648) mod 4294967296 - 2147483648.
Definition to_uint32 (x : Z) : Z := x mod 4294967296.

(** [(hash * 33) ^ code]: [^] works on the 32-bit forms of its operands. The
    product of an [int32] and 33 is below [2^53], so it is exact. *)
Definition hash_step (hash code : Z) : Z := Z.lxor (to_int32 (hash * 33)) (to_int32 code).

Definition hashStringToSeed (input : jsstr) : Z :=
  Z.abs (to_int32 (fold_left hash_step input 5381)).

(** The generator: its state, and the numerator of [state / 2^32] of each draw
    with the next state. *)
Definition seededRandom (seed : Z) : Z := to_uint32 (if seed =? 0 then 1 else seed).
Definition next_state (state : Z) : Z := to_uint32 (state * 1664525 + 1013904223).

Fixpoint draws (n : nat) (state : Z) : list Z :=
  match n with
  | O => []
  | S n => let state := next_state state in state :: draws n state
  end.

Lemma to_int32_range x : -2147483648 <= to_int32 x < 2147483648.
Proof. unfold to_int32. pose proof (Z.mod_pos_bound (x + 2147483648) 4294967296). lia. Qed.

Lemma draws_range n : ∀ state, Forall (λ x, 0 <= x < 4294967296) (draws n state).
Proof.
  induction n as [|n IH]; intros state; simpl; constructor; [|done].
  unfold next_state, to_uint32. apply Z.mod_pos_bound. lia.
Qed.

(** The absolute value of the least 32-bit integer needs 32 bits. *)
Lemma seed_reaches_2_31 :
  ∃ input, Forall (λ c, 0 <= c < 65536) input ∧ hashStringToSeed input = 2147483648.
Proof.
  exists [115; 115; 112; 97; 97; 19893]. split; [|vm_compute; reflexivity].
  repeat constructor; lia.
Qed.

(** C40. The seeded numbers stay in range and lose no precision: a seed lies
    between 0 and 2^31 (which some name reaches), each draw is a 32-bit numerator over 2^32 (so at least
    0 and below 1), and the products of the hash and of the generator stay
    below 2^53, where JavaScript numbers are exact. *)
Theorem seeded_numbers_bounded (input : jsstr) (seed : Z) (n : nat) :
  0 <= hashStringToSeed input <= 2147483648 ∧
  (∃ name, Forall (λ c, 0 <= c < 65536) name ∧ hashStringToSeed name = 2147483648) ∧
  0 <= seededRandom seed < 4294967296 ∧
  Forall (λ x, 0 <= x < 4294967296 ∧ x * 1664525 + 1013904223 < 9007199254740992)
    (draws n (seededRandom seed)) ∧
  (∀ hash, Z.abs (to_int32 hash * 33) < 9007199254740992).
Proof.
  split_and!.
  - unfold hashStringToSeed. lia.
  - unfold hashStringToSeed. pose proof (to_int32_range (fold_left hash_step input 5381)). lia.
  - apply seed_reaches_2_31.
  - unfold seededRandom, to_uint32. apply Z.mod_pos_bound. lia.
  - unfold seededRandom, to_uint32. apply Z.mod_pos_bound. lia.
  - eapply Forall_impl; [apply draws_range|]. cbv beta. intros x Hx. lia.
  - intros hash. pose proof (to_int32_range hash). lia.
Qed.

End Seed.
