(* ===== verification/ChannelUtils.v ===== *)
(** * Channel utilities

    [features/channels/lib/channel-utils.ts], the tables of
    [features/channels/constants.ts] it reads and
    [features/channels/lib/multi-key-utils.ts]: labels of channel types,
    display and deduplication of keys, lists, attention flags, and the tree of
    channels grouped by tag.  Currency, date and locale formatting are left
    out. *)

From stdpp Require Import base list strings gmap sorting.
From Stdlib Require Import ZArith Lia SpecFloat.
From S2P Require Import Prelude JsString JsNumber JsValue JsJson.
#[local] Open Scope Z_scope.

(** An object literal whose keys are numbers. *)
Definition num_table (l : list (Z * string)) : list (jsstr * jsval) :=
  map (λ p, (Z_to_str p.1, JStr (js p.2))) l.

Module ChannelConstants.

Definition CHANNEL_TYPE_NAMES : list (Z * string) :=
    [(0, "Unknown"); (1, "OpenAI"); (2, "Midjourney"); (3, "Azure"); (4, "Ollama");
     (5, "MidjourneyPlus"); (6, "OpenAIMax"); (7, "OhMyGPT"); (8, "Custom"); (9, "AILS");
     (10, "AI Proxy"); (11, "PaLM"); (12, "API2GPT"); (13, "AIGC2D"); (14, "Anthropic");
     (15, "Baidu"); (16, "Zhipu"); (17, "Ali"); (18, "Xunfei"); (19, "360"); (20, "OpenRouter");
     (21, "AI Proxy Library"); (22, "FastGPT"); (23, "Tencent"); (24, "Gemini");
     (25, "Moonshot"); (26, "Zhipu V4"); (27, "Perplexity"); (31, "LingYiWanWu"); (33, "AWS");
     (34, "Cohere"); (35, "MiniMax"); (36, "SunoAPI"); (37, "Dify"); (38, "Jina");
     (39, "Cloudflare"); (40, "SiliconFlow"); (41, "Vertex AI"); (42, "Mistral");
     (43, "DeepSeek"); (44, "MokaAI"); (45, "VolcEngine"); (46, "Baidu V2"); (47, "Xinference");
     (48, "xAI"); (49, "Coze"); (50, "Kling"); (51, "Jimeng"); (52, "Vidu"); (53, "Submodel");
     (54, "DoubaoVideo"); (55, "Sora"); (56, "Replicate"); (57, "Codex"); (58, "Advanced Custom")]%string.

Definition CHANNEL_TYPES : list (jsstr * jsval) := num_table CHANNEL_TYPE_NAMES.

Definition CHANNEL_TYPE_DISPLAY_ORDER : list Z :=
  [1; 14; 33; 24; 43; 3; 41; 48; 58; 42; 34; 20; 4; 40; 27; 25; 17; 26; 15; 46;
   23; 18; 45; 31; 35; 49; 19; 47; 37; 38; 39; 11; 8; 57; 22; 21; 44; 2; 5; 36; 50;
   51; 52; 53; 54; 55; 56].

(** The ids of the display order that have a label, then the other types but
    the unknown one, in the order of their numbers. *)
Definition CHANNEL_TYPE_OPTIONS : list (Z * jsval) :=
  let ordered :=
    omap (λ id, let label := obj_get (Z_to_str id) CHANNEL_TYPES in
                if truthy label then Some (id, label) else None) CHANNEL_TYPE_DISPLAY_ORDER in
  let seen := ordered.*1 in
  ordered ++ omap (λ p, if decide (p.1 ≠ 0 ∧ p.1 ∉ seen)
                        then Some (p.1, JStr (js p.2)) else None) CHANNEL_TYPE_NAMES.

Definition TYPE_TO_KEY_PROMPT : list (jsstr * jsval) :=
  num_table
    [(15, "Format: APIKey|SecretKey"); (18, "Format: APPID|APISecret|APIKey");
     (22, "Format: APIKey-AppId, e.g., fastgpt-0sp2gtvfdgyi4k30jwlgwf1i-64f335d84283f05518e9e041");
     (23, "Format: AppId|SecretId|SecretKey"); (33, "Format: Ak|Sk|Region");
     (50, "Format: AccessKey|SecretKey (or just ApiKey if upstream is New API)");
     (51, "Format: Access Key ID|Secret Access Key");
     (57, "Paste Codex OAuth JSON credential (access_token / refresh_token / account_id)")]%string.

(** variant and label *)
Definition badge (variant label : string) : jsval :=
  JObj [(js "variant", JStr (js variant)); (js "label", JStr (js label))].

Definition CHANNEL_STATUS_CONFIG : list (jsstr * jsval) :=
  [(js "0", badge "neutral" "Unknown"); (js "1", badge "success" "Enabled");
   (js "2", badge "danger" "Disabled"); (js "3", badge "warning" "Auto Disabled")].

Definition MULTI_KEY_STATUS_CONFIG : list (jsstr * jsval) :=
  [(js "1", badge "success" "Enabled"); (js "2", badge "neutral" "Manual Disabled");
   (js "3", badge "danger" "Auto Disabled")].

Inductive ResponseTimeConfig := EXCELLENT | GOOD | FAIR | POOR | UNKNOWN.

End ChannelConstants.

Module ChannelUtils.
Import ChannelConstants.

(** ** Types and badges *)

Definition getChannelTypeLabel (type : num) : jsval :=
  js_or (obj_get (num_to_str type) CHANNEL_TYPES) (JStr (js "Unknown")).

Definition TYPE_TO_ICON : list (jsstr * jsval) :=
  num_table
    [(1, "OpenAI"); (6, "OpenAI"); (7, "OpenAI"); (8, "OpenAI"); (58, "OpenAI"); (3, "Azure");
     (14, "Claude"); (24, "Gemini"); (11, "Google"); (41, "Gemini"); (33, "Aws");
     (39, "Cloudflare"); (15, "Baidu"); (46, "Baidu"); (16, "Zhipu"); (26, "Zhipu");
     (17, "Qwen"); (18, "Spark"); (23, "Hunyuan"); (19, "Ai360"); (25, "Moonshot"); (31, "Yi");
     (35, "Minimax"); (45, "Volcengine"); (4, "Ollama"); (27, "Perplexity"); (34, "Cohere");
     (42, "Mistral"); (43, "DeepSeek"); (48, "XAI"); (49, "Coze"); (40, "SiliconCloud");
     (44, "OpenAI"); (20, "OpenRouter"); (2, "Midjourney"); (5, "Midjourney"); (50, "Kling");
     (51, "Jimeng"); (52, "Vidu"); (36, "Suno"); (55, "OpenAI"); (54, "Doubao");
     (56, "Replicate"); (37, "Dify"); (38, "Jina"); (22, "FastGPT"); (47, "Xinference");
     (53, "OpenAI"); (10, "OpenAI"); (21, "OpenAI"); (12, "OpenAI"); (13, "OpenAI");
     (9, "OpenAI")]%string.

Definition getChannelTypeIcon (type : num) : jsval :=
  js_or (obj_get (num_to_str type) TYPE_TO_ICON) (JStr (js "OpenAI")).

Definition getChannelStatusBadge (status : num) : jsval :=
  js_or (obj_get (num_to_str status) CHANNEL_STATUS_CONFIG)
    (obj_get (js "0") CHANNEL_STATUS_CONFIG).

Definition getMultiKeyStatusBadge (status : num) : jsval :=
  js_or (obj_get (num_to_str status) MULTI_KEY_STATUS_CONFIG)
    (obj_get (js "1") MULTI_KEY_STATUS_CONFIG).

Definition getMultiKeyStatusConfig (status : num) : jsval :=
  js_or (obj_get (num_to_str status) MULTI_KEY_STATUS_CONFIG) (badge "neutral" "Unknown").

Definition getKeyPromptForType (type : num) : jsval :=
  js_or (obj_get (num_to_str type) TYPE_TO_KEY_PROMPT)
    (JStr (js "Enter API key for this channel")).

(** ** Channels *)

(** [multi_key_status_list]: the keys that are listed as not enabled. *)
Record ChannelInfo := Info {
  is_multi_key : bool;
  multi_key_size : num;
  multi_key_status_list : option (list jsstr);
}.

(** The properties the code reads or sets; [other] are the remaining ones. *)
Record Channel := MkChannel {
  id : jsval;
  key : jsstr;
  name : jsstr;
  type : num;
  status : jsval;
  tag : option jsstr;
  group : jsstr;
  used_quota : num;
  response_time : num;
  priority : jsval;
  weight : jsval;
  balance : num;
  test_time : num;
  created_time : num;
  balance_updated_time : num;
  models : jsstr;
  channel_info : option ChannelInfo;
  other : list (jsstr * jsval);
}.

Definition one : jsval := JNum (num_of_Z 1).

Definition isChannelEnabled (c : Channel) : bool := strict_eq (status c) one.

Definition isMultiKeyChannel (c : Channel) : bool :=
  match channel_info c with Some i => is_multi_key i | None => false end.

(** ** Keys and lists *)

Definition nonblank_lines (s : jsstr) : list jsstr :=
  filter (λ k, is_empty (trim k) = false) (split_char 10 s).

(** [key.slice(-n)] *)
Definition slice_end (n : nat) (s : jsstr) : jsstr := drop (length s - n) s.

Definition formatChannelKey (k : jsstr) (isMultiKey : bool) : jsstr :=
  if is_empty k then []
  else if isMultiKey then Z_to_str (Z.of_nat (length (nonblank_lines k))) ++ js " keys"
  else if (length k <=? 16)%nat then take 4 k ++ js "..." ++ slice_end 4 k
  else take 8 k ++ js "..." ++ slice_end 8 k.

Definition formatKeyPreview (k : jsstr) (maxLength : nat) : jsstr :=
  if is_empty k then []
  else if (length k <=? maxLength)%nat then k
  else take maxLength k ++ js "...".

Definition countKeys (k : jsstr) : nat := if is_empty k then 0 else length (nonblank_lines k).

Definition parseModelsList (models : jsstr) : list jsstr :=
  if is_empty models then []
  else filter (λ m, m ≠ []) (map trim (split_char 44 models)).

Definition formatModelsString (models : list jsstr) : jsstr := join (js ",") models.
Definition formatGroupsString (groups : list jsstr) : jsstr := join (js ",") groups.

(** The settings texts; [None] is [null] or [undefined]. *)
Definition parseChannelSettings (s : option jsstr) : jsval :=
  match s with
  | None | Some [] => JObj []
  | Some text => catch (JSON_parse text) (JObj [])
  end.

Definition parseChannelOtherSettings (s : option jsstr) : jsval :=
  match s with
  | None | Some [] => JObj []
  | Some text => if decide (text = js "{}") then JObj [] else catch (JSON_parse text) (JObj [])
  end.

Definition validateChannelSettings (settings : jsstr) : bool :=
  if is_empty settings || is_empty (trim settings) then true
  else match JSON_parse settings with Ok _ => true | Throw => false end.

Definition getPriorityDisplay (priority : jsval) : res jsstr :=
  if nullish priority then Ok (js "0") else to_str priority.
Definition getWeightDisplay (weight : jsval) : res jsstr :=
  if nullish weight then Ok (js "0") else to_str weight.

Definition validateChannelName (name : jsstr) : bool := negb (is_empty (trim name)).
Definition validateApiKey (key : jsstr) : bool := negb (is_empty (trim key)).
Definition validateModels (models : jsstr) : bool := negb (length (parseModelsList models) =? 0)%nat.

Inductive BalanceVariant := Success | Warning | Danger | Neutral.

Definition getBalanceVariant (balance : num) : BalanceVariant :=
  if num_eqb balance (num_of_Z 0) then Neutral
  else if num_ltb balance (num_of_Z 1) then Danger
  else if num_ltb balance (num_of_Z 10) then Warning
  else Success.

Definition getResponseTimeConfig (timeMs : num) : ResponseTimeConfig :=
  if num_eqb timeMs (num_of_Z 0) then UNKNOWN
  else if num_leb timeMs (num_of_Z 500) then EXCELLENT
  else if num_leb timeMs (num_of_Z 1000) then GOOD
  else if num_leb timeMs (num_of_Z 2000) then FAIR
  else if num_leb timeMs (num_of_Z 5000) then POOR
  else POOR.

(** ** Attention *)

Definition low_balance (c : Channel) : bool :=
  num_ltb (num_of_Z 0) (balance c) && num_ltb (balance c) (num_of_Z 1).

Definition all_keys_disabled (c : Channel) : bool :=
  match channel_info c with
  | Some i =>
      is_multi_key i &&
      match multi_key_status_list i with
      | Some l => num_leb (multi_key_size i) (num_of_Z (Z.of_nat (length l)))
      | None => false
      end
  | None => false
  end.

Definition channelNeedsAttention (c : Channel) : bool :=
  if strict_eq (status c) (JNum (num_of_Z 3)) then true
  else if low_balance c then true
  else if all_keys_disabled c then true
  else false.

Definition getAttentionReason (c : Channel) : option jsstr :=
  if strict_eq (status c) (JNum (num_of_Z 3)) then Some (js "Auto-disabled")
  else if low_balance c then Some (js "Low balance")
  else if all_keys_disabled c then Some (js "All keys disabled")
  else None.

(** ** Grouping by tag *)

(** A tag row: a channel record with children. *)
Record TagRow := MkRow { row : Channel; children : list Channel }.

(** A row of the table, and the guard that tells the two kinds apart. *)
Inductive Row := Plain (c : Channel) | Tagged (t : TagRow).
Definition isTagAggregateRow (r : Row) : bool := match r with Tagged _ => true | Plain _ => false end.

Definition tag_of (c : Channel) : jsstr := default [] (tag c).

Definition minus_one : jsval := JNum (num_of_Z (-1)).

(** [{ ...channel, key: tag, .., children: [] }] *)
Definition new_row (c : Channel) (t : jsstr) : TagRow :=
  let z := num_of_Z 0 in
  MkRow (MkChannel (JStr t) t t z JUndef (Some t) [] z z minus_one minus_one z z z z []
           (channel_info c) (other c)) [].

(** The priority (or weight) of a row: the sentinel is replaced, a different
    value clears it. *)
Definition merge_level (current v : jsval) : jsval :=
  if strict_eq current minus_one then v
  else if negb (strict_eq current v) then JNull else current.

Definition nonempty_parts (s : jsstr) : list jsstr := filter (λ g, g ≠ []) (split_char 44 s).

Definition merge_group (current g : jsstr) : jsstr :=
  if is_empty current then g
  else
    let existingGroups := nonempty_parts current in
    fold_left (λ acc x, if decide (x ∈ existingGroups) then acc else acc ++ js "," ++ x)
      (nonempty_parts g) current.

Definition merge_status (current s : jsval) : jsval :=
  if strict_eq s one then one else if is_undef current then s else current.

Definition add_child (t : TagRow) (c : Channel) : TagRow :=
  let r := row t in
  let children := children t ++ [c] in
  let childCount := num_of_Z (Z.of_nat (length children)) in
  MkRow
    (MkChannel (id r) (key r) (name r) (type r)
       (merge_status (status r) (status c)) (tag r)
       (merge_group (group r) (group c))
       (num_add (used_quota r) (used_quota c))
       (num_div (num_add (num_mul (response_time r) (num_sub childCount (num_of_Z 1)))
                         (response_time c)) childCount)
       (merge_level (priority r) (priority c))
       (merge_level (weight r) (weight c))
       (balance r) (test_time r) (created_time r) (balance_updated_time r) (models r)
       (channel_info r) (other r))
    children.

(** [result] and [tagMap] share the row objects: one list, keyed by tag. *)
Definition add_channel (rows : list (jsstr * TagRow)) (c : Channel) : list (jsstr * TagRow) :=
  let t := tag_of c in
  let r := default (new_row c t) (assoc_get t rows) in
  assoc_set t (add_child r c) rows.

Definition aggregateChannelsByTag (channels : list Channel) : list Row :=
  map (λ p, Tagged p.2) (fold_left add_channel channels []).

(** ** Key deduplication *)

Record Dedup := MkDedup {
  deduplicatedText : jsstr;
  beforeCount : Z;
  afterCount : Z;
  removedCount : Z;
}.

Definition deduplicateKeys (keysText : jsstr) : Dedup :=
  if is_empty keysText || is_empty (trim keysText) then MkDedup [] 0 0 0
  else
    let keyLines := split_char 10 keysText in
    let deduplicatedKeys := dedup (filter (λ k, k ≠ []) (map trim keyLines)) in
    let before := Z.of_nat (length keyLines) in
    let after := Z.of_nat (length deduplicatedKeys) in
    MkDedup (join [10] deduplicatedKeys) before after (before - after).

(** ** Theorems *)

Lemma dedup_words text :
  let words := dedup (filter (λ k, k ≠ []) (map trim (split_char 10 text))) in
  (∀ w, w ∈ words ↔ w ≠ [] ∧ w ∈ map trim (split_char 10 text)) ∧
  NoDup words ∧ Forall (λ w, w ≠ [] ∧ trim w = w ∧ 10 ∉ w) words.
Proof.
  intros words.
  assert (∀ w, w ∈ words ↔ w ≠ [] ∧ w ∈ map trim (split_char 10 text)) as Hw.
  { intros w. unfold words. rewrite elem_of_dedup, list_elem_of_filter. done. }
  split_and!; [done|apply NoDup_dedup|]. apply Forall_forall. intros w [Hne Hin]%Hw.
  apply list_elem_of_fmap in Hin as (l & -> & Hl). split_and!; [done|apply trim_idemp|].
  intros Hc%elem_of_trim. by apply (split_char_no_sep 10 text l Hl).
Qed.

(** Deduplicating keys keeps each key once: the lines of the result are the
    distinct non-blank trimmed lines of the input, the counts are those of the
    lines before and after, and deduplicating again changes nothing. *)
Theorem dedup_keys_exact (text : jsstr) (Ht : is_empty (trim text) = false) :
  let d := deduplicateKeys text in
  let keys := split_char 10 (deduplicatedText d) in
  (∀ k, k ∈ keys ↔ k ≠ [] ∧ k ∈ map trim (split_char 10 text)) ∧ NoDup keys ∧
  beforeCount d = Z.of_nat (length (split_char 10 text)) ∧
  afterCount d = Z.of_nat (length keys) ∧ removedCount d = beforeCount d - afterCount d ∧
  deduplicateKeys (deduplicatedText d) = MkDedup (deduplicatedText d) (afterCount d) (afterCount d) 0.
Proof.
  destruct (dedup_words text) as (Hw & Hnd & Hall).
  set (words := dedup (filter (λ k, k ≠ []) (map trim (split_char 10 text)))) in *.
  assert (words ≠ []) as Hne.
  { destruct (nonblank_line text Ht) as (l & Hl & Hb).
    assert (trim l ∈ words) as Hin; [|intros E; rewrite E in Hin; by apply not_elem_of_nil in Hin].
    apply Hw. split; [by intros E; rewrite E in Hb|]. apply list_elem_of_fmap. eauto. }
  assert (split_char 10 (join [10] words) = words) as Hsj.
  { apply split_join; [done|]. eapply Forall_impl; [exact Hall|]. by intros w (_ & _ & ?). }
  assert (deduplicateKeys text = MkDedup (join [10] words) (Z.of_nat (length (split_char 10 text)))
            (Z.of_nat (length words)) (Z.of_nat (length (split_char 10 text)) - Z.of_nat (length words)))
    as ->.
  { unfold deduplicateKeys. assert (is_empty text = false) as ->
      by (destruct text; [vm_compute in Ht; discriminate|done]).
    rewrite Ht. cbn [orb]. fold words. done. }
  cbn [deduplicatedText beforeCount afterCount removedCount]. rewrite Hsj.
  split_and!; [done..|]. unfold deduplicateKeys.
  assert (is_empty (trim (join [10] words)) = false) as Hj.
  { destruct words as [|w ws] eqn:E; [done|]. apply Forall_cons in Hall as [(Hwne & Htr & _) _].
    assert (is_empty (trim w) = false) as (c & Hc & Hcw)%trim_empty_spec
      by (rewrite Htr; by destruct w).
    apply trim_empty_spec. exists c. split; [|done]. destruct ws; simpl; [done|].
    apply elem_of_app. by left. }
  rewrite Hj. assert (is_empty (join [10] words) = false) as ->
    by (destruct (join [10] words); [vm_compute in Hj; discriminate|done]).
  cbn [orb]. rewrite Hsj.
  assert (map trim words = words) as ->.
  { clear -Hall. induction Hall as [|w ws (_ & Hw & _) _ IH]; [done|]. simpl. by rewrite Hw, IH. }
  rewrite list_filter_all by (eapply Forall_impl; [exact Hall|]; by intros w (? & _)).
  rewrite dedup_NoDup by done. by rewrite Z.sub_diag.
Qed.

Lemma dedup_keys_exact_witness :
  deduplicatedText (deduplicateKeys [97; 10; 98; 10; 97]) = [97; 10; 98] ∧
  NoDup (split_char 10 (deduplicatedText (deduplicateKeys [97; 10; 98; 10; 97]))).
Proof.
  split; [vm_compute; reflexivity|].
  apply (dedup_keys_exact [97; 10; 98; 10; 97]). vm_compute. reflexivity.
Defined.

(** Masking hides nothing of a short key: from the text shown for a key of
    four to eight characters the whole key can be read off. *)
Theorem short_key_revealed (k : jsstr) (H4 : (4 <= length k)%nat) (H8 : (length k <= 8)%nat) :
  let shown := formatChannelKey k false in
  take 4 shown ++ drop (8 - length k) (drop 7 shown) = k.
Proof.
  intros shown. assert (shown = take 4 k ++ js "..." ++ slice_end 4 k) as ->.
  { unfold shown, formatChannelKey. assert (is_empty k = false) as -> by (destruct k; [simpl in H4; lia|done]).
    assert ((length k <=? 16)%nat = true) as -> by (apply Nat.leb_le; lia). done. }
  rewrite take_app_le by (rewrite length_take; lia). rewrite take_take, Nat.min_id.
  assert (drop 7 (take 4 k ++ js "..." ++ slice_end 4 k) = slice_end 4 k) as ->.
  { rewrite app_assoc. apply drop_app_length'. rewrite length_app, length_take.
    change (length (js "...")) with 3%nat. lia. }
  unfold slice_end. rewrite drop_drop.
  replace (length k - 4 + (8 - length k))%nat with 4%nat by lia. apply take_drop.
Qed.

Lemma short_key_revealed_witness :
  take 4 (formatChannelKey (js "sk-12345") false)
  ++ drop 0 (drop 7 (formatChannelKey (js "sk-12345") false)) = js "sk-12345".
Proof. apply (short_key_revealed (js "sk-12345")); vm_compute; lia. Defined.

(** The two labels are the same string and not the unknown one. *)
Definition label_ok (o : Z * jsval) : bool :=
  match getChannelTypeLabel (num_of_Z o.1), o.2 with
  | JStr a, JStr b => bool_decide (a = b) && bool_decide (b ≠ js "Unknown")
  | _, _ => false
  end.

(** The type menu of the channel form is complete: it offers every channel
    type but the unknown one exactly once, each with its own label. *)
Theorem channel_type_options_complete :
  CHANNEL_TYPE_OPTIONS.*1 ≡ₚ filter (λ n, n ≠ 0) CHANNEL_TYPE_NAMES.*1 ∧
  NoDup CHANNEL_TYPE_OPTIONS.*1 ∧
  Forall (λ o, getChannelTypeLabel (num_of_Z o.1) = o.2 ∧ o.2 ≠ JStr (js "Unknown"))
    CHANNEL_TYPE_OPTIONS.
Proof.
  split_and!.
  - apply (bool_decide_unpack _). vm_compute. exact I.
  - apply (bool_decide_unpack _). vm_compute. exact I.
  - apply Forall_forall. intros o Ho. apply list_elem_of_In in Ho.
    assert (forallb label_ok CHANNEL_TYPE_OPTIONS = true) as H by (vm_compute; reflexivity).
    rewrite forallb_forall in H. specialize (H o Ho). unfold label_ok in H.
    destruct (getChannelTypeLabel (num_of_Z o.1)) as [| | | |a| | |]; try done.
    destruct o as [n [| | | |b| | |]]; try done. cbn [snd] in H |- *.
    apply andb_prop in H as [->%bool_decide_eq_true Hb%bool_decide_eq_true].
    split; [done|]. by intros [= ->].
Qed.

(** *** The tree of tags *)

(** The row that [cs], the channels of tag [t] with first channel [c], give. *)
Definition row_of (c : Channel) (t : jsstr) (cs : list Channel) : TagRow :=
  fold_left add_child cs (new_row c t).

Lemma row_of_snoc c t cs d : row_of c t (cs ++ [d]) = add_child (row_of c t cs) d.
Proof. apply fold_left_app. Qed.

Definition with_tag (t : jsstr) (cs : list Channel) : list Channel :=
  filter (λ c, tag_of c = t) cs.

Lemma with_tag_nil t cs : with_tag t cs = [] ↔ t ∉ map tag_of cs.
Proof.
  unfold with_tag. induction cs as [|c cs IH]; [split; [set_solver|done]|].
  rewrite filter_cons. case_decide as E; simpl; set_solver.
Qed.

Lemma rows_spec cs :
  let rows := fold_left add_channel cs [] in
  rows.*1 = dedup (map tag_of cs) ∧
  ∀ t, assoc_get t rows = match with_tag t cs with
                          | [] => None
                          | c :: _ => Some (row_of c t (with_tag t cs))
                          end.
Proof.
  induction cs as [|d cs IH] using rev_ind; [done|]. cbv zeta in *.
  rewrite fold_left_app, map_app. cbn [fold_left map].
  destruct IH as [IH1 IH2]. set (rows := fold_left add_channel cs []) in *. split.
  - unfold add_channel. rewrite keys_set, dedup_snoc, IH1. f_equal. apply decide_ext.
    apply elem_of_dedup.
  - intros t. unfold add_channel. rewrite assoc_get_set, !IH2.
    assert (with_tag t (cs ++ [d]) = with_tag t cs ++ with_tag t [d]) as -> by apply filter_app.
    assert (with_tag t [d] = if decide (t = tag_of d) then [d] else []) as ->.
    { unfold with_tag. rewrite filter_cons, filter_nil. repeat case_decide; congruence. }
    destruct (decide (t = tag_of d)) as [->|Hne].
    + destruct (with_tag (tag_of d) cs) as [|c l] eqn:E; [done|].
      cbn [app default from_option]. f_equal. symmetry. apply (row_of_snoc c _ (c :: l)).
    + by rewrite app_nil_r.
Qed.

Lemma merge_levels p ps :
  strict_eq p minus_one = false →
  fold_left merge_level ps p = if forallb (strict_eq p) ps then p else JNull.
Proof.
  intros Hp. assert (fold_left merge_level ps JNull = JNull) as Hnull.
  { induction ps as [|q ps IH]; [done|]. cbn [fold_left]. unfold merge_level at 2.
    destruct (strict_eq JNull q); done. }
  induction ps as [|q ps IH]; [done|]. cbn [fold_left forallb]. unfold merge_level at 2.
  rewrite Hp. destruct (strict_eq p q); cbn [negb andb].
  - apply IH. revert Hnull. cbn [fold_left]. unfold merge_level at 2. by destruct (strict_eq JNull q).
  - revert Hnull. cbn [fold_left]. unfold merge_level at 2. by destruct (strict_eq JNull q).
Qed.

(** What the row of a tag says of its children. *)
Record summary (r : TagRow) : Prop := {
  summary_status : isChannelEnabled (row r) = existsb isChannelEnabled (children r);
  summary_groups : ∀ g, g ∈ nonempty_parts (group (row r)) ↔
                        ∃ c, c ∈ children r ∧ g ∈ nonempty_parts (group c);
  summary_quota : used_quota (row r) = fold_left num_add (map used_quota (children r)) (num_of_Z 0);
  summary_priority : priority (row r) = fold_left merge_level (map priority (children r)) minus_one;
  summary_weight : weight (row r) = fold_left merge_level (map weight (children r)) minus_one;
}.

Lemma nonempty_parts_snoc s x :
  x ≠ [] → 44 ∉ x → nonempty_parts (s ++ js "," ++ x) = nonempty_parts s ++ [x].
Proof.
  intros Hx Hc. change (js "," ++ x) with (44 :: x). unfold nonempty_parts.
  rewrite split_char_app_sep, (split_char_single _ x), filter_app by done.
  by rewrite filter_cons_True.
Qed.

Lemma merge_group_parts a b g :
  g ∈ nonempty_parts (merge_group a b) ↔ g ∈ nonempty_parts a ∨ g ∈ nonempty_parts b.
Proof.
  unfold merge_group. destruct a as [|x a]; cbn [is_empty].
  { change (nonempty_parts []) with (@nil jsstr). set_solver. }
  set (s := x :: a). clearbody s. clear x a. cbv zeta.
  assert (Forall (λ x, x ≠ [] ∧ 44 ∉ x) (nonempty_parts b)) as Hb.
  { apply Forall_forall. intros x [Hx Hin]%list_elem_of_filter.
    split; [done|]. by eapply split_char_no_sep. }
  assert (∀ acc, g ∈ nonempty_parts (fold_left (λ acc x,
            if decide (x ∈ nonempty_parts s) then acc else acc ++ js "," ++ x) (nonempty_parts b) acc)
          ↔ g ∈ nonempty_parts acc ∨ g ∈ nonempty_parts b ∧ g ∉ nonempty_parts s) as ->.
  { induction Hb as [|x l [Hx Hc] _ IH]; intros acc; cbn [fold_left]; [set_solver|].
    rewrite IH. case_decide; [set_solver|]. rewrite nonempty_parts_snoc by done. set_solver. }
  destruct (decide (g ∈ nonempty_parts s)); tauto.
Qed.

Lemma row_of_fields c t cs :
  key (row (row_of c t cs)) = t ∧ tag (row (row_of c t cs)) = Some t ∧ children (row_of c t cs) = cs.
Proof.
  induction cs as [|d cs (IH1 & IH2 & IH3)] using rev_ind; [done|].
  rewrite row_of_snoc. simpl. by rewrite IH3.
Qed.

Lemma row_of_summary c t cs : summary (row_of c t cs).
Proof.
  induction cs as [|d cs [Hs Hg Hq Hp Hw]] using rev_ind.
  { split; [done| |done..]. simpl. set_solver. }
  rewrite row_of_snoc. split; cbn [add_child row children].
  - rewrite existsb_app, <-Hs. unfold isChannelEnabled. cbn [status existsb]. unfold merge_status.
    destruct (strict_eq (status d) one) eqn:E; cbn [orb]; [by rewrite orb_true_r|].
    rewrite orb_false_r. destruct (status (row (row_of c t cs))); cbn [is_undef]; done.
  - intros g. cbn [group]. rewrite merge_group_parts, Hg. set_solver.
  - by rewrite map_app, fold_left_app, <-Hq.
  - by rewrite map_app, fold_left_app, <-Hp.
  - by rewrite map_app, fold_left_app, <-Hw.
Qed.

(** A level all children share is kept; different ones are shown as none. *)
Definition shared_level (level : Channel → jsval) (r : TagRow) : Prop :=
  ∀ c cs, children r = c :: cs → strict_eq (level c) minus_one = false →
          level (row r) = if forallb (λ d, strict_eq (level c) (level d)) cs then level c else JNull.

Lemma summary_levels r : summary r → shared_level priority r ∧ shared_level weight r.
Proof.
  assert (∀ (level : Channel → jsval) c cs, strict_eq (level c) minus_one = false →
            fold_left merge_level (map level (c :: cs)) minus_one =
            if forallb (λ d, strict_eq (level c) (level d)) cs then level c else JNull) as Hl.
  { intros level c cs Hc. cbn [map fold_left].
    assert (merge_level minus_one (level c) = level c) as -> by done.
    rewrite merge_levels by done.
    assert (forallb (strict_eq (level c)) (map level cs)
            = forallb (λ d, strict_eq (level c) (level d)) cs) as -> by
      (clear; induction cs as [|d cs IH]; [done|]; cbn [map forallb]; by rewrite IH).
    done. }
  intros [_ _ _ Hp Hw]. split; intros c cs E Hc; [rewrite Hp|rewrite Hw]; rewrite E; by apply Hl.
Qed.

(** Grouping by tag is exact: the table has one row per tag, in the order
    the tags first appear; the children of a row are the channels of its tag,
    in order; the row is enabled when a child is, its groups are those of the
    children, its quota is their sum, and its priority and weight are the
    shared value, or none when they differ. *)
Theorem aggregate_by_tag_exact (cs : list Channel) :
  ∃ rows, aggregateChannelsByTag cs = map Tagged rows ∧
    map (λ r, key (row r)) rows = dedup (map tag_of cs) ∧
    Forall (λ r, children r = filter (λ c, tag_of c = key (row r)) cs ∧ summary r ∧
                 shared_level priority r ∧ shared_level weight r) rows.
Proof.
  destruct (rows_spec cs) as [Hk Hr]. set (rows := fold_left add_channel cs []) in *.
  assert (Forall (λ p, ∃ c, p.2 = row_of c p.1 (with_tag p.1 cs)) rows) as Hall.
  { apply Forall_forall. intros [t r] Hin. apply assoc_get_elem in Hin.
    - rewrite Hr in Hin. destruct (with_tag t cs) as [|c l] eqn:E; [done|]. simplify_eq.
      exists c. cbn [fst snd]. by rewrite E.
    - rewrite Hk. apply NoDup_dedup. }
  exists rows.*2. unfold aggregateChannelsByTag. fold rows. split_and!.
  - rewrite map_map. done.
  - rewrite <-Hk. clear -Hall. induction Hall as [|[t r] l [c Hc] _ IH]; [done|].
    cbn [fst snd] in Hc. subst r. cbn [fmap list_fmap map]. f_equal; [apply row_of_fields|exact IH].
  - apply Forall_fmap. eapply Forall_impl; [exact Hall|]. intros [t r] [c Hc].
    cbn [fst snd] in *. unfold compose. cbn [snd]. subst r.
    destruct (row_of_fields c t (with_tag t cs)) as (-> & _ & ->).
    split; [done|]. pose proof (row_of_summary c t (with_tag t cs)) as Hs.
    split; [done|by apply summary_levels].
Qed.

(** The priority of a tag row loses a child's -1: grouping two channels of
    one tag, the first with priority -1, shows the priority of the second as if
    it were shared. *)
Theorem priority_sentinel_forgotten (c d : Channel) (Ht : tag_of d = tag_of c)
  (Hp : priority c = minus_one) :
  ∃ r, aggregateChannelsByTag [c; d] = [Tagged r] ∧ children r = [c; d] ∧
       priority (row r) = priority d.
Proof.
  unfold aggregateChannelsByTag. cbn [fold_left]. unfold add_channel. rewrite Ht.
  cbn [assoc_get assoc_set default from_option]. rewrite !decide_True by done. cbn [assoc_get].
  eexists. cbn [map snd]. split; [done|]. split; [done|].
  change (merge_level (merge_level minus_one (priority c)) (priority d) = priority d). by rewrite Hp.
Qed.

Definition sample (n : jsstr) (level : Z) : Channel :=
  let z := num_of_Z 0 in
  MkChannel (JStr n) n n (num_of_Z 1) one (Some (js "t")) (js "default") z z
    (JNum (num_of_Z level)) (JNum z) z z z z [] None [].

Lemma priority_sentinel_forgotten_witness :
  ∃ r, aggregateChannelsByTag [sample (js "a") (-1); sample (js "b") 5] = [Tagged r] ∧
       children r = [sample (js "a") (-1); sample (js "b") 5] ∧
       priority (row r) = JNum (num_of_Z 5).
Proof.
  exact (priority_sentinel_forgotten (sample (js "a") (-1)) (sample (js "b") 5) eq_refl eq_refl).
Defined.

End ChannelUtils.

Module MultiKeyUtils.

Inductive ActionType := EnableKey | DisableKey | DeleteKey | EnableAll | DisableAll | DeleteDisabled.

(** [None] is [null]. *)
Definition getMultiKeyConfirmMessage (action : option ActionType) : jsstr :=
  match action with
  | None => []
  | Some DeleteKey =>
      js "Are you sure you want to delete this key? This action cannot be undone."
  | Some EnableKey => js "Enable this key?"
  | Some DisableKey => js "Disable this key?"
  | Some EnableAll => js "Are you sure you want to enable all keys?"
  | Some DisableAll => js "Are you sure you want to disable all enabled keys?"
  | Some DeleteDisabled =>
      js "Are you sure you want to delete all auto-disabled keys? This action cannot be undone."
  end.

Definition isDestructiveAction (action : option ActionType) : bool :=
  match action with Some DeleteKey | Some DeleteDisabled | Some DisableAll => true | _ => false end.

End MultiKeyUtils.
