(* ===== verification/Notifications.v ===== *)
(** * Notifications

    [stores/notification-store.ts] (module [NotificationStore]: what has been
    read) and [hooks/use-notifications.ts] (module [UseNotifications]: keys of
    announcements, unread counts and the handlers of the popover).

    A handler runs against the values of the last render, so a render separates
    two handlers.  What a render fetches (the notice and the status) is an
    argument.  The persistence middleware stores exactly the fields of the
    store's record. *)

From stdpp Require Import base list strings relations.
From Stdlib Require Import ZArith Lia.
From S2P Require Import Prelude JsString JsNumber JsValue JsJson Metrics.
#[local] Open Scope Z_scope.

Module NotificationStore.

(** [closedUntilDate]: [None] is [null]. *)
Record NotificationState := MkStore {
  lastReadNotice : jsstr;
  readAnnouncementKeys : list jsstr;
  closedUntilDate : option jsstr;
}.

Definition initial : NotificationState := MkStore [] [] None.

Definition markNoticeRead (noticeContent : jsstr) (s : NotificationState) : NotificationState :=
  MkStore (trim noticeContent) (readAnnouncementKeys s) (closedUntilDate s).

Definition markAnnouncementsRead (keys : list jsstr) (s : NotificationState) : NotificationState :=
  MkStore (lastReadNotice s) (dedup (readAnnouncementKeys s ++ keys)) (closedUntilDate s).

Definition setClosedUntilDate (date : option jsstr) (s : NotificationState) : NotificationState :=
  MkStore (lastReadNotice s) (readAnnouncementKeys s) date.

Definition isAnnouncementRead (key : jsstr) (s : NotificationState) : bool :=
  bool_decide (key ∈ readAnnouncementKeys s).

(** [today] is [new Date().toDateString()]. *)
Definition isNoticeClosed (today : jsstr) (s : NotificationState) : bool :=
  match closedUntilDate s with
  | None | Some [] => false
  | Some date => bool_decide (date = today)
  end.

End NotificationStore.

Module UseNotifications.
Import NotificationStore.

(** ** Keys of announcements *)

(** [hash = (hash << 5) - hash + chr; hash |= 0] *)
Definition hash_step (hash chr : Z) : Z :=
  Seed.to_int32 (Seed.to_int32 (hash * 32) - hash + chr).

(** [n.toString(36)]; a 32-bit number has at most six digits. *)
Fixpoint digits36 (fuel : nat) (n : Z) : jsstr :=
  match fuel with
  | O => []
  | S f =>
      let d := n mod 36 in
      (if n <? 36 then [] else digits36 f (n / 36)) ++ [if d <? 10 then 48 + d else 87 + d]
  end.

Definition toString36 (n : Z) : jsstr :=
  if n <? 0 then 45 :: digits36 7 (- n) else digits36 7 n.

Definition hashString (input : jsstr) : jsstr :=
  if is_empty input then js "0" else toString36 (fold_left hash_step input 0).

(** [item.k || ''] and [(item.k || '').trim()] *)
Definition field (k : string) (item : jsval) : res jsval :=
  let* v := get_prop (js k) item in Ok (js_or v (JStr [])).
Definition trimmed_field (k : string) (item : jsval) : res jsval :=
  let* v := field k item in let* s := js_trim v in Ok (JStr s).

(** The link of a string item is a method it inherits, which cannot be
    trimmed. *)
Definition fingerprint (item : jsval) : res jsstr :=
  if is_string item then Throw else
  let* publishDate := field "publishDate" item in
  let* content := trimmed_field "content" item in
  let* extra := trimmed_field "extra" item in
  let* type := field "type" item in
  let* title := trimmed_field "title" item in
  let* link := trimmed_field "link" item in
  Ok (default [] (JSON_stringify
        (JObj [(js "publishDate", publishDate); (js "content", content); (js "extra", extra);
               (js "type", type); (js "title", title); (js "link", link)]))).

Definition getAnnouncementKey (item : jsval) : res jsstr :=
  if negb (truthy item) then Ok []
  else
    let* id := get_prop (js "id") item in
    if negb (nullish id) then let* s := to_str id in Ok (js "id:" ++ s)
    else let* f := fingerprint item in Ok (js "hash:" ++ hashString f).

(** ** The hook *)

(** What a render reads: the response of the notice query (success flag and
    data) and the fetched status. *)
Record Env := MkEnv {
  noticeResponse : option (bool * option jsstr);
  status : jsval;
}.

Definition noticeContent (e : Env) : jsstr :=
  match noticeResponse e with
  | Some (true, data) => trim (default [] data)
  | _ => []
  end.

(** A value of [announcements] that is not an array makes the render throw. *)
Definition announcements (e : Env) : res (list jsval) :=
  let enabled := js_coalesce (get_prop_opt (js "announcements_enabled") (status e)) (JBool false) in
  if truthy enabled then
    match js_or (get_prop_opt (js "announcements") (status e)) (JArr []) with
    | JArr l => Ok (take 20 l)
    | _ => Throw
    end
  else Ok [].

Definition announcement_keys (e : Env) : res (list jsstr) :=
  let* l := announcements e in res_mapM getAnnouncementKey l.

Inductive Tab := NoticeTab | AnnouncementsTab.

Record Hook := MkHook { popoverOpen : bool; activeTab : Tab; store : NotificationState }.

Record Counts := MkCounts { notice : Z; announcementsUnread : Z; total : Z }.

Definition unreadCounts (e : Env) (h : Hook) : res Counts :=
  let noticeUnread :=
    if negb (is_empty (noticeContent e))
       && bool_decide (noticeContent e ≠ lastReadNotice (store h)) then 1 else 0 in
  let* keys := announcement_keys e in
  let unread := Z.of_nat (length (filter (λ k, isAnnouncementRead k (store h) = false) keys)) in
  Ok (MkCounts noticeUnread unread (noticeUnread + unread)).

Definition markAnnouncementsAsRead (e : Env) (s : NotificationState) : res NotificationState :=
  let* l := announcements e in
  if (0 <? length l)%nat then let* allKeys := res_mapM getAnnouncementKey l in
                              Ok (markAnnouncementsRead allKeys s)
  else Ok s.

(** The store is written at once; the tab and the popover only when no key
    throws. *)
Definition handleOpenPopover (e : Env) (tab : option Tab) (h : Hook) : Hook :=
  let nextTab := default (activeTab h) tab in
  let s := if negb (is_empty (noticeContent e)) then markNoticeRead (noticeContent e) (store h)
           else store h in
  match nextTab with
  | AnnouncementsTab =>
      match markAnnouncementsAsRead e s with
      | Ok s' => MkHook true nextTab s'
      | Throw => MkHook (popoverOpen h) (activeTab h) s
      end
  | NoticeTab => MkHook true nextTab s
  end.

Definition handlePopoverOpenChange (e : Env) (open : bool) (h : Hook) : Hook :=
  if open then handleOpenPopover e (Some (activeTab h)) h
  else MkHook false (activeTab h) (store h).

Definition handleTabChange (e : Env) (tab : Tab) (h : Hook) : Hook :=
  match tab with
  | AnnouncementsTab =>
      MkHook (popoverOpen h) tab
        (match markAnnouncementsAsRead e (store h) with Ok s => s | Throw => store h end)
  | NoticeTab => MkHook (popoverOpen h) tab (store h)
  end.

Definition closePopover (h : Hook) : Hook := MkHook false (activeTab h) (store h).

(** ** Theorems *)

(** One event: a handler of the last render, or the page closing the notice
    for a day. *)
Inductive step : Hook → Hook → Prop :=
| StepOpen e tab h : step h (handleOpenPopover e tab h)
| StepToggle e open h : step h (handlePopoverOpenChange e open h)
| StepTab e tab h : step h (handleTabChange e tab h)
| StepClose h : step h (closePopover h)
| StepDate date h :
    step h (MkHook (popoverOpen h) (activeTab h) (setClosedUntilDate date (store h))).

(** What a step may do to the keys: keep them, and add some without repeating
    one. *)
Definition grows (l l' : list jsstr) : Prop := l ⊆ l' ∧ (NoDup l → NoDup l').

#[export] Instance grows_preorder : PreOrder grows.
Proof. split; unfold grows; [done|]. intros l1 l2 l3 [] []. split; [by etrans|auto]. Qed.

Lemma mark_grows e s s' :
  markAnnouncementsAsRead e s = Ok s' → grows (readAnnouncementKeys s) (readAnnouncementKeys s').
Proof.
  unfold markAnnouncementsAsRead. intros H. res_step H as l Hl. case_match; [|by simplify_eq].
  res_step H as keys Hk. simplify_eq. split; [|intros _; apply NoDup_dedup].
  intros k Hin. simpl. apply elem_of_dedup, elem_of_app. by left.
Qed.

Lemma open_grows e tab h :
  grows (readAnnouncementKeys (store h)) (readAnnouncementKeys (store (handleOpenPopover e tab h))).
Proof.
  unfold handleOpenPopover. set (s := if negb _ then markNoticeRead _ _ else _).
  assert (readAnnouncementKeys s = readAnnouncementKeys (store h)) as Hs
    by (unfold s; by destruct (negb _)).
  destruct (default (activeTab h) tab); cbn [store]; [by rewrite Hs|].
  destruct (markAnnouncementsAsRead e s) as [s'|] eqn:E; cbn [store]; [|by rewrite Hs].
  apply mark_grows in E. by rewrite Hs in E.
Qed.

Lemma step_grows h h' :
  step h h' → grows (readAnnouncementKeys (store h)) (readAnnouncementKeys (store h')).
Proof.
  intros [e tab h0|e open h0|e tab h0|h0|date h0].
  - apply open_grows.
  - unfold handlePopoverOpenChange. destruct open; [apply open_grows|done].
  - destruct tab; [done|]. simpl.
    destruct (markAnnouncementsAsRead e (store h0)) as [s|] eqn:E; [by apply mark_grows in E|done].
  - done.
  - done.
Qed.

(** Reading is permanent and kept small: along any sequence of events,
    with whatever notices and announcements are fetched in between, an
    announcement once read stays read, and from a fresh store the stored keys
    never hold a key twice. *)
Theorem read_stays_read (h h' : Hook) (Hs : rtc step h h') :
  (∀ key, isAnnouncementRead key (store h) = true → isAnnouncementRead key (store h') = true) ∧
  (store h = initial → NoDup (readAnnouncementKeys (store h'))).
Proof.
  assert (grows (readAnnouncementKeys (store h)) (readAnnouncementKeys (store h'))) as [Hsub Hnd].
  { induction Hs as [h|h1 h2 h3 H12 _ IH]; [done|]. etrans; [by apply step_grows|done]. }
  split.
  - unfold isAnnouncementRead. intros key. rewrite !bool_decide_eq_true. apply Hsub.
  - intros Hi. apply Hnd. rewrite Hi. constructor.
Qed.

Definition sample_env : Env :=
  MkEnv (Some (true, Some (js " hello ")))
    (JObj [(js "announcements_enabled", JBool true);
           (js "announcements", JArr [JObj [(js "id", JNum (num_of_Z 7))];
                                      JObj [(js "content", JStr (js "x"))]])]).

Definition fresh : Hook := MkHook false NoticeTab initial.
Definition opened : Hook := handleOpenPopover sample_env (Some AnnouncementsTab) fresh.

Lemma read_stays_read_witness :
  isAnnouncementRead (js "id:7") (store (closePopover opened)) = true.
Proof.
  apply (read_stays_read opened (closePopover opened)).
  - apply rtc_once. constructor.
  - vm_compute. reflexivity.
Defined.

Lemma marked_all_read keys ks s :
  keys ⊆ ks → filter (λ k, isAnnouncementRead k (markAnnouncementsRead ks s) = false) keys = [].
Proof.
  intros Hsub. induction keys as [|k keys IH]; [done|].
  rewrite filter_cons_False; [apply IH; set_solver|].
  unfold isAnnouncementRead. rewrite bool_decide_eq_true_2; [done|]. simpl.
  apply elem_of_dedup, elem_of_app. right. set_solver.
Qed.

Lemma mark_reads_all e s keys :
  announcement_keys e = Ok keys →
  ∃ s', markAnnouncementsAsRead e s = Ok s' ∧ lastReadNotice s' = lastReadNotice s ∧
        filter (λ k, isAnnouncementRead k s' = false) keys = [].
Proof.
  unfold announcement_keys, markAnnouncementsAsRead. intros H. res_step H as l Hl. rewrite Hl. simpl.
  destruct l as [|x l]; simpl length; cbn [Nat.ltb Nat.leb].
  - exists s. by simplify_eq/=.
  - rewrite H. cbn [res_bind]. eexists. split_and!; [done..|]. by apply marked_all_read.
Qed.

(** The notice is read after any opening. *)
Lemma open_reads_notice e h s :
  s = (if negb (is_empty (noticeContent e)) then markNoticeRead (noticeContent e) (store h)
       else store h) →
  negb (is_empty (noticeContent e)) && bool_decide (noticeContent e ≠ lastReadNotice s) = false.
Proof.
  intros ->. destruct (is_empty (noticeContent e)); [done|]. cbn [negb andb].
  apply bool_decide_eq_false. intros Hn. apply Hn. simpl. symmetry.
  unfold noticeContent. destruct (noticeResponse e) as [[[] d]|]; [apply trim_idemp|done..].
Qed.

(** Opening the notification centre reads what it shows: on the
    announcements tab nothing is left unread; on the notice tab the notice is
    read and the announcements keep their unread count. *)
Theorem opening_reads (e : Env) (h : Hook) (c : Counts) (Hc : unreadCounts e h = Ok c) :
  let a := handleOpenPopover e (Some AnnouncementsTab) h in
  let n := handleOpenPopover e (Some NoticeTab) h in
  unreadCounts e a = Ok (MkCounts 0 0 0) ∧ popoverOpen a = true ∧ activeTab a = AnnouncementsTab ∧
  unreadCounts e n = Ok (MkCounts 0 (announcementsUnread c) (announcementsUnread c)) ∧
  popoverOpen n = true ∧ activeTab n = NoticeTab.
Proof.
  unfold unreadCounts in Hc. res_step Hc as keys Hk.
  unfold handleOpenPopover. cbn [default from_option].
  set (s := if negb _ then markNoticeRead _ _ else _). pose proof (open_reads_notice e h s eq_refl) as Hn.
  destruct (mark_reads_all e s keys Hk) as (s' & -> & Hl & Hf).
  unfold unreadCounts. rewrite Hk. cbv zeta. unfold Datatypes.id. cbn [store popoverOpen activeTab res_bind].
  rewrite Hl, Hn, Hf. split_and!; try done.
  assert (readAnnouncementKeys s = readAnnouncementKeys (store h)) as Hs
    by (unfold s; by destruct (negb _)).
  unfold isAnnouncementRead. rewrite Hs. simplify_eq. done.
Qed.

Lemma opening_reads_witness :
  unreadCounts sample_env fresh = Ok (MkCounts 1 2 3) ∧
  unreadCounts sample_env opened = Ok (MkCounts 0 0 0).
Proof.
  split; [vm_compute; reflexivity|].
  apply (opening_reads sample_env fresh (MkCounts 1 2 3)). vm_compute. reflexivity.
Defined.

End UseNotifications.
