(* ===== verification/JsRegex.v ===== *)
(** * JavaScript regular expressions

    The patterns of the sources as a syntax tree, with the backtracking
    matcher of the language ([run], in continuation style: greedy quantifiers,
    ordered alternatives, groups, back references) and the relation [parses] it
    implements: [run_sound] and [run_complete] show that the matcher succeeds
    exactly when some decomposition of the text exists, and that what it
    captures is one.  Where the decomposition is unique the captures follow
    ([match_re_unique]).

    A group under a star keeps the capture of the last iteration; no pattern
    of the sources has one whose captures differ from that. *)

From stdpp Require Import base list strings.
From Stdlib Require Import ZArith Lia.
From S2P Require Import Prelude JsString.
#[local] Open Scope Z_scope.

Inductive regex : Type :=
| Eps
| Chr (p : Z → bool)
| Seq (a b : regex)
| Alt (a b : regex)
| Star (a : regex)
| Group (n : nat) (a : regex)
| Back (n : nat)
| Bol
| Eol
| WordB.

Definition Opt (a : regex) : regex := Alt a Eps.
Definition Plus (a : regex) : regex := Seq a (Star a).

Declare Scope re_scope.
Delimit Scope re_scope with re.
Bind Scope re_scope with regex.
Infix "·" := Seq (at level 44, right associativity) : re_scope.
Infix "∥" := Alt (at level 50, left associativity) : re_scope.
#[global] Open Scope re_scope.

(** A literal text, a set of characters, [\d], [\s], [\w] and [.] *)
Fixpoint lit_chars (w : jsstr) : regex :=
  match w with [] => Eps | c :: w => Seq (Chr (Z.eqb c)) (lit_chars w) end.
Definition lit (s : string) : regex := lit_chars (js s).
Definition one_of (s : string) (c : Z) : bool := bool_decide (c ∈ js s).
Definition is_word (c : Z) : bool :=
  is_digit c || ((65 <=? c) && (c <=? 90)) || ((97 <=? c) && (c <=? 122)) || (c =? 95).
Definition not_newline (c : Z) : bool :=
  negb ((c =? 10) || (c =? 13) || (c =? 8232) || (c =? 8233)).
Definition ws : regex := Star (Chr is_ws).

(** ** The matcher *)

Notation captures := (list (nat * jsstr)).

Fixpoint cap (n : nat) (c : captures) : option jsstr :=
  match c with
  | [] => None
  | (m, w) :: c => if (m =? n)%nat then Some w else cap n c
  end.

(** The text before the position (reversed), the text after it, and the groups
    captured so far, the latest first. *)
Record mstate := St { before : jsstr; rest : jsstr; caps : captures }.

Definition at_word (s : jsstr) : bool := match s with c :: _ => is_word c | [] => false end.

(** The text between two states of a match. *)
Definition consumed (s s' : mstate) : jsstr :=
  take (length (rest s) - length (rest s')) (rest s).

Definition advance (w : jsstr) (s : mstate) : mstate :=
  St (reverse w ++ before s) (drop (length w) (rest s)) (caps s).

(** A star makes at most one iteration per remaining character, since an empty
    iteration fails. *)
Fixpoint star_loop (m : (mstate → option mstate) → mstate → option mstate)
    (k : mstate → option mstate) (n : nat) (s : mstate) : option mstate :=
  match n with
  | O => k s
  | S n =>
      match m (λ s', if (length (rest s') <? length (rest s))%nat
                     then star_loop m k n s' else None) s with
      | Some x => Some x
      | None => k s
      end
  end.

Fixpoint run (r : regex) (k : mstate → option mstate) (s : mstate) {struct r} : option mstate :=
  match r with
  | Eps => k s
  | Chr p =>
      match rest s with
      | c :: t => if p c then k (St (c :: before s) t (caps s)) else None
      | [] => None
      end
  | Seq a b => run a (run b k) s
  | Alt a b => match run a k s with Some x => Some x | None => run b k s end
  | Star a => star_loop (run a) k (length (rest s)) s
  | Group n a => run a (λ s', k (St (before s') (rest s') ((n, consumed s s') :: caps s'))) s
  | Back n =>
      let w := default [] (cap n (caps s)) in
      if starts_with w (rest s) then k (advance w s) else None
  | Bol => if is_empty (before s) then k s else None
  | Eol => if is_empty (rest s) then k s else None
  | WordB => if xorb (at_word (before s)) (at_word (rest s)) then k s else None
  end.

(** The leftmost match at or after a position. *)
Fixpoint search (r : regex) (before rest : jsstr) : option mstate :=
  match run r Some (St before rest []) with
  | Some s => Some s
  | None => match rest with c :: t => search r (c :: before) t | [] => None end
  end.

(** [s.match(r)]: the groups; [r.test(s)] *)
Definition match_re (r : regex) (s : jsstr) : option captures := caps <$> search r [] s.
Definition test_re (r : regex) (s : jsstr) : bool := negb (is_none (match_re r s)).

(** The successive results of [r.exec(s)] of a global [r] that matches no empty
    text. *)
Fixpoint exec_from (r : regex) (fuel : nat) (before rest : jsstr) : list captures :=
  match fuel with
  | O => []
  | S n =>
      match search r before rest with
      | Some s => caps s :: exec_from r n (JsRegex.before s) (JsRegex.rest s)
      | None => []
      end
  end.
Definition exec_all (r : regex) (s : jsstr) : list captures := exec_from r (S (length s)) [] s.

(** ** What a pattern means *)

(** [parses r b w t c c']: between the (reversed) text [b] and the text [t] the
    pattern consumes [w], and takes the captures from [c] to [c']. *)
Inductive parses : regex → jsstr → jsstr → jsstr → captures → captures → Prop :=
| PEps b t c : parses Eps b [] t c c
| PChr p x b t c : p x = true → parses (Chr p) b [x] t c c
| PSeq r1 r2 b w1 w2 t c c1 c2 :
    parses r1 b w1 (w2 ++ t) c c1 → parses r2 (reverse w1 ++ b) w2 t c1 c2 →
    parses (Seq r1 r2) b (w1 ++ w2) t c c2
| PAltL r1 r2 b w t c c' : parses r1 b w t c c' → parses (Alt r1 r2) b w t c c'
| PAltR r1 r2 b w t c c' : parses r2 b w t c c' → parses (Alt r1 r2) b w t c c'
| PStar0 r b t c : parses (Star r) b [] t c c
| PStarS r b w1 w2 t c c1 c2 :
    w1 ≠ [] → parses r b w1 (w2 ++ t) c c1 → parses (Star r) (reverse w1 ++ b) w2 t c1 c2 →
    parses (Star r) b (w1 ++ w2) t c c2
| PGroup n r b w t c c' : parses r b w t c c' → parses (Group n r) b w t c ((n, w) :: c')
| PBack n b t c : parses (Back n) b (default [] (cap n c)) t c c
| PBol t c : parses Bol [] [] t c c
| PEol b c : parses Eol b [] [] c c
| PWordB b t c : xorb (at_word b) (at_word t) = true → parses WordB b [] t c c.

Lemma consumed_app b b' w t c c' : consumed (St b (w ++ t) c) (St b' t c') = w.
Proof. unfold consumed. simpl. rewrite length_app. by rewrite Nat.add_sub, take_app_length. Qed.

Lemma run_sound r k s x :
  run r k s = Some x →
  ∃ w t c', rest s = w ++ t ∧ parses r (before s) w t (caps s) c' ∧
            k (St (reverse w ++ before s) t c') = Some x.
Proof.
  revert k s x. induction r as [|p|r1 IH1 r2 IH2|r1 IH1 r2 IH2|r IH|n r IH|n| | |]; intros k s x;
    cbn [run].
  - intros H. exists [], (rest s), (caps s). split_and!; [done|constructor|by destruct s].
  - destruct (rest s) as [|c t] eqn:E; [done|]. destruct (p c) eqn:Ep; [|done].
    intros H. exists [c], t, (caps s). split_and!; [done|by constructor|done].
  - intros (w1 & t1 & c1 & E1 & H1 & (w2 & t2 & c2 & E2 & H2 & Hk)%IH2)%IH1. simpl in *. subst t1.
    exists (w1 ++ w2), t2, c2. rewrite <-app_assoc, reverse_app, <-app_assoc.
    split_and!; [done|by econstructor|done].
  - destruct (run r1 k s) eqn:E; intros H.
    + simplify_eq. apply IH1 in E as (w & t & c & ? & ? & ?). eauto 10 using parses.
    + apply IH2 in H as (w & t & c & ? & ? & ?). eauto 10 using parses.
  - generalize (length (rest s)) as n. intros n. revert s x.
    induction n as [|n IHn]; intros s x; cbn [star_loop].
    { intros H. exists [], (rest s), (caps s). split_and!; [done|constructor|by destruct s]. }
    destruct (run r _ s) as [y|] eqn:E; intros H; [injection H as ->|].
    + apply IH in E as (w1 & t1 & c1 & E1 & H1 & Hk). simpl in Hk.
      destruct (length t1 <? length (rest s))%nat eqn:El; [|done]. apply Nat.ltb_lt in El.
      apply IHn in Hk as (w2 & t2 & c2 & E2 & H2 & Hk). simpl in *. subst t1.
      exists (w1 ++ w2), t2, c2. rewrite <-app_assoc, reverse_app, <-app_assoc.
      split_and!; [done| |done]. econstructor; [|done..].
      intros ->. rewrite E1 in El. simpl in El. lia.
    + exists [], (rest s), (caps s). split_and!; [done|constructor|by destruct s].
  - intros (w & t & c & E & H & Hk)%IH. simpl in Hk. exists w, t, ((n, w) :: c).
    split_and!; [done|by constructor|]. destruct s as [b r0 c0]. simpl in *. subst r0.
    by rewrite consumed_app in Hk.
  - destruct (starts_with _ _) eqn:E; [|done]. apply starts_with_spec in E as [t Et].
    intros H. eexists _, t, (caps s). split_and!; [exact Et|constructor|].
    unfold advance in H. by rewrite Et, drop_app_length in H.
  - destruct (before s) eqn:E; simpl; [|done]. intros H.
    exists [], (rest s), (caps s). split_and!; [done|constructor|]. simpl. rewrite <-E. by destruct s.
  - destruct (rest s) eqn:E; simpl; [|done]. intros H.
    exists [], [], (caps s). split_and!; [done|constructor|].
    destruct s as [b r0 c]. simpl in *. by subst r0.
  - destruct (xorb _ _) eqn:E; [|done]. intros H.
    exists [], (rest s), (caps s). split_and!; [done|by constructor|by destruct s].
Qed.

(** The induction covers the loop of a star with any fuel that is enough. *)
Definition succeeds (r : regex) (k : mstate → option mstate) (s : mstate) : Prop :=
  run r k s ≠ None ∧
  match r with
  | Star a => ∀ n, (length (rest s) <= n)%nat → star_loop (run a) k n s ≠ None
  | _ => True
  end.

Lemma star_succeeds a k s :
  (∀ n, (length (rest s) <= n)%nat → star_loop (run a) k n s ≠ None) → succeeds (Star a) k s.
Proof. intros H. split; [apply H; done|done]. Qed.

Lemma run_succeeds r b w t c c' :
  parses r b w t c c' →
  ∀ k, k (St (reverse w ++ b) t c') ≠ None → succeeds r k (St b (w ++ t) c).
Proof.
  induction 1 as [b t c|p x b t c Hp|r1 r2 b w1 w2 t c c1 c2 _ IH1 _ IH2|r1 r2 b w t c c' _ IH
                 |r1 r2 b w t c c' _ IH|r b t c|r b w1 w2 t c c1 c2 Hw _ IH1 _ IH2
                 |n r b w t c c' _ IH|n b t c|t c|b c|b t c Hx]; intros k Hk;
    first [apply star_succeeds; intros m Hn|split; [|done]]; cbn [run].
  - done.
  - simpl. by rewrite Hp.
  - rewrite <-app_assoc. apply IH1, IH2. by rewrite app_assoc, <-reverse_app.
  - destruct (IH k Hk) as [IH' _]. by destruct (run r1 k _).
  - destruct (IH k Hk) as [IH' _]. by destruct (run r1 k _).
  - destruct m as [|m]; simpl; [done|]. by destruct (run r _ _).
  - rewrite <-app_assoc in Hn |- *. destruct w1 as [|x w1]; [done|].
    destruct m as [|m]; [simpl in Hn; lia|]. cbn [star_loop].
    match goal with |- context [run r ?k' ?s] => assert (run r k' s ≠ None) as Hr end;
      [|by destruct (run r _ _)].
    apply IH1. cbn [rest]. rewrite (proj2 (Nat.ltb_lt _ _)) by (simpl; rewrite !length_app; lia).
    apply IH2; [by rewrite app_assoc, <-reverse_app|]. simpl in Hn |- *. rewrite !length_app in *. lia.
  - apply IH. cbn [before rest caps]. by rewrite consumed_app.
  - cbn [caps rest]. rewrite (proj2 (starts_with_spec _ _)) by eauto.
    unfold advance. cbn [before rest caps]. by rewrite drop_app_length.
  - done.
  - done.
  - simpl. by rewrite Hx.
Qed.

Lemma run_complete r b w t c c' k :
  parses r b w t c c' → k (St (reverse w ++ b) t c') ≠ None → run r k (St b (w ++ t) c) ≠ None.
Proof. intros H Hk. by apply (run_succeeds r b w t c c' H k Hk). Qed.

(** ** Anchored patterns *)

(** [/^r$/] *)
Definition full (r : regex) : regex := Bol · (r · Eol).

Lemma search_bol r b s : b ≠ [] → search (Bol · r) b s = None.
Proof.
  revert b. induction s as [|c s IH]; intros b Hb; destruct b; simpl; try done. by apply IH.
Qed.

Lemma match_full_run r s : match_re (full r) s = caps <$> run r (run Eol Some) (St [] s []).
Proof.
  unfold match_re, full. destruct s as [|c s]; cbn [search run is_empty before].
  - by destruct (run r _ _).
  - rewrite search_bol by done. by destruct (run r _ _).
Qed.

(** It matches a text exactly when [r] parses all of it. *)
Lemma match_full_sound r s c : match_re (full r) s = Some c → parses r [] s [] [] c.
Proof.
  rewrite match_full_run, fmap_Some. intros (x & (w & t & c' & E & Hp & Hk)%run_sound & ->).
  simpl in *. destruct t; [|done]. injection Hk as <-. cbn [caps]. by rewrite E, app_nil_r.
Qed.

Lemma match_full_complete r s c : parses r [] s [] [] c → match_re (full r) s ≠ None.
Proof.
  intros H. rewrite match_full_run. apply (run_complete _ _ _ _ _ _ (run Eol Some)) in H; [|done].
  rewrite app_nil_r in H. by destruct (run r _ _).
Qed.

(** Where all parses capture the same, so does the match. *)
Lemma match_full_unique r s c :
  parses r [] s [] [] c → (∀ c', parses r [] s [] [] c' → c' = c) → match_re (full r) s = Some c.
Proof.
  intros H Hu. pose proof (match_full_complete _ _ _ H) as Hm.
  destruct (match_re (full r) s) as [c'|] eqn:E; [|done]. by rewrite (Hu c') by by apply match_full_sound.
Qed.

Lemma match_full_none r s : (∀ c, ¬ parses r [] s [] [] c) → match_re (full r) s = None.
Proof.
  intros H. destruct (match_re (full r) s) as [c|] eqn:E; [|done].
  by apply match_full_sound, H in E.
Qed.

(** ** Reading patterns *)

Lemma parses_eps b w t c c' : parses Eps b w t c c' ↔ w = [] ∧ c' = c.
Proof. split; [by inversion 1|intros [-> ->]; constructor]. Qed.

Lemma parses_chr p b w t c c' : parses (Chr p) b w t c c' ↔ ∃ x, w = [x] ∧ p x = true ∧ c' = c.
Proof. split; [inversion 1; eauto|intros (x & -> & ? & ->); by constructor]. Qed.

Lemma parses_seq r1 r2 b w t c c' :
  parses (r1 · r2) b w t c c' ↔
  ∃ w1 w2 c1, w = w1 ++ w2 ∧ parses r1 b w1 (w2 ++ t) c c1 ∧ parses r2 (reverse w1 ++ b) w2 t c1 c'.
Proof.
  split; [inversion 1; naive_solver|]. intros (w1 & w2 & c1 & -> & ? & ?). by econstructor.
Qed.

Lemma parses_alt r1 r2 b w t c c' :
  parses (r1 ∥ r2) b w t c c' ↔ parses r1 b w t c c' ∨ parses r2 b w t c c'.
Proof. split; [inversion 1; auto|intros [|]; by constructor]. Qed.

Lemma parses_group n r b w t c c' :
  parses (Group n r) b w t c c' ↔ ∃ c1, parses r b w t c c1 ∧ c' = (n, w) :: c1.
Proof. split; [inversion 1; eauto|intros (c1 & ? & ->); by constructor]. Qed.

Lemma parses_back n b w t c c' :
  parses (Back n) b w t c c' ↔ w = default [] (cap n c) ∧ c' = c.
Proof. split; [by inversion 1|intros [-> ->]; constructor]. Qed.

Lemma parses_bol b w t c c' : parses Bol b w t c c' ↔ w = [] ∧ b = [] ∧ c' = c.
Proof. split; [by inversion 1|intros (-> & -> & ->); constructor]. Qed.

Lemma parses_lit_chars l b w t c c' : parses (lit_chars l) b w t c c' ↔ w = l ∧ c' = c.
Proof.
  revert b w c c'. induction l as [|a l IH]; intros b w c c'; cbn [lit_chars]; [apply parses_eps|].
  rewrite parses_seq. setoid_rewrite parses_chr. setoid_rewrite IH. split.
  - intros (w1 & w2 & c1 & -> & (x & -> & Hx & ->) & -> & ->). by apply Z.eqb_eq in Hx as ->.
  - intros [-> ->]. exists [a], l, c. split_and!; [done| |done..]. exists a. by rewrite Z.eqb_refl.
Qed.

Lemma parses_lit l b w t c c' : parses (lit l) b w t c c' ↔ w = js l ∧ c' = c.
Proof. apply parses_lit_chars. Qed.

Lemma parses_star_chr p b w t c c' :
  parses (Star (Chr p)) b w t c c' ↔ Forall (λ x, p x = true) w ∧ c' = c.
Proof.
  split.
  - remember (Star (Chr p)) as r eqn:E.
    induction 1 as [| | | | | |r' b w1 w2 t c c1 c2 _ H1 _ H2 IH| | | | |]; simplify_eq; [by auto|].
    apply parses_chr in H1 as (x & -> & Hx & ->). destruct IH as [IH ->]; [done|].
    split; [by constructor|done].
  - intros [Hw ->]. revert b. induction Hw as [|x w Hx Hw IH]; intros b; [constructor|].
    apply (PStarS _ _ [x] w _ c c c); [done|by constructor|apply IH].
Qed.

Lemma parses_plus_chr p b w t c c' :
  parses (Plus (Chr p)) b w t c c' ↔ w ≠ [] ∧ Forall (λ x, p x = true) w ∧ c' = c.
Proof.
  unfold Plus. rewrite parses_seq. setoid_rewrite parses_star_chr. setoid_rewrite parses_chr. split.
  - intros (w1 & w2 & c1 & -> & (x & -> & ? & ->) & ? & ->). simpl. split_and!; [done|by constructor|done].
  - intros (Hw & Hall & ->). destruct w as [|x w]; [done|]. apply Forall_cons in Hall as [? ?].
    exists [x], w, c. naive_solver.
Qed.

Lemma parses_opt r b w t c c' :
  parses (Opt r) b w t c c' ↔ parses r b w t c c' ∨ w = [] ∧ c' = c.
Proof. unfold Opt. by rewrite parses_alt, parses_eps. Qed.

(** [rx_inv] takes parses of concrete patterns apart; [rx_build] builds one for
    a text written piece by piece.  A file extends them to its own patterns by
    redefining the hooks. *)
Ltac rx_inv_hook := fail.
Ltac rx_build_hook := fail.

Ltac rx_inv :=
  repeat match goal with
  | _ => rx_inv_hook
  | H : parses (_ · _) _ _ _ _ _ |- _ => apply parses_seq in H as (? & ? & ? & ? & ? & ?)
  | H : parses (_ ∥ _) _ _ _ _ _ |- _ => apply parses_alt in H as [?|?]
  | H : parses (Opt _) _ _ _ _ _ |- _ => apply parses_opt in H as [?|[? ?]]
  | H : parses (Group _ _) _ _ _ _ _ |- _ => apply parses_group in H as (? & ? & ?)
  | H : parses (lit _) _ _ _ _ _ |- _ => apply parses_lit in H as [? ?]
  | H : parses (Back _) _ _ _ _ _ |- _ => apply parses_back in H as [? ?]
  | H : parses (Plus (Chr _)) _ _ _ _ _ |- _ => apply parses_plus_chr in H as (? & ? & ?)
  | H : parses (Star (Chr _)) _ _ _ _ _ |- _ => apply parses_star_chr in H as [? ?]
  | H : parses (Chr _) _ _ _ _ _ |- _ => apply parses_chr in H as (? & ? & ? & ?)
  end; subst.

Ltac rx_build :=
  repeat first
  [ rx_build_hook
  | eapply PSeq
  | apply parses_lit; split; reflexivity
  | eapply PGroup
  | apply parses_plus_chr; split_and!; [try done|try done|reflexivity]
  | apply parses_star_chr; split; [try done|reflexivity]
  | apply parses_chr; eexists; split_and!; [reflexivity|try done|reflexivity] ].

(** Pieces without a separator are determined by the text. *)
Lemma sep_inj (p : Z → bool) u u' x x' r r' :
  Forall (λ c, p c = true) u → Forall (λ c, p c = true) u' → p x = false → p x' = false →
  u ++ x :: r = u' ++ x' :: r' → u = u' ∧ x = x' ∧ r = r'.
Proof.
  intros Hu. revert u'. induction Hu as [|a u Ha _ IH]; intros u' Hu' Hx Hx' E.
  - destruct u' as [|b u']; simplify_eq/=; [done|]. apply Forall_cons in Hu' as [? _]. congruence.
  - destruct u' as [|b u']; simplify_eq/=; [congruence|]. apply Forall_cons in Hu' as [_ Hu'].
    destruct (IH u' Hu' Hx Hx') as (-> & ? & ?); [done|]. done.
Qed.

(** The characters a pattern without back references can consume. *)
Fixpoint only (P : Z → Prop) (r : regex) : Prop :=
  match r with
  | Chr p => ∀ x, p x = true → P x
  | Seq a b | Alt a b => only P a ∧ only P b
  | Star a | Group _ a => only P a
  | Back _ => False
  | Eps | Bol | Eol | WordB => True
  end.

Lemma parses_only P r b w t c c' : only P r → parses r b w t c c' → Forall P w.
Proof.
  intros Hr H. induction H; simpl in Hr; destruct_and?; try done; try constructor; auto.
  all: apply Forall_app; auto.
Qed.

(** Patterns without groups and assertions do not look at their context. *)
Fixpoint context_free (r : regex) : Prop :=
  match r with
  | Eps | Chr _ => True
  | Seq a b | Alt a b => context_free a ∧ context_free b
  | Star a => context_free a
  | Group _ _ | Back _ | Bol | Eol | WordB => False
  end.

Lemma parses_context_free r b w t c c' :
  context_free r → parses r b w t c c' → c' = c ∧ ∀ b t d, parses r b w t d d.
Proof.
  intros Hr H.
  induction H as [b t c|p x b t c Hp|r1 r2 b w1 w2 t c c1 c2 _ IH1 _ IH2|r1 r2 b w t c c' _ IH
                 |r1 r2 b w t c c' _ IH|r b t c|r b w1 w2 t c c1 c2 Hw _ IH1 _ IH2
                 |n r b w t c c' _ IH|n b t c|t c|b c|b t c Hx]; simpl in Hr; try done.
  - split; [done|constructor].
  - split; [done|by constructor].
  - destruct Hr as [Hr1 Hr2], (IH1 Hr1) as [-> H1], (IH2 Hr2) as [-> H2].
    split; [done|]. intros. by econstructor.
  - destruct (IH (proj1 Hr)) as [-> H]. split; [done|]. intros. by apply PAltL.
  - destruct (IH (proj2 Hr)) as [-> H]. split; [done|]. intros. by apply PAltR.
  - split; [done|constructor].
  - destruct (IH1 Hr) as [-> H1], (IH2 Hr) as [-> H2]. split; [done|]. intros. by econstructor.
Qed.

Lemma parses_cf_iff r b w t c c' :
  context_free r → parses r b w t c c' ↔ parses r [] w [] [] [] ∧ c' = c.
Proof.
  intros Hr. split.
  - intros [-> H]%parses_context_free; [|done]. auto.
  - intros [H ->]. by apply parses_context_free in H as [_ H].
Qed.

Lemma only_lit P s : Forall P (js s) → only P (lit s).
Proof.
  unfold lit. induction 1 as [|c l Hc _ IH]; simpl; [done|]. split; [|done].
  by intros x ->%Z.eqb_eq.
Qed.

(** ** Deterministic reading

    [reads F r w c]: before a text [t] with [F t], the pattern [r] can consume
    [w], capturing [c], and it can consume nothing else such that what remains
    satisfies [F].  [F] stands for what the rest of the pattern accepts. *)

Definition reads (F : jsstr → Prop) (r : regex) (w : jsstr) (c : captures) : Prop :=
  ∀ b t c0, F t →
    parses r b w t c0 (c ++ c0) ∧
    ∀ w' t' c', w ++ t = w' ++ t' → F t' → parses r b w' t' c0 c' → w' = w ∧ c' = c ++ c0.

(** The texts that [r] followed by a text in [F] can start. *)
Definition before_lang (r : regex) (F : jsstr → Prop) (t : jsstr) : Prop :=
  ∃ b w t' c c', t = w ++ t' ∧ parses r b w t' c c' ∧ F t'.

Definition anything (t : jsstr) : Prop := True.

(** Texts that do not start with a character of [p]. *)
Definition not_first (p : Z → bool) (t : jsstr) : Prop :=
  match t with x :: _ => p x = false | [] => True end.

Lemma reads_weaken F G r w c : (∀ t, G t → F t) → reads F r w c → reads G r w c.
Proof.
  intros HFG H b t c0 Ht. destruct (H b t c0 (HFG t Ht)) as [Hp Hu]. split; [done|]. intros. eauto.
Qed.

Lemma reads_seq F r1 r2 w1 w2 c1 c2 :
  reads (before_lang r2 F) r1 w1 c1 → reads F r2 w2 c2 → reads F (r1 · r2) (w1 ++ w2) (c2 ++ c1).
Proof.
  intros H1 H2 b t c0 Ht.
  destruct (H2 (reverse w1 ++ b) t (c1 ++ c0) Ht) as [Hp2 Hu2].
  assert (before_lang r2 F (w2 ++ t)) as Hl by (do 5 eexists; eauto).
  destruct (H1 b (w2 ++ t) c0 Hl) as [Hp1 Hu1]. split.
  - rewrite <-app_assoc. by econstructor.
  - intros w' t' c' E HF (w1' & w2' & c1' & -> & H1' & H2')%parses_seq.
    rewrite <-!app_assoc in E. apply Hu1 in H1' as [-> ->]; [|done|do 5 eexists; eauto].
    apply app_inv_head in E. apply Hu2 in H2' as [-> ->]; [|done..]. by rewrite app_assoc.
Qed.

Lemma reads_eps F : reads F Eps [] [].
Proof. intros b t c0 _. split; [constructor|]. by intros w' t' c' _ _ [-> ->]%parses_eps. Qed.

Lemma reads_lit_chars F l : reads F (lit_chars l) l [].
Proof.
  intros b t c0 _. split; [by apply parses_lit_chars|]. by intros w' t' c' _ _ [-> ->]%parses_lit_chars.
Qed.

Lemma reads_lit F s : reads F (lit s) (js s) [].
Proof. apply reads_lit_chars. Qed.

Lemma reads_group F n r w c : reads F r w c → reads F (Group n r) w ((n, w) :: c).
Proof.
  intros H b t c0 Ht. destruct (H b t c0 Ht) as [Hp Hu]. split; [by apply (PGroup n)|].
  intros w' t' c' E HF (c1 & H1 & ->)%parses_group. by apply Hu in H1 as [-> ->].
Qed.

(** Pieces of one class of characters, before texts that do not go on with it. *)
Lemma span_inj (p : Z → bool) u u' r r' :
  Forall (λ c, p c = true) u → Forall (λ c, p c = true) u' → not_first p r → not_first p r' →
  u ++ r = u' ++ r' → u = u' ∧ r = r'.
Proof.
  intros Hu. revert u'. induction Hu as [|a u Ha _ IH]; intros u' Hu' Hr Hr' E.
  - destruct Hu' as [|b u' Hb _]; [done|]. simpl in E. subst r. simpl in Hr. congruence.
  - destruct Hu' as [|b u' Hb Hu']; simpl in E; [subst r'; simpl in Hr'; congruence|].
    injection E as -> E. by destruct (IH u' Hu' Hr Hr' E) as [-> ->].
Qed.

Lemma reads_star_chr p w : Forall (λ c, p c = true) w → reads (not_first p) (Star (Chr p)) w [].
Proof.
  intros Hw b t c0 Ht. split; [by apply parses_star_chr|].
  intros w' t' c' E HF [Hw' ->]%parses_star_chr. by apply (span_inj p) in E as [-> _].
Qed.

Lemma reads_plus_chr p w :
  w ≠ [] → Forall (λ c, p c = true) w → reads (not_first p) (Plus (Chr p)) w [].
Proof.
  intros Hne Hw b t c0 Ht. split; [by apply parses_plus_chr|].
  intros w' t' c' E HF (_ & Hw' & ->)%parses_plus_chr. by apply (span_inj p) in E as [-> _].
Qed.

Lemma reads_opt_some F r w c :
  reads F r w c → (∀ t, F t → ¬ F (w ++ t)) → reads F (Opt r) w c.
Proof.
  intros H Hx b t c0 Ht. destruct (H b t c0 Ht) as [Hp Hu]. split; [by apply PAltL|].
  intros w' t' c' E HF [H'|[-> ->]]%parses_opt; [by eapply Hu|].
  exfalso. apply (Hx t Ht). by rewrite E.
Qed.

Lemma reads_opt_none F r :
  (∀ b w t c c', parses r b w t c c' → F t → ¬ F (w ++ t)) → reads F (Opt r) [] [].
Proof.
  intros Hx b t c0 Ht. split; [apply parses_opt; by right|].
  intros w' t' c' E HF [H'|[-> ->]]%parses_opt; [|done]. exfalso. simpl in E.
  apply (Hx b w' t' c0 c' H' HF). by rewrite <-E.
Qed.

(** A star reads a list of pieces if no iteration can start where it stops. *)
Lemma reads_star F r ws :
  Forall (λ w, w ≠ [] ∧ reads (before_lang (Star r) F) r w []) ws →
  (∀ b w t c c', parses r b w t c c' → before_lang (Star r) F t → ¬ F (w ++ t)) →
  reads F (Star r) (concat ws) [].
Proof.
  intros Hws Hx. induction Hws as [|w ws [Hne Hw] Hws IH]; intros b t c0 Ht; cbn [concat app].
  - split; [constructor|]. intros w' t' c' E HF H.
    inversion H; subst; [done|]. exfalso.
    match goal with H1 : parses r b _ _ c0 _ |- _ => apply (Hx _ _ _ _ _ H1) end;
      [do 5 eexists; eauto|by rewrite app_assoc].
  - destruct (IH (reverse w ++ b) t c0 Ht) as [Hp Hu].
    assert (before_lang (Star r) F (concat ws ++ t)) as Hl by (do 5 eexists; eauto).
    destruct (Hw b (concat ws ++ t) c0 Hl) as [Hp1 Hu1]. split; [by econstructor|].
    intros w' t' c' E HF H. rewrite <-app_assoc in E.
    inversion H; subst.
    + exfalso. apply (Hx _ _ _ _ _ Hp1 Hl). by rewrite E.
    + rewrite <-app_assoc in E.
      match goal with H1 : parses r b _ _ c0 _ |- _ => apply Hu1 in H1 as [-> ->] end;
        [|done|do 5 eexists; eauto].
      apply app_inv_head in E.
      match goal with H2 : parses (Star r) _ _ _ _ _ |- _ => apply Hu in H2 as [-> ->] end; done.
Qed.

Lemma run_reads r w c b t :
  reads anything r w c → run r Some (St b (w ++ t) []) = Some (St (reverse w ++ b) t c).
Proof.
  intros H. destruct (H b t [] I) as [Hp Hu].
  pose proof (run_complete r b w t [] _ Some Hp) as Hc.
  destruct (run r Some _) as [s|] eqn:E; [|by exfalso; apply Hc].
  apply run_sound in E as (w' & t' & c' & E & Hp' & [= <-]). simpl in *.
  apply Hu in Hp' as [-> ->]; [|done..]. apply app_inv_head in E as ->. by rewrite app_nil_r.
Qed.
