(* ===== verification/BillingExpr.v ===== *)
(** * Billing expressions: request rules

    [features/pricing/lib/billing-expr.ts]: the variables of a billing
    expression, the parser of tiers shown on the pricing pages, and the
    request rules (conditions on parameters, headers and the clock with a
    multiplier) that the visual editor writes as text and reads back. *)

From stdpp Require Import base list strings sets.
From Stdlib Require Import ZArith Lia SpecFloat.
From S2P Require Import Prelude JsString JsNumber JsValue JsJson JsRegex.
#[local] Open Scope Z_scope.

Module BillingVars.

Inductive Side := Input | Output | Condition.

(** [isBase], [isConditionOnly]: false when absent. *)
Record BillingVar := MkVar {
  key : jsstr;
  field : option jsstr;
  tierField : option jsstr;
  label : jsstr;
  shortLabel : jsstr;
  side : Side;
  isBase : bool;
  isConditionOnly : bool;
  group : option jsstr;
}.

Definition price_var (k f t l sl : string) (s : Side) (base : bool) (g : option string) : BillingVar :=
  MkVar (js k) (Some (js f)) (Some (js t)) (js l) (js sl) s base false (js <$> g).

Definition BILLING_VARS : list BillingVar :=
  [price_var "p" "inputPrice" "input_unit_cost" "Input price" "Input" Input true None;
   price_var "c" "outputPrice" "output_unit_cost" "Output price" "Output" Output true None;
   MkVar (js "len") None None (js "Input length") (js "Length") Condition false true None;
   price_var "cr" "cacheReadPrice" "cache_read_unit_cost" "Cache hit price" "Cache Hit" Input false
     (Some "cache"%string);
   price_var "cc" "cacheCreatePrice" "cache_create_unit_cost" "Cache write price" "Cache Write" Input
     false (Some "cache"%string);
   price_var "cc1h" "cacheCreate1hPrice" "cache_create_1h_unit_cost" "Cache write (1h) price"
     "Cache Write (1h)" Input false (Some "cache"%string);
   price_var "img" "imagePrice" "image_unit_cost" "Image input price" "Image In" Input false
     (Some "media"%string);
   price_var "img_o" "imageOutputPrice" "image_output_unit_cost" "Image output price" "Image Out"
     Output false (Some "media"%string);
   price_var "ai" "audioInputPrice" "audio_input_unit_cost" "Audio input price" "Audio In" Input false
     (Some "media"%string);
   price_var "ao" "audioOutputPrice" "audio_output_unit_cost" "Audio output price" "Audio Out" Output
     false (Some "media"%string)].

Definition BILLING_PRICING_VARS : list BillingVar :=
  filter (λ v, isConditionOnly v = false) BILLING_VARS.

Definition BILLING_CONDITION_VARS : list jsstr :=
  map key (filter (λ v, isBase v || isConditionOnly v = true) BILLING_VARS).

Definition BILLING_VAR_KEY_TO_FIELD : list (jsstr * jsstr) :=
  map (λ v, (key v, default [] (field v))) BILLING_PRICING_VARS.

Definition BILLING_EXTRA_VARS : list BillingVar :=
  filter (λ v, isBase v || isConditionOnly v = false) BILLING_VARS.

(** field and expression variable *)
Definition BILLING_CACHE_VAR_MAP : list (jsstr * jsstr) :=
  map (λ v, (default [] (tierField v), key v)) BILLING_EXTRA_VARS.

End BillingVars.

(** ** Patterns *)

Definition dq : regex := Chr (Z.eqb 34).
Definition dig : regex := Chr is_digit.

(** [[\d.eE+-]] and [[\d.eE+]] *)
Definition num_char (c : Z) : bool := is_digit c || one_of ".eE+-" c.
Definition unsigned_char (c : Z) : bool := is_digit c || one_of ".eE+" c.
Definition num_text : regex := Plus (Chr num_char).

(** One of several words. *)
Fixpoint words (l : list jsstr) : regex :=
  match l with
  | [] => Chr (λ _, false)
  | [w] => lit_chars w
  | w :: l => lit_chars w ∥ words l
  end.

(** [/^-?(?:\d+\.?\d*|\.\d+)(?:[eE][+-]?\d+)?$/] *)
Definition NUMERIC_LITERAL_REGEX : regex :=
  full (Opt (lit "-") ·
        ((Plus dig · Opt (lit ".") · Star dig) ∥ (lit "." · Plus dig)) ·
        Opt (Chr (one_of "eE") · Opt (Chr (one_of "+-")) · Plus dig)).

(** The text of a group, [m[n]], where it took part in the match. *)
Definition grp (n : nat) (c : captures) : jsstr := default [] (cap n c).

Module RequestRules.

(** ** Data *)

Inductive TimeFunc := hour | minute | weekday | month | day.
#[export] Instance TimeFunc_eq : EqDecision TimeFunc.
Proof. solve_decision. Defined.

Definition TIME_FUNCS : list TimeFunc := [hour; minute; weekday; month; day].

Definition func_name (f : TimeFunc) : jsstr :=
  match f with
  | hour => js "hour" | minute => js "minute" | weekday => js "weekday"
  | month => js "month" | day => js "day"
  end.

(** [TIME_FUNCS.includes(value)] *)
Definition isTimeFunc (value : jsstr) : option TimeFunc :=
  list_find (λ f, func_name f = value) TIME_FUNCS ≫= λ p, Some p.2.

Definition MATCH_EQ := js "eq".
Definition MATCH_CONTAINS := js "contains".
Definition MATCH_GT := js "gt".
Definition MATCH_GTE := js "gte".
Definition MATCH_LT := js "lt".
Definition MATCH_LTE := js "lte".
Definition MATCH_EXISTS := js "exists".
Definition MATCH_RANGE := js "range".

Inductive Source := Param | Header.
#[export] Instance Source_eq : EqDecision Source.
Proof. solve_decision. Defined.

Record ParamHeaderCondition := MkPH { source : Source; path : jsstr; ph_mode : jsstr; ph_value : jsstr }.

Record TimeCondition := MkTime {
  timeFunc : TimeFunc;
  timezone : jsstr;
  mode : jsstr;
  value : jsstr;
  rangeStart : jsstr;
  rangeEnd : jsstr;
}.

Inductive RequestCondition := Time (t : TimeCondition) | PH (c : ParamHeaderCondition).

Record RequestRuleGroup := MkGroup { conditions : list RequestCondition; multiplier : jsstr }.

(** ** Splitting *)

(** The loop over the index: [cur] is the text since [start], reversed. *)
Fixpoint split_mul (depth : Z) (cur : jsstr) (s : jsstr) : list jsstr :=
  match s with
  | [] => [trim (reverse cur)]
  | c :: t =>
      let depth := if c =? 40 then depth + 1 else depth in
      let depth := if c =? 41 then depth - 1 else depth in
      if (depth =? 0) && starts_with (js " * ") s then
        match t with
        | _ :: _ :: t' => trim (reverse cur) :: split_mul depth [] t'
        | _ => []
        end
      else split_mul depth (c :: cur) t
  end.

Definition splitTopLevelMultiply (expr : jsstr) : list jsstr :=
  filter (λ p, p ≠ []) (split_mul 0 [] expr).

(** [None]: the loop returned [[]]. *)
Fixpoint split_and (depth : Z) (quoted : bool) (cur : jsstr) (s : jsstr) : option (list jsstr) :=
  match s with
  | [] => if quoted || negb (depth =? 0) then None else Some [trim (reverse cur)]
  | c :: t =>
      if quoted && (c =? 92) then
        match t with
        | d :: t' => split_and depth quoted (d :: c :: cur) t'
        | [] => split_and depth quoted (c :: cur) t
        end
      else
        let quoted := if c =? 34 then negb quoted else quoted in
        if quoted then split_and depth quoted (c :: cur) t
        else
          let depth := if c =? 40 then depth + 1 else depth in
          let depth := if c =? 41 then depth - 1 else depth in
          if (depth <? 0) || ((depth =? 0) && starts_with (js "||") s) then None
          else if (depth =? 0) && starts_with (js " && ") s then
            match t with
            | _ :: _ :: _ :: t' => cons (trim (reverse cur)) <$> split_and depth quoted [] t'
            | _ => None
            end
          else split_and depth quoted (c :: cur) t
  end.

Definition splitTopLevelAnd (expr : jsstr) : list jsstr := default [] (split_and 0 false [] expr).

(** ** Literals *)

(** [JNull] when the text is no literal. *)
Definition parseExprLiteral (raw : jsstr) : jsval :=
  let text := trim raw in
  if decide (text = js "true" ∨ text = js "false") then JStr text
  else if test_re NUMERIC_LITERAL_REGEX text then JStr text
  else catch (JSON_parse text) JNull.

Definition TIME_FUNC_RANGES (f : TimeFunc) : Z * Z :=
  match f with
  | hour => (0, 23) | minute => (0, 59) | weekday => (0, 6) | month => (1, 12) | day => (1, 31)
  end.

Definition isTimeValueInRange (f : TimeFunc) (text : jsstr) : bool :=
  if negb (test_re NUMERIC_LITERAL_REGEX text) then false
  else
    let value := str_to_num text in
    if negb (is_integer value) then false
    else
      let '(min, max) := TIME_FUNC_RANGES f in
      num_leb (num_of_Z min) value && num_leb value (num_of_Z max).

(** ** Conditions *)

Definition quoted_text (n : nat) : regex := dq · Group n (Plus (Chr (λ c, negb (c =? 34)))) · dq.

(** A call of a time function on a quoted time zone *)
Definition time_call : regex :=
  Group 1 (words (map func_name TIME_FUNCS)) · lit "(" · quoted_text 2 · lit ")".

Definition time_range : regex :=
  time_call · lit " >= " · Group 3 num_text · lit " " · Group 4 (words [js "&&"; js "||"]) · lit " " ·
  Back 1 · lit "(" · dq · Back 2 · dq · lit ") < " · Group 5 num_text.

Definition time_scalar : regex :=
  time_call · lit " " · Group 3 (words [js "=="; js ">="; js "<"]) · lit " " · Group 4 num_text.

Definition or_else {A} (a b : option A) : option A := match a with Some x => Some x | None => b end.

(** [m[1] as TimeFunc] *)
Definition captured_func (m : captures) : TimeFunc := default hour (isTimeFunc (grp 1 m)).

Definition range_condition (m : captures) : option TimeCondition :=
  if includes [92] (grp 2 m)
     || negb (isTimeValueInRange (captured_func m) (grp 3 m))
     || negb (isTimeValueInRange (captured_func m) (grp 5 m))
     || bool_decide (grp 4 m ≠ if num_ltb (str_to_num (grp 5 m)) (str_to_num (grp 3 m))
                               then js "||" else js "&&")
  then None
  else Some (MkTime (captured_func m) (grp 2 m) MATCH_RANGE [] (grp 3 m) (grp 5 m)).

Definition scalar_mode (op : jsstr) : jsstr :=
  if decide (op = js "==") then MATCH_EQ
  else if decide (op = js ">=") then MATCH_GTE
  else if decide (op = js "<") then MATCH_LT
  else MATCH_EQ.

Definition tryParseTimeCondition (expr : jsstr) : option TimeCondition :=
  match or_else (match_re (full time_range) expr)
                (match_re (full (lit "(" · time_range · lit ")")) expr) with
  | Some m => range_condition m
  | None =>
      match match_re (full time_scalar) expr with
      | Some m =>
          if includes [92] (grp 2 m) || negb (isTimeValueInRange (captured_func m) (grp 4 m))
          then None
          else Some (MkTime (captured_func m) (grp 2 m) (scalar_mode (grp 3 m)) (grp 4 m) [] [])
      | None => None
      end
  end.

(** The text of a string literal: characters other than quotes and
    backslashes, or a backslash and any character of the line, in quotes. *)
Definition string_literal : regex :=
  dq · Star (Chr (λ c, negb ((c =? 34) || (c =? 92))) ∥ (lit "\" · Chr not_newline)) · dq.

Definition header_exists : regex :=
  lit "header(" · quoted_text 1 · lit ") != " · dq · dq.
Definition param_exists : regex := lit "param(" · quoted_text 1 · lit ") != nil".
Definition header_contains : regex :=
  lit "has(header(" · quoted_text 1 · lit "), " · Group 2 string_literal · lit ")".
Definition param_contains : regex :=
  lit "param(" · quoted_text 1 · lit ") != nil && has(param(" · quoted_text 2 · lit "), " ·
  Group 3 string_literal · lit ")".
Definition param_compare : regex :=
  lit "param(" · quoted_text 1 · lit ") != nil && param(" · quoted_text 2 · lit ") " ·
  Group 3 (words [js ">"; js ">="; js "<"; js "<="]) · lit " " · Group 4 num_text.
Definition equality : regex :=
  Group 1 (words [js "param"; js "header"]) · lit "(" · quoted_text 2 · lit ") == " ·
  Group 3 (Plus (Chr not_newline)).

Definition compare_mode (op : jsstr) : jsstr :=
  if decide (op = js ">") then MATCH_GT
  else if decide (op = js ">=") then MATCH_GTE
  else if decide (op = js "<") then MATCH_LT
  else MATCH_LTE.

(** [JSON.parse(text) as string]: [text] is a string literal, so the value is a
    string, or the call throws. *)
Definition parse_string_literal (text : jsstr) : res jsstr :=
  let* v := JSON_parse text in to_str v.

Definition tryParseRequestCondition (expr : jsstr) : res (option RequestCondition) :=
  match tryParseTimeCondition expr with
  | Some tc => Ok (Some (Time tc))
  | None =>
  match match_re (full header_exists) expr with
  | Some m => Ok (Some (PH (MkPH Header (grp 1 m) MATCH_EXISTS [])))
  | None =>
  match match_re (full param_exists) expr with
  | Some m => Ok (Some (PH (MkPH Param (grp 1 m) MATCH_EXISTS [])))
  | None =>
  match match_re (full header_contains) expr with
  | Some m =>
      let* v := parse_string_literal (grp 2 m) in
      Ok (Some (PH (MkPH Header (grp 1 m) MATCH_CONTAINS v)))
  | None =>
  let same m := if decide (grp 1 m = grp 2 m) then Some m else None in
  match match_re (full param_contains) expr ≫= same with
  | Some m =>
      let* v := parse_string_literal (grp 3 m) in
      Ok (Some (PH (MkPH Param (grp 1 m) MATCH_CONTAINS v)))
  | None =>
  match match_re (full param_compare) expr ≫= same with
  | Some m => Ok (Some (PH (MkPH Param (grp 1 m) (compare_mode (grp 3 m)) (grp 4 m))))
  | None =>
  match match_re (full equality) expr with
  | Some m =>
      let parsedValue := parseExprLiteral (grp 3 m) in
      if strict_eq parsedValue JNull then Ok None
      else
        let* v := to_str parsedValue in
        Ok (Some (PH (MkPH (if decide (grp 1 m = js "param") then Param else Header)
                           (grp 2 m) MATCH_EQ v)))
  | None => Ok None
  end end end end end end end.

Definition tryParseTimeRangePair (lower upper : jsstr) : option TimeCondition :=
  match tryParseTimeCondition lower, tryParseTimeCondition upper with
  | Some a, Some b =>
      if decide (timeFunc a ≠ timeFunc b ∨ timezone a ≠ timezone b) then None
      else if decide (mode a ≠ MATCH_GTE ∨ mode b ≠ MATCH_LT) then None
      else if num_ltb (str_to_num (value b)) (str_to_num (value a)) then None
      else Some (MkTime (timeFunc a) (timezone a) MATCH_RANGE [] (value a) (value b))
  | _, _ => None
  end.

(** The loop over the parts. *)
Fixpoint parse_parts (andParts : list jsstr) : res (option (list RequestCondition)) :=
  match andParts with
  | [] => Ok (Some [])
  | part0 :: tail =>
      let part := trim part0 in
      let single :=
        let* c := tryParseRequestCondition part in
        match c with
        | None => Ok None
        | Some c => let* cs := parse_parts tail in Ok (cons c <$> cs)
        end in
      match tail with
      | next0 :: tail' =>
          let next := trim next0 in
          match (if is_empty next then None else tryParseTimeRangePair part next) with
          | Some merged => let* cs := parse_parts tail' in Ok (cons (Time merged) <$> cs)
          | None => single
          end
      | [] => single
      end
  end.

Definition tryParseRequestConditions (conditionStr : jsstr) : res (option (list RequestCondition)) :=
  match tryParseTimeCondition (trim conditionStr) with
  | Some c => Ok (Some [Time c])
  | None =>
      let* cs := parse_parts (splitTopLevelAnd conditionStr) in
      Ok (match cs with Some [] => None | _ => cs end)
  end.

(** [/^\((.+) \? ([\d.eE+-]+) : 1\)$/s] *)
Definition rule_factor : regex :=
  lit "(" · Group 1 (Plus (Chr (λ _, true))) · lit " ? " · Group 2 num_text · lit " : 1)".

Definition tryParseRuleGroupFactor (part : jsstr) : res (option RequestRuleGroup) :=
  match match_re (full rule_factor) part with
  | None => Ok None
  | Some m =>
      let* cs := tryParseRequestConditions (grp 1 m) in
      Ok ((λ cs, MkGroup cs (grp 2 m)) <$> cs)
  end.

Fixpoint parse_factors (parts : list jsstr) : res (option (list RequestRuleGroup)) :=
  match parts with
  | [] => Ok (Some [])
  | part :: parts =>
      let* g := tryParseRuleGroupFactor part in
      match g with
      | None => Ok None
      | Some g => let* gs := parse_factors parts in Ok (cons g <$> gs)
      end
  end.

Definition tryParseRequestRuleExpr (expr : jsstr) : res (option (list RequestRuleGroup)) :=
  let trimmed := trim expr in
  if is_empty trimmed then Ok (Some []) else parse_factors (splitTopLevelMultiply trimmed).

(** ** Splitting and combining the billing expression and the rules *)

(** The loop of [hasFullOuterParens] over the characters of the text. *)
Fixpoint closes_at_end (depth : Z) (s : jsstr) : bool :=
  match s with
  | [] => depth =? 0
  | c :: t =>
      let depth := if c =? 40 then depth + 1 else depth in
      let depth := if c =? 41 then depth - 1 else depth in
      if (depth =? 0) && negb (is_empty t) then false else closes_at_end depth t
  end.

Definition hasFullOuterParens (expr : jsstr) : bool :=
  starts_with [40] expr && ends_with [41] expr && closes_at_end 0 expr.

(** [s.slice(1, -1)] *)
Definition slice_1_1 (s : jsstr) : jsstr := take (length s - 2) (drop 1 s).

(** Each round removes two characters, so the length is enough fuel. *)
Fixpoint unwrap (fuel : nat) (current : jsstr) : jsstr :=
  match fuel with
  | O => current
  | S n => if hasFullOuterParens current then unwrap n (trim (slice_1_1 current)) else current
  end.
Definition unwrapOuterParens (expr : jsstr) : jsstr := unwrap (length expr) (trim expr).

(** A rule part parses to some groups. *)
Definition is_rule (part : jsstr) : res bool :=
  let* parsed := tryParseRequestRuleExpr part in
  Ok (match parsed with Some (_ :: _) => true | _ => false end).

Fixpoint classify (parts : list jsstr) : res (list jsstr * list jsstr) :=
  match parts with
  | [] => Ok ([], [])
  | part :: parts =>
      let* b := is_rule part in
      let* rb := classify parts in
      Ok (if b then (part :: rb.1, rb.2) else (rb.1, part :: rb.2))
  end.

(** The billing expression and the request rules. *)
Definition splitBillingExprAndRequestRules (expr : jsstr) : res (jsstr * jsstr) :=
  let trimmed := trim expr in
  if is_empty trimmed then Ok ([], [])
  else
    let parts := splitTopLevelMultiply trimmed in
    if (length parts <=? 1)%nat then Ok (trimmed, [])
    else
      let* rb := classify parts in
      match rb with
      | ((_ :: _) as ruleParts, [base]) => Ok (unwrapOuterParens base, join (js " * ") ruleParts)
      | _ => Ok (trimmed, [])
      end.

Definition combineBillingExpr (baseExpr requestRuleExpr : jsstr) : jsstr :=
  let base := trim baseExpr in
  let rules := trim requestRuleExpr in
  if is_empty base then []
  else if is_empty rules then base
  else js "(" ++ base ++ js ") * " ++ rules.

(** ** The editor *)

Definition createEmptyCondition : ParamHeaderCondition := MkPH Param [] MATCH_EQ [].
Definition createEmptyTimeCondition : TimeCondition :=
  MkTime hour (js "Asia/Shanghai") MATCH_GTE [] [] [].
Definition createEmptyRuleGroup : RequestRuleGroup := MkGroup [PH createEmptyCondition] [].
Definition createEmptyTimeRuleGroup : RequestRuleGroup := MkGroup [Time createEmptyTimeCondition] [].

(** value and label key *)
Definition getRequestRuleMatchOptions (source : jsstr) : list (jsstr * jsstr) :=
  if decide (source = js "time") then
    [(MATCH_EQ, js "Equals"); (MATCH_GTE, js "Greater than or equal"); (MATCH_LT, js "Less than");
     (MATCH_RANGE, js "Time range")]
  else
    let base := [(MATCH_EQ, js "Equals"); (MATCH_CONTAINS, js "Contains");
                 (MATCH_EXISTS, js "Exists")] in
    if decide (source = js "header") then base
    else base ++ [(MATCH_GT, js "Greater than"); (MATCH_GTE, js "Greater than or equal");
                  (MATCH_LT, js "Less than"); (MATCH_LTE, js "Less than or equal")].

(** [Partial<RequestCondition>]: every property may be absent. *)
Record PartialCondition := MkPartial {
  p_source : option jsstr;
  p_path : option jsstr;
  p_timeFunc : option jsstr;
  p_timezone : option jsstr;
  p_mode : option jsstr;
  p_value : option jsstr;
  p_rangeStart : option jsstr;
  p_rangeEnd : option jsstr;
}.

Definition source_name (s : Source) : jsstr :=
  match s with Param => js "param" | Header => js "header" end.

(** A condition used where a partial one is expected. *)
Definition as_partial (c : RequestCondition) : PartialCondition :=
  match c with
  | Time t => MkPartial (Some (js "time")) None (Some (func_name (timeFunc t))) (Some (timezone t))
                (Some (mode t)) (Some (value t)) (Some (rangeStart t)) (Some (rangeEnd t))
  | PH c => MkPartial (Some (source_name (source c))) (Some (path c)) None None
              (Some (ph_mode c)) (Some (ph_value c)) None None
  end.

Definition offered_mode (source : jsstr) (m : option jsstr) (dflt : jsstr) : jsstr :=
  match m with
  | Some m => if decide (m ∈ (getRequestRuleMatchOptions source).*1) then m else dflt
  | None => dflt
  end.

(** [None]: [null] or [undefined] *)
Definition normalizeCondition (cond : option PartialCondition) : RequestCondition :=
  let get (f : PartialCondition → option jsstr) : option jsstr := cond ≫= f in
  let str f := default [] (get f) in
  if decide (get p_source = Some (js "time")) then
    Time (MkTime (default hour (get p_timeFunc ≫= isTimeFunc))
            (if is_empty (str p_timezone) then js "Asia/Shanghai" else str p_timezone)
            (offered_mode (js "time") (get p_mode) MATCH_GTE)
            (str p_value) (str p_rangeStart) (str p_rangeEnd))
  else
    let source := if decide (get p_source = Some (js "header")) then Header else Param in
    PH (MkPH source (str p_path) (offered_mode (source_name source) (get p_mode) MATCH_EQ)
          (str p_value)).

Definition buildExprLiteral (mode value : jsstr) : jsstr :=
  let text := trim value in
  if decide (mode = MATCH_CONTAINS) then quote text
  else if decide (text = js "true" ∨ text = js "false") then text
  else if test_re NUMERIC_LITERAL_REGEX text then text
  else quote text.

Definition scalar_op (mode : jsstr) : jsstr :=
  if decide (mode = MATCH_EQ) then js "=="
  else if decide (mode = MATCH_GTE) then js ">="
  else if decide (mode = MATCH_LT) then js "<"
  else js "==".

(** The expression of a normalized time condition. *)
Definition time_expr (t : TimeCondition) : jsstr :=
  let fn := func_name (timeFunc t) ++ js "(" ++ quote (timezone t) ++ js ")" in
  if decide (mode t = MATCH_RANGE) then
    let s := trim (rangeStart t) in
    let e := trim (rangeEnd t) in
    if negb (isTimeValueInRange (timeFunc t) s) || negb (isTimeValueInRange (timeFunc t) e) then []
    else
      let conj := if num_ltb (str_to_num e) (str_to_num s) then js " || " else js " && " in
      fn ++ js " >= " ++ s ++ conj ++ fn ++ js " < " ++ e
  else
    let v := trim (value t) in
    if negb (isTimeValueInRange (timeFunc t) v) then []
    else fn ++ js " " ++ scalar_op (mode t) ++ js " " ++ v.

Definition buildTimeConditionExpr (cond : TimeCondition) : jsstr :=
  match normalizeCondition (Some (as_partial (Time cond))) with Time t => time_expr t | PH _ => [] end.

Definition compare_op (mode : jsstr) : option jsstr :=
  if decide (mode = MATCH_GT) then Some (js ">")
  else if decide (mode = MATCH_GTE) then Some (js ">=")
  else if decide (mode = MATCH_LT) then Some (js "<")
  else if decide (mode = MATCH_LTE) then Some (js "<=")
  else None.

(** The expression of a normalized condition on a parameter or header. *)
Definition ph_expr (c : ParamHeaderCondition) : jsstr :=
  let path := trim (path c) in
  if is_empty path then []
  else
    let sourceExpr := source_name (source c) ++ js "(" ++ quote path ++ js ")" in
    let present := match source c with
                   | Header => []
                   | Param => sourceExpr ++ js " != nil && "
                   end in
    if decide (ph_mode c = MATCH_EXISTS) then
      sourceExpr ++ match source c with Header => js " != " ++ [34; 34] | Param => js " != nil" end
    else if decide (ph_mode c = MATCH_CONTAINS) then
      present ++ js "has(" ++ sourceExpr ++ js ", " ++ buildExprLiteral (ph_mode c) (ph_value c)
      ++ js ")"
    else
      match compare_op (ph_mode c) with
      | Some op =>
          let numText := trim (ph_value c) in
          if negb (test_re NUMERIC_LITERAL_REGEX numText) then []
          else sourceExpr ++ js " != nil && " ++ sourceExpr ++ js " " ++ op ++ js " " ++ numText
      | None => sourceExpr ++ js " == " ++ buildExprLiteral (ph_mode c) (ph_value c)
      end.

Definition buildRequestConditionExpr (cond : RequestCondition) : jsstr :=
  match cond with
  | Time t => buildTimeConditionExpr t
  | PH c => match normalizeCondition (Some (as_partial (PH c))) with PH c => ph_expr c | Time _ => [] end
  end.

Definition buildRuleGroupFactor (group : RequestRuleGroup) : jsstr :=
  let multiplier := trim (multiplier group) in
  if negb (test_re NUMERIC_LITERAL_REGEX multiplier) then []
  else
    let condExprs := filter (λ e, e ≠ []) (map buildRequestConditionExpr (conditions group)) in
    let parenthesised e := if includes (js " || ") e then js "(" ++ e ++ js ")" else e in
    match condExprs with
    | [] => []
    | _ =>
        let combined := match condExprs with
                        | [e] => e
                        | _ => join (js " && ") (map parenthesised condExprs)
                        end in
        js "(" ++ combined ++ js " ? " ++ multiplier ++ js " : 1)"
    end.

Definition buildRequestRuleExpr (groups : list RequestRuleGroup) : jsstr :=
  join (js " * ") (filter (λ f, f ≠ []) (map buildRuleGroupFactor groups)).

End RequestRules.
