(* ===== verification/BillingPatterns.v ===== *)
(** * Patterns of request conditions

    The patterns of [BillingExpr] are characterised by the texts they match;
    from this follows that a single condition, as the editor writes it, is read
    back ([condition_roundtrip]). *)

From stdpp Require Import base list strings sets.
From Stdlib Require Import ZArith Lia SpecFloat.
From S2P Require Import Prelude JsString JsNumber JsValue JsJson JsRegex BillingExpr.
#[local] Open Scope Z_scope.

Import RequestRules.

(** Different literals are different. *)
Ltac lit_neq := let H := fresh in intros H; vm_compute in H; discriminate H.

(** ** Texts of the patterns *)

Definition unquoted (s : jsstr) : Prop := s ≠ [] ∧ Forall (λ c, negb (c =? 34) = true) s.
Definition numeric (s : jsstr) : Prop := s ≠ [] ∧ Forall (λ c, num_char c = true) s.

Lemma parses_dq b w t c c' : parses dq b w t c c' ↔ w = [34] ∧ c' = c.
Proof.
  unfold dq. rewrite parses_chr. split; [intros (x & -> & <-%Z.eqb_eq & ->); done|].
  intros [-> ->]. by exists 34.
Qed.

Lemma parses_num b w t c c' : parses num_text b w t c c' ↔ numeric w ∧ c' = c.
Proof. unfold num_text, numeric. rewrite parses_plus_chr. tauto. Qed.

Ltac rx_inv_hook ::=
  match goal with
  | H : parses dq _ _ _ _ _ |- _ => apply parses_dq in H as [? ?]
  | H : parses num_text _ _ _ _ _ |- _ => apply parses_num in H as [? ?]
  end.
Ltac rx_build_hook ::=
  first [apply parses_dq; split; reflexivity | apply parses_num; split; [try done|reflexivity]].

Lemma parses_quoted n b w t c c' :
  parses (quoted_text n) b w t c c' ↔
  ∃ s, w = [34] ++ s ++ [34] ∧ unquoted s ∧ c' = (n, s) :: c.
Proof.
  unfold quoted_text, unquoted. split.
  - intros H. rx_inv. eauto 10.
  - intros (s & -> & [? ?] & ->). rx_build.
Qed.

Lemma parses_words l b w t c c' : parses (words l) b w t c c' ↔ w ∈ l ∧ c' = c.
Proof.
  induction l as [|x l IH]; cbn [words].
  - rewrite parses_chr. set_solver.
  - destruct l as [|y l].
    + rewrite parses_lit_chars. set_solver.
    + rewrite parses_alt, parses_lit_chars, IH. set_solver.
Qed.

Lemma parses_func b w t c c' :
  parses (words (map func_name TIME_FUNCS)) b w t c c' ↔ (∃ f, w = func_name f) ∧ c' = c.
Proof.
  rewrite parses_words. assert (w ∈ map func_name TIME_FUNCS ↔ ∃ f, w = func_name f) as ->; [|done].
  rewrite list_elem_of_fmap. split; [naive_solver|]. intros [f ->]. exists f. split; [done|].
  destruct f; set_solver.
Qed.

(** A time function on a quoted time zone *)
Definition call_text (f tz : jsstr) : jsstr := f ++ js "(" ++ ([34] ++ tz ++ [34]) ++ js ")".

Ltac rx_inv_hook ::=
  match goal with
  | H : parses dq _ _ _ _ _ |- _ => apply parses_dq in H as [? ?]
  | H : parses num_text _ _ _ _ _ |- _ => apply parses_num in H as [? ?]
  | H : parses (quoted_text _) _ _ _ _ _ |- _ => apply parses_quoted in H as (? & ? & ? & ?)
  | H : parses (words (map func_name TIME_FUNCS)) _ _ _ _ _ |- _ =>
      apply parses_func in H as [[? ?] ?]
  | H : parses (words _) _ _ _ _ _ |- _ => apply parses_words in H as [? ?]
  end.
Ltac rx_build_hook ::=
  first [ apply parses_dq; split; reflexivity
        | apply parses_num; split; [try done|reflexivity]
        | apply parses_quoted; eexists; split_and!; [reflexivity|try done|reflexivity]
        | apply parses_func; split; [by eexists|reflexivity]
        | apply parses_words; split; [try done|reflexivity] ].

Lemma parses_call b w t c c' :
  parses time_call b w t c c' ↔
  ∃ f tz, w = call_text (func_name f) tz ∧ unquoted tz ∧ c' = (2%nat, tz) :: (1%nat, func_name f) :: c.
Proof.
  unfold time_call, call_text. split.
  - intros H. rx_inv. eauto 10.
  - intros (f & tz & -> & ? & ->). rx_build.
Qed.

Lemma parses_scalar b w t c c' :
  parses time_scalar b w t c c' ↔
  ∃ f tz op n, w = call_text (func_name f) tz ++ js " " ++ op ++ js " " ++ n ∧
    unquoted tz ∧ op ∈ [js "=="; js ">="; js "<"] ∧ numeric n ∧
    c' = (4%nat, n) :: (3%nat, op) :: (2%nat, tz) :: (1%nat, func_name f) :: c.
Proof.
  unfold time_scalar. split.
  - intros H. rx_inv. apply parses_call in H0 as (f & tz & -> & ? & ->). eauto 12.
  - intros (f & tz & op & n & -> & ? & Hop & ? & ->). eapply PSeq.
    { apply parses_call. eauto 10. } rx_build.
Qed.

Lemma parses_range b w t c c' :
  parses time_range b w t c c' ↔
  ∃ f tz n1 op n2,
    w = call_text (func_name f) tz ++ js " >= " ++ n1 ++ js " " ++ op ++ js " " ++
        func_name f ++ js "(" ++ [34] ++ tz ++ [34] ++ js ") < " ++ n2 ∧
    unquoted tz ∧ numeric n1 ∧ op ∈ [js "&&"; js "||"] ∧ numeric n2 ∧
    c' = (5%nat, n2) :: (4%nat, op) :: (3%nat, n1) :: (2%nat, tz) :: (1%nat, func_name f) :: c.
Proof.
  unfold time_range. split.
  - intros H. rx_inv. apply parses_call in H0 as (f & tz & -> & ? & ->). eauto 15.
  - intros (f & tz & n1 & op & n2 & -> & ? & ? & ? & ? & ->). eapply PSeq.
    { apply parses_call. eauto 10. }
    rx_build; apply parses_back; done.
Qed.

Lemma parses_header_exists b w t c c' :
  parses header_exists b w t c c' ↔
  ∃ p, w = js "header(" ++ ([34] ++ p ++ [34]) ++ js ") != " ++ [34] ++ [34] ∧ unquoted p ∧
       c' = (1%nat, p) :: c.
Proof.
  unfold header_exists. split; [intros; rx_inv; eauto|intros (p & -> & ? & ->); rx_build].
Qed.

Lemma parses_param_exists b w t c c' :
  parses param_exists b w t c c' ↔
  ∃ p, w = js "param(" ++ ([34] ++ p ++ [34]) ++ js ") != nil" ∧ unquoted p ∧ c' = (1%nat, p) :: c.
Proof.
  unfold param_exists. split; [intros; rx_inv; eauto|intros (p & -> & ? & ->); rx_build].
Qed.

(** A text that reads as a string literal. *)
Definition is_literal (v : jsstr) : Prop := parses string_literal [] v [] [] [].

Lemma parses_literal b w t c c' : parses string_literal b w t c c' ↔ is_literal w ∧ c' = c.
Proof. apply parses_cf_iff. repeat split. Qed.

Ltac rx_inv_hook ::=
  match goal with
  | H : parses dq _ _ _ _ _ |- _ => apply parses_dq in H as [? ?]
  | H : parses num_text _ _ _ _ _ |- _ => apply parses_num in H as [? ?]
  | H : parses (quoted_text _) _ _ _ _ _ |- _ => apply parses_quoted in H as (? & ? & ? & ?)
  | H : parses (words _) _ _ _ _ _ |- _ => apply parses_words in H as [? ?]
  | H : parses string_literal _ _ _ _ _ |- _ => apply parses_literal in H as [? ?]
  end.
Ltac rx_build_hook ::=
  first [ apply parses_dq; split; reflexivity
        | apply parses_num; split; [try done|reflexivity]
        | apply parses_quoted; eexists; split_and!; [reflexivity|try done|reflexivity]
        | apply parses_words; split; [try done|reflexivity]
        | apply parses_literal; split; [try done|reflexivity] ].

Lemma parses_header_contains b w t c c' :
  parses header_contains b w t c c' ↔
  ∃ p v, w = js "has(header(" ++ ([34] ++ p ++ [34]) ++ js "), " ++ v ++ js ")" ∧ unquoted p ∧
         is_literal v ∧ c' = (2%nat, v) :: (1%nat, p) :: c.
Proof.
  unfold header_contains. split; [intros; rx_inv; eauto 10|intros (p & v & -> & ? & ? & ->); rx_build].
Qed.

Lemma parses_param_contains b w t c c' :
  parses param_contains b w t c c' ↔
  ∃ p q v, w = js "param(" ++ ([34] ++ p ++ [34]) ++ js ") != nil && has(param(" ++
               ([34] ++ q ++ [34]) ++ js "), " ++ v ++ js ")" ∧ unquoted p ∧ unquoted q ∧
           is_literal v ∧ c' = (3%nat, v) :: (2%nat, q) :: (1%nat, p) :: c.
Proof.
  unfold param_contains. split; [intros; rx_inv; eauto 12|intros (p & q & v & -> & ? & ? & ? & ->); rx_build].
Qed.

Lemma parses_param_compare b w t c c' :
  parses param_compare b w t c c' ↔
  ∃ p q op n, w = js "param(" ++ ([34] ++ p ++ [34]) ++ js ") != nil && param(" ++
               ([34] ++ q ++ [34]) ++ js ") " ++ op ++ js " " ++ n ∧ unquoted p ∧ unquoted q ∧
           op ∈ [js ">"; js ">="; js "<"; js "<="] ∧ numeric n ∧
           c' = (4%nat, n) :: (3%nat, op) :: (2%nat, q) :: (1%nat, p) :: c.
Proof.
  unfold param_compare.
  split; [intros; rx_inv; eauto 15|intros (p & q & op & n & -> & ? & ? & ? & ? & ->); rx_build].
Qed.

Definition one_line (v : jsstr) : Prop := v ≠ [] ∧ Forall (λ c, not_newline c = true) v.

Lemma parses_equality b w t c c' :
  parses equality b w t c c' ↔
  ∃ s p v, w = s ++ js "(" ++ ([34] ++ p ++ [34]) ++ js ") == " ++ v ∧
           s ∈ [js "param"; js "header"] ∧ unquoted p ∧ one_line v ∧
           c' = (3%nat, v) :: (2%nat, p) :: (1%nat, s) :: c.
Proof.
  unfold equality, one_line.
  split; [intros; rx_inv; eauto 12|intros (s & p & v & -> & ? & ? & [? ?] & ->); rx_build].
Qed.

Lemma parses_factor b w t c c' :
  parses rule_factor b w t c c' ↔
  ∃ e n, w = js "(" ++ e ++ js " ? " ++ n ++ js " : 1)" ∧ e ≠ [] ∧ numeric n ∧
         c' = (2%nat, n) :: (1%nat, e) :: c.
Proof.
  unfold rule_factor. split; [intros; rx_inv; eauto 10|intros (e & n & -> & ? & ? & ->); rx_build].
  by apply Forall_true.
Qed.

(** ** Number literals *)

Definition is_number (s : jsstr) : bool := test_re NUMERIC_LITERAL_REGEX s.

Lemma is_number_parses s :
  is_number s = true → ∃ c, match_re NUMERIC_LITERAL_REGEX s = Some c.
Proof. unfold is_number, test_re. destruct (match_re _ _); [eauto|done]. Qed.

Lemma is_number_numeric s : is_number s = true → numeric s.
Proof.
  intros H. split; [intros ->; by vm_compute in H|].
  apply is_number_parses in H as [c Hc%match_full_sound].
  eapply parses_only; [|exact Hc].
  assert (∀ x, is_digit x = true → num_char x = true) as Hd by (unfold num_char; by intros ? ->).
  assert (∀ l x, js l ⊆ js ".eE+-" → one_of l x = true → num_char x = true) as Ho.
  { intros l x Hl Hx. unfold num_char, one_of in *. apply bool_decide_eq_true in Hx.
    rewrite (bool_decide_eq_true_2 _ (Hl _ Hx)). by rewrite orb_true_r. }
  unfold Opt, Plus. cbn [only]. split_and!; try done;
    try (apply only_lit; repeat constructor); intros x; apply Ho; set_solver.
Qed.

Lemma num_char_spec c :
  num_char c = true → 43 <= c <= 101 ∧ not_newline c = true ∧ is_ws c = false.
Proof.
  unfold num_char, one_of. rewrite orb_true_iff, bool_decide_eq_true.
  intros H. assert (43 <= c <= 101) as Hc.
  { destruct H as [H|H]; [unfold is_digit in H; lia|].
    change (js ".eE+-") with [46; 101; 69; 43; 45] in H. set_unfold in H. lia. }
  split; [done|]. split; [unfold not_newline; lia|]. unfold is_ws. lia.
Qed.

Lemma trim_all s : Forall (λ c, is_ws c = false) s → trim s = s.
Proof.
  intros H. apply trim_trimmed_id. split.
  - destruct H; done.
  - apply Forall_reverse in H. destruct (reverse s); [done|]. by apply Forall_cons in H as [? _].
Qed.

Lemma numeric_trim s : numeric s → trim s = s.
Proof. intros [_ H]. apply trim_all. eapply Forall_impl; [exact H|]. by intros c (_ & _ & ?)%num_char_spec. Qed.

Lemma in_range_number f s : isTimeValueInRange f s = true → is_number s = true.
Proof. unfold isTimeValueInRange, is_number. by destruct (test_re _ s). Qed.

Lemma in_range_numeric f s : isTimeValueInRange f s = true → numeric s.
Proof. intros H%in_range_number. by apply is_number_numeric. Qed.
#[export] Hint Resolve is_number_numeric in_range_numeric : core.

(** ** Quoted texts *)

(** A character that is written as it is and that no splitting looks at. *)
Definition plain_char (c : Z) : bool :=
  (32 <=? c) && (c <? 55296) &&
  negb ((c =? 34) || (c =? 40) || (c =? 41) || (c =? 92) || (c =? 124)).
Definition plain (s : jsstr) : Prop := s ≠ [] ∧ Forall (λ c, plain_char c = true) s.

Lemma quote_plain s : Forall (λ c, plain_char c = true) s → quote s = [34] ++ s ++ [34].
Proof.
  intros H. unfold quote. simpl. do 2 f_equal.
  induction H as [|c s Hc _ IH]; [done|]. cbn [quote_body].
  unfold plain_char in Hc. unfold is_lead, is_trail, quote_char.
  repeat case_match; try lia. by rewrite IH.
Qed.

Lemma plain_unquoted s : plain s → unquoted s.
Proof.
  intros [? H]. split; [done|]. eapply Forall_impl; [exact H|]. unfold plain_char. intros; simpl in *; lia.
Qed.
#[export] Hint Resolve plain_unquoted : core.

(** The body of a quoted text: characters other than quotes and backslashes,
    and escapes. *)
Inductive body (P : Z → Prop) : jsstr → Prop :=
| BNil : body P []
| BChr c s : c ≠ 34 → c ≠ 92 → P c → body P s → body P (c :: s)
| BEsc d s : 33 <= d <= 126 → P d → body P s → body P (92 :: d :: s).
#[export] Hint Constructors body : core.

Lemma body_app P s t : body P s → body P t → body P (s ++ t).
Proof. induction 1; simpl; auto. Qed.

Lemma hex_char_range d : 0 <= d < 16 → 48 <= hex_char d <= 102.
Proof. unfold hex_char. case_match; lia. Qed.

Lemma unicode_escape_body P c :
  (∀ d, 48 <= d <= 126 → P d) → 0 <= c < 65536 → body P (unicode_escape c).
Proof.
  intros HP Hc. unfold unicode_escape.
  pose proof (Z.mod_pos_bound (c / 256) 16). pose proof (Z.mod_pos_bound (c / 16) 16).
  pose proof (Z.mod_pos_bound c 16).
  assert (0 <= c / 4096 < 16) by (split; [apply Z.div_pos; lia|apply Z.div_lt_upper_bound; lia]).
  apply BEsc; [lia|apply HP; lia|].
  assert (∀ d s, 0 <= d < 16 → body P s → body P (hex_char d :: s)) as Hh.
  { intros d s Hd Hs. pose proof (hex_char_range d Hd).
    assert (hex_char d ≠ 92) by (unfold hex_char; case_match; lia).
    apply BChr; [lia|done|apply HP; lia|done]. }
  repeat (apply Hh; [lia|]). constructor.
Qed.

Lemma quote_char_body P c :
  (∀ d, 48 <= d <= 126 → P d) → P 34 → (32 <= c → c ≠ 34 → c ≠ 92 → P c) → 0 <= c < 65536 →
  body P (quote_char c).
Proof.
  intros HP H34 Hc Hr. unfold quote_char.
  repeat case_match; try (apply BEsc; [lia|first [done|apply HP; lia]|exact (BNil P)]).
  - by apply unicode_escape_body.
  - apply BChr; [lia|lia|apply Hc; lia|constructor].
Qed.

Lemma quote_body_body P s :
  (∀ d, 48 <= d <= 126 → P d) → P 34 →
  Forall (λ c, 0 <= c < 65536 ∧ (32 <= c → c ≠ 34 → c ≠ 92 → P c)) s → body P (quote_body s).
Proof.
  intros HP H34. induction s as [s IH] using (induction_ltof1 _ length). intros Hs.
  unfold ltof in IH. destruct s as [|c s]; [constructor|]. apply Forall_cons in Hs as [[Hr Hc] Hs].
  assert (body P (quote_body s)) as Hq by (apply IH; [simpl; lia|done]). cbn [quote_body].
  destruct (is_lead c) eqn:El; [|destruct (is_trail c) eqn:Et].
  - destruct s as [|d s]; [by apply unicode_escape_body|].
    destruct (is_trail d) eqn:Ed; [|by apply body_app; [apply unicode_escape_body|]].
    apply Forall_cons in Hs as [[Hrd Hd] Hs]. unfold is_lead, is_trail in *.
    apply BChr; [lia|lia|apply Hc; lia|]. apply BChr; [lia|lia|apply Hd; lia|].
    apply IH; [simpl; lia|done].
  - by apply body_app; [apply unicode_escape_body|].
  - by apply body_app; [apply quote_char_body|].
Qed.

Lemma code_units_spec s : code_units s = true ↔ Forall (λ c, 0 <= c < 65536) s.
Proof.
  unfold code_units. rewrite forallb_forall, Forall_forall. setoid_rewrite list_elem_of_In.
  split; intros H x Hx; specialize (H x Hx); simpl in *; lia.
Qed.

Lemma quote_any s : code_units s = true → body (λ _, True) (quote_body s).
Proof.
  intros H%code_units_spec. apply quote_body_body; [done..|]. eapply Forall_impl; [exact H|]. auto.
Qed.

Lemma body_literal P s : body P s → is_literal ([34] ++ s ++ [34]).
Proof.
  intros Hs. unfold is_literal, string_literal. eapply PSeq; [by apply parses_dq|].
  eapply (PSeq _ _ _ s); [|by apply parses_dq]. generalize (reverse [34] ++ []) as b.
  induction Hs as [|c s H34 H92 _ Hs IH|d s Hd _ Hs IH]; intros b; [constructor| |].
  - apply (PStarS _ _ [c] s _ [] []); [done| |apply IH]. apply PAltL, PChr.
    apply Z.eqb_neq in H34, H92. by rewrite H34, H92.
  - apply (PStarS _ _ [92; d] s _ [] []); [done| |apply IH]. apply PAltR.
    eapply (PSeq _ _ _ [92] [d]); [by apply parses_lit|]. apply PChr. unfold not_newline. lia.
Qed.

Lemma quote_literal s : code_units s = true → is_literal (quote s).
Proof. intros H%quote_any. by eapply body_literal. Qed.

Lemma quote_parses s : code_units s = true → JSON_parse (quote s) = Ok (JStr s).
Proof.
  intros H. destruct (json_roundtrip (JStr s) H) as (t & Ht & Hp). injection Ht as <-. done.
Qed.

Lemma quote_string_literal s : code_units s = true → parse_string_literal (quote s) = Ok s.
Proof. intros H. unfold parse_string_literal. by rewrite quote_parses. Qed.

(** A separator-free text stays on one line when quoted. *)
Definition no_separator (s : jsstr) : Prop := Forall (λ c, c ≠ 8232 ∧ c ≠ 8233) s.

Lemma body_one_line s : body (λ c, not_newline c = true) s → Forall (λ c, not_newline c = true) s.
Proof. induction 1; repeat constructor; auto. Qed.

Lemma quote_one_line s : code_units s = true → no_separator s → one_line (quote s).
Proof.
  intros H%code_units_spec Hs. split; [done|]. unfold quote. constructor; [done|].
  apply Forall_app. split; [|by repeat constructor]. apply body_one_line, quote_body_body; [|done|].
  - intros d Hd. unfold not_newline. lia.
  - pose proof (conj H Hs) as Hb. apply Forall_and in Hb.
    eapply Forall_impl; [exact Hb|]. intros c [? ?]. split; [done|].
    intros. unfold not_newline. lia.
Qed.

Lemma quote_trim s : trim (quote s) = quote s.
Proof.
  apply trim_trimmed_id. unfold quote. split; [done|].
  change (34 :: quote_body s ++ [34]) with ((34 :: quote_body s) ++ [34]). by rewrite reverse_app.
Qed.

Lemma quote_not_number s : is_number (quote s) = false.
Proof.
  destruct (is_number (quote s)) eqn:E; [|done]. apply is_number_numeric in E as [_ H].
  unfold quote in H. by apply Forall_cons in H as [? _].
Qed.

(** ** Literals *)

Lemma literal_eq_roundtrip v :
  trim v = v → code_units v = true →
  parseExprLiteral (buildExprLiteral MATCH_EQ v) = JStr v.
Proof.
  intros Ht Hc. unfold buildExprLiteral, parseExprLiteral. rewrite Ht.
  rewrite (decide_False (P := MATCH_EQ = MATCH_CONTAINS)) by lit_neq.
  destruct (decide (v = js "true" ∨ v = js "false")).
  { rewrite Ht. by rewrite decide_True. }
  fold (is_number v). destruct (is_number v) eqn:E.
  { rewrite Ht. rewrite decide_False by done. unfold is_number in E. by rewrite E. }
  rewrite quote_trim, decide_False by (unfold quote; intros [H|H]; discriminate).
  fold (is_number (quote v)). rewrite quote_not_number. by rewrite quote_parses.
Qed.

Lemma literal_eq_one_line v :
  trim v = v → code_units v = true → no_separator v → one_line (buildExprLiteral MATCH_EQ v).
Proof.
  intros Ht Hc Hs. unfold buildExprLiteral. rewrite Ht, decide_False by lit_neq.
  destruct (decide _) as [[-> | ->]|_]; [split; [done|repeat constructor]..|].
  fold (is_number v). destruct (is_number v) eqn:E; [|by apply quote_one_line].
  apply is_number_numeric in E as [? H]. split; [done|]. eapply Forall_impl; [exact H|].
  by intros c (_ & ? & _)%num_char_spec.
Qed.

(** ** Time conditions *)

Lemma func_name_no_paren f : Forall (λ c, negb (c =? 40) = true) (func_name f).
Proof. destruct f; repeat constructor. Qed.

Lemma func_name_inj f f' : func_name f = func_name f' → f = f'.
Proof. destruct f, f'; try done; lit_neq. Qed.

Lemma isTimeFunc_name f : isTimeFunc (func_name f) = Some f.
Proof. by destruct f. Qed.

Lemma call_inj f tz f' tz' r r' :
  Forall (λ c, negb (c =? 40) = true) f → Forall (λ c, negb (c =? 40) = true) f' →
  unquoted tz → unquoted tz' →
  call_text f tz ++ r = call_text f' tz' ++ r' → f = f' ∧ tz = tz' ∧ r = r'.
Proof.
  intros Hf Hf' [_ Htz] [_ Htz'] E. unfold call_text in E.
  change (js "(") with [40] in E. change (js ")") with [41] in E.
  rewrite <-!app_assoc in E. cbn [app] in E.
  apply (sep_inj (λ c, negb (c =? 40))) in E as (-> & _ & E); [|done..].
  simplify_eq.
  apply (sep_inj (λ c, negb (c =? 34))) in E as (-> & _ & E); [|done..].
  by simplify_eq.
Qed.

Lemma func_call_inj f tz f' tz' r r' :
  unquoted tz → unquoted tz' →
  call_text (func_name f) tz ++ r = call_text (func_name f') tz' ++ r' → f = f' ∧ tz = tz' ∧ r = r'.
Proof.
  intros Htz Htz' E. apply call_inj in E as (E%func_name_inj & ? & ?); auto using func_name_no_paren.
Qed.

Lemma numeric_no_space s u r : numeric s → s ≠ u ++ 32 :: r.
Proof.
  intros [_ H] ->. apply Forall_app in H as [_ H]. apply Forall_cons in H as [H _].
  by vm_compute in H.
Qed.

Lemma numeric_sep s s' r r' :
  numeric s → numeric s' → s ++ 32 :: r = s' ++ 32 :: r' → s = s' ∧ r = r'.
Proof. intros [_ H] [_ H'] E. by apply (sep_inj num_char) in E as (-> & _ & ->). Qed.

Ltac js_lits_in H :=
  repeat match type of H with context [js ?s] =>
    let v := eval vm_compute in (js s) in change (js s) with v in H end;
  rewrite <-?app_assoc in H; cbn [app] in H.

Ltac js_lits :=
  repeat match goal with |- context [js ?s] =>
    let v := eval vm_compute in (js s) in change (js s) with v end;
  rewrite <-?app_assoc; cbn [app].

(** The texts the builder writes for a time condition. *)
Definition scalar_text (f : TimeFunc) (tz op n : jsstr) : jsstr :=
  call_text (func_name f) tz ++ js " " ++ op ++ js " " ++ n.
Definition range_text (f : TimeFunc) (tz n1 op n2 : jsstr) : jsstr :=
  call_text (func_name f) tz ++ js " >= " ++ n1 ++ js " " ++ op ++ js " " ++
  func_name f ++ js "(" ++ [34] ++ tz ++ [34] ++ js ") < " ++ n2.

Definition scalar_caps (f : TimeFunc) (tz op n : jsstr) : captures :=
  [(4%nat, n); (3%nat, op); (2%nat, tz); (1%nat, func_name f)].
Definition range_caps (f : TimeFunc) (tz n1 op n2 : jsstr) : captures :=
  [(5%nat, n2); (4%nat, op); (3%nat, n1); (2%nat, tz); (1%nat, func_name f)].

Lemma scalar_not_range f tz op n :
  unquoted tz → op ∈ [js "=="; js ">="; js "<"] → numeric n →
  match_re (full time_range) (scalar_text f tz op n) = None.
Proof.
  intros Htz Hop Hn. apply match_full_none. intros c (f' & tz' & n1 & op' & n2 & E & Htz' & _)%parses_range.
  apply func_call_inj in E as (_ & _ & E); [|done..]. js_lits_in E.
  set_unfold in Hop. destruct_or! Hop; subst op; js_lits_in E; simplify_eq.
  by eapply numeric_no_space.
Qed.

Lemma call_not_paren f tz r : ∃ c t, call_text (func_name f) tz ++ r = c :: t ∧ c ≠ 40 ∧ is_ws c = false.
Proof. by destruct f; do 2 eexists; (split; [reflexivity|]). Qed.

Lemma call_not_in_parens f tz r :
  match_re (full (lit "(" · time_range · lit ")")) (call_text (func_name f) tz ++ r) = None.
Proof.
  destruct (call_not_paren f tz r) as (c & t & -> & Hc & _).
  apply match_full_none. intros m (w1 & w2 & c1 & E & [-> _]%parses_lit & _)%parses_seq.
  js_lits_in E. by simplify_eq.
Qed.

Lemma scalar_matches f tz op n :
  unquoted tz → op ∈ [js "=="; js ">="; js "<"] → numeric n →
  match_re (full time_scalar) (scalar_text f tz op n) = Some (scalar_caps f tz op n).
Proof.
  intros Htz Hop Hn. apply match_full_unique; [apply parses_scalar; eauto 10|].
  intros c (f' & tz' & op' & n' & E & Htz' & Hop' & Hn' & ->)%parses_scalar.
  apply func_call_inj in E as (-> & -> & E); [|done..]. unfold scalar_caps.
  set_unfold in Hop. set_unfold in Hop'. destruct_or! Hop; destruct_or! Hop'; subst;
    js_lits_in E; by simplify_eq.
Qed.

Lemma range_unique f tz n1 op n2 b t c :
  unquoted tz → numeric n1 → op ∈ [js "&&"; js "||"] → numeric n2 →
  parses time_range b (range_text f tz n1 op n2) t [] c → c = range_caps f tz n1 op n2.
Proof.
  intros Htz Hn1 Hop Hn2 (f' & tz' & n1' & op' & n2' & E & Htz' & Hn1' & Hop' & Hn2' & ->)%parses_range.
  apply func_call_inj in E as (-> & -> & E); [|done..]. unfold range_caps. js_lits_in E.
  injection E as E. apply numeric_sep in E as [-> E]; [|done..].
  set_unfold in Hop. set_unfold in Hop'. destruct_or! Hop; destruct_or! Hop'; subst;
    js_lits_in E; simplify_eq; done.
Qed.

Lemma range_matches f tz n1 op n2 :
  unquoted tz → numeric n1 → op ∈ [js "&&"; js "||"] → numeric n2 →
  match_re (full time_range) (range_text f tz n1 op n2) = Some (range_caps f tz n1 op n2).
Proof.
  intros. apply match_full_unique; [apply parses_range; eauto 15|]. intros c. by apply range_unique.
Qed.

Lemma range_in_parens_matches f tz n1 op n2 :
  unquoted tz → numeric n1 → op ∈ [js "&&"; js "||"] → numeric n2 →
  match_re (full time_range) (js "(" ++ range_text f tz n1 op n2 ++ js ")") = None ∧
  match_re (full (lit "(" · time_range · lit ")")) (js "(" ++ range_text f tz n1 op n2 ++ js ")")
  = Some (range_caps f tz n1 op n2).
Proof.
  intros Htz Hn1 Hop Hn2. split.
  - apply match_full_none. intros c (f' & tz' & n1' & op' & n2' & E & _)%parses_range.
    destruct f'; js_lits_in E; discriminate.
  - apply match_full_unique.
    + eapply PSeq; [by apply parses_lit|]. eapply PSeq; [|by apply parses_lit].
      apply parses_range. eauto 15.
    + intros c (w1 & w2 & c1 & E & [-> ->]%parses_lit & (w3 & w4 & c2 & -> & H & [-> ->]%parses_lit)%parses_seq)%parses_seq.
      apply app_inv_head, app_inv_tail in E as <-. by eapply range_unique.
Qed.

Definition wf_time (t : TimeCondition) : Prop :=
  plain (timezone t) ∧
  (mode t = MATCH_RANGE ∧ value t = [] ∧ isTimeValueInRange (timeFunc t) (rangeStart t) = true ∧
   isTimeValueInRange (timeFunc t) (rangeEnd t) = true ∨
   mode t ∈ [MATCH_EQ; MATCH_GTE; MATCH_LT] ∧ isTimeValueInRange (timeFunc t) (value t) = true ∧
   rangeStart t = [] ∧ rangeEnd t = []).

Lemma plain_no_backslash s : plain s → includes [92] s = false.
Proof.
  intros [_ H]. unfold includes. assert (index_of [92] s = None) as ->; [|done].
  induction H as [|c s Hc _ IH]; [done|]. cbn [index_of starts_with].
  unfold plain_char in Hc. replace (92 =? c) with false by lia. by rewrite IH.
Qed.

(** The conjunction the builder writes between the bounds of a range. *)
Definition range_op (s e : jsstr) : jsstr :=
  if num_ltb (str_to_num e) (str_to_num s) then js "||" else js "&&".

Lemma range_condition_caps f tz n1 n2 :
  plain tz → isTimeValueInRange f n1 = true → isTimeValueInRange f n2 = true →
  range_condition (range_caps f tz n1 (range_op n1 n2) n2) = Some (MkTime f tz MATCH_RANGE [] n1 n2).
Proof.
  intros Htz H1 H2. unfold range_condition, captured_func, grp, range_caps. cbn [cap Nat.eqb default from_option].
  unfold Datatypes.id. rewrite plain_no_backslash by done. rewrite isTimeFunc_name. cbn [from_option].
  unfold Datatypes.id. rewrite H1, H2. cbn [negb orb].
  rewrite bool_decide_eq_false_2; [done|]. unfold range_op. naive_solver.
Qed.

Lemma range_op_in s e : range_op s e ∈ [js "&&"; js "||"].
Proof. unfold range_op. case_match; set_solver. Qed.
#[export] Hint Resolve range_op_in : core.

Lemma scalar_mode_neq m : m ∈ [MATCH_EQ; MATCH_GTE; MATCH_LT] → m ≠ MATCH_RANGE.
Proof. intros H. set_unfold in H. destruct_or! H; subst m; lit_neq. Qed.

Lemma scalar_op_in m : m ∈ [MATCH_EQ; MATCH_GTE; MATCH_LT] → scalar_op m ∈ [js "=="; js ">="; js "<"].
Proof.
  intros H. set_unfold in H. destruct_or! H; subst m; apply (bool_decide_unpack _); vm_compute; exact I.
Qed.

Lemma scalar_op_mode m : m ∈ [MATCH_EQ; MATCH_GTE; MATCH_LT] → scalar_mode (scalar_op m) = m.
Proof. intros H. set_unfold in H. destruct_or! H; subst m; vm_compute; reflexivity. Qed.

(** The expression of a well-formed time condition, in and out of parentheses. *)
Lemma time_expr_text t :
  wf_time t →
  time_expr t = (if decide (mode t = MATCH_RANGE)
                 then range_text (timeFunc t) (timezone t) (rangeStart t)
                        (range_op (rangeStart t) (rangeEnd t)) (rangeEnd t)
                 else scalar_text (timeFunc t) (timezone t) (scalar_op (mode t)) (value t)).
Proof.
  intros [[_ Htz] Hm]. unfold time_expr. rewrite quote_plain by done.
  destruct Hm as [(Hm & Hv & H1 & H2)|(Hm & Hv & _ & _)].
  - rewrite !decide_True by done. rewrite !numeric_trim by eauto. rewrite H1, H2. cbn [negb orb].
    unfold range_text, range_op, call_text. case_match; js_lits; done.
  - pose proof (scalar_mode_neq _ Hm).
    rewrite !decide_False by done. rewrite numeric_trim by eauto. rewrite Hv. cbn [negb].
    unfold scalar_text, call_text. js_lits. done.
Qed.

Lemma time_roundtrip t : wf_time t → tryParseTimeCondition (time_expr t) = Some t.
Proof.
  intros Hwf. rewrite time_expr_text by done. destruct Hwf as [Htz Hm].
  destruct t as [f tz m v s e]. cbn [timeFunc timezone mode value rangeStart rangeEnd] in *.
  unfold tryParseTimeCondition. destruct Hm as [(-> & -> & H1 & H2)|(Hm & Hv & -> & ->)].
  - rewrite decide_True, range_matches by eauto. by apply range_condition_caps.
  - pose proof (scalar_mode_neq _ Hm).
    pose proof (scalar_op_in _ Hm) as Hop. pose proof (scalar_op_mode _ Hm) as Hmode.
    rewrite decide_False by done. rewrite scalar_not_range by eauto. cbn [or_else].
    unfold scalar_text. rewrite call_not_in_parens. fold (scalar_text f tz (scalar_op m) v).
    rewrite scalar_matches by eauto. unfold captured_func, grp, scalar_caps.
    cbn [cap Nat.eqb default from_option]. unfold Datatypes.id. rewrite isTimeFunc_name.
    cbn [from_option]. unfold Datatypes.id. rewrite plain_no_backslash, Hv, Hmode by done. done.
Qed.

Lemma time_parens_roundtrip t :
  wf_time t → mode t = MATCH_RANGE → tryParseTimeCondition (js "(" ++ time_expr t ++ js ")") = Some t.
Proof.
  intros Hwf Hm. rewrite time_expr_text, decide_True by done. destruct Hwf as [Htz Hwf].
  destruct t as [f tz m v s e]. cbn [timeFunc timezone mode value rangeStart rangeEnd] in *. subst m.
  destruct Hwf as [(_ & -> & H1 & H2)|(Hm & _)]; [|by vm_compute in Hm; set_unfold in Hm; destruct_or! Hm].
  destruct (range_in_parens_matches f tz s (range_op s e) e) as [E1 E2]; eauto.
  unfold tryParseTimeCondition. rewrite E1, E2. by apply range_condition_caps.
Qed.

(** ** Conditions on parameters and headers *)

Lemma not_time text :
  (∀ f tz r, text ≠ call_text (func_name f) tz ++ r) → (∀ r, text ≠ 40 :: r) →
  tryParseTimeCondition text = None.
Proof.
  intros Hc Hp. unfold tryParseTimeCondition.
  rewrite (match_full_none time_range), (match_full_none (lit "(" · time_range · lit ")")),
    (match_full_none time_scalar); [done|..].
  - intros c (f & tz & op & n & E & _)%parses_scalar. by eapply Hc.
  - intros c (w1 & w2 & c1 & E & [-> _]%parses_lit & _)%parses_seq. exact (Hp w2 E).
  - intros c (f & tz & n1 & op & n2 & E & _)%parses_range. by eapply Hc.
Qed.

(** A condition the editor writes and reads back: a comparison or containment
    on a parameter is written as two conditions (see [param_checks_unreadable]). *)
Definition wf_ph (c : ParamHeaderCondition) : Prop :=
  plain (path c) ∧ trim (path c) = path c ∧
  (ph_mode c = MATCH_EXISTS ∧ ph_value c = [] ∨
   trim (ph_value c) = ph_value c ∧ code_units (ph_value c) = true ∧
   (ph_mode c = MATCH_CONTAINS ∧ source c = Header ∨
    ph_mode c = MATCH_EQ ∧ no_separator (ph_value c))).

Definition ph_call (c : ParamHeaderCondition) : jsstr := call_text (source_name (source c)) (path c).

Lemma ph_expr_text c :
  wf_ph c →
  ph_expr c =
    if decide (ph_mode c = MATCH_EXISTS)
    then ph_call c ++ match source c with Header => js " != " ++ [34; 34] | Param => js " != nil" end
    else if decide (ph_mode c = MATCH_CONTAINS)
    then js "has(" ++ ph_call c ++ js ", " ++ quote (ph_value c) ++ js ")"
    else ph_call c ++ js " == " ++ buildExprLiteral MATCH_EQ (ph_value c).
Proof.
  intros ([Hne Hp] & Ht & Hm). unfold ph_expr. rewrite Ht, quote_plain by done.
  assert (is_empty (path c) = false) as -> by by destruct (path c).
  fold (call_text (source_name (source c)) (path c)). fold (ph_call c).
  destruct Hm as [(-> & _)|(Hv & Hc & [(-> & ->)|(-> & _)])].
  - by rewrite !decide_True.
  - rewrite !(decide_False (P := MATCH_CONTAINS = MATCH_EXISTS)) by lit_neq.
    rewrite !decide_True by done. cbn [app]. unfold buildExprLiteral.
    rewrite decide_True, Hv by done. done.
  - rewrite !(decide_False (P := MATCH_EQ = MATCH_EXISTS)), !(decide_False (P := MATCH_EQ = MATCH_CONTAINS))
      by lit_neq.
    assert (compare_op MATCH_EQ = None) as -> by (vm_compute; reflexivity). done.
Qed.

Lemma source_no_paren s : Forall (λ c, negb (c =? 40) = true) (source_name s).
Proof. destruct s; repeat constructor. Qed.

Ltac text_clash E := js_lits_in E; cbv [source_name func_name call_text] in E; js_lits_in E; discriminate E.

Lemma call_not_time s p r : tryParseTimeCondition (call_text (source_name s) p ++ r) = None.
Proof.
  apply not_time.
  - intros f tz r' E. destruct s, f; text_clash E.
  - intros r' E. destruct s; text_clash E.
Qed.

Lemma has_not_time r : tryParseTimeCondition (js "has(" ++ r) = None.
Proof.
  apply not_time.
  - intros f tz r' E. destruct f; text_clash E.
  - intros r' E. text_clash E.
Qed.

(** The texts of the patterns as a call and what follows it. *)
Lemma header_exists_inv b w t c c' :
  parses header_exists b w t c c' →
  ∃ p, w = call_text (source_name Header) p ++ js " != " ++ [34; 34] ∧ unquoted p ∧ c' = (1%nat, p) :: c.
Proof.
  intros (p & -> & ? & ->)%parses_header_exists. exists p. split; [|done].
  unfold call_text, source_name. js_lits. done.
Qed.

Lemma param_exists_inv b w t c c' :
  parses param_exists b w t c c' →
  ∃ p, w = call_text (source_name Param) p ++ js " != nil" ∧ unquoted p ∧ c' = (1%nat, p) :: c.
Proof.
  intros (p & -> & ? & ->)%parses_param_exists. exists p. split; [|done].
  unfold call_text, source_name. js_lits. done.
Qed.

Lemma param_pair_inv r b w t c c' :
  r = param_contains ∨ r = param_compare → parses r b w t c c' →
  ∃ p u, w = call_text (source_name Param) p ++ js " != nil && " ++ u ∧ unquoted p.
Proof.
  intros [-> | ->].
  - intros (p & q & v & -> & ? & _)%parses_param_contains.
    exists p, (js "has(param(" ++ ([34] ++ q ++ [34]) ++ js "), " ++ v ++ js ")"). split; [|done].
    unfold call_text, source_name. js_lits. done.
  - intros (p & q & op & n & -> & ? & _)%parses_param_compare.
    exists p, (js "param(" ++ ([34] ++ q ++ [34]) ++ js ") " ++ op ++ js " " ++ n). split; [|done].
    unfold call_text, source_name. js_lits. done.
Qed.

Lemma equality_inv b w t c c' :
  parses equality b w t c c' →
  ∃ s p v, w = call_text (source_name s) p ++ js " == " ++ v ∧ unquoted p ∧
           c' = (3%nat, v) :: (2%nat, p) :: (1%nat, source_name s) :: c.
Proof.
  intros (s & p & v & -> & Hs & ? & _ & ->)%parses_equality.
  set_unfold in Hs. destruct Hs as [->|[->|[]]]; [exists Param, p, v|exists Header, p, v];
    (split; [unfold call_text, source_name; js_lits; done|done]).
Qed.

Lemma source_call_inj s p s' p' r r' :
  unquoted p → unquoted p' →
  call_text (source_name s) p ++ r = call_text (source_name s') p' ++ r' → s = s' ∧ p = p' ∧ r = r'.
Proof.
  intros Hp Hp' E. apply call_inj in E as (E & ? & ?); auto using source_no_paren.
  split; [|done]. destruct s, s'; try done; by vm_compute in E.
Qed.

(** The patterns tried on a call followed by [r]. *)
Lemma exists_match s p r :
  unquoted p →
  match_re (full header_exists) (call_text (source_name s) p ++ r)
  = (if decide (s = Header ∧ r = js " != " ++ [34; 34]) then Some [(1%nat, p)] else None) ∧
  match_re (full param_exists) (call_text (source_name s) p ++ r)
  = (if decide (s = Param ∧ r = js " != nil") then Some [(1%nat, p)] else None).
Proof.
  intros Hp. split; case_decide as E.
  - destruct E as [-> ->]. apply match_full_unique.
    + apply parses_header_exists. exists p. split; [|done]. unfold call_text, source_name. js_lits. done.
    + intros c (p' & E & ? & ->)%header_exists_inv. by apply source_call_inj in E as (_ & -> & _).
  - apply match_full_none. intros c (p' & E' & ? & ->)%header_exists_inv.
    apply source_call_inj in E' as (-> & _ & ->); auto.
  - destruct E as [-> ->]. apply match_full_unique.
    + apply parses_param_exists. exists p. split; [|done]. unfold call_text, source_name. js_lits. done.
    + intros c (p' & E & ? & ->)%param_exists_inv. by apply source_call_inj in E as (_ & -> & _).
  - apply match_full_none. intros c (p' & E' & ? & ->)%param_exists_inv.
    apply source_call_inj in E' as (-> & _ & ->); auto.
Qed.

Lemma call_not_contains s p r : match_re (full header_contains) (call_text (source_name s) p ++ r) = None.
Proof.
  apply match_full_none. intros c (p' & v & E & _)%parses_header_contains. destruct s; text_clash E.
Qed.

Lemma equality_not_pair s p v r :
  unquoted p → r = param_contains ∨ r = param_compare →
  match_re (full r) (call_text (source_name s) p ++ js " == " ++ v) = None.
Proof.
  intros Hp Hr. apply match_full_none. intros c (p' & u & E & ?)%param_pair_inv; [|done].
  apply source_call_inj in E as (_ & _ & E); [|done..]. text_clash E.
Qed.

Lemma equality_matches s p v :
  unquoted p → one_line v →
  match_re (full equality) (call_text (source_name s) p ++ js " == " ++ v)
  = Some [(3%nat, v); (2%nat, p); (1%nat, source_name s)].
Proof.
  intros Hp Hv. apply match_full_unique.
  - apply parses_equality. exists (source_name s), p, v. split_and!; [|destruct s; set_solver|done..].
    unfold call_text. js_lits. done.
  - intros c (s' & p' & v' & E & ? & ->)%equality_inv.
    apply source_call_inj in E as (-> & -> & E); [|done..]. by apply app_inv_head in E as ->.
Qed.

Lemma header_contains_matches p v :
  unquoted p → is_literal v →
  let text := js "has(" ++ call_text (source_name Header) p ++ js ", " ++ v ++ js ")" in
  match_re (full header_exists) text = None ∧ match_re (full param_exists) text = None ∧
  match_re (full header_contains) text = Some [(2%nat, v); (1%nat, p)].
Proof.
  intros Hp Hv text. unfold text. split_and!.
  - apply match_full_none. intros c (p' & E & _)%header_exists_inv. text_clash E.
  - apply match_full_none. intros c (p' & E & _)%param_exists_inv. text_clash E.
  - apply match_full_unique.
    + apply parses_header_contains. exists p, v. split; [|done]. unfold call_text, source_name. js_lits. done.
    + intros c (p' & v' & E & [_ Hp'] & _ & ->)%parses_header_contains.
      unfold call_text, source_name in E. js_lits_in E. injection E as E.
      apply (sep_inj (λ c, negb (c =? 34))) in E as (-> & _ & E); [|by destruct Hp|done..].
      injection E as E. by apply app_inv_tail in E as ->.
Qed.

Lemma ph_roundtrip c : wf_ph c → tryParseRequestCondition (ph_expr c) = Ok (Some (PH c)).
Proof.
  intros Hwf. rewrite ph_expr_text by done. destruct Hwf as (Hp & Ht & Hm).
  destruct c as [s p m v]. unfold ph_call. cbn [source path ph_mode ph_value] in *.
  assert (unquoted p) as Hu by auto.
  destruct Hm as [(-> & ->)|(Hv & Hc & [(-> & ->)|(-> & Hs)])]; unfold tryParseRequestCondition.
  - rewrite decide_True, call_not_time by done.
    destruct (exists_match s p (match s with Header => js " != " ++ [34; 34] | Param => js " != nil" end) Hu)
      as [-> ->].
    destruct s; [rewrite decide_False, decide_True by naive_solver|rewrite decide_True by naive_solver]; done.
  - rewrite decide_False, decide_True by (done || lit_neq). rewrite has_not_time.
    destruct (header_contains_matches p (quote v)) as (-> & -> & ->); [done|by apply quote_literal|].
    unfold grp. cbn [cap Nat.eqb default from_option]. unfold Datatypes.id.
    by rewrite quote_string_literal.
  - rewrite !decide_False by lit_neq. rewrite call_not_time.
    destruct (exists_match s p (js " == " ++ buildExprLiteral MATCH_EQ v) Hu) as [-> ->].
    rewrite !decide_False by (intros [_ E]; text_clash E).
    rewrite call_not_contains, !equality_not_pair by auto. cbn [mbind option_bind].
    rewrite equality_matches by (done || by apply literal_eq_one_line).
    unfold grp. cbn [cap Nat.eqb default from_option]. unfold Datatypes.id.
    rewrite literal_eq_roundtrip by done. cbn [strict_eq to_str res_bind]. by destruct s.
Qed.

(** ** One condition *)

Definition wf_condition (c : RequestCondition) : Prop :=
  match c with Time t => wf_time t | PH c => wf_ph c end.

Lemma offered_mode_id source m dflt :
  m ∈ (getRequestRuleMatchOptions source).*1 → offered_mode source (Some m) dflt = m.
Proof. intros H. unfold offered_mode. by rewrite decide_True. Qed.

(** The modes the editor offers for a source. *)
Lemma time_mode_offered t :
  wf_time t → mode t ∈ (getRequestRuleMatchOptions (js "time")).*1.
Proof.
  intros [_ [(-> & _)|(Hm & _)]]; [apply (bool_decide_unpack _); vm_compute; exact I|].
  set_unfold in Hm. destruct_or! Hm; rewrite Hm; apply (bool_decide_unpack _); vm_compute; exact I.
Qed.

Lemma ph_mode_offered c :
  wf_ph c → ph_mode c ∈ (getRequestRuleMatchOptions (source_name (source c))).*1.
Proof.
  intros (_ & _ & [(-> & _)|(_ & _ & [(-> & ->)|(-> & _)])]); [destruct (source c)| |destruct (source c)];
    apply (bool_decide_unpack _); vm_compute; exact I.
Qed.

Lemma normalize_wf c : wf_condition c → normalizeCondition (Some (as_partial c)) = c.
Proof.
  destruct c as [t|c]; cbn [wf_condition]; intros Hwf; unfold normalizeCondition;
    cbn [as_partial mbind option_bind p_source p_path p_timeFunc p_timezone p_mode p_value
         p_rangeStart p_rangeEnd default from_option]; unfold Datatypes.id.
  - rewrite decide_True by done. rewrite isTimeFunc_name, offered_mode_id by by apply time_mode_offered.
    cbn [from_option]. destruct Hwf as [[Hne _] _]. destruct t as [f tz m v s e]. simpl in *.
    by destruct tz.
  - assert (Some (source_name (source c)) ≠ Some (js "time")) by (destruct (source c); lit_neq).
    rewrite decide_False by done.
    assert ((if decide (Some (source_name (source c)) = Some (js "header")) then Header else Param)
            = source c) as -> by by destruct (source c).
    rewrite offered_mode_id by by apply ph_mode_offered. by destruct c.
Qed.

Lemma build_wf c :
  wf_condition c →
  buildRequestConditionExpr c = match c with Time t => time_expr t | PH c => ph_expr c end.
Proof.
  intros Hwf. pose proof (normalize_wf c Hwf) as H. destruct c as [t|c];
    cbn [buildRequestConditionExpr]; [unfold buildTimeConditionExpr|]; by rewrite H.
Qed.

Lemma condition_roundtrip c :
  wf_condition c → tryParseRequestCondition (buildRequestConditionExpr c) = Ok (Some c).
Proof.
  intros Hwf. rewrite build_wf by done. destruct c as [t|c]; [|by apply ph_roundtrip].
  unfold tryParseRequestCondition. by rewrite time_roundtrip.
Qed.
