(* ===== verification/BillingRules.v ===== *)
(** * Request rules: what the editor writes it reads back

    Splitting a text at its top-level conjunctions and products, the shortcut
    for time ranges, and the theorems on whole rule expressions of
    [features/pricing/lib/billing-expr.ts]: reading back what was written
    ([rules_roundtrip], [split_combine]) and where reading departs from
    writing. *)

From stdpp Require Import base list strings sets.
From Stdlib Require Import ZArith Lia SpecFloat.
From S2P Require Import Prelude JsString JsNumber JsValue JsJson JsRegex BillingExpr BillingPatterns.
#[local] Open Scope Z_scope.

Import RequestRules.

(** ** Splitting at conjunctions *)

(** At depth [d], outside quotes, [w] is passed over. *)
Definition skips (d : Z) (w : jsstr) : Prop :=
  ∀ cur r, split_and d false cur (w ++ r) = split_and d false (reverse w ++ cur) r.

Lemma skips_nil d : skips d [].
Proof. done. Qed.

Lemma skips_app d a b : skips d a → skips d b → skips d (a ++ b).
Proof. intros Ha Hb cur r. rewrite <-app_assoc, Ha, Hb, reverse_app, <-app_assoc. done. Qed.

(** Characters that are no quote, parenthesis, blank or bar. *)
Definition inert (c : Z) : bool :=
  negb ((c =? 34) || (c =? 40) || (c =? 41) || (c =? 32) || (c =? 124)).

Lemma skips_inert d w : 0 <= d → Forall (λ c, inert c = true) w → skips d w.
Proof.
  intros Hd H. induction H as [|c w Hc _ IH]; [done|]. apply (skips_app d [c] w); [|done].
  intros cur r. unfold inert in Hc. cbn [app split_and andb].
  replace (c =? 34) with false by lia. replace (c =? 40) with false by lia.
  replace (c =? 41) with false by lia. replace (d <? 0) with false by lia.
  assert (starts_with (js "||") (c :: r) = false) as ->
    by (change (js "||") with [124; 124]; cbn [starts_with]; replace (124 =? c) with false by lia; done).
  assert (starts_with (js " && ") (c :: r) = false) as ->
    by (change (js " && ") with [32; 38; 38; 32]; cbn [starts_with]; replace (32 =? c) with false by lia; done).
  rewrite !andb_false_r. done.
Qed.

Lemma skips_deep d w : 0 < d → Forall (λ c, c ≠ 34 ∧ c ≠ 40 ∧ c ≠ 41) w → skips d w.
Proof.
  intros Hd H. induction H as [|c w Hc _ IH]; [done|]. apply (skips_app d [c] w); [|done].
  intros cur r. cbn [app split_and andb].
  replace (c =? 34) with false by lia. replace (c =? 40) with false by lia.
  replace (c =? 41) with false by lia. replace (d <? 0) with false by lia.
  replace (d =? 0) with false by lia. done.
Qed.

Lemma skips_space x w : x ≠ 38 → skips 0 (x :: w) → skips 0 (32 :: x :: w).
Proof.
  intros Hx H cur r. rewrite (reverse_cons _ 32), <-app_assoc. cbn [app]. rewrite <-(H (32 :: cur) r).
  cbn [app]. set (t := x :: w ++ r). cbn [split_and andb Z.eqb Z.ltb Z.compare Pos.eqb orb]. unfold t.
  assert (starts_with (js "||") (32 :: x :: w ++ r) = false) as -> by done.
  assert (starts_with (js " && ") (32 :: x :: w ++ r) = false) as ->.
  { change (js " && ") with [32; 38; 38; 32]. cbn [starts_with]. replace (38 =? x) with false by lia. done. }
  done.
Qed.

Lemma in_quotes d s cur r P :
  0 <= d → body P s →
  split_and d true cur (s ++ 34 :: r) = split_and d false (34 :: reverse s ++ cur) r.
Proof.
  intros Hd Hs. revert cur. induction Hs as [|c s H34 H92 _ Hs IH|e s He _ Hs IH]; intros cur.
  - cbn [app split_and andb Z.eqb Pos.eqb negb]. replace (d <? 0) with false by lia.
    assert (starts_with (js "||") (34 :: r) = false) as -> by done.
    assert (starts_with (js " && ") (34 :: r) = false) as -> by done.
    rewrite !andb_false_r. done.
  - cbn [app split_and andb]. apply Z.eqb_neq in H34, H92. rewrite H34, H92, IH.
    by rewrite reverse_cons, <-app_assoc.
  - cbn [app split_and andb Z.eqb Pos.eqb]. rewrite IH. by rewrite !reverse_cons, <-!app_assoc.
Qed.

Lemma skips_quoted d s P : 0 <= d → body P s → skips d ([34] ++ s ++ [34]).
Proof.
  intros Hd Hs cur r. rewrite <-!app_assoc. cbn [app split_and andb Z.eqb Pos.eqb negb].
  rewrite (in_quotes d s (34 :: cur) r P) by done.
  rewrite reverse_cons, reverse_app. cbn [app]. by rewrite <-app_assoc.
Qed.

Lemma skips_parens d w : 0 <= d → skips (d + 1) w → skips d (js "(" ++ w ++ js ")").
Proof.
  intros Hd Hw cur r. change (js "(") with [40]. change (js ")") with [41].
  rewrite <-!app_assoc. cbn [app split_and andb Z.eqb Pos.eqb].
  replace (d + 1 <? 0) with false by lia. replace (d + 1 =? 0) with false by lia. cbn [orb andb].
  rewrite Hw. cbn [split_and andb Z.eqb Pos.eqb].
  replace (d + 1 - 1) with d by lia. replace (d <? 0) with false by lia.
  assert (starts_with (js "||") (41 :: r) = false) as -> by done.
  assert (starts_with (js " && ") (41 :: r) = false) as -> by done.
  rewrite !andb_false_r. cbn [orb]. rewrite reverse_cons, reverse_app. cbn [app].
  by rewrite <-app_assoc.
Qed.

(** A quoted text without escapes *)
Definition unescaped (s : jsstr) : Prop := unquoted s ∧ includes [92] s = false.

Lemma includes_backslash s : includes [92] s = false → Forall (λ c, c ≠ 92) s.
Proof.
  unfold includes. induction s as [|c s IH]; [constructor|]. cbn [index_of starts_with].
  destruct (Z.eqb_spec 92 c) as [->|Hne]; [done|]. cbn [andb]. intros H. constructor; [done|].
  apply IH. by destruct (index_of [92] s).
Qed.

Lemma unescaped_body s : unescaped s → body (λ _, True) s.
Proof.
  intros [[_ H] Hb%includes_backslash]. induction s as [|c s IH]; [constructor|].
  apply Forall_cons in H as [? H], Hb as [? Hb]. constructor; [lia|done|done|]. by apply IH.
Qed.

Lemma plain_unescaped s : plain s → unescaped s.
Proof. intros H. split; [auto|by apply plain_no_backslash]. Qed.
#[export] Hint Resolve plain_unescaped : core.

Lemma skips_call d f tz :
  0 <= d → Forall (λ c, inert c = true) f → unescaped tz → skips d (call_text f tz).
Proof.
  intros Hd Hf Htz. unfold call_text. apply skips_app; [by apply skips_inert|].
  apply skips_parens; [done|]. eapply skips_quoted; [lia|]. by apply unescaped_body.
Qed.

Lemma func_inert f : Forall (λ c, inert c = true) (func_name f).
Proof. destruct f; repeat constructor. Qed.
Lemma source_inert s : Forall (λ c, inert c = true) (source_name s).
Proof. destruct s; repeat constructor. Qed.
Lemma numeric_inert n : numeric n → Forall (λ c, inert c = true) n.
Proof.
  intros [_ H]. eapply Forall_impl; [exact H|]. intros c (? & _)%num_char_spec. unfold inert. simpl. lia.
Qed.
#[export] Hint Resolve func_inert source_inert numeric_inert : core.

(** A blank and a text that is passed over. *)
Lemma skips_blank w : w ≠ [] → head w ≠ Some 38 → skips 0 w → skips 0 (js " " ++ w).
Proof.
  intros Hne Hh H. destruct w as [|x w]; [done|]. apply skips_space; [|done]. intros ->. by apply Hh.
Qed.

Lemma numeric_head n : numeric n → head n ≠ Some 38.
Proof.
  intros [_ H]. destruct H as [|c n Hc _]; [done|]. intros [= ->]. by vm_compute in Hc.
Qed.

Lemma skips_scalar f tz op n :
  unescaped tz → op ∈ [js "=="; js ">="; js "<"] → numeric n → skips 0 (scalar_text f tz op n).
Proof.
  intros Htz Hop Hn. unfold scalar_text. apply skips_app; [by apply skips_call|].
  assert (Forall (λ c, inert c = true) op ∧ op ≠ [] ∧ ∀ r, head (op ++ r) ≠ Some 38) as (Ho & Hne & Hh).
  { set_unfold in Hop. destruct_or! Hop; subst op; (split_and!; [repeat constructor|done|done]). }
  apply skips_blank; [by destruct op|done|]. apply skips_app; [by apply skips_inert|].
  apply skips_blank; [by destruct Hn|by apply numeric_head|]. by apply skips_inert; auto.
Qed.

(** A range without its parentheses splits at its conjunction. *)
Lemma range_text_split f tz n1 op n2 :
  range_text f tz n1 op n2
  = scalar_text f tz (js ">=") n1 ++ js " " ++ op ++ js " " ++ scalar_text f tz (js "<") n2.
Proof. unfold range_text, scalar_text, call_text. js_lits. done. Qed.

Lemma skips_deep_range f tz n1 op n2 :
  unescaped tz → op ∈ [js "&&"; js "||"] → numeric n1 → numeric n2 → skips 1 (range_text f tz n1 op n2).
Proof.
  intros Htz Hop Hn1 Hn2.
  assert (∀ w, Forall (λ c, inert c || (c =? 32) || (c =? 124) = true) w → skips 1 w) as Hd.
  { intros w Hw. apply skips_deep; [lia|]. eapply Forall_impl; [exact Hw|]. unfold inert. simpl. lia. }
  assert (skips 1 (js " ")) by (apply Hd; repeat constructor).
  assert (skips 1 (js ">=") ∧ skips 1 (js "<")) as [? ?] by (split; apply Hd; repeat constructor).
  assert (skips 1 op)
    by (set_unfold in Hop; destruct_or! Hop; subst op; apply Hd; repeat constructor).
  assert (skips 1 n1 ∧ skips 1 n2) as [? ?] by (split; by apply skips_inert; auto).
  rewrite range_text_split. unfold scalar_text.
  assert (skips 1 (call_text (func_name f) tz)) by by apply skips_call.
  repeat first [assumption|apply skips_app].
Qed.

Lemma split_and_end cur : split_and 0 false cur [] = Some [trim (reverse cur)].
Proof. done. Qed.

Lemma split_and_cut cur r : split_and 0 false cur (js " && " ++ r) = cons (trim (reverse cur)) <$> split_and 0 false [] r.
Proof. done. Qed.

Lemma split_and_or cur r : split_and 0 false cur (js " || " ++ r) = None.
Proof. done. Qed.

Lemma skips_quote d v : 0 <= d → code_units v = true → skips d (quote v).
Proof. intros Hd Hv%quote_any. by eapply (skips_quoted d (quote_body v)). Qed.

Lemma literal_skips v :
  trim v = v → code_units v = true →
  let l := buildExprLiteral MATCH_EQ v in l ≠ [] ∧ head l ≠ Some 38 ∧ skips 0 l.
Proof.
  intros Ht Hc. unfold buildExprLiteral. rewrite Ht, decide_False by lit_neq.
  destruct (decide _) as [[-> | ->]|_];
    [split_and!; [done|done|apply skips_inert; [done|repeat constructor]]..|].
  fold (is_number v). destruct (is_number v) eqn:E.
  - apply is_number_numeric in E. split_and!; [apply E|by apply numeric_head|by apply skips_inert; auto].
  - split_and!; [done|done|by apply skips_quote].
Qed.

Lemma skips_ph c : wf_ph c → skips 0 (ph_expr c).
Proof.
  intros Hwf. rewrite ph_expr_text by done. destruct Hwf as (Hp & Ht & Hm).
  assert (∀ d, 0 <= d → skips d (ph_call c)) as Hcall by (intros; by apply skips_call; auto).
  destruct Hm as [(-> & _)|(Hv & Hc & [(-> & ->)|(-> & Hs)])].
  - rewrite decide_True by done. apply skips_app; [by apply Hcall|].
    assert (skips 0 (js "!=")) by (apply skips_inert; [done|repeat constructor]).
    destruct (source c).
    + change (js " != nil") with (js " " ++ js "!=" ++ js " " ++ js "nil").
      apply skips_blank; [done..|]. apply skips_app; [done|].
      apply skips_blank; [done..|]. apply skips_inert; [done|repeat constructor].
    + change (js " != " ++ [34; 34]) with (js " " ++ js "!=" ++ js " " ++ [34] ++ [] ++ [34]).
      apply skips_blank; [done..|]. apply skips_app; [done|].
      apply skips_blank; [done..|]. eapply skips_quoted; [done|apply (BNil (λ _, True))].
  - rewrite decide_False, decide_True by (done || lit_neq).
    change (js "has(") with (js "has" ++ js "("). rewrite <-app_assoc.
    apply skips_app; [apply skips_inert; [done|repeat constructor]|].
    rewrite !(app_assoc _ _ (js ")")). apply skips_parens; [done|].
    apply skips_app; [by apply Hcall|]. apply skips_app; [|by apply skips_quote].
    apply skips_deep; [done|]. repeat constructor; done.
  - rewrite !decide_False by lit_neq. apply skips_app; [by apply Hcall|].
    destruct (literal_skips (ph_value c) Hv Hc) as (Hne & Hh & Hl).
    change (js " == ") with (js " " ++ js "==" ++ js " "). rewrite <-!app_assoc.
    apply skips_blank; [done..|]. apply skips_app; [apply skips_inert; [done|repeat constructor]|].
    by apply skips_blank.
Qed.

(** ** Trimmed texts *)

(** Texts that start and end with a character that is no white space. *)
Definition solid (s : jsstr) : Prop :=
  s ≠ [] ∧ head_nows s ∧ head_nows (reverse s).

Lemma solid_trim s : solid s → trim s = s.
Proof. intros [_ H]. by apply trim_trimmed_id. Qed.

Lemma solid_app a b : solid a → solid b → solid (a ++ b).
Proof.
  intros (Ha & Ha1 & _) (Hb & _ & Hb2). split_and!.
  - by destruct a.
  - by destruct a.
  - rewrite reverse_app. by destruct (reverse b) eqn:E; [apply (f_equal reverse) in E; rewrite reverse_involutive in E|].
Qed.

Lemma solid_around a m b : solid a → solid b → solid (a ++ m ++ b).
Proof.
  intros (Ha & Ha1 & _) (Hb & _ & Hb2). split_and!.
  - by destruct a.
  - by destruct a.
  - rewrite !reverse_app, <-app_assoc.
    by destruct (reverse b) eqn:E; [apply (f_equal reverse) in E; rewrite reverse_involutive in E|].
Qed.

Lemma solid_nows s : s ≠ [] → Forall (λ c, is_ws c = false) s → solid s.
Proof.
  intros Hs H. pose proof (trim_trimmed s) as Ht. rewrite (trim_all s H) in Ht. by destruct Ht.
Qed.

Lemma solid_numeric n : numeric n → solid n.
Proof.
  intros [? H]. apply solid_nows; [done|]. eapply Forall_impl; [exact H|].
  by intros c (_ & _ & ?)%num_char_spec.
Qed.

Lemma solid_quote v : solid (quote v).
Proof.
  split_and!; [done..|]. unfold quote.
  change (34 :: quote_body v ++ [34]) with ((34 :: quote_body v) ++ [34]). by rewrite reverse_app.
Qed.

Lemma solid_call f tz : f ≠ [] → Forall (λ c, is_ws c = false) f → solid (call_text f tz).
Proof.
  intros Hf H. unfold call_text. rewrite (app_assoc (js "(")).
  apply solid_around; [by apply solid_nows|done].
Qed.

Lemma solid_func f tz : solid (call_text (func_name f) tz).
Proof. apply solid_call; destruct f; try (repeat constructor); lit_neq. Qed.
Lemma solid_source s p : solid (call_text (source_name s) p).
Proof. apply solid_call; destruct s; try (repeat constructor); lit_neq. Qed.

Lemma solid_scalar f tz op n : numeric n → solid (scalar_text f tz op n).
Proof.
  intros Hn. unfold scalar_text. rewrite (app_assoc (js " ")), (app_assoc (js " " ++ op)).
  apply solid_around; [apply solid_func|by apply solid_numeric].
Qed.

Lemma solid_ph c : wf_ph c → solid (ph_expr c).
Proof.
  intros Hwf. rewrite ph_expr_text by done. destruct Hwf as (_ & _ & Hm).
  pose proof (solid_source (source c) (path c)) as Hc. fold (ph_call c) in Hc.
  destruct Hm as [(-> & _)|(Hv & Hu & [(-> & _)|(-> & _)])].
  - rewrite decide_True by done.
    destruct (source c); [change (js " != nil") with (js " != " ++ js "nil")
                         |change [34; 34] with (quote [])]; by apply solid_around.
  - rewrite decide_False, decide_True by (done || lit_neq).
    rewrite (app_assoc (ph_call c)), (app_assoc (ph_call c ++ js ", ")). by apply solid_around.
  - rewrite !decide_False by lit_neq. apply solid_around; [done|].
    unfold buildExprLiteral. rewrite Hv, decide_False by lit_neq.
    destruct (decide _) as [[-> | ->]|_]; [done..|].
    fold (is_number (ph_value c)). destruct (is_number (ph_value c)) eqn:E; [|apply solid_quote].
    by apply solid_numeric, is_number_numeric.
Qed.

(** ** Groups of conditions *)

Lemma includes_elem p s c : includes p s = true → c ∈ p → c ∈ s.
Proof.
  unfold includes. induction s as [|a s IH]; cbn [index_of].
  - destruct p as [|x p]; [intros _ H; by apply not_elem_of_nil in H|done].
  - destruct (starts_with p (a :: s)) eqn:E.
    + intros _ Hc. apply starts_with_spec in E as [t ->]. set_solver.
    + destruct (index_of p s); [|done]. intros _ Hc. right. by apply IH.
Qed.

Lemma includes_app a p b : includes p (a ++ p ++ b) = true.
Proof.
  unfold includes. induction a as [|x a IH]; cbn [app index_of].
  - assert (starts_with p (p ++ b) = true) as E by (apply starts_with_spec; eauto).
    destruct (p ++ b); cbn [index_of]; by rewrite E.
  - destruct (starts_with p (x :: a ++ p ++ b)); [done|].
    destruct (index_of p (a ++ p ++ b)); done.
Qed.

Lemma no_bar_no_or s : Forall (λ c, c ≠ 124) s → includes (js " || ") s = false.
Proof.
  intros H. destruct (includes _ s) eqn:E; [|done].
  apply (includes_elem _ _ 124) in E; [|vm_compute; set_solver]. rewrite Forall_forall in H. by apply H in E.
Qed.

Definition parenthesised (e : jsstr) : jsstr :=
  if includes (js " || ") e then js "(" ++ e ++ js ")" else e.

(** The conjuncts a condition of a group of several is written as. *)
Definition parts (c : RequestCondition) : list jsstr :=
  match c with
  | PH c => [ph_expr c]
  | Time t =>
      if decide (mode t = MATCH_RANGE) then
        if num_ltb (str_to_num (rangeEnd t)) (str_to_num (rangeStart t))
        then [js "(" ++ time_expr t ++ js ")"]
        else [scalar_text (timeFunc t) (timezone t) (js ">=") (rangeStart t);
              scalar_text (timeFunc t) (timezone t) (js "<") (rangeEnd t)]
      else [time_expr t]
  end.

(** In a group of several conditions no text but that of an overnight range may
    hold a disjunction. *)
Definition wf_member (c : RequestCondition) : Prop :=
  wf_condition c ∧
  match c with PH c => includes (js " || ") (ph_expr c) = false | Time _ => True end.

Lemma plain_no_bar s : plain s → Forall (λ c, c ≠ 124) s.
Proof. intros [_ H]. eapply Forall_impl; [exact H|]. unfold plain_char. intros; simpl in *; lia. Qed.
Lemma numeric_no_bar s : numeric s → Forall (λ c, c ≠ 124) s.
Proof. intros [_ H]. eapply Forall_impl; [exact H|]. intros c (? & _)%num_char_spec. lia. Qed.

Lemma scalar_no_bar f tz op n :
  plain tz → op ∈ [js "=="; js ">="; js "<"] → numeric n → Forall (λ c, c ≠ 124) (scalar_text f tz op n).
Proof.
  intros Htz Hop Hn. unfold scalar_text, call_text.
  assert (Forall (λ c, c ≠ 124) (func_name f)) by (destruct f; by repeat constructor).
  assert (Forall (λ c, c ≠ 124) op)
    by (set_unfold in Hop; destruct_or! Hop; subst op; by repeat constructor).
  rewrite !Forall_app. split_and!; eauto using plain_no_bar, numeric_no_bar; by repeat constructor.
Qed.

(** The text of a condition splits into its parts, at the end of the text and
    before a further conjunct. *)
Lemma parts_split c :
  wf_member c →
  split_and 0 false [] (parenthesised (buildRequestConditionExpr c)) = Some (parts c) ∧
  ∀ r, split_and 0 false [] (parenthesised (buildRequestConditionExpr c) ++ js " && " ++ r)
       = app (parts c) <$> split_and 0 false [] r.
Proof.
  intros [Hwf Hor]. rewrite build_wf by done.
  assert (∀ e, skips 0 e → solid e →
    split_and 0 false [] e = Some [e] ∧
    ∀ r, split_and 0 false [] (e ++ js " && " ++ r) = app [e] <$> split_and 0 false [] r) as Hatom.
  { intros e Hk Hs. split; [rewrite <-(app_nil_r e) at 1|intros r]; rewrite Hk, app_nil_r;
      [rewrite split_and_end|rewrite split_and_cut]; by rewrite reverse_involutive, (solid_trim e Hs). }
  unfold parenthesised. destruct c as [t|c]; [|rewrite Hor; apply Hatom; [by apply skips_ph|by apply solid_ph]].
  cbn [parts]. rewrite time_expr_text by done. destruct Hwf as [Htz [(Hm & _ & H1 & H2)|(Hm & Hv & _)]].
  - rewrite !decide_True by done. unfold range_op. destruct (num_ltb _ _).
    + assert (includes (js " || ") (range_text (timeFunc t) (timezone t) (rangeStart t) (js "||") (rangeEnd t))
              = true) as -> 
        by (rewrite range_text_split; apply (includes_app _ (js " || "))).
      apply Hatom; [|by apply solid_around].
      apply skips_parens; [done|]. apply skips_deep_range; eauto. set_solver.
    + assert (Forall (λ c, c ≠ 124) (range_text (timeFunc t) (timezone t) (rangeStart t) (js "&&") (rangeEnd t)))
        as Hb.
      { rewrite range_text_split, !Forall_app.
        split_and!; try (by repeat constructor); apply scalar_no_bar; eauto; set_solver. }
      rewrite (no_bar_no_or _ Hb), range_text_split.
      set (s2 := scalar_text _ _ (js "<") _).
      change (js " " ++ js "&&" ++ js " " ++ s2) with (js " && " ++ s2). unfold s2. clear s2.
      assert (skips 0 (scalar_text (timeFunc t) (timezone t) (js ">=") (rangeStart t)) ∧
              skips 0 (scalar_text (timeFunc t) (timezone t) (js "<") (rangeEnd t))) as [Hk1 Hk2]
        by (split; apply skips_scalar; eauto; set_solver).
      destruct (Hatom _ Hk1) as [_ Hc1]; [by apply solid_scalar; eauto|].
      destruct (Hatom _ Hk2) as [He2 Hc2]; [by apply solid_scalar; eauto|].
      split; [by rewrite Hc1, He2|]. intros r. rewrite <-!app_assoc, Hc1, Hc2.
      by destruct (split_and 0 false [] r).
  - pose proof (scalar_mode_neq _ Hm).
    rewrite !decide_False by done.
    pose proof (scalar_op_in _ Hm) as Hop.
    rewrite no_bar_no_or by (apply scalar_no_bar; eauto).
    apply Hatom; [apply skips_scalar; eauto|apply solid_scalar; eauto].
Qed.

Lemma split_group cs :
  cs ≠ [] → Forall wf_member cs →
  splitTopLevelAnd (join (js " && ") (map (λ c, parenthesised (buildRequestConditionExpr c)) cs))
  = concat (map parts cs).
Proof.
  intros Hne Hwf. unfold splitTopLevelAnd.
  assert (split_and 0 false [] (join (js " && ") (map (λ c, parenthesised (buildRequestConditionExpr c)) cs))
          = Some (concat (map parts cs))) as ->; [|done].
  induction Hwf as [|c cs Hc Hwf IH]; [done|]. destruct (parts_split c Hc) as [Hend Hcut].
  destruct cs as [|d cs]; [simpl; by rewrite Hend, app_nil_r|].
  cbn [map join] in *. by rewrite Hcut, IH.
Qed.

Lemma scalar_time_roundtrip f tz op n :
  unescaped tz → op ∈ [js "=="; js ">="; js "<"] → isTimeValueInRange f n = true →
  tryParseTimeCondition (scalar_text f tz op n) = Some (MkTime f tz (scalar_mode op) n [] []).
Proof.
  intros [Hu Hb] Hop Hn. unfold tryParseTimeCondition. rewrite scalar_not_range by eauto. cbn [or_else].
  unfold scalar_text. rewrite call_not_in_parens. fold (scalar_text f tz op n).
  rewrite scalar_matches by eauto. unfold captured_func, grp, scalar_caps.
  cbn [cap Nat.eqb default from_option]. unfold Datatypes.id. rewrite isTimeFunc_name.
  cbn [from_option]. unfold Datatypes.id. by rewrite Hb, Hn.
Qed.

Lemma range_pair f tz n1 n2 :
  unescaped tz → isTimeValueInRange f n1 = true → isTimeValueInRange f n2 = true →
  num_ltb (str_to_num n2) (str_to_num n1) = false →
  tryParseTimeRangePair (scalar_text f tz (js ">=") n1) (scalar_text f tz (js "<") n2)
  = Some (MkTime f tz MATCH_RANGE [] n1 n2).
Proof.
  intros Htz H1 H2 Hle. unfold tryParseTimeRangePair.
  rewrite !scalar_time_roundtrip by (done || set_solver). cbn [timeFunc timezone mode value].
  rewrite decide_False by naive_solver. rewrite decide_False; [by rewrite Hle|].
  assert (scalar_mode (js ">=") = MATCH_GTE ∧ scalar_mode (js "<") = MATCH_LT) as [-> ->]
    by (split; vm_compute; reflexivity). naive_solver.
Qed.

(** A lower and an upper bound that are read back as one range. *)
Definition mergeable (c d : RequestCondition) : Prop :=
  match c, d with
  | Time a, Time b =>
      timeFunc a = timeFunc b ∧ timezone a = timezone b ∧ mode a = MATCH_GTE ∧ mode b = MATCH_LT ∧
      num_ltb (str_to_num (value b)) (str_to_num (value a)) = false
  | _, _ => False
  end.

Fixpoint separate (cs : list RequestCondition) : Prop :=
  match cs with
  | c :: (d :: _) as tail => ¬ mergeable c d ∧ separate tail
  | _ => True
  end.

(** What the reader makes of the parts of a condition. *)
Lemma part_reads c :
  wf_condition c →
  (∃ t a b, c = Time t ∧ parts c = [a; b] ∧ trim a = a ∧ trim b = b ∧ b ≠ [] ∧
            tryParseTimeRangePair a b = Some t ∧
            tryParseTimeCondition a = Some (MkTime (timeFunc t) (timezone t) MATCH_GTE (rangeStart t) [] [])) ∨
  ∃ p, parts c = [p] ∧ trim p = p ∧ p ≠ [] ∧ tryParseRequestCondition p = Ok (Some c) ∧
       tryParseTimeCondition p = match c with Time t => Some t | PH _ => None end.
Proof.
  destruct c as [t|c]; intros Hwf; cbn [wf_condition parts] in *.
  - pose proof (time_roundtrip t Hwf) as Hrt.
    assert (∀ p, tryParseTimeCondition p = Some t → tryParseRequestCondition p = Ok (Some (Time t))) as Hreq
      by (intros p Hp; unfold tryParseRequestCondition; by rewrite Hp).
    pose proof Hwf as [Htz [(Hm & Hv & H1 & H2)|(Hm & Hv & Hs)]].
    + rewrite decide_True by done. destruct (num_ltb _ _) eqn:E.
      * right. eexists. split; [done|].
        pose proof (time_parens_roundtrip t Hwf Hm) as Hp.
        split; [|split; [done|]]; [|by auto]. apply solid_trim. by apply solid_around.
      * left. exists t. do 2 eexists. split_and!; [done|done|..].
        -- apply solid_trim, solid_scalar. eauto.
        -- apply solid_trim, solid_scalar. eauto.
        -- apply (solid_scalar (timeFunc t) (timezone t) (js "<")). eauto.
        -- rewrite range_pair by eauto. destruct t; simpl in *; by subst.
        -- rewrite scalar_time_roundtrip by (eauto || set_solver). done.
    + pose proof (scalar_mode_neq _ Hm) as Hr.
      right. rewrite decide_False by done. eexists. split; [done|].
      assert (solid (time_expr t)) as Hsol.
      { rewrite time_expr_text, decide_False by done. apply solid_scalar. eauto. }
      split; [by apply solid_trim|]. split; [apply Hsol|]. auto.
  - right. eexists. split; [done|]. pose proof (solid_ph c Hwf) as Hsol.
    split; [by apply solid_trim|]. split; [apply Hsol|]. split; [by apply ph_roundtrip|].
    rewrite ph_expr_text by done. unfold ph_call.
    destruct (decide _); [apply call_not_time|]. destruct (decide _); [apply has_not_time|apply call_not_time].
Qed.

Lemma parse_parts_cons p l c rest :
  trim p = p → tryParseRequestCondition p = Ok (Some c) →
  (∀ q l', l = q :: l' → tryParseTimeRangePair p (trim q) = None) →
  parse_parts l = Ok (Some rest) → parse_parts (p :: l) = Ok (Some (c :: rest)).
Proof.
  intros Ht Hp Hpair Hl.
  assert ((let* c := tryParseRequestCondition p in
           match c with None => Ok None | Some c => let* cs := parse_parts l in Ok (cons c <$> cs) end)
          = Ok (Some (c :: rest))) as Hs by (rewrite Hp; cbn [res_bind]; by rewrite Hl).
  cbn [parse_parts]. rewrite Ht. destruct l as [|q l']; [exact Hs|].
  rewrite (Hpair q l') by done. by destruct (is_empty (trim q)).
Qed.

Lemma parse_parts_roundtrip cs :
  Forall wf_condition cs → separate cs → parse_parts (concat (map parts cs)) = Ok (Some cs).
Proof.
  induction 1 as [|c cs Hc Hcs IH]; intros Hsep; [done|].
  assert (parse_parts (concat (map parts cs)) = Ok (Some cs)) as IH'.
  { apply IH. destruct cs; [done|apply Hsep]. }
  cbn [map concat]. destruct (part_reads c Hc)
    as [(t & a & b & -> & -> & Ha & Hb & Hne & Hpair & _)|(p & -> & Ht & _ & Hp & Htime)]; cbn [app].
  - cbn [parse_parts]. rewrite Ha, Hb. destruct b; [done|]. cbn [is_empty].
    by rewrite Hpair, IH'.
  - apply parse_parts_cons; [done..| |done]. intros q l' E.
    destruct cs as [|d cs]; [done|]. cbn [map concat] in E. apply Forall_cons in Hcs as [Hd _].
    unfold tryParseTimeRangePair. rewrite Htime. destruct c as [tc|]; [|done].
    destruct Hsep as [Hsep _].
    destruct (part_reads d Hd) as [(t & a & b & -> & Hpd & Ha & _ & _ & _ & Hta)|(p' & Hpd & Hp' & _ & _ & Htp)];
      rewrite Hpd in E; cbn [app] in E; injection E as -> _.
    + rewrite Ha, Hta. destruct (decide _); [done|]. rewrite decide_True; [done|].
      right. cbn [mode]. lit_neq.
    + rewrite Hp', Htp. destruct d as [td|]; [|done].
      destruct (decide _) as [|H1]; [done|]. destruct (decide _) as [|H2]; [done|].
      destruct (num_ltb _ _) eqn:El; [done|]. exfalso. apply Hsep. cbn [mergeable].
      split_and!; [apply dec_stable; naive_solver..|done].
Qed.

(** ** The shortcut for a whole time range *)

Lemma split_whole e : skips 0 e → solid e → splitTopLevelAnd e = [e].
Proof.
  intros Hk Hs. unfold splitTopLevelAnd. rewrite <-(app_nil_r e) at 1.
  by rewrite Hk, app_nil_r, split_and_end, reverse_involutive, solid_trim.
Qed.

Lemma range_condition_inv f tz n1 op n2 t :
  range_condition (range_caps f tz n1 op n2) = Some t →
  includes [92] tz = false ∧ isTimeValueInRange f n1 = true ∧ isTimeValueInRange f n2 = true ∧
  op = range_op n1 n2 ∧ t = MkTime f tz MATCH_RANGE [] n1 n2.
Proof.
  unfold range_condition, captured_func, grp, range_caps. cbn [cap Nat.eqb default from_option].
  unfold Datatypes.id. rewrite isTimeFunc_name. cbn [from_option]. unfold Datatypes.id.
  destruct (includes [92] tz); [done|]. destruct (isTimeValueInRange f n1); [|done].
  destruct (isTimeValueInRange f n2); [|done]. cbn [negb orb].
  destruct (bool_decide _) eqn:E; [done|]. apply bool_decide_eq_false in E.
  intros [= <-]. split_and!; try done. unfold range_op. by apply dec_stable.
Qed.

(** A text that reads as one time condition is one conjunct, or the two bounds
    of the range it reads as. *)
Lemma whole_time_parts text t :
  tryParseTimeCondition text = Some t →
  (length (splitTopLevelAnd text) <= 1)%nat ∨
  ∃ a b, splitTopLevelAnd text = [a; b] ∧ trim a = a ∧ trim b = b ∧ b ≠ [] ∧
         tryParseTimeRangePair a b = Some t.
Proof.
  unfold tryParseTimeCondition.
  destruct (match_re (full time_range) text) as [m|] eqn:E1; cbn [or_else];
    [|destruct (match_re (full (lit "(" · time_range · lit ")")) text) as [m|] eqn:E2; cbn [or_else];
      [|destruct (match_re (full time_scalar) text) as [m|] eqn:E3; [|done]]].
  - apply match_full_sound, parses_range in E1 as (f & tz & n1 & op & n2 & -> & Htz & Hn1 & _ & Hn2 & ->).
    fold (range_text f tz n1 op n2).
    intros (Hb & H1 & H2 & -> & ->)%range_condition_inv. unfold range_op. rewrite range_text_split.
    assert (skips 0 (scalar_text f tz (js ">=") n1)) as Hk1 by (apply skips_scalar; [done|set_solver|done]).
    assert (skips 0 (scalar_text f tz (js "<") n2)) as Hk2 by (apply skips_scalar; [done|set_solver|done]).
    unfold splitTopLevelAnd. set (s2 := scalar_text f tz (js "<") n2) in *.
    destruct (num_ltb _ _) eqn:El; [left|right]; rewrite Hk1.
    + change (js " " ++ js "||" ++ js " " ++ s2) with (js " || " ++ s2).
      rewrite split_and_or. simpl. lia.
    + change (js " " ++ js "&&" ++ js " " ++ s2) with (js " && " ++ s2).
      rewrite split_and_cut, app_nil_r, reverse_involutive. rewrite <-(app_nil_r s2), Hk2, app_nil_r.
      rewrite split_and_end, reverse_involutive. do 2 eexists. split; [done|].
      assert (solid (scalar_text f tz (js ">=") n1) ∧ solid s2) as [Hs1 Hs2]
        by (split; by apply solid_scalar).
      rewrite !solid_trim by (rewrite ?solid_trim; done). split_and!; [done..|apply Hs2|].
      by apply range_pair.
  - intros Hrc. left. apply match_full_sound in E2. apply parses_seq in E2
      as (w1 & w2 & c1 & -> & [-> ->]%parses_lit & (w3 & w4 & c2 & -> & Hr & [-> ->]%parses_lit)%parses_seq).
    apply parses_range in Hr as (f & tz & n1 & op & n2 & -> & Htz & Hn1 & Hop & Hn2 & ->).
    fold (range_text f tz n1 op n2) in *.
    apply range_condition_inv in Hrc as (Hb & H1 & H2 & -> & ->).
    rewrite split_whole; [simpl; lia| |by apply solid_around].
    apply skips_parens; [done|]. by apply skips_deep_range.
  - intros Hrc. left. apply match_full_sound, parses_scalar in E3 as (f & tz & op & n & -> & Htz & Hop & Hn & ->).
    fold (scalar_text f tz op n). unfold grp in Hrc. cbn [cap Nat.eqb default from_option] in Hrc.
    unfold Datatypes.id in Hrc. destruct (includes [92] tz) eqn:Eb; [done|].
    rewrite split_whole; [simpl; lia| |by apply solid_scalar]. by apply skips_scalar.
Qed.

Lemma solid_condition c : wf_condition c → solid (buildRequestConditionExpr c).
Proof.
  intros Hwf. rewrite build_wf by done. destruct c as [t|c]; [|by apply solid_ph].
  rewrite time_expr_text by done. destruct Hwf as [Htz Hm].
  destruct Hm as [(-> & _ & H1 & H2)|(Hm & Hv & _)].
  - rewrite decide_True, range_text_split by done.
    rewrite (app_assoc (js " ")), (app_assoc (js " " ++ _)).
    apply solid_around; apply solid_scalar; eauto.
  - pose proof (scalar_mode_neq _ Hm).
    rewrite decide_False by done. apply solid_scalar. eauto.
Qed.

Lemma solid_parenthesised e : solid e → solid (parenthesised e).
Proof. intros H. unfold parenthesised. destruct (includes _ e); [by apply solid_around|done]. Qed.

Lemma solid_join sep l : l ≠ [] → Forall solid l → solid (join sep l).
Proof.
  intros Hne H. induction H as [|a l Ha H IH]; [done|]. destruct l as [|b l]; [done|].
  cbn [join]. apply solid_around; [done|]. by apply IH.
Qed.

(** The conditions of a group as one text. *)
Definition combined (cs : list RequestCondition) : jsstr :=
  match map buildRequestConditionExpr cs with
  | [e] => e
  | es => join (js " && ") (map parenthesised es)
  end.

Definition wf_conditions (cs : list RequestCondition) : Prop :=
  cs ≠ [] ∧ Forall wf_condition cs ∧ ((2 <= length cs)%nat → Forall wf_member cs) ∧ separate cs.

Lemma solid_combined cs : cs ≠ [] → Forall wf_condition cs → solid (combined cs).
Proof.
  intros Hne H. unfold combined. destruct cs as [|c [|d cs]]; [done| |].
  - apply solid_condition. by apply Forall_cons in H as [? _].
  - apply solid_join; [done|]. change (Forall solid (parenthesised <$> (buildRequestConditionExpr <$> c :: d :: cs))).
    rewrite !Forall_fmap. eapply Forall_impl; [exact H|].
    intros x Hx. by apply solid_parenthesised, solid_condition.
Qed.

Lemma conditions_roundtrip cs :
  wf_conditions cs → tryParseRequestConditions (combined cs) = Ok (Some cs).
Proof.
  intros (Hne & Hwf & Hmany & Hsep). unfold tryParseRequestConditions.
  rewrite (solid_trim (combined cs)) by by apply solid_combined.
  destruct cs as [|c [|d cs]]; [done| |].
  - apply Forall_cons in Hwf as [Hc _]. unfold combined. cbn [map].
    pose proof (build_wf c Hc) as Hb. rewrite Hb.
    destruct c as [t|c]; [by rewrite (time_roundtrip t Hc)|].
    destruct (part_reads (PH c) Hc) as [(t & a & b & E & _)|(p & E & _ & _ & _ & Hn)]; [done|].
    injection E as <-. rewrite Hn, split_whole by (by apply skips_ph || by apply solid_ph).
    pose proof (parse_parts_roundtrip [PH c]) as Hp. cbn [map concat parts app] in Hp.
    rewrite Hp; [done|by constructor|done].
  - assert (Forall wf_member (c :: d :: cs)) as Hmem by (apply Hmany; simpl; lia).
    assert (splitTopLevelAnd (combined (c :: d :: cs)) = concat (map parts (c :: d :: cs))) as Hs.
    { rewrite <-split_group by done.
      by rewrite <-(map_map buildRequestConditionExpr parenthesised (c :: d :: cs)). }
    pose proof (parse_parts_roundtrip (c :: d :: cs) Hwf Hsep) as Hp.
    destruct (tryParseTimeCondition _) as [t|] eqn:Et; [|by rewrite Hs, Hp].
    exfalso. rewrite <-Hs in Hp. destruct (whole_time_parts _ _ Et) as [Hl|(a & b & E & Ha & Hb & Hbn & Hpair)].
    + rewrite Hs in Hl. cbn [map concat] in Hl. rewrite !length_app in Hl.
      assert (∀ c, length (parts c) ≠ 0%nat) as Hlen.
      { intros [x|x]; simpl; repeat case_match; simpl; lia. }
      pose proof (Hlen c). pose proof (Hlen d). lia.
    + rewrite E in Hp. cbn [parse_parts] in Hp. rewrite Ha, Hb in Hp. destruct b; [done|].
      cbn [is_empty] in Hp. rewrite Hpair in Hp. simpl in Hp. by simplify_eq.
Qed.

(** ** Factors *)

(** The parentheses of a text are balanced; [d] are open before it. *)
Fixpoint nested (d : Z) (s : jsstr) : bool :=
  match s with
  | [] => d =? 0
  | c :: t =>
      let d := if c =? 40 then d + 1 else d in
      let d := if c =? 41 then d - 1 else d in
      (0 <=? d) && nested d t
  end.

Lemma nested_app k d a b : nested k a = true → nested d b = true → 0 <= d → nested (k + d) (a ++ b) = true.
Proof.
  intros Ha Hb Hd. revert k Ha. induction a as [|c a IH]; intros k Ha; cbn [nested app] in *.
  - apply Z.eqb_eq in Ha as ->. done.
  - apply andb_prop in Ha as [H0 Ha]. apply IH in Ha. destruct (c =? 40), (c =? 41); apply andb_true_iff;
      (split; [lia|]);
      match goal with |- nested ?x _ = _ => match type of Ha with nested ?y _ = _ =>
        by replace x with y by lia end end.
Qed.

Lemma nested_cat a b : nested 0 a = true → nested 0 b = true → nested 0 (a ++ b) = true.
Proof. intros. by apply (nested_app 0 0). Qed.

Lemma nested_parens w : nested 0 w = true → nested 0 (js "(" ++ w ++ js ")") = true.
Proof. intros H. apply (nested_app 0 1 w (js ")")) in H; done. Qed.

(** Balanced pieces make a balanced text. *)
Ltac nested_pieces := repeat first [assumption|reflexivity|apply nested_cat].

Definition is_paren (c : Z) : bool := (c =? 40) || (c =? 41).

Lemma nested_plain w : Forall (λ c, is_paren c = false) w → nested 0 w = true.
Proof.
  induction 1 as [|c w Hc _ IH]; [done|]. cbn [nested]. unfold is_paren in Hc.
  apply orb_false_iff in Hc as [-> ->]. done.
Qed.

(** Only the parentheses matter, and quoting keeps them. *)
Lemma nested_filter d s : 0 <= d → nested d s = nested d (filter (λ c, is_paren c = true) s).
Proof.
  revert d. induction s as [|c s IH]; intros d Hd; [done|]. rewrite filter_cons. unfold is_paren at 1.
  cbn [nested]. case_decide as Hc.
  - cbn [nested]. destruct (c =? 40) eqn:E1, (c =? 41) eqn:E2;
      destruct (0 <=? _) eqn:E0; try done; cbn [andb]; apply IH; lia.
  - destruct (c =? 40), (c =? 41); try (by destruct Hc).
    replace (0 <=? d) with true by lia. by apply IH.
Qed.

Lemma hex_not_paren d : is_paren (hex_char d) = true → d < 0.
Proof. unfold is_paren, hex_char. case_match; lia. Qed.

Lemma parens_unicode c : 0 <= c → filter (λ x, is_paren x = true) (unicode_escape c) = [].
Proof.
  intros Hc. unfold unicode_escape.
  rewrite !filter_cons_False; [done|..]; try done; intros H%hex_not_paren; revert H; apply Z.le_ngt;
    first [apply Z.mod_pos_bound; lia|apply Z.div_pos; lia].
Qed.

Lemma parens_quote_char c :
  0 <= c → filter (λ x, is_paren x = true) (quote_char c) = filter (λ x, is_paren x = true) [c].
Proof.
  intros Hc. unfold quote_char.
  repeat match goal with
  | |- context [if c =? ?n then _ else _] => destruct (Z.eqb_spec c n); [subst c; done|]
  end.
  destruct (c <? 32) eqn:E; [|done]. rewrite parens_unicode by done.
  rewrite filter_cons_False; [done|]. unfold is_paren. lia.
Qed.

Lemma parens_quote_body s :
  code_units s = true →
  filter (λ c, is_paren c = true) (quote_body s) = filter (λ c, is_paren c = true) s.
Proof.
  rewrite code_units_spec. induction s as [s IH] using (induction_ltof1 _ length). intros Hs.
  unfold ltof in IH. destruct s as [|c s]; [done|]. apply Forall_cons in Hs as [Hc Hs].
  assert (filter (λ c, is_paren c = true) (quote_body s) = filter (λ c, is_paren c = true) s) as Hq
    by (apply IH; [simpl; lia|done]).
  assert (c < 40 ∨ 41 < c → filter (λ x, is_paren x = true) (c :: s) = filter (λ x, is_paren x = true) s) as Hn.
  { intros H. apply filter_cons_False. unfold is_paren. lia. }
  cbn [quote_body]. destruct (is_lead c) eqn:El; [|destruct (is_trail c) eqn:Et].
  - unfold is_lead in El. rewrite Hn by lia. destruct s as [|d s].
    { by rewrite parens_unicode by lia. }
    destruct (is_trail d) eqn:Ed; [|by rewrite filter_app, parens_unicode, Hq by lia].
    unfold is_trail in Ed. apply Forall_cons in Hs as [_ Hs].
    rewrite !filter_cons_False by (unfold is_paren; lia). apply IH; [simpl; lia|done].
  - unfold is_trail in Et. by rewrite filter_app, parens_unicode, Hq, Hn by lia.
  - rewrite filter_app, parens_quote_char, Hq by lia. by rewrite <-filter_app.
Qed.

Lemma nested_quote v : code_units v = true → nested 0 v = true → nested 0 (quote v) = true.
Proof.
  intros Hc Hv. unfold quote. apply (nested_cat [34]); [done|]. apply nested_cat; [|done].
  rewrite nested_filter, parens_quote_body by done. by rewrite <-nested_filter.
Qed.

Lemma split_mul_deep k w d cur r :
  nested k w = true → 0 < d → split_mul (k + d) cur (w ++ r) = split_mul d (reverse w ++ cur) r.
Proof.
  intros Hw Hd. revert k cur Hw. induction w as [|c w IH]; intros k cur Hw; cbn [nested app split_mul] in *.
  - by apply Z.eqb_eq in Hw as ->.
  - apply andb_prop in Hw as [H0 Hw]. rewrite reverse_cons, <-app_assoc. cbn [app].
    rewrite <-(IH _ (c :: cur) Hw).
    destruct (c =? 40), (c =? 41).
    all: match goal with |- context [?x =? 0] => replace (x =? 0) with false by lia end; cbn [andb];
      f_equal; lia.
Qed.

Lemma nested_call f tz :
  Forall (λ c, inert c = true) f → plain tz → nested 0 (call_text f tz) = true.
Proof.
  intros Hf [_ Htz]. unfold call_text. apply nested_cat.
  - apply nested_plain. eapply Forall_impl; [exact Hf|]. unfold inert, is_paren. intros; simpl in *; lia.
  - apply nested_parens. apply (nested_cat [34]); [done|]. apply nested_cat; [|done].
    apply nested_plain. eapply Forall_impl; [exact Htz|]. unfold plain_char, is_paren.
    intros; simpl in *; lia.
Qed.

Lemma nested_numeric n : numeric n → nested 0 n = true.
Proof.
  intros [_ H]. apply nested_plain. eapply Forall_impl; [exact H|].
  intros c (? & _)%num_char_spec. unfold is_paren. lia.
Qed.

Lemma nested_scalar f tz op n :
  plain tz → op ∈ [js "=="; js ">="; js "<"] → numeric n → nested 0 (scalar_text f tz op n) = true.
Proof.
  intros Htz Hop Hn. unfold scalar_text.
  assert (nested 0 (call_text (func_name f) tz) = true) by by apply nested_call.
  assert (nested 0 op = true) by (set_unfold in Hop; destruct_or! Hop; by subst op).
  pose proof (nested_numeric n Hn). nested_pieces.
Qed.

Lemma nested_literal v :
  trim v = v → code_units v = true → nested 0 v = true → nested 0 (buildExprLiteral MATCH_EQ v) = true.
Proof.
  intros Ht Hc Hv. unfold buildExprLiteral. rewrite Ht, decide_False by lit_neq.
  destruct (decide _); [done|]. destruct (test_re _ v); [done|]. by apply nested_quote.
Qed.

(** The text of a condition has balanced parentheses when its value has. *)
Definition balanced (c : RequestCondition) : Prop :=
  match c with PH c => nested 0 (ph_value c) = true | Time _ => True end.

Lemma nested_condition c :
  wf_condition c → balanced c → nested 0 (buildRequestConditionExpr c) = true.
Proof.
  intros Hwf Hb. rewrite build_wf by done. destruct c as [t|c].
  - rewrite time_expr_text by done. destruct Hwf as [Htz [(Hm & _ & H1 & H2)|(Hm & Hv & _)]].
    + rewrite decide_True, range_text_split by done.
      assert (nested 0 (scalar_text (timeFunc t) (timezone t) (js ">=") (rangeStart t)) = true)
        by (apply nested_scalar; eauto; set_solver).
      assert (nested 0 (scalar_text (timeFunc t) (timezone t) (js "<") (rangeEnd t)) = true)
        by (apply nested_scalar; eauto; set_solver).
      unfold range_op. destruct (num_ltb _ _); nested_pieces.
    + pose proof (scalar_mode_neq _ Hm).
      rewrite decide_False by done. apply nested_scalar; eauto. by apply scalar_op_in.
  - rewrite ph_expr_text by done. destruct Hwf as (Hp & _ & Hm). cbn [balanced] in Hb.
    assert (nested 0 (ph_call c) = true) by by apply nested_call.
    destruct Hm as [(-> & _)|(Hv & Hc & [(-> & _)|(-> & _)])].
    + rewrite decide_True by done. apply nested_cat; [done|]. by destruct (source c).
    + rewrite decide_False, decide_True by (done || lit_neq).
      change (js "has(") with (js "has" ++ js "("). rewrite <-app_assoc. apply nested_cat; [done|].
      rewrite !(app_assoc _ _ (js ")")). apply nested_parens.
      pose proof (nested_quote _ Hc Hb). nested_pieces.
    + rewrite !decide_False by lit_neq. pose proof (nested_literal _ Hv Hc Hb). nested_pieces.
Qed.

Lemma nested_join sep l :
  nested 0 sep = true → Forall (λ e, nested 0 e = true) l → nested 0 (join sep l) = true.
Proof.
  intros Hs H. induction H as [|a l Ha H IH]; [done|]. destruct l as [|b l]; [done|].
  cbn [join]. specialize (IH). nested_pieces.
Qed.

Lemma nested_combined cs :
  Forall wf_condition cs → Forall balanced cs → nested 0 (combined cs) = true.
Proof.
  intros Hwf Hb. assert (Forall (λ e, nested 0 e = true) (map buildRequestConditionExpr cs)) as H.
  { apply Forall_fmap. pose proof (conj Hwf Hb) as Hwb. apply Forall_and in Hwb.
    eapply Forall_impl; [exact Hwb|]. intros c [? ?]. by apply nested_condition. }
  unfold combined. destruct (map buildRequestConditionExpr cs) as [|e es]; [done|].
  assert (nested 0 (join (js " && ") (map parenthesised (e :: es))) = true) as Hj.
  { apply nested_join; [done|]. apply Forall_fmap. eapply Forall_impl; [exact H|].
    intros x Hx. unfold compose, parenthesised. destruct (includes _ x); [by apply nested_parens|done]. }
  destruct es; [by apply Forall_cons in H as [? _]|done].
Qed.

Definition wf_group (g : RequestRuleGroup) : Prop :=
  wf_conditions (conditions g) ∧ Forall balanced (conditions g) ∧ is_number (multiplier g) = true.

Definition factor_text (cs : list RequestCondition) (m : jsstr) : jsstr :=
  js "(" ++ combined cs ++ js " ? " ++ m ++ js " : 1)".

Lemma build_factor g : wf_group g → buildRuleGroupFactor g = factor_text (conditions g) (multiplier g).
Proof.
  intros ((Hne & Hwf & _) & _ & Hm). unfold buildRuleGroupFactor.
  rewrite (numeric_trim (multiplier g)) by auto. fold (is_number (multiplier g)). rewrite Hm. cbn [negb].
  rewrite list_filter_all.
  - unfold factor_text, combined. destruct (conditions g) as [|c [|d cs]]; done.
  - apply Forall_fmap. eapply Forall_impl; [exact Hwf|]. intros c Hc. by apply solid_condition.
Qed.

Lemma numeric_suffix a a' n n' :
  numeric n → numeric n' → a ++ 32 :: n = a' ++ 32 :: n' → a = a' ∧ n = n'.
Proof.
  intros [_ Hn] [_ Hn'] E. apply (f_equal reverse) in E.
  rewrite !reverse_app, !reverse_cons, <-!app_assoc in E. cbn [app] in E.
  apply (sep_inj num_char) in E as (E1 & _ & E2); [|by apply Forall_reverse..|done|done].
  split; by apply (inj reverse).
Qed.

Lemma factor_matches e n :
  e ≠ [] → numeric n →
  match_re (full rule_factor) (js "(" ++ e ++ js " ? " ++ n ++ js " : 1)")
  = Some [(2%nat, n); (1%nat, e)].
Proof.
  intros He Hn. apply match_full_unique; [apply parses_factor; eauto 10|].
  intros c (e' & n' & E & He' & Hn' & ->)%parses_factor. apply app_inv_head in E.
  rewrite !app_assoc in E. apply app_inv_tail in E.
  change (js " ? ") with ([32; 63] ++ [32]) in E. rewrite !app_assoc, <-!(app_assoc _ [32]) in E.
  apply numeric_suffix in E as [E ->]; [|done..]. by apply app_inv_tail in E as ->.
Qed.

Lemma factor_roundtrip g : wf_group g → tryParseRuleGroupFactor (buildRuleGroupFactor g) = Ok (Some g).
Proof.
  intros Hg. rewrite build_factor by done. destruct Hg as (Hcs & _ & Hm). unfold factor_text.
  unfold tryParseRuleGroupFactor.
  rewrite factor_matches by (eauto || apply solid_combined; apply Hcs).
  unfold grp. cbn [cap Nat.eqb default from_option]. unfold Datatypes.id.
  rewrite conditions_roundtrip by done. by destruct g.
Qed.

(** *** Splitting at products *)

Lemma split_mul_factor body cur r :
  nested 0 body = true →
  split_mul 0 cur ((js "(" ++ body ++ js ")") ++ r)
  = split_mul 0 (reverse (js "(" ++ body ++ js ")") ++ cur) r.
Proof.
  intros Hb. change (js "(") with [40]. change (js ")") with [41]. rewrite <-!app_assoc.
  cbn [app split_mul Z.eqb Pos.eqb Z.add andb].
  rewrite (split_mul_deep 0 body 1) by done. cbn [split_mul].
  change (41 =? 40) with false. change (41 =? 41) with true. cbv iota. change (1 - 1) with 0.
  assert (starts_with (js " * ") (41 :: r) = false) as -> by done. change ((0 =? 0) && false) with false. cbv iota.
  f_equal. by rewrite reverse_cons, reverse_app, <-!app_assoc.
Qed.

Lemma split_mul_join fs :
  fs ≠ [] → Forall (λ f, ∃ body, f = js "(" ++ body ++ js ")" ∧ nested 0 body = true) fs →
  split_mul 0 [] (join (js " * ") fs) = fs.
Proof.
  intros Hne H. induction H as [|f fs (body & -> & Hb) H IH]; [done|].
  assert (trim (js "(" ++ body ++ js ")") = js "(" ++ body ++ js ")") as Ht
    by (apply solid_trim; by apply solid_around).
  destruct fs as [|f' fs].
  - cbn [join]. rewrite <-(app_nil_r (js "(" ++ _)) at 1. rewrite split_mul_factor by done.
    cbn [split_mul]. by rewrite app_nil_r, reverse_involutive, Ht.
  - change (join (js " * ") (?f :: f' :: fs)) with (f ++ js " * " ++ join (js " * ") (f' :: fs)).
    rewrite (split_mul_factor body [] (js " * " ++ join (js " * ") (f' :: fs))) by done.
    assert (∀ cur r, split_mul 0 cur (js " * " ++ r) = trim (reverse cur) :: split_mul 0 [] r) as ->
      by done.
    rewrite app_nil_r, reverse_involutive, Ht. f_equal. by apply IH.
Qed.

Lemma factor_shape g :
  wf_group g →
  ∃ body, buildRuleGroupFactor g = js "(" ++ body ++ js ")" ∧ nested 0 body = true.
Proof.
  intros Hg. rewrite build_factor by done. destruct Hg as ((_ & Hwf & _) & Hb & Hm).
  exists (combined (conditions g) ++ js " ? " ++ multiplier g ++ js " : 1"). split.
  - unfold factor_text. change (js " : 1)") with (js " : 1" ++ js ")"). by rewrite <-!app_assoc.
  - pose proof (nested_combined _ Hwf Hb). pose proof (nested_numeric (multiplier g)).
    assert (nested 0 (multiplier g) = true) by auto. nested_pieces.
Qed.

Lemma parse_factors_roundtrip gs :
  Forall wf_group gs → parse_factors (map buildRuleGroupFactor gs) = Ok (Some gs).
Proof.
  induction 1 as [|g gs Hg _ IH]; [done|]. cbn [map parse_factors].
  rewrite factor_roundtrip by done. cbn [res_bind]. by rewrite IH.
Qed.

Lemma rules_read_back gs :
  Forall wf_group gs → tryParseRequestRuleExpr (buildRequestRuleExpr gs) = Ok (Some gs).
Proof.
  intros Hwf. unfold buildRequestRuleExpr.
  assert (Forall (λ f, ∃ body, f = js "(" ++ body ++ js ")" ∧ nested 0 body = true)
            (map buildRuleGroupFactor gs)) as Hf.
  { apply Forall_fmap. eapply Forall_impl; [exact Hwf|]. intros g Hg. by apply factor_shape. }
  assert (Forall (λ f, f ≠ []) (map buildRuleGroupFactor gs)) as Hne
    by (eapply Forall_impl; [exact Hf|]; by intros f (body & -> & _)).
  rewrite list_filter_all by done. destruct gs as [|g gs]; [done|].
  assert (map buildRuleGroupFactor (g :: gs) ≠ []) as Hm by done.
  assert (solid (join (js " * ") (map buildRuleGroupFactor (g :: gs)))) as Hs.
  { apply solid_join; [done|]. eapply Forall_impl; [exact Hf|]. intros f (body & -> & _).
    by apply solid_around. }
  unfold tryParseRequestRuleExpr, splitTopLevelMultiply. rewrite (solid_trim _ Hs).
  rewrite split_mul_join, list_filter_all by done. destruct Hs as [Hsn _].
  destruct (join _ _); [done|]. cbn [is_empty]. by apply parse_factors_roundtrip.
Qed.

(** C3. What the rule editor writes it reads back: for request rules whose
    conditions are complete (time conditions, header conditions, parameter
    existence and equality) the text of the rules parses to exactly these
    rules. *)
Theorem rules_roundtrip (gs : list RequestRuleGroup) (Hwf : Forall wf_group gs) :
  tryParseRequestRuleExpr (buildRequestRuleExpr gs) = Ok (Some gs).
Proof. by apply rules_read_back. Qed.

(** *** A sample *)

Definition overnight : RequestCondition :=
  Time (MkTime hour (js "UTC") MATCH_RANGE [] (js "21") (js "6")).
Definition tagged : RequestCondition := PH (MkPH Header (js "x-tier") MATCH_CONTAINS (js "a (b)")).
Definition streaming : RequestCondition := PH (MkPH Param (js "stream") MATCH_EQ (js "true")).
Definition sample_rules : list RequestRuleGroup :=
  [MkGroup [overnight; tagged] (js "0.5"); MkGroup [streaming] (js "2")].

Lemma plain_check s : s ≠ [] → forallb plain_char s = true → plain s.
Proof.
  intros Hs H. split; [done|]. apply Forall_forall. intros x Hx. rewrite forallb_forall in H.
  apply H. by apply list_elem_of_In.
Qed.

Lemma sample_conditions_wf : wf_condition overnight ∧ wf_condition tagged ∧ wf_condition streaming.
Proof.
  split_and!.
  - split; [apply plain_check; [lit_neq|vm_compute; reflexivity]|]. left.
    split_and!; vm_compute; reflexivity.
  - split_and!; [apply plain_check; [lit_neq|vm_compute; reflexivity]|vm_compute; reflexivity|]. right.
    split_and!; [vm_compute; reflexivity..|by left].
  - split_and!; [apply plain_check; [lit_neq|vm_compute; reflexivity]|vm_compute; reflexivity|]. right.
    split_and!; [vm_compute; reflexivity..|right]. split; [done|]. by repeat constructor.
Qed.

Lemma sample_rules_wf : Forall wf_group sample_rules.
Proof.
  destruct sample_conditions_wf as (H1 & H2 & H3). unfold sample_rules. repeat apply Forall_cons_2; [| |constructor].
  - split_and!; [split_and!; [done| | |]|repeat constructor|vm_compute; reflexivity].
    + by repeat apply Forall_cons_2.
    + intros _. repeat apply Forall_cons_2; [by split| |by constructor]. split; [done|vm_compute; reflexivity].
    + split; [by intros []|done].
  - split_and!; [split_and!; [done| | |done]|repeat constructor|vm_compute; reflexivity].
    + by repeat apply Forall_cons_2.
    + simpl. lia.
Qed.

Lemma rules_roundtrip_witness :
  tryParseRequestRuleExpr (buildRequestRuleExpr sample_rules) = Ok (Some sample_rules).
Proof. apply (rules_roundtrip sample_rules). exact sample_rules_wf. Defined.

(** ** Combining with the billing expression *)

Lemma trim_length s : (length (trim s) <= length s)%nat.
Proof.
  unfold trim. rewrite length_reverse.
  assert (∀ s, (length (drop_ws s) <= length s)%nat) as H.
  { intros s0. destruct (drop_ws_suffix s0) as (p & Hp & _). rewrite Hp at 2. rewrite length_app. lia. }
  etrans; [apply H|]. rewrite length_reverse. apply H.
Qed.

Lemma outer_length s : hasFullOuterParens s = true → (length (trim (slice_1_1 s)) < length s)%nat.
Proof.
  intros H. eapply Nat.le_lt_trans; [apply trim_length|]. unfold slice_1_1. rewrite length_take, length_drop.
  destruct s; [done|]. simpl. lia.
Qed.

Lemma unwrap_done fuel s :
  (length s <= fuel)%nat → trim s = s →
  hasFullOuterParens (unwrap fuel s) = false ∧ trim (unwrap fuel s) = unwrap fuel s.
Proof.
  revert s. induction fuel as [|n IH]; intros s Hl Ht; cbn [unwrap].
  - destruct s; [done|simpl in Hl; lia].
  - destruct (hasFullOuterParens s) eqn:E; [|done]. apply IH; [|apply trim_idemp].
    apply outer_length in E. lia.
Qed.

(** A trimmed text that is not enclosed in a pair of parentheses. *)
Definition unwrapped (s : jsstr) : Prop := hasFullOuterParens s = false ∧ trim s = s.

(** C37. Unwrapping parentheses ends: its result is trimmed and no longer
    enclosed in a pair of parentheses, whatever the text. *)
Theorem unwrap_terminates (expr : jsstr) : unwrapped (unwrapOuterParens expr).
Proof. apply unwrap_done; [apply trim_length|apply trim_idemp]. Qed.

Lemma closes_nested k s : nested k s = true → closes_at_end (k + 1) (s ++ [41]) = true.
Proof.
  revert k. induction s as [|c s IH]; intros k H; cbn [nested app closes_at_end] in *.
  - by apply Z.eqb_eq in H as ->.
  - apply andb_prop in H as [H0 H]. apply IH in H. destruct (c =? 40), (c =? 41);
      match goal with |- context [?x =? 0] => replace (x =? 0) with false by lia end; cbn [andb];
      match goal with |- closes_at_end ?x _ = _ => match type of H with closes_at_end ?y _ = _ =>
        by replace x with y by lia end end.
Qed.

Lemma wrapped base :
  nested 0 base = true → hasFullOuterParens (js "(" ++ base ++ js ")") = true.
Proof.
  intros H%(closes_nested 0). unfold hasFullOuterParens.
  assert (ends_with [41] (js "(" ++ base ++ js ")") = true) as ->.
  { unfold ends_with. rewrite !reverse_app. done. }
  change (js "(" ++ base ++ js ")") with (40 :: base ++ [41]).
  cbn [starts_with Z.eqb Pos.eqb andb closes_at_end Z.add is_empty negb].
  by destruct (base ++ [41]).
Qed.

Lemma slice_wrapped base : slice_1_1 (js "(" ++ base ++ js ")") = base.
Proof.
  unfold slice_1_1. change (js "(" ++ base ++ js ")") with (40 :: base ++ [41]).
  cbn [length drop]. rewrite length_app. cbn [length]. apply take_app_length'. lia.
Qed.

Lemma unwrap_wrapped base :
  nested 0 base = true → trim base = base → hasFullOuterParens base = false →
  unwrapOuterParens (js "(" ++ base ++ js ")") = base.
Proof.
  intros Hn Ht Hp. unfold unwrapOuterParens. rewrite (solid_trim (js "(" ++ base ++ js ")")) by by apply solid_around.
  assert (∃ n, length (js "(" ++ base ++ js ")") = S (S n)) as [n ->].
  { rewrite !length_app. eexists. simpl. rewrite Nat.add_1_r. done. }
  cbn [unwrap]. by rewrite wrapped, slice_wrapped, Ht, Hp.
Qed.

Lemma factor_is_rule g : wf_group g → is_rule (buildRuleGroupFactor g) = Ok true.
Proof.
  intros Hg. unfold is_rule. destruct (factor_shape g Hg) as (body & E & _).
  assert (buildRequestRuleExpr [g] = buildRuleGroupFactor g) as <-.
  { unfold buildRequestRuleExpr. cbn [map]. rewrite list_filter_all; [done|].
    repeat constructor. by rewrite E. }
  rewrite rules_read_back; [done|by apply Forall_singleton].
Qed.

Lemma classify_rules gs :
  Forall wf_group gs → classify (map buildRuleGroupFactor gs) = Ok (map buildRuleGroupFactor gs, []).
Proof.
  induction 1 as [|g gs Hg _ IH]; [done|]. cbn [map classify].
  rewrite factor_is_rule by done. cbn [res_bind]. by rewrite IH.
Qed.

(** A text in balanced parentheses *)
Definition factor_like (f : jsstr) : Prop := ∃ body, f = js "(" ++ body ++ js ")" ∧ nested 0 body = true.

Lemma factor_like_solid fs : Forall factor_like fs → Forall solid fs.
Proof. intros H. eapply Forall_impl; [exact H|]. intros f (body & -> & _). by apply solid_around. Qed.

Lemma rules_text gs :
  Forall wf_group gs →
  Forall factor_like (map buildRuleGroupFactor gs) ∧
  buildRequestRuleExpr gs = join (js " * ") (map buildRuleGroupFactor gs).
Proof.
  intros Hwf. assert (Forall factor_like (map buildRuleGroupFactor gs)) as Hf.
  { apply Forall_fmap. eapply Forall_impl; [exact Hwf|]. intros g Hg. by apply factor_shape. }
  split; [done|]. unfold buildRequestRuleExpr. rewrite list_filter_all; [done|].
  eapply Forall_impl; [exact Hf|]. by intros f (body & -> & _).
Qed.

Lemma combine_text base gs :
  base ≠ [] → trim base = base → gs ≠ [] → Forall wf_group gs →
  combineBillingExpr base (buildRequestRuleExpr gs)
  = join (js " * ") ((js "(" ++ base ++ js ")") :: map buildRuleGroupFactor gs).
Proof.
  intros Hne Ht Hgs Hwf. destruct (rules_text gs Hwf) as [Hf ->].
  assert (map buildRuleGroupFactor gs ≠ []) as Hm by (by destruct gs).
  assert (solid (join (js " * ") (map buildRuleGroupFactor gs))) as Hs
    by (apply solid_join; [done|by apply factor_like_solid]).
  unfold combineBillingExpr. rewrite Ht, (solid_trim _ Hs). destruct Hs as [Hs _].
  destruct base as [|x base]; [done|]. destruct (map buildRuleGroupFactor gs) as [|f fs]; [done|].
  change (join (js " * ") (?w :: f :: fs)) with (w ++ js " * " ++ join (js " * ") (f :: fs)).
  cbn [is_empty]. destruct (join (js " * ") (f :: fs)); [done|]. cbn [is_empty].
  by rewrite <-!app_assoc.
Qed.

(** Combining and splitting are inverse: a billing expression that is
    balanced, not wrapped in parentheses and no rule itself, combined with the
    text of well-formed rules, splits into the same expression and rules. *)
Theorem split_combine (base : jsstr) (gs : list RequestRuleGroup)
  (Hbase : base ≠ [] ∧ trim base = base ∧ nested 0 base = true ∧ hasFullOuterParens base = false ∧
           is_rule (js "(" ++ base ++ js ")") = Ok false)
  (Hgs : gs ≠ []) (Hwf : Forall wf_group gs) :
  splitBillingExprAndRequestRules (combineBillingExpr base (buildRequestRuleExpr gs))
  = Ok (base, buildRequestRuleExpr gs).
Proof.
  destruct Hbase as (Hne & Ht & Hn & Hp & Hr). rewrite combine_text by done.
  destruct (rules_text gs Hwf) as [Hf ->]. set (wrap := js "(" ++ base ++ js ")") in *.
  assert (Forall factor_like (wrap :: map buildRuleGroupFactor gs)) as Hf'
    by (constructor; [by exists base|done]).
  pose proof (factor_like_solid _ Hf') as Hsol.
  assert (solid (join (js " * ") (wrap :: map buildRuleGroupFactor gs))) as Hs by by apply solid_join.
  unfold splitBillingExprAndRequestRules, splitTopLevelMultiply. rewrite (solid_trim _ Hs).
  rewrite split_mul_join by done.
  rewrite list_filter_all by (eapply Forall_impl; [exact Hsol|]; by intros f [? _]).
  destruct Hs as [Hs _]. destruct (join _ (wrap :: _)) eqn:E; [done|]. cbn [is_empty].
  assert ((length (wrap :: map buildRuleGroupFactor gs) <=? 1)%nat = false) as -> by by destruct gs.
  cbn [classify]. rewrite Hr. cbn [res_bind]. rewrite classify_rules by done.
  destruct gs as [|g gs]; [done|].
  cbn [res_bind fst snd map]. unfold wrap. by rewrite unwrap_wrapped.
Qed.

Lemma split_combine_witness :
  splitBillingExprAndRequestRules
    (combineBillingExpr (js "p * 2 + c * 8") (buildRequestRuleExpr sample_rules))
  = Ok (js "p * 2 + c * 8", buildRequestRuleExpr sample_rules).
Proof.
  apply (split_combine (js "p * 2 + c * 8") sample_rules); [|done|exact sample_rules_wf].
  split_and!; [lit_neq|vm_compute; reflexivity..].
Defined.

(** ** Where reading departs from writing *)

(** A comparison without its check for presence is no condition. *)
Lemma bare_comparison_unreadable p op n :
  plain p → op ∈ [js ">"; js ">="; js "<"; js "<="] →
  tryParseRequestCondition (call_text (source_name Param) p ++ js " " ++ op ++ js " " ++ n) = Ok None.
Proof.
  intros Hp Hop. assert (unquoted p) as Hu by auto. unfold tryParseRequestCondition. rewrite call_not_time.
  destruct (exists_match Param p (js " " ++ op ++ js " " ++ n) Hu) as [-> ->].
  assert (∀ t, js " " ++ op ++ js " " ++ n ≠ js " != nil" ++ t ∧ js " " ++ op ++ js " " ++ n ≠ js " == " ++ t)
    as Hne.
  { intros t. set_unfold in Hop. destruct_or! Hop; subst op; split; intros E; text_clash E. }
  rewrite decide_False by naive_solver.
  rewrite decide_False by (intros [_ E]; destruct (Hne []) as [Hn _]; apply Hn; by rewrite app_nil_r).
  rewrite call_not_contains.
  assert (∀ r, r = param_contains ∨ r = param_compare →
    match_re (full r) (call_text (source_name Param) p ++ js " " ++ op ++ js " " ++ n) = None) as Hpair.
  { intros r Hr. apply match_full_none. intros c (p' & u & E & ?)%param_pair_inv; [|done].
    apply source_call_inj in E as (_ & _ & E); [|done..]. by apply Hne in E. }
  rewrite !Hpair by auto. cbn [mbind option_bind].
  rewrite match_full_none; [done|]. intros c (s' & p' & v' & E & ? & _)%equality_inv.
  apply source_call_inj in E as (_ & _ & E); [|done..]. by apply Hne in E.
Qed.

Lemma bare_containment_unreadable p v :
  tryParseRequestCondition (js "has(" ++ call_text (source_name Param) p ++ v) = Ok None.
Proof.
  unfold tryParseRequestCondition. rewrite has_not_time.
  rewrite (match_full_none header_exists), (match_full_none param_exists), (match_full_none header_contains),
    (match_full_none param_contains), (match_full_none param_compare), (match_full_none equality); [done|..].
  - intros c (s' & p' & v' & E & _)%equality_inv. destruct s'; text_clash E.
  - intros c (p' & u & E & _)%param_pair_inv; [|by auto]. text_clash E.
  - intros c (p' & u & E & _)%param_pair_inv; [|by auto]. text_clash E.
  - intros c (p' & v' & E & _)%parses_header_contains. text_clash E.
  - intros c (p' & E & _)%param_exists_inv. text_clash E.
  - intros c (p' & E & _)%header_exists_inv. text_clash E.
Qed.

(** The second conjunct of a check on a parameter. *)
Definition check_text (c : ParamHeaderCondition) : jsstr :=
  match compare_op (ph_mode c) with
  | Some op => ph_call c ++ js " " ++ op ++ js " " ++ ph_value c
  | None => js "has(" ++ ph_call c ++ js ", " ++ quote (ph_value c) ++ js ")"
  end.

Definition wf_check (c : ParamHeaderCondition) : Prop :=
  source c = Param ∧ plain (path c) ∧ trim (path c) = path c ∧
  (ph_mode c ∈ [MATCH_GT; MATCH_GTE; MATCH_LT; MATCH_LTE] ∧ is_number (ph_value c) = true ∨
   ph_mode c = MATCH_CONTAINS ∧ trim (ph_value c) = ph_value c ∧ code_units (ph_value c) = true ∧
   nested 0 (ph_value c) = true).

Lemma compare_op_in m op :
  compare_op m = Some op → op ∈ [js ">"; js ">="; js "<"; js "<="].
Proof. unfold compare_op. repeat case_decide; intros; simplify_eq; set_solver. Qed.

Lemma check_expr c :
  wf_check c → buildRequestConditionExpr (PH c) = ph_call c ++ js " != nil && " ++ check_text c.
Proof.
  intros (Hs & [Hne Hp] & Ht & Hm). cbn [buildRequestConditionExpr].
  assert (normalizeCondition (Some (as_partial (PH c))) = PH c) as ->.
  { unfold normalizeCondition. cbn [as_partial mbind option_bind p_source p_path p_timeFunc p_timezone p_mode
      p_value p_rangeStart p_rangeEnd default from_option]. unfold Datatypes.id. rewrite Hs.
    rewrite !decide_False by lit_neq. rewrite offered_mode_id; [by destruct c; simpl in *; subst|].
    destruct Hm as [[Hm _]|[-> _]]; [set_unfold in Hm; destruct_or! Hm; rewrite Hm|];
      apply (bool_decide_unpack _); vm_compute; exact I. }
  unfold ph_expr. rewrite Ht, quote_plain by done.
  assert (is_empty (path c) = false) as -> by by destruct (path c).
  fold (call_text (source_name (source c)) (path c)). fold (ph_call c). unfold check_text.
  destruct Hm as [[Hm Hv]|(-> & Hv & _)].
  - assert (ph_mode c ≠ MATCH_EXISTS ∧ ph_mode c ≠ MATCH_CONTAINS ∧ compare_op (ph_mode c) ≠ None)
      as (? & ? & Hop).
    { set_unfold in Hm. destruct_or! Hm; rewrite Hm; split_and!; lit_neq. }
    rewrite !decide_False by done. destruct (compare_op (ph_mode c)) as [op|]; [|done].
    rewrite numeric_trim by auto. fold (is_number (ph_value c)). by rewrite Hv.
  - rewrite decide_False, decide_True by (done || lit_neq). rewrite Hs.
    assert (compare_op MATCH_CONTAINS = None) as -> by (vm_compute; reflexivity).
    unfold buildExprLiteral. rewrite decide_True, Hv by done. by rewrite <-!app_assoc.
Qed.

Lemma check_unreadable c : wf_check c → tryParseRequestCondition (check_text c) = Ok None.
Proof.
  intros (Hs & Hp & _ & _). unfold check_text, ph_call. rewrite Hs.
  destruct (compare_op (ph_mode c)) as [op|] eqn:E; [|apply bare_containment_unreadable].
  apply bare_comparison_unreadable; [done|]. by eapply compare_op_in.
Qed.

Lemma check_split c :
  wf_check c → skips 0 (check_text c) ∧ solid (check_text c) ∧ nested 0 (check_text c) = true.
Proof.
  intros (Hs & Hp & _ & Hm). unfold check_text.
  assert (∀ d, 0 <= d → skips d (ph_call c)) as Hk by (intros; apply skips_call; auto).
  assert (solid (ph_call c)) as Hsol by apply solid_source.
  assert (nested 0 (ph_call c) = true) as Hn by by apply nested_call.
  destruct Hm as [[Hm Hv]|(Hm & Hv & Hc & Hb)].
  - assert (∃ op, compare_op (ph_mode c) = Some op) as [op E].
    { set_unfold in Hm. destruct_or! Hm; rewrite Hm; eexists; vm_compute; reflexivity. }
    rewrite E. apply compare_op_in in E. assert (numeric (ph_value c)) as Hnum by auto.
    pose proof (nested_numeric _ Hnum).
    assert (skips 0 op ∧ op ≠ [] ∧ (∀ r, head (op ++ r) ≠ Some 38) ∧ nested 0 op = true) as (Hko & Hne & Hh & Hno).
    { set_unfold in E. destruct_or! E; subst op;
        (split_and!; [apply skips_inert; [done|repeat constructor]|lit_neq|done|done]). }
    split_and!; [| |nested_pieces].
    + apply skips_app; [by apply Hk|]. apply skips_blank; [by destruct op|done|]. apply skips_app; [done|].
      apply skips_blank; [apply Hnum|by apply numeric_head|by apply skips_inert; auto].
    + rewrite (app_assoc (js " ")), (app_assoc (js " " ++ op)). apply solid_around; [done|by apply solid_numeric].
  - rewrite Hm. assert (compare_op MATCH_CONTAINS = None) as -> by (vm_compute; reflexivity).
    replace (js "has(" ++ ph_call c ++ js ", " ++ quote (ph_value c) ++ js ")")
      with (js "has" ++ js "(" ++ (ph_call c ++ js ", " ++ quote (ph_value c)) ++ js ")")
      by (rewrite <-!app_assoc; done).
    assert (solid (js "has")) by done. pose proof (nested_quote _ Hc Hb). split_and!.
    + apply skips_app; [apply skips_inert; [done|repeat constructor]|]. apply skips_parens; [done|].
      apply skips_app; [by apply Hk|]. apply skips_app; [|by apply skips_quote].
      apply skips_deep; [done|]. repeat constructor; done.
    + apply solid_app; [done|]. by apply solid_around.
    + apply nested_cat; [done|]. apply nested_parens. nested_pieces.
Qed.

Lemma check_conditions_unreadable c :
  wf_check c →
  let text := buildRequestConditionExpr (PH c) in
  solid text ∧ nested 0 text = true ∧ tryParseRequestConditions text = Ok None.
Proof.
  intros Hc. destruct (check_split c Hc) as (Hk & Hsol & Hn). pose proof Hc as (Hs & Hp & Ht & _).
  set (e1 := ph_call c ++ js " != nil").
  rewrite check_expr by done. set (text := ph_call c ++ js " != nil && " ++ check_text c).
  assert (text = e1 ++ js " && " ++ check_text c) as Et by (unfold text, e1; rewrite <-app_assoc; done).
  assert (wf_ph (MkPH Param (path c) MATCH_EXISTS [])) as Hex by (split_and!; [done|done|by left]).
  assert (ph_expr (MkPH Param (path c) MATCH_EXISTS []) = e1) as He1.
  { rewrite ph_expr_text, decide_True by done. unfold e1, ph_call. by rewrite Hs. }
  pose proof (skips_ph _ Hex) as Hk1. pose proof (solid_ph _ Hex) as Hs1.
  pose proof (ph_roundtrip _ Hex) as Hr1. rewrite He1 in Hk1, Hs1, Hr1.
  assert (nested 0 (ph_call c) = true) by by apply nested_call.
  assert (solid text) as Hst by (unfold text; apply solid_around; [apply solid_source|done]).
  split_and!; [done|unfold text; nested_pieces|].
  unfold tryParseRequestConditions, splitTopLevelAnd. rewrite (solid_trim text Hst).
  assert (tryParseTimeCondition text = None) as -> by apply call_not_time.
  rewrite Et, Hk1, split_and_cut, app_nil_r, reverse_involutive, (solid_trim e1 Hs1).
  rewrite <-(app_nil_r (check_text c)), Hk, app_nil_r, split_and_end, reverse_involutive, (solid_trim _ Hsol).
  cbn [fmap option_fmap option_map default from_option]. unfold Datatypes.id.
  cbn [parse_parts]. rewrite !(solid_trim e1 Hs1), !(solid_trim _ Hsol).
  assert (tryParseTimeRangePair e1 (check_text c) = None) as ->.
  { unfold tryParseTimeRangePair. unfold e1, ph_call at 1. by rewrite call_not_time. }
  destruct (is_empty (check_text c)); rewrite Hr1; cbn [res_bind];
    rewrite (check_unreadable c Hc); done.
Qed.

Lemma one_factor_reads text m :
  text ≠ [] → nested 0 text = true → numeric m →
  tryParseRequestRuleExpr (js "(" ++ text ++ js " ? " ++ m ++ js " : 1)")
  = let* cs := tryParseRequestConditions text in Ok ((λ cs, [MkGroup cs m]) <$> cs).
Proof.
  intros Hne Hn Hm. set (f := js "(" ++ text ++ js " ? " ++ m ++ js " : 1)").
  assert (factor_like f) as Hf.
  { exists (text ++ js " ? " ++ m ++ js " : 1"). unfold f. split; [rewrite <-!app_assoc; done|].
    pose proof (nested_numeric m Hm). nested_pieces. }
  assert (Forall factor_like [f]) as Hfs by by apply Forall_singleton.
  pose proof (proj1 (Forall_singleton _ _) (factor_like_solid _ Hfs)) as Hs.
  unfold tryParseRequestRuleExpr, splitTopLevelMultiply. rewrite (solid_trim f Hs).
  change f with (join (js " * ") [f]) at 2. rewrite split_mul_join by done.
  rewrite list_filter_all by (apply Forall_singleton, Hs).
  assert (is_empty f = false) as -> by done. cbn [parse_factors]. unfold tryParseRuleGroupFactor, f.
  rewrite factor_matches by auto. unfold grp. cbn [cap Nat.eqb default from_option]. unfold Datatypes.id.
  destruct (tryParseRequestConditions text) as [[cs|]|]; done.
Qed.

(** Checks on request parameters cannot be edited again: a rule on a
    parameter that compares its value or looks for a text, as the editor
    itself writes it, is not read back; the parser splits it at its own
    conjunction and rejects the second half. *)
Theorem param_checks_unreadable (c : ParamHeaderCondition) (m : jsstr) (Hc : wf_check c)
  (Hm : is_number m = true) :
  buildRequestRuleExpr [MkGroup [PH c] m] ≠ [] ∧
  tryParseRequestRuleExpr (buildRequestRuleExpr [MkGroup [PH c] m]) = Ok None.
Proof.
  destruct (check_conditions_unreadable c Hc) as (Hs & Hn & Hcond).
  set (text := buildRequestConditionExpr (PH c)) in *. destruct Hs as [Hne _].
  assert (buildRequestRuleExpr [MkGroup [PH c] m] = js "(" ++ text ++ js " ? " ++ m ++ js " : 1)") as ->.
  { unfold buildRequestRuleExpr, buildRuleGroupFactor. cbn [map conditions multiplier].
    rewrite numeric_trim by auto. fold (is_number m). rewrite Hm. cbn [negb]. fold text.
    rewrite (list_filter_all _ [text]) by by apply Forall_singleton. rewrite list_filter_all; [done|].
    by apply Forall_singleton. }
  split; [done|]. rewrite one_factor_reads by auto. by rewrite Hcond.
Qed.

Definition sample_check : ParamHeaderCondition := MkPH Param (js "max_tokens") MATCH_GT (js "1000").

Lemma param_checks_unreadable_witness :
  buildRequestRuleExpr [MkGroup [PH sample_check] (js "2")] ≠ [] ∧
  tryParseRequestRuleExpr (buildRequestRuleExpr [MkGroup [PH sample_check] (js "2")]) = Ok None.
Proof.
  apply (param_checks_unreadable sample_check (js "2")); [|vm_compute; reflexivity].
  split_and!; [reflexivity|apply plain_check; [lit_neq|vm_compute; reflexivity]|vm_compute; reflexivity|].
  left. split; [apply (bool_decide_unpack _); vm_compute; exact I|vm_compute; reflexivity].
Defined.

(** A malformed multiplier loses its rule: a rule whose multiplier consists
    of number characters but is no number is read, and written back as nothing. *)
Theorem malformed_multiplier_lost (cs : list RequestCondition) (m : jsstr)
  (Hcs : wf_conditions cs) (Hb : Forall balanced cs) (Hm : numeric m) (Hn : is_number m = false) :
  tryParseRequestRuleExpr (factor_text cs m) = Ok (Some [MkGroup cs m]) ∧
  buildRequestRuleExpr [MkGroup cs m] = [].
Proof.
  pose proof Hcs as (Hne & Hwf & _). split.
  - unfold factor_text. rewrite one_factor_reads; [|by apply solid_combined|by apply nested_combined|done].
    by rewrite conditions_roundtrip.
  - unfold buildRequestRuleExpr, buildRuleGroupFactor. cbn [map multiplier].
    rewrite numeric_trim by done. fold (is_number m). by rewrite Hn.
Qed.

Lemma malformed_multiplier_lost_witness :
  tryParseRequestRuleExpr (factor_text [streaming] (js "1.2.3"))
    = Ok (Some [MkGroup [streaming] (js "1.2.3")]) ∧
  buildRequestRuleExpr [MkGroup [streaming] (js "1.2.3")] = [].
Proof.
  destruct sample_conditions_wf as (_ & _ & H3).
  apply (malformed_multiplier_lost [streaming] (js "1.2.3")).
  - split_and!; [done|by apply Forall_singleton|simpl; lia|done].
  - by apply Forall_singleton.
  - split; [lit_neq|repeat constructor].
  - vm_compute. reflexivity.
Defined.

(** A text with its double quotes written as apostrophes. *)
Definition dquoted (s : string) : jsstr := map (λ c, if c =? 39 then 34 else c) (js s).

(** Reading may crash or change a rule: an escape that JSON does not know
    makes the reader throw, also when it splits a billing expression; the
    backslashes of a header name double with every reading and writing; a list
    becomes the text of its items; a value with a disjunction sign in it is not
    read back next to another condition. *)
Theorem reading_departs :
  tryParseRequestRuleExpr (dquoted "(has(header('x'), '\x') ? 2 : 1)") = Throw ∧
  splitBillingExprAndRequestRules (dquoted "(p * 1) * (has(header('x'), '\x') ? 2 : 1)") = Throw ∧
  tryParseRequestRuleExpr (buildRequestRuleExpr [MkGroup [PH (MkPH Header (js "a\b") MATCH_EXISTS [])] (js "2")])
    = Ok (Some [MkGroup [PH (MkPH Header (js "a\\b") MATCH_EXISTS [])] (js "2")]) ∧
  tryParseRequestRuleExpr (dquoted "(param('x') == [1, 2] ? 2 : 1)")
    = Ok (Some [MkGroup [PH (MkPH Param (js "x") MATCH_EQ (js "1,2"))] (js "2")]) ∧
  tryParseRequestRuleExpr
    (buildRequestRuleExpr [MkGroup [PH (MkPH Header (js "x") MATCH_EQ (js "a || b")); streaming] (js "2")])
    = Ok None.
Proof. split_and!; vm_compute; reflexivity. Qed.
