(* ===== verification/TierExpr.v ===== *)
(** * Tier expressions

    The tier parts of billing expressions: [BillingTiers], the lenient reader
    of [features/pricing/lib/billing-expr.ts] that the pricing pages use, and
    [VisualTiers], the writer and the exact reader of the tier editor
    ([features/pricing/lib/tier-expr.ts]). *)

From stdpp Require Import base list strings sets.
From Stdlib Require Import ZArith Lia SpecFloat.
From S2P Require Import Prelude JsString JsNumber JsValue JsRegex BillingExpr.
#[local] Open Scope Z_scope.

(** [Number(m[n])] of a group, and [Number(x) || 0] of a number *)
Definition grp_num (n : nat) (c : captures) : num := str_to_num (grp n c).
Definition or_zero (x : num) : num := if num_truthy x then x else num_zero.

(** Splitting at [&&] with the white space around it, the parts trimmed *)
Fixpoint split_amp (cur s : jsstr) : list jsstr :=
  match s with
  | [] => [trim (reverse cur)]
  | c :: t =>
      match t with
      | d :: t' => if (c =? 38) && (d =? 38) then trim (reverse cur) :: split_amp [] t'
                   else split_amp (c :: cur) t
      | [] => split_amp (c :: cur) t
      end
  end.

Definition term_of (v : regex) (k : nat) : regex := v · ws · lit "*" · ws · Group k num_text.

(** A version prefix: [v], digits and a colon; then any text. *)
Definition version_re : regex :=
  full (lit "v" · Group 1 (Plus dig) · lit ":" · Group 2 (Star (Chr (λ _, true)))).

Module BillingTiers.
Import BillingVars.

Record TierCondition := MkCond { var : jsstr; op : jsstr; value : num }.

Record ParsedTier := MkTier {
  label : jsstr;
  conditions : list TierCondition;
  prices : list (jsstr * num);
}.

(** version and body *)
Definition stripExprVersion (exprStr : jsstr) : num * jsstr :=
  if is_empty exprStr then (num_of_Z 1, [])
  else match match_re version_re exprStr with
       | Some m => (grp_num 1 m, grp 2 m)
       | None => (num_of_Z 1, exprStr)
       end.

Definition BILLING_VAR_REGEX : regex :=
  WordB · term_of (Group 1 (words (map key BILLING_PRICING_VARS))) 2.

Definition call_re (k : nat) : regex :=
  lit "call" · ws · lit "(" · ws · Group k num_text · ws · lit ")".

(** The first coefficient of every variable, in the order of the fields, then
    the cost per call. *)
Definition parseTierBody (bodyStr : jsstr) : list (jsstr * num) :=
  let coeffs :=
    fold_left (λ acc m, if assoc_get (grp 1 m) acc is Some _ then acc
                        else assoc_set (grp 1 m) (grp_num 2 m) acc)
      (exec_all BILLING_VAR_REGEX bodyStr) [] in
  let tier := map (λ p, (p.2, or_zero (default num_zero (assoc_get p.1 coeffs))))
                BILLING_VAR_KEY_TO_FIELD in
  let callMatch := match_re (call_re 1) bodyStr in
  tier ++ [(js "per_call_cost", match callMatch with Some m => grp_num 1 m | None => num_zero end)].

Definition compare_re : regex := words [js "<"; js "<="; js ">"; js ">="].
Definition condition_var : regex := (lit "len" · ws · lit "+" · ws · lit "c") ∥ words [js "p"; js "c"; js "len"].
Definition one_condition (v : regex) : regex := v · ws · compare_re · ws · Plus (Chr unsigned_char).
Definition condition_list (v : regex) : regex :=
  one_condition v · Star (ws · lit "&&" · ws · one_condition v).

Definition tier_body : regex :=
  Plus (Plus (Chr (λ c, negb ((c =? 40) || (c =? 41)))) ∥
        (lit "call" · ws · lit "(" · ws · num_text · ws · lit ")")).

Definition tierRe : regex :=
  Opt ((Bol ∥ lit ":") · ws · Group 1 (condition_list condition_var) · ws · lit "?" · ws) ·
  lit "tier(" · dq · Group 2 (Star (Chr (λ c, negb (c =? 34)))) · dq · lit "," · ws ·
  Group 3 tier_body · lit ")".

Definition condition_re (v : regex) : regex :=
  full (Group 1 v · ws · Group 2 compare_re · ws · Group 3 (Plus (Chr unsigned_char))).

Definition parse_conditions (v : regex) (condStr : jsstr) : list TierCondition :=
  if is_empty condStr then []
  else omap (λ cp, (λ m, MkCond (strip_ws (grp 1 m)) (grp 2 m) (grp_num 3 m))
                   <$> match_re (condition_re v) cp) (split_amp [] condStr).

Definition parseTiersFromExpr (exprStr : jsstr) : list ParsedTier :=
  if is_empty exprStr then []
  else
    map (λ m, MkTier (grp 2 m) (parse_conditions condition_var (grp 1 m)) (parseTierBody (grp 3 m)))
      (exec_all tierRe (stripExprVersion exprStr).2).

End BillingTiers.

Module VisualTiers.
Import BillingVars BillingTiers.

Inductive CacheMode := CACHE_MODE_TIMED | CACHE_MODE_GENERIC.

(** [number | string] *)
Inductive InputValue := VNum (x : num) | VStr (s : jsstr).

Record TierConditionInput := MkInput { var : jsstr; op : jsstr; value : InputValue }.

Record VisualTier := MkVisual {
  label : jsstr;
  conditions : list TierConditionInput;
  input_unit_cost : num;
  output_unit_cost : num;
  per_call_cost : num;
  cache_mode : CacheMode;
  cache_read_unit_cost : num;
  cache_create_unit_cost : num;
  cache_create_1h_unit_cost : num;
  image_unit_cost : num;
  image_output_unit_cost : num;
  audio_input_unit_cost : num;
  audio_output_unit_cost : num;
}.

(** [Partial<VisualTier>]; the costs of the extra variables by field. *)
Record PartialTier := MkPartialTier {
  p_label : option jsstr;
  p_conditions : option (list TierConditionInput);
  p_input : option num;
  p_output : option num;
  p_per_call : option num;
  p_cache_mode : option CacheMode;
  p_extra : list (jsstr * num);
}.

Definition VisualConfig := list VisualTier.

Definition extra (field : string) (tier : PartialTier) : option num := assoc_get (js field) (p_extra tier).

(** [Number(x) || 0] of a property that may be absent *)
Definition cost (x : option num) : num := or_zero (default S754_nan x).

Definition getTierCacheMode (tier : PartialTier) : CacheMode :=
  match p_cache_mode tier with
  | Some m => m
  | None =>
      if num_ltb num_zero (default S754_nan (extra "cache_create_1h_unit_cost" tier))
      then CACHE_MODE_TIMED else CACHE_MODE_GENERIC
  end.

(** [...tier] overrides the defaults before it, so an input or output cost that
    is present is kept as it is. *)
Definition normalizeVisualTier (tier : PartialTier) : VisualTier :=
  MkVisual (default [] (p_label tier)) (default [] (p_conditions tier))
    (default num_zero (p_input tier)) (default num_zero (p_output tier))
    (cost (p_per_call tier)) (getTierCacheMode tier)
    (cost (extra "cache_read_unit_cost" tier)) (cost (extra "cache_create_unit_cost" tier))
    (cost (extra "cache_create_1h_unit_cost" tier)) (cost (extra "image_unit_cost" tier))
    (cost (extra "image_output_unit_cost" tier)) (cost (extra "audio_input_unit_cost" tier))
    (cost (extra "audio_output_unit_cost" tier)).

(** The costs of the extra variables of a tier, by field. *)
Definition extras (tier : VisualTier) : list (jsstr * num) :=
  [(js "cache_read_unit_cost", cache_read_unit_cost tier);
   (js "cache_create_unit_cost", cache_create_unit_cost tier);
   (js "cache_create_1h_unit_cost", cache_create_1h_unit_cost tier);
   (js "image_unit_cost", image_unit_cost tier);
   (js "image_output_unit_cost", image_output_unit_cost tier);
   (js "audio_input_unit_cost", audio_input_unit_cost tier);
   (js "audio_output_unit_cost", audio_output_unit_cost tier)].

(** A tier used where a partial one is expected. *)
Definition as_partial (t : VisualTier) : PartialTier :=
  MkPartialTier (Some (label t)) (Some (conditions t)) (Some (input_unit_cost t))
    (Some (output_unit_cost t)) (Some (per_call_cost t)) (Some (cache_mode t)) (extras t).

Definition createDefaultVisualConfig : VisualConfig :=
  [normalizeVisualTier
     (MkPartialTier (Some (js "base")) (Some []) (Some num_zero) (Some num_zero) (Some num_zero)
        (Some CACHE_MODE_GENERIC) [])].

(** [None]: [null] or [undefined] *)
Definition normalizeVisualConfig (config : option VisualConfig) : VisualConfig :=
  match config with
  | None | Some [] => createDefaultVisualConfig
  | Some tiers => map (λ t, normalizeVisualTier (as_partial t)) tiers
  end.

Definition value_text (v : InputValue) : jsstr :=
  match v with VNum x => num_to_str x | VStr s => s end.
Definition value_present (v : InputValue) : bool :=
  match v with VNum _ => true | VStr s => negb (is_empty s) end.

Definition buildConditionStr (conditions : list TierConditionInput) : jsstr :=
  join (js " && ")
    (map (λ c, var c ++ js " " ++ op c ++ js " " ++ value_text (value c))
       (filter (λ c, negb (is_empty (var c)) && negb (is_empty (op c)) && value_present (value c) = true)
          conditions)).

(** [x !== 0] *)
Definition nonzero (x : num) : bool := negb (num_eqb x num_zero).

(** The extra variables with their costs, in the order of the registry. *)
Definition extra_terms (tier : VisualTier) : list (jsstr * num) :=
  map (λ p, (p.2, or_zero (default num_zero (assoc_get p.1 (extras tier))))) BILLING_CACHE_VAR_MAP.

Definition term_text (t : jsstr * num) : jsstr := t.1 ++ js " * " ++ num_to_str t.2.

Definition buildTierBodyExpr (tier : VisualTier) : jsstr :=
  let pc := or_zero (per_call_cost tier) in
  let calls := if nonzero pc then [js "call(" ++ num_to_str pc ++ js ")"] else [] in
  let ic := or_zero (input_unit_cost tier) in
  let oc := or_zero (output_unit_cost tier) in
  let hasTokenTerms := nonzero ic || nonzero oc || existsb (λ t, nonzero t.2) (extra_terms tier) in
  let tokens :=
    if hasTokenTerms || negb (nonzero pc) then
      [term_text (js "p", ic); term_text (js "c", oc)]
      ++ map term_text (filter (λ t, nonzero t.2 = true) (extra_terms tier))
    else [] in
  join (js " + ") (calls ++ tokens).

Definition tier_text (label : jsstr) (tier : VisualTier) : jsstr :=
  js "tier(" ++ [34] ++ label ++ [34] ++ js ", " ++ buildTierBodyExpr tier ++ js ")".

Definition or_str (a b : jsstr) : jsstr := if is_empty a then b else a.

(** The parts of a configuration of several tiers, from tier [i] on. *)
Fixpoint tier_parts (i : nat) (tiers : list VisualTier) : list jsstr :=
  match tiers with
  | [] => []
  | tier :: rest =>
      let label := or_str (label tier) (js "tier_" ++ Z_to_str (Z.of_nat (i + 1))) in
      let body := tier_text label tier in
      let cond := buildConditionStr (conditions tier) in
      (if (0 <? length rest)%nat && negb (is_empty cond) then cond ++ js " ? " ++ body else body)
      :: tier_parts (S i) rest
  end.

Definition generateExprFromVisualConfig (config : option VisualConfig) : jsstr :=
  match config with
  | None | Some [] => js "p * 0 + c * 0"
  | Some [tier] =>
      let body := tier_text (or_str (label tier) (js "default")) tier in
      let cond := buildConditionStr (conditions tier) in
      if is_empty cond then body else cond ++ js " ? " ++ body ++ js " : p * 0 + c * 0"
  | Some tiers => join (js " : ") (tier_parts 0 tiers)
  end.
(** ** Reading *)

(** The optional terms of the extra variables: groups from [k] on. *)
Fixpoint opt_terms (k : nat) (vars : list jsstr) : regex :=
  match vars with
  | [] => Eps
  | v :: vars => Opt (ws · lit "+" · ws · term_of (lit_chars v) k) · opt_terms (S k) vars
  end.

Definition opt_call (k : nat) : regex := Opt (call_re k · Opt (ws · lit "+" · ws)).

Definition opt_tokens (k : nat) : regex :=
  Opt (term_of (lit "p") k · ws · lit "+" · ws · term_of (lit "c") (k + 1) ·
       opt_terms (k + 2) (map snd BILLING_CACHE_VAR_MAP)).

(** A tier whose label is group [k], the cost per call group [k + 1], the input
    and output costs the next two, the extra variables the others. *)
Definition tier_re (k : nat) : regex :=
  lit "tier(" · dq · Group k (Star (Chr (λ c, negb (c =? 34)))) · dq · lit "," · ws ·
  opt_call (k + 1) · opt_tokens (k + 2) · lit ")".

Definition simple_var : regex := words [js "p"; js "c"; js "len"].

Definition visual_re : regex :=
  Opt (Group 1 (condition_list simple_var) · ws · lit "?" · ws) · tier_re 2.

(** The captured tier; the last argument is the group of its label. *)
Definition captured_tier (conds : list TierConditionInput) (m : captures) (k : nat) : PartialTier :=
  let number n := match cap n m with Some s => str_to_num s | None => num_zero end in
  MkPartialTier (Some (grp k m)) (Some conds) (Some (number (k + 2)%nat)) (Some (number (k + 3)%nat))
    (Some (number (k + 1)%nat)) None
    (omap (λ p, (λ s, (p.1, str_to_num s)) <$> cap p.2 m)
       (imap (λ i v, (v.1, (k + 4 + i)%nat)) BILLING_CACHE_VAR_MAP)).

(** A match that has a cost per call or token costs. *)
Definition has_costs (m : captures) (k : nat) : bool :=
  negb (is_none (cap (k + 1) m)) || negb (is_none (cap (k + 2) m)).

Definition input_of (c : BillingTiers.TierCondition) : TierConditionInput :=
  MkInput (BillingTiers.var c) (BillingTiers.op c) (VNum (BillingTiers.value c)).

Definition read_tier (m : captures) : option VisualTier :=
  if has_costs m 2 then
    Some (normalizeVisualTier
            (captured_tier (map input_of (parse_conditions simple_var (grp 1 m))) m 2))
  else None.

Definition version_body (s : jsstr) : jsstr :=
  match match_re version_re s with Some m => grp 2 m | None => s end.

(** [None]: [null] *)
Definition tryParseVisualConfig (exprStr : jsstr) : option VisualConfig :=
  if is_empty exprStr then None
  else
    let body := version_body exprStr in
    match match_re (full (tier_re 1)) body ≫= (λ m, if has_costs m 1 then Some m else None) with
    | Some simple =>
        Some (normalizeVisualConfig (Some [normalizeVisualTier (captured_tier [] simple 1)]))
    | None =>
        match omap read_tier (exec_all visual_re body) with
        | [] => None
        | tiers =>
            let cfg := normalizeVisualConfig (Some tiers) in
            if decide (strip_ws (generateExprFromVisualConfig (Some cfg)) = strip_ws body)
            then Some cfg else None
        end
    end.

(** ** Extra variables of the estimator *)

Definition ESTIMATOR_VARS : list (jsstr * jsstr) :=
  [(js "cr", js "cacheReadTokens"); (js "cc", js "cacheCreateTokens");
   (js "cc1h", js "cacheCreate1hTokens"); (js "img", js "imageTokens");
   (js "img_o", js "imageOutputTokens"); (js "ai", js "audioInputTokens");
   (js "ao", js "audioOutputTokens")].

Definition exprUsesExtraVars (exprStr : jsstr) : bool :=
  if is_empty exprStr then false
  else test_re (WordB · Group 1 (words ESTIMATOR_VARS.*1) · WordB) exprStr.

End VisualTiers.
