(* ===== verification/TierRules.v ===== *)
(** * What the tier editor writes it reads back

    The exact reader of tier expressions ([VisualTiers.tryParseVisualConfig])
    against their writer: the pattern of a tier is read deterministically,
    term by term, on every text the writer makes. *)

From stdpp Require Import base list strings sets.
From Stdlib Require Import ZArith Lia SpecFloat.
From S2P Require Import Prelude JsString JsNumber JsValue JsRegex BillingExpr BillingPatterns TierExpr.
Import BillingVars BillingTiers VisualTiers.
#[local] Open Scope Z_scope.

(** ** Terms *)

Definition blank (u : jsstr) : Prop := Forall (λ c, is_ws c = true) u.

(** The closing parenthesis of a tier; a further term, of one of [V]. *)
Definition closing (t : jsstr) : Prop := ∃ r, t = 41 :: r.
Definition plus_var (v t : jsstr) : Prop :=
  ∃ a b d r, t = a ++ 43 :: b ++ v ++ d ++ 42 :: r ∧ blank a ∧ blank b ∧ blank d.
Definition tail_of (V : list jsstr) (t : jsstr) : Prop := closing t ∨ ∃ v, v ∈ V ∧ plus_var v t.

(** A variable name: word characters, the first of which is in no number. *)
Definition name_like (v : jsstr) : Prop :=
  Forall (λ c, is_word c = true) v ∧
  match v with x :: _ => num_char x = false ∧ is_ws x = false | [] => False end.

Lemma ws_not_word c : is_ws c = true → is_word c = false.
Proof.
  unfold is_ws, is_word, is_digit. lia.
Qed.

Lemma num_char_not_ws c : num_char c = true → is_ws c = false.
Proof. intros H%num_char_spec. unfold is_ws. lia. Qed.

Lemma blank_app_not_word u t x r : blank u → u ++ x :: r = t → is_word x = false →
  ∃ y s, t = y :: s ∧ is_word y = false.
Proof.
  intros Hu <- Hx. destruct Hu as [|y u Hy Hu]; simpl; eauto using ws_not_word.
Qed.

(** The variable of the next term is determined by the text. *)
Lemma plus_var_inj v v' t : name_like v → name_like v' → plus_var v t → plus_var v' t → v = v'.
Proof.
  intros [Hv Hx] [Hv' Hx'] (a & b & d & r & -> & Ha & Hb & Hd) (a' & b' & d' & r' & E & Ha' & Hb' & Hd').
  destruct v as [|x v]; [done|]. destruct v' as [|x' v']; [done|].
  apply (sep_inj is_ws) in E as (_ & _ & E); [|done..].
  apply (sep_inj is_ws b b' x x') in E as (_ & -> & E); [|by destruct_and!..].
  f_equal. apply Forall_cons in Hv as [_ Hv], Hv' as [_ Hv'].
  destruct (blank_app_not_word d _ 42 r Hd eq_refl eq_refl) as (y & s & Ey & Hy).
  destruct (blank_app_not_word d' _ 42 r' Hd' eq_refl eq_refl) as (y' & s' & Ey' & Hy').
  rewrite Ey, Ey' in E. by apply (sep_inj is_word) in E as (? & _).
Qed.

Lemma plus_var_not_closing v t : plus_var v t → ¬ closing t.
Proof.
  intros (a & b & d & r & -> & Ha & _) [r' E]. destruct Ha as [|x a Hx _]; [done|].
  injection E as -> _. by vm_compute in Hx.
Qed.

(** *** Numbers *)

Definition num_or_ws (c : Z) : bool := num_char c || is_ws c.

(** What is between a number and the next variable. *)
Lemma tail_shape V t : Forall name_like V → tail_of V t →
  ∃ g x r, t = g ++ x :: r ∧ Forall (λ c, num_or_ws c = true) g ∧ num_or_ws x = false ∧
           (g = [] ∧ x = 41 ∨ (∃ a b, g = a ++ 43 :: b ∧ blank a ∧ blank b) ∧ x ≠ 41).
Proof.
  intros HV [[r ->]|(v & Hv & a & b & d & r & -> & Ha & Hb & Hd)].
  - exists [], 41, r. auto 10.
  - rewrite Forall_forall in HV. destruct (HV v Hv) as [Hw Hx]. destruct v as [|x v]; [done|].
    destruct Hx as [Hn Hs]. exists (a ++ 43 :: b), x, (v ++ d ++ 42 :: r).
    assert (∀ u, blank u → Forall (λ c, num_or_ws c = true) u) as Hb'.
    { intros u Hu. eapply Forall_impl; [exact Hu|]. intros c Hc. unfold num_or_ws. rewrite Hc. by rewrite orb_true_r. }
    split_and!; [by rewrite <-app_assoc| | |].
    + apply Forall_app; split; [by auto|]. constructor; [done|by auto].
    + unfold num_or_ws. by rewrite Hn, Hs.
    + right. split; [by eauto|]. apply Forall_cons in Hw as [Hw _]. intros ->. by vm_compute in Hw.
Qed.

(** Blank ends of a text, and what precedes them. *)
Lemma blank_end_inj u u' x x' s s' :
  blank u → blank u' → is_ws x = false → is_ws x' = false →
  s ++ x :: u = s' ++ x' :: u' → u = u' ∧ x = x' ∧ s = s'.
Proof.
  intros Hu Hu' Hx Hx' E%(f_equal reverse). rewrite !reverse_app, !reverse_cons, <-!app_assoc in E.
  apply (sep_inj is_ws (reverse u) (reverse u')) in E as (E1 & -> & E2);
    [|by apply Forall_reverse..|done|done].
  by apply (inj reverse) in E1, E2.
Qed.

Lemma numeric_last w : numeric w → ∃ s x, w = s ++ [x] ∧ is_ws x = false.
Proof.
  intros [Hne Hw]. destruct (exists_last Hne) as (s & x & ->). exists s, x. split; [done|].
  apply Forall_app in Hw as [_ Hw]. by apply Forall_cons in Hw as [?%num_char_not_ws _].
Qed.

(** A number ends where the tail begins, although a sign may belong to both. *)
Lemma number_tail_inj V w w' t t' :
  Forall name_like V → numeric w → numeric w' → tail_of V t → tail_of V t' → w ++ t = w' ++ t' → w = w'.
Proof.
  intros HV Hw Hw' Ht Ht' E.
  apply tail_shape in Ht as (g & x & r & -> & Hg & Hx & Hs), Ht' as (g' & x' & r' & -> & Hg' & Hx' & Hs'); [|done..].
  assert (∀ u, numeric u → Forall (λ c, num_or_ws c = true) u) as Hn.
  { intros u [_ Hu]. eapply Forall_impl; [exact Hu|]. intros c Hc. unfold num_or_ws. by rewrite Hc. }
  rewrite !app_assoc in E. apply (sep_inj num_or_ws) in E as (E & -> & _);
    [|by apply Forall_app; auto|by apply Forall_app; auto|done..].
  destruct Hs as [[-> ->]|[(a & b & -> & Ha & Hb) Hx1]], Hs' as [[-> Ex]|[(a' & b' & -> & Ha' & Hb') Hx2]]; try done.
  - by rewrite !app_nil_r in E.
  - rewrite !app_assoc in E. apply blank_end_inj in E as (_ & _ & E); [|done..].
    destruct (numeric_last w Hw) as (s & y & -> & Hy), (numeric_last w' Hw') as (s' & y' & -> & Hy').
    rewrite <-!app_assoc in E. simpl in E. apply blank_end_inj in E as (_ & -> & ->); done.
Qed.

Lemma reads_number V k w :
  Forall name_like V → numeric w → reads (tail_of V) (Group k num_text) w [(k, w)].
Proof.
  intros HV Hw. apply (reads_group _ k num_text w []). intros b t c0 Ht.
  split; [by apply parses_num|]. intros w' t' c' E HF [Hw' ->]%parses_num.
  split; [|done]. symmetry. exact (number_tail_inj V w w' t t' HV Hw Hw' Ht HF E).
Qed.

Lemma reads_eq F r w w' c c' : reads F r w c → w = w' → c = c' → reads F r w' c'.
Proof. by intros H <- <-. Qed.

Lemma reads_ws F u : blank u → (∀ t, F t → not_first is_ws t) → reads F ws u [].
Proof. intros Hu HF. eapply reads_weaken; [exact HF|]. by apply reads_star_chr. Qed.

(** What the texts a pattern can begin look like. *)
Lemma before_seq r1 r2 F t : before_lang (r1 · r2) F t → before_lang r1 (before_lang r2 F) t.
Proof.
  intros (b & w & t' & c & c' & -> & (w1 & w2 & c1 & -> & H1 & H2)%parses_seq & HF).
  exists b, w1, (w2 ++ t'), c, c1. split_and!; [by rewrite app_assoc|done|]. do 5 eexists. eauto.
Qed.

Lemma before_lit_chars l F t : before_lang (lit_chars l) F t → ∃ r, t = l ++ r ∧ F r.
Proof. intros (b & w & t' & c & c' & -> & [-> ->]%parses_lit_chars & HF). eauto. Qed.

Lemma before_ws F t : before_lang ws F t → ∃ u r, t = u ++ r ∧ blank u ∧ F r.
Proof. intros (b & w & t' & c & c' & -> & [Hw ->]%parses_star_chr & HF). eauto. Qed.

Lemma before_opt r F t : before_lang (Opt r) F t → before_lang r F t ∨ F t.
Proof.
  intros (b & w & t' & c & c' & -> & [H|[-> ->]]%parses_opt & HF); [left|by right]. do 5 eexists. eauto.
Qed.

Lemma before_lit_first s F t x l :
  js s = x :: l → before_lang (lit s) F t → ∃ r, t = x :: r.
Proof. intros E (r & -> & _)%before_lit_chars. rewrite E. simpl. eauto. Qed.

(** [plus X]: a plus sign with white space around it, then [X]. *)
Lemma before_plus X F t :
  before_lang (ws · lit "+" · ws · X) F t →
  ∃ a b r, t = a ++ 43 :: b ++ r ∧ blank a ∧ blank b ∧ before_lang X F r.
Proof.
  intros (a & ? & -> & Ha & (? & -> & (b & r & -> & Hb & H)%before_seq%before_ws)%before_seq%before_lit_chars)%before_seq%before_ws.
  by exists a, b, r.
Qed.

Lemma before_term v k F t :
  before_lang (term_of (lit_chars v) k) F t → ∃ d r, t = v ++ d ++ 42 :: r ∧ blank d.
Proof.
  intros (? & -> & (d & ? & -> & Hd & (r & -> & _)%before_seq%before_lit_chars)%before_seq%before_ws)%before_seq%before_lit_chars.
  by exists d, r.
Qed.

Lemma before_plus_term v k F t :
  before_lang (ws · lit "+" · ws · term_of (lit_chars v) k) F t → plus_var v t.
Proof.
  intros (a & b & r & -> & Ha & Hb & (d & r' & -> & Hd)%before_term)%before_plus. by exists a, b, d, r'.
Qed.

Lemma before_plus_term_seq v k R F t :
  before_lang (ws · lit "+" · ws · term_of (lit_chars v) k · R) F t → plus_var v t.
Proof.
  intros (a & b & r & -> & Ha & Hb & (d & r' & -> & Hd)%before_seq%before_term)%before_plus.
  by exists a, b, d, r'.
Qed.

Lemma parses_before r b w t c c' F : parses r b w t c c' → F t → before_lang r F (w ++ t).
Proof. intros. do 5 eexists. eauto. Qed.

Definition term_string (v w : jsstr) : jsstr := v ++ js " * " ++ w.

Lemma reads_term V v k w :
  Forall name_like V → numeric w →
  reads (tail_of V) (term_of (lit_chars v) k) (term_string v w) [(k, w)].
Proof.
  intros HV Hw. eapply reads_eq; [|reflexivity|].
  - unfold term_of, term_string. eapply reads_seq; [apply reads_lit_chars|].
    change (js " * " ++ w) with ([32] ++ js "*" ++ [32] ++ w).
    eapply reads_seq; [apply reads_ws; [by repeat constructor|]|].
    { by intros t (r & ->)%before_seq%(before_lit_first "*" _ _ 42 []). }
    eapply reads_seq; [apply reads_lit|].
    eapply reads_seq; [apply reads_ws; [by repeat constructor|]|by eapply reads_number].
    intros t (b & u & t' & c & c' & -> & (c1 & [Hu ->]%parses_num & ->)%parses_group & _).
    destruct Hu as [Hne Hu]. destruct Hu as [|x u Hx Hu]; [done|]. by apply num_char_not_ws.
  - done.
Qed.

Lemma reads_plus F X w c :
  (∀ t, before_lang X F t → not_first is_ws t) → reads F X w c →
  reads F (ws · lit "+" · ws · X) (js " + " ++ w) c.
Proof.
  intros HX H. eapply reads_eq; [|reflexivity|].
  - change (js " + " ++ w) with ([32] ++ js "+" ++ [32] ++ w).
    eapply reads_seq; [apply reads_ws; [by repeat constructor|]|].
    { by intros t (r & ->)%before_seq%(before_lit_first "+" _ _ 43 []). }
    eapply reads_seq; [apply reads_lit|].
    eapply reads_seq; [apply reads_ws; [by repeat constructor|done]|exact H].
  - by rewrite !app_nil_r.
Qed.

Lemma name_not_ws v r : name_like v → not_first is_ws (v ++ r).
Proof. intros [_ Hv]. destruct v; [done|]. by destruct Hv. Qed.

(** *** The optional terms *)

Definition opt_text (l : list (jsstr * option jsstr)) : jsstr :=
  concat (map (λ p, match p.2 with Some w => js " + " ++ term_string p.1 w | None => [] end) l).

Fixpoint opt_caps (k : nat) (l : list (jsstr * option jsstr)) : captures :=
  match l with
  | [] => []
  | p :: l => opt_caps (S k) l ++ match p.2 with Some w => [(k, w)] | None => [] end
  end.

Lemma before_opt_terms k V t : before_lang (opt_terms k V) closing t → tail_of V t.
Proof.
  revert k t. induction V as [|v V IH]; intros k t; cbn [opt_terms].
  - intros (b & w & t' & c & c' & -> & [-> ->]%parses_eps & HF). by left.
  - intros [H%before_plus_term|H]%before_seq%before_opt.
    + right. exists v. split; [by left|done].
    + apply IH in H as [H|(v' & Hv & H)]; [by left|]. right. exists v'. split; [by right|done].
Qed.

Lemma reads_opt_terms k l :
  Forall (λ p, name_like p.1 ∧ match p.2 with Some w => numeric w | None => True end) l →
  NoDup l.*1 → reads closing (opt_terms k l.*1) (opt_text l) (opt_caps k l).
Proof.
  intros Hl. revert k. induction Hl as [|[v o] l [Hv Ho] Hl IH]; intros k Hd; [apply reads_eps|].
  cbn [fmap list_fmap] in *. apply NoDup_cons in Hd as [Hv' Hd]. cbn [opt_terms opt_caps fst snd].
  assert (Forall name_like l.*1) as HV by (apply Forall_fmap; eapply Forall_impl; [exact Hl|]; naive_solver).
  assert (∀ t, plus_var v t → ¬ tail_of (l.*1) t) as Hclash.
  { intros t Ht [Hc|(v' & Hin & Ht')]; [by eapply plus_var_not_closing|].
    rewrite Forall_forall in HV. pose proof (plus_var_inj v v' t Hv (HV v' Hin) Ht Ht'). by subst. }
  apply (reads_seq closing); [|by apply IH].
  eapply reads_weaken; [apply before_opt_terms|]. destruct o as [w|]; cbn [fst snd] in *.
  - apply reads_opt_some.
    + apply reads_plus; [|by apply reads_term].
      intros t (d & r & -> & _)%before_term. by apply name_not_ws.
    + intros t Ht. apply Hclash. exists [32], [32], [32], ([32] ++ w ++ t). split_and!; [|by repeat constructor..].
      unfold term_string. by rewrite <-!app_assoc.
  - apply reads_opt_none. intros b w t c c' H Ht. apply Hclash.
    by eapply before_plus_term, parses_before.
Qed.

(** ** The body of a tier *)

Definition EXTRA_KEYS : list jsstr := BILLING_CACHE_VAR_MAP.*2.

Lemma extra_keys_names : Forall name_like EXTRA_KEYS.
Proof. repeat constructor. Qed.

Lemma extra_keys_distinct : NoDup EXTRA_KEYS.
Proof. apply (bool_decide_unpack (NoDup EXTRA_KEYS)). by vm_compute. Qed.

(** Costs per token: of input and output, and of the extra variables. *)
Record token_texts := MkTokens { t_in : jsstr; t_out : jsstr; t_extra : list (jsstr * option jsstr) }.

Definition wf_tokens (k : token_texts) : Prop :=
  numeric (t_in k) ∧ numeric (t_out k) ∧ (t_extra k).*1 = EXTRA_KEYS ∧
  Forall (λ p, match p.2 with Some w => numeric w | None => True end) (t_extra k).

Definition tokens_text (k : token_texts) : jsstr :=
  term_string (js "p") (t_in k) ++ js " + " ++ term_string (js "c") (t_out k) ++ opt_text (t_extra k).

Definition tokens_caps (n : nat) (k : token_texts) : captures :=
  opt_caps (n + 2) (t_extra k) ++ [((n + 1)%nat, t_out k); (n, t_in k)].

Lemma before_tokens n F t : before_lang (opt_tokens n) F t → (∃ r, t = 112 :: r) ∨ F t.
Proof.
  intros [H|H]%before_opt; [left|by right].
  apply before_seq, before_term in H as (d & r & -> & _). eexists. reflexivity.
Qed.

Lemma reads_tokens n o :
  match o with Some k => wf_tokens k | None => True end →
  reads closing (opt_tokens n) (match o with Some k => tokens_text k | None => [] end)
    (match o with Some k => tokens_caps n k | None => [] end).
Proof.
  unfold opt_tokens. change (map snd BILLING_CACHE_VAR_MAP) with EXTRA_KEYS. destruct o as [k|].
  - intros (Hi & Ho & Hk & Hx). apply reads_opt_some; [|by intros t _ [r E]].
    unfold tokens_text, tokens_caps.
    eapply reads_eq; [|reflexivity|].
    + eapply reads_seq.
      * eapply reads_weaken; [|apply (reads_term [js "c"] (js "p")); [by repeat constructor|done]].
        intros t H. right. exists (js "c"). split; [by left|]. by eapply before_plus_term_seq.
      * apply reads_plus.
        { intros t (d & r & -> & _)%before_seq%before_term. done. }
        eapply reads_seq; [|rewrite <-Hk; apply reads_opt_terms].
        -- eapply reads_weaken; [|apply (reads_term EXTRA_KEYS (js "c")); [apply extra_keys_names|done]].
           apply before_opt_terms.
        -- apply Forall_and. split; [|done]. apply (Forall_fmap fst name_like). rewrite Hk. apply extra_keys_names.
        -- rewrite Hk. apply extra_keys_distinct.
    + by rewrite <-app_assoc.
  - intros _. apply reads_opt_none. intros b w t c c' H Ht [r E].
    apply (parses_before _ _ _ _ _ _ closing) in H; [|done].
    apply before_seq, before_term in H as (d & r' & E' & _). rewrite E in E'. done.
Qed.

(** *** The cost per call *)

Definition call_string (w : jsstr) : jsstr := js "call(" ++ w ++ js ")".

(** What follows the cost per call in a tier. *)
Definition rest_of_tier (n : nat) : regex := opt_tokens n · lit ")".

Lemma before_rest n F t : before_lang (rest_of_tier n) F t → (∃ r, t = 112 :: r) ∨ closing t.
Proof.
  intros [H|H]%before_seq%before_tokens; [by left|right]. by apply (before_lit_first ")" _ _ 41 []) in H.
Qed.

Lemma before_rest_first n F t : before_lang (rest_of_tier n) F t → ∃ x r, t = x :: r ∧ (x = 112 ∨ x = 41).
Proof. intros [[r ->]|[r ->]]%before_rest; eauto. Qed.

Lemma reads_call F k w :
  numeric w → reads F (call_re k) (call_string w) [(k, w)].
Proof.
  intros Hw. eapply reads_eq; [|reflexivity|].
  - unfold call_re, call_string.
    change (js "call(" ++ w ++ js ")") with (js "call" ++ [] ++ js "(" ++ [] ++ w ++ [] ++ js ")").
    eapply reads_seq; [apply reads_lit|].
    eapply reads_seq; [apply reads_ws; [constructor|]|].
    { by intros t (r & ->)%before_seq%(before_lit_first "(" _ _ 40 []). }
    eapply reads_seq; [apply reads_lit|].
    eapply reads_seq; [apply reads_ws; [constructor|]|].
    { intros t (b & u & t' & c & c' & -> & (c1 & [Hu ->]%parses_num & ->)%parses_group & _)%before_seq.
      destruct Hu as [Hne Hu]. destruct Hu as [|x u Hx Hu]; [done|]. by apply num_char_not_ws. }
    eapply reads_seq.
    { eapply reads_weaken; [|apply (reads_group _ k num_text w []); apply reads_plus_chr; apply Hw].
      intros t (u & r & -> & Hu & H)%before_seq%before_ws.
      apply (before_lit_first ")" _ _ 41 []) in H as [r' ->]; [|done].
      destruct Hu as [|x u Hx Hu]; simpl; [done|]. destruct (num_char x) eqn:E; [|done].
      apply num_char_not_ws in E. congruence. }
    eapply reads_seq; [apply reads_ws; [constructor|]|apply reads_lit].
    by intros t (r & ->)%(before_lit_first ")" _ _ 41 []).
  - done.
Qed.

Definition call_part (call : option jsstr) (more : bool) : jsstr :=
  match call with Some w => call_string w ++ (if more then js " + " else []) | None => [] end.
Definition call_caps (k : nat) (call : option jsstr) : captures :=
  match call with Some w => [(k, w)] | None => [] end.

Lemma before_plus_sign F t : before_lang (ws · lit "+" · ws) F t → ∃ x r, t = x :: r ∧ x ≠ 112 ∧ x ≠ 41.
Proof.
  intros (a & ? & -> & Ha & (r & -> & _)%before_seq%before_lit_chars)%before_seq%before_ws.
  destruct Ha as [|x a Hx _]; simpl; [by eauto|]. eexists x, _. split_and!; [done|by intros ->..].
Qed.

Lemma reads_plus_sign F n :
  reads (before_lang (rest_of_tier n) F) (ws · lit "+" · ws) (js " + ") [].
Proof.
  eapply reads_eq; [|reflexivity|].
  - change (js " + ") with ([32] ++ js "+" ++ [32]).
    eapply reads_seq; [apply reads_ws; [by repeat constructor|]|].
    { by intros t (r & ->)%before_seq%(before_lit_first "+" _ _ 43 []). }
    eapply reads_seq; [apply reads_lit|apply reads_ws; [by repeat constructor|]].
    by intros t (x & r & -> & [-> | ->])%before_rest_first.
  - done.
Qed.

Lemma reads_opt_call F n k call more :
  match call with Some w => numeric w | None => True end →
  reads (before_lang (rest_of_tier n) F) (opt_call k) (call_part call more) (call_caps k call).
Proof.
  intros Hc. unfold opt_call. destruct call as [w|]; cbn [call_part call_caps].
  - apply reads_opt_some.
    + apply (reads_seq _ _ _ _ _ [(k, w)] []); [by apply reads_call|]. destruct more.
      * apply reads_opt_some; [apply reads_plus_sign|].
        intros t _ (x & r & E & Hx)%before_rest_first.
        destruct Hx as [-> | ->]; discriminate E.
      * apply reads_opt_none. intros b u t c c' H Ht (x & r & E & Hx)%before_rest_first.
        apply (parses_before _ _ _ _ _ _ (λ _, True)) in H; [|done].
        apply before_plus_sign in H as (x' & r' & E' & ? & ?). rewrite E in E'. injection E' as -> _. by destruct Hx.
    + intros t _ (x & r & E & Hx)%before_rest_first.
        destruct Hx as [-> | ->]; discriminate E.
  - apply reads_opt_none. intros b u t c c' H Ht (x & r & E & Hx)%before_rest_first.
    apply (parses_before _ _ _ _ _ _ (λ _, True)) in H; [|done].
    apply before_seq, before_seq, before_lit_chars in H as (r' & E' & _). rewrite E in E'. by destruct Hx as [-> | ->].
Qed.

(** ** Tiers *)

(** What a tier says: its label, cost per call and costs per token. *)
Record tier_texts := MkTexts { x_label : jsstr; x_call : option jsstr; x_tokens : option token_texts }.

Definition wf_texts (x : tier_texts) : Prop :=
  Forall (λ c, negb (c =? 34) = true) (x_label x) ∧
  match x_call x with Some w => numeric w | None => True end ∧
  match x_tokens x with Some k => wf_tokens k | None => True end.

Definition texts_text (x : tier_texts) : jsstr :=
  js "tier(" ++ [34] ++ x_label x ++ [34] ++ js ", " ++
  call_part (x_call x) (negb (is_none (x_tokens x))) ++
  match x_tokens x with Some k => tokens_text k | None => [] end ++ js ")".

Definition texts_caps (k : nat) (x : tier_texts) : captures :=
  match x_tokens x with Some t => tokens_caps (k + 2) t | None => [] end ++
  call_caps (k + 1) (x_call x) ++ [(k, x_label x)].

Lemma before_dq R F t : before_lang (dq · R) F t → ∃ r, t = 34 :: r.
Proof. intros (b & w & t' & c & c' & -> & [-> ->]%parses_dq & _)%before_seq. eauto. Qed.

Lemma reads_dq F : reads F dq [34] [].
Proof. intros b t c0 _. split; [by apply parses_dq|]. by intros w' t' c' _ _ [-> ->]%parses_dq. Qed.

Lemma reads_tier F k x : wf_texts x → reads F (tier_re k) (texts_text x) (texts_caps k x).
Proof.
  intros (Hl & Hc & Ht). eapply reads_eq; [|reflexivity|].
  - unfold tier_re, texts_text.
    change (js ", " ++ ?y) with (js "," ++ [32] ++ y).
    eapply reads_seq; [apply reads_lit|].
    eapply reads_seq; [apply reads_dq|].
    eapply reads_seq.
    { eapply reads_weaken; [|apply (reads_group _ k _ _ []), reads_star_chr, Hl].
      by intros t [r ->]%before_dq. }
    eapply reads_seq; [apply reads_dq|].
    eapply reads_seq; [apply reads_lit|].
    eapply reads_seq; [apply reads_ws; [by repeat constructor|]|].
    { intros t [H|H]%before_seq%before_opt.
      - by apply before_seq, before_seq, before_lit_chars in H as (r & -> & _).
      - by apply before_rest_first in H as (y & r & -> & [-> | ->]). }
    eapply reads_seq; [by apply reads_opt_call|].
    eapply reads_seq; [|apply reads_lit].
    eapply reads_weaken; [|by apply reads_tokens].
    intros t H. by apply (before_lit_first ")" _ _ 41 []) in H.
  - unfold texts_caps. simpl. by rewrite app_nil_r, <-!app_assoc.
Qed.

(** ** Conditions *)

Definition VARS : list jsstr := [js "p"; js "c"; js "len"].
Definition OPS : list jsstr := [js "<"; js "<="; js ">"; js ">="].
Definition cmp_char (c : Z) : bool := (c =? 60) || (c =? 61) || (c =? 62).
Definition unsigned (w : jsstr) : Prop := w ≠ [] ∧ Forall (λ c, unsigned_char c = true) w.

Lemma reads_words p F l w :
  w ∈ l → Forall (Forall (λ c, p c = true)) l → (∀ t, F t → not_first p t) → reads F (words l) w [].
Proof.
  intros Hw Hl HF b t c0 Ht. split; [by apply parses_words|].
  intros w' t' c' E Ht' [Hw' ->]%parses_words. rewrite Forall_forall in Hl.
  by apply (span_inj p) in E as [-> _]; auto.
Qed.

Lemma before_words l F t : before_lang (words l) F t → ∃ v r, v ∈ l ∧ t = v ++ r ∧ F r.
Proof. intros (b & w & t' & c & c' & -> & [Hw ->]%parses_words & HF). eauto. Qed.

Lemma before_plus_chr p F t : before_lang (Plus (Chr p)) F t → ∃ x r, t = x :: r ∧ p x = true.
Proof.
  intros (b & w & t' & c & c' & -> & (Hne & Hw & ->)%parses_plus_chr & _).
  destruct Hw as [|x w Hx _]; [done|]. simpl. eauto.
Qed.

Lemma unsigned_char_spec c :
  unsigned_char c = true ↔ is_digit c = true ∨ c = 46 ∨ c = 101 ∨ c = 69 ∨ c = 43.
Proof.
  unfold unsigned_char, one_of. rewrite orb_true_iff, bool_decide_eq_true.
  change (js ".eE+") with [46; 101; 69; 43]. set_solver.
Qed.

Lemma blank_first (p : Z → bool) u r :
  (∀ c, is_ws c = true → p c = false) → blank u → not_first p r → not_first p (u ++ r).
Proof. intros Hp [|x u' Hx _] Hr; simpl; auto. Qed.

Definition cond_texts : Type := jsstr * jsstr * jsstr.
Definition wf_cond (q : cond_texts) : Prop := q.1.1 ∈ VARS ∧ q.1.2 ∈ OPS ∧ unsigned q.2.
Definition cond_text (q : cond_texts) : jsstr := q.1.1 ++ js " " ++ q.1.2 ++ js " " ++ q.2.

Lemma unsigned_not_ws c : unsigned_char c = true → is_ws c = false.
Proof. rewrite unsigned_char_spec. unfold is_ws, is_digit. lia. Qed.
Lemma unsigned_not_cmp c : unsigned_char c = true → cmp_char c = false.
Proof. rewrite unsigned_char_spec. unfold cmp_char, is_digit. lia. Qed.
Lemma ws_not_cmp c : is_ws c = true → cmp_char c = false.
Proof. unfold is_ws, cmp_char. lia. Qed.
Lemma cmp_not_ws c : cmp_char c = true → is_ws c = false.
Proof. unfold is_ws, cmp_char. lia. Qed.
Lemma cmp_not_word c : cmp_char c = true → is_word c = false.
Proof. unfold is_word, is_digit, cmp_char. lia. Qed.
Lemma ws_not_unsigned c : is_ws c = true → unsigned_char c = false.
Proof. intros H. destruct (unsigned_char c) eqn:E; [|done]. apply unsigned_not_ws in E. congruence. Qed.

Lemma ops_first w r : w ∈ OPS → ∃ x s, w ++ r = x :: s ∧ cmp_char x = true.
Proof. unfold OPS. rewrite !elem_of_cons. intros [->|[->|[->|[->|?%elem_of_nil]]]]; [..|done]; eexists _, _; by split. Qed.

Lemma vars_first w r : w ∈ VARS → ∃ x s, w ++ r = x :: s ∧ (x = 112 ∨ x = 99 ∨ x = 108).
Proof. unfold VARS. rewrite !elem_of_cons. intros [->|[->|[->|?%elem_of_nil]]]; [..|done]; eexists _, _; split; auto. Qed.

(** The pieces of a condition, in a pattern that may capture them. *)
Section condition_pieces.
Context (o n : regex) (F : jsstr → Prop).
Context (Ho : ∀ F t, before_lang o F t → before_lang (words OPS) F t).
Context (Hn : ∀ F t, before_lang n F t → before_lang (Plus (Chr unsigned_char)) F t).

Lemma op_first R t : before_lang (o · R) F t → ∃ x r, t = x :: r ∧ cmp_char x = true.
Proof. intros (w & s & Hw & -> & _)%before_seq%Ho%before_words. by apply ops_first. Qed.

Lemma after_var R t : before_lang (ws · o · R) F t → not_first is_word t.
Proof.
  intros (u & r & -> & Hu & (x & s & -> & Hx)%op_first)%before_seq%before_ws.
  apply blank_first; [apply ws_not_word|done|]. by apply cmp_not_word.
Qed.

Lemma before_op R t : before_lang (o · R) F t → not_first is_ws t.
Proof. intros (x & s & -> & Hx)%op_first. by apply cmp_not_ws. Qed.

Lemma after_op t : before_lang (ws · n) F t → not_first cmp_char t.
Proof.
  intros (u & r & -> & Hu & (x & s & -> & Hx)%Hn%before_plus_chr)%before_seq%before_ws.
  apply blank_first; [apply ws_not_cmp|done|]. by apply unsigned_not_cmp.
Qed.

Lemma before_value t : before_lang n F t → not_first is_ws t.
Proof. intros (x & s & -> & Hx)%Hn%before_plus_chr. by apply unsigned_not_ws. Qed.

Lemma reads_pieces v q cv co cn :
  wf_cond q → (∀ F, (∀ t, F t → not_first is_word t) → reads F v q.1.1 cv) →
  (∀ F, (∀ t, F t → not_first cmp_char t) → reads F o q.1.2 co) → reads F n q.2 cn →
  reads F (v · ws · o · ws · n) (cond_text q) (cn ++ co ++ cv).
Proof.
  intros (Hq & _ & _) Rv Ro Rn. unfold cond_text. eapply reads_eq; [|reflexivity|].
  - eapply reads_seq; [apply Rv, after_var|].
    eapply reads_seq; [apply reads_ws; [by repeat constructor|apply before_op]|].
    eapply reads_seq; [apply Ro, after_op|].
    eapply reads_seq; [apply reads_ws; [by repeat constructor|apply before_value]|exact Rn].
  - by rewrite !app_nil_r, <-!app_assoc.
Qed.
End condition_pieces.

Lemma before_group k r F t : before_lang (Group k r) F t → before_lang r F t.
Proof.
  intros (b & w & t' & c & c' & -> & (c1 & H & ->)%parses_group & HF). do 5 eexists. eauto.
Qed.

Lemma reads_condition F q :
  wf_cond q → (∀ t, F t → not_first unsigned_char t) → reads F (one_condition simple_var) (cond_text q) [].
Proof.
  intros Hq HF. pose proof Hq as (Hv & Ho & Hn).
  apply (reads_pieces compare_re (Plus (Chr unsigned_char)) F) with (cv := []) (co := []) (cn := []); try done.
  - intros G HG. apply (reads_words is_word); [done|by repeat constructor|done].
  - intros G HG. apply (reads_words cmp_char); [done|by repeat constructor|done].
  - eapply reads_weaken; [exact HF|]. apply reads_plus_chr; apply Hn.
Qed.

Lemma match_full_reads r w c : reads (λ t, t = []) r w c → match_re (full r) w = Some c.
Proof.
  intros H. destruct (H [] [] [] eq_refl) as [Hp Hu]. rewrite app_nil_r in Hp.
  apply match_full_unique; [done|]. intros c' Hc'.
  destruct (Hu w [] c') as [_ ->]; by rewrite ?app_nil_r.
Qed.

Lemma condition_match q :
  wf_cond q → match_re (condition_re simple_var) (cond_text q) = Some [(3%nat, q.2); (2%nat, q.1.2); (1%nat, q.1.1)].
Proof.
  intros Hq. pose proof Hq as (Hv & Ho & Hn). apply match_full_reads.
  eapply (reads_pieces (Group 2 compare_re) (Group 3 (Plus (Chr unsigned_char)))) with (cv := [_]) (co := [_]) (cn := [_]);
    [intros ??; apply before_group|intros ??; apply before_group|done|..].
  - intros G HG. apply (reads_group _ 1 _ _ []), (reads_words is_word); [done|by repeat constructor|done].
  - intros G HG. apply (reads_group _ 2 _ _ []), (reads_words cmp_char); [done|by repeat constructor|done].
  - apply (reads_group _ 3 _ _ []). eapply reads_weaken; [|apply reads_plus_chr; apply Hn]. by intros t ->.
Qed.

Definition and_condition : regex := ws · lit "&&" · ws · one_condition simple_var.

Lemma before_and F t : before_lang and_condition F t → ∃ u r, t = u ++ 38 :: r ∧ blank u.
Proof.
  intros (u & ? & -> & Hu & (r & -> & _)%before_seq%before_lit_chars)%before_seq%before_ws. by exists u, (38 :: r).
Qed.

(** White space, then a question mark. *)
Definition asks (t : jsstr) : Prop := ∃ u r, t = u ++ 63 :: r ∧ blank u.

Lemma before_more t : before_lang (Star and_condition) asks t → not_first unsigned_char t.
Proof.
  intros (b & w & t' & c & c' & -> & H & Ht). inversion H; subst.
  - destruct Ht as (u & r & -> & Hu). cbn [app]. apply blank_first; [apply ws_not_unsigned|done|by vm_compute].
  - rewrite <-app_assoc.
    match goal with H : parses and_condition _ _ _ _ _ |- _ =>
      apply (parses_before _ _ _ _ _ _ (λ _, True)) in H; [|done];
      apply before_and in H as (u & r & -> & Hu) end.
    apply blank_first; [apply ws_not_unsigned|done|by vm_compute].
Qed.

Definition conds_text (q : cond_texts) (qs : list cond_texts) : jsstr :=
  cond_text q ++ concat (map (λ q, js " && " ++ cond_text q) qs).

Lemma reads_conditions q qs :
  wf_cond q → Forall wf_cond qs → reads asks (condition_list simple_var) (conds_text q qs) [].
Proof.
  intros Hq Hqs. unfold condition_list. fold and_condition.
  apply (reads_seq _ _ _ _ _ [] []).
  - apply reads_condition; [done|]. apply before_more.
  - apply reads_star.
    + apply Forall_fmap. eapply Forall_impl; [exact Hqs|]. intros q' Hq'. split; [done|]. unfold compose.
      eapply reads_eq; [|reflexivity|].
      * change (js " && " ++ cond_text q') with ([32] ++ js "&&" ++ [32] ++ cond_text q').
        eapply reads_seq; [apply reads_ws; [by repeat constructor|]|].
        { by intros t (r & ->)%before_seq%(before_lit_first "&&" _ _ 38 [38]). }
        eapply reads_seq; [apply reads_lit|].
        eapply reads_seq; [apply reads_ws; [by repeat constructor|]|].
        { intros t (v & r & Hv & -> & _)%before_seq%before_words.
          by destruct (vars_first v r Hv) as (x & s & -> & [->|[->| ->]]). }
        apply reads_condition; [done|]. apply before_more.
      * done.
    + intros b w t c c' H Ht (u & r & E & Hu).
      apply (parses_before _ _ _ _ _ _ (λ _, True)) in H; [|done].
      apply before_and in H as (u' & r' & E' & Hu'). rewrite E in E'.
      by apply (sep_inj is_ws) in E' as (_ & ? & _).
Qed.

(** ** Parts: a tier with its conditions *)

Definition guard : Type := option (cond_texts * list cond_texts).
Definition wf_guard (g : guard) : Prop :=
  match g with Some (q, qs) => wf_cond q ∧ Forall wf_cond qs | None => True end.
Definition guard_text (g : guard) : jsstr :=
  match g with Some (q, qs) => conds_text q qs ++ js " ? " | None => [] end.

Definition part : Type := guard * tier_texts.
Definition wf_part (p : part) : Prop := wf_guard p.1 ∧ wf_texts p.2.
Definition part_text (p : part) : jsstr := guard_text p.1 ++ texts_text p.2.
Definition part_caps (p : part) : captures :=
  texts_caps 2 p.2 ++ match p.1 with Some (q, qs) => [(1%nat, conds_text q qs)] | None => [] end.

Lemma conds_first q qs r : wf_cond q → ∃ x s, conds_text q qs ++ r = x :: s ∧ (x = 112 ∨ x = 99 ∨ x = 108).
Proof. intros (Hv & _). unfold conds_text, cond_text. rewrite <-!app_assoc. by apply vars_first. Qed.

Lemma before_tier k F t : before_lang (tier_re k) F t → ∃ r, t = 116 :: r.
Proof. intros (r & -> & _)%before_seq%before_lit_chars. by eexists. Qed.

Lemma reads_part F p : wf_part p → reads F visual_re (part_text p) (part_caps p).
Proof.
  destruct p as [g x]. intros [Hg Hx]. cbn [fst snd] in *. apply reads_seq; [|by apply reads_tier].
  destruct g as [[q qs]|]; cbn [guard_text fst snd].
  - destruct Hg as [Hq Hqs]. apply reads_opt_some.
    + apply (reads_seq _ _ _ _ _ [(1%nat, conds_text q qs)] []).
      * eapply reads_weaken; [|by apply (reads_group _ 1 _ _ []), reads_conditions].
        intros t (u & ? & -> & Hu & (r & -> & _)%before_seq%before_lit_chars)%before_seq%before_ws.
        by exists u, r.
      * eapply reads_eq; [|reflexivity|].
        -- change (js " ? ") with ([32] ++ js "?" ++ [32]).
           eapply reads_seq; [apply reads_ws; [by repeat constructor|]|].
           { by intros t (r & ->)%before_seq%(before_lit_first "?" _ _ 63 []). }
           eapply reads_seq; [apply reads_lit|apply reads_ws; [by repeat constructor|]].
           by intros t [r ->]%before_tier.
        -- done.
    + intros t _ [r E]%before_tier. rewrite <-app_assoc in E.
      destruct (conds_first q qs (js " ? " ++ t) Hq) as (y & s & E' & Hy). rewrite E in E'.
      injection E' as <- _. lia.
  - apply reads_opt_none. intros b w t c c' H Ht [r E]%before_tier.
    apply (parses_before _ _ _ _ _ _ (λ _, True)) in H; [|done]. rewrite E in H.
    apply before_seq, before_group in H.
    apply before_seq, before_seq, before_words in H as (v & s & Hv & E' & _).
    destruct (vars_first v s Hv) as (y & s' & E'' & Hy). rewrite E'' in E'. injection E' as <- _. lia.
Qed.

(** ** Searching *)

Lemma search_here r b s x : run r Some (St b s []) = Some x → search r b s = Some x.
Proof. intros H. destruct s; cbn [search]; by rewrite H. Qed.

(** A match starts with a condition or with the word [tier]. *)
Definition starter (x : Z) : Prop := x = 112 ∨ x = 99 ∨ x = 108 ∨ x = 116.

Lemma before_visual F t : before_lang visual_re F t → ∃ x r, t = x :: r ∧ starter x.
Proof.
  unfold starter. intros [H|[r ->]%before_tier]%before_seq%before_opt; [|eauto 10].
  apply before_seq, before_group in H.
  apply before_seq, before_seq, before_words in H as (v & s & Hv & -> & _).
  destruct (vars_first v s Hv) as (y & s' & -> & Hy). exists y, s'. naive_solver.
Qed.

Lemma search_skip b x s : ¬ starter x → search visual_re b (x :: s) = search visual_re (x :: b) s.
Proof.
  intros Hx. cbn [search]. destruct (run visual_re Some _) as [y|] eqn:E; [|done].
  apply run_sound in E as (w & t & c & Ew & Hp & _). cbn [rest] in Ew.
  apply (parses_before _ _ _ _ _ _ (λ _, True)) in Hp; [|done]. rewrite <-Ew in Hp.
  apply before_visual in Hp as (y' & r & E & Hy). by simplify_eq.
Qed.

Lemma search_part b p t : wf_part p →
  search visual_re b (part_text p ++ t) = Some (St (reverse (part_text p) ++ b) t (part_caps p)).
Proof. intros H. by apply search_here, run_reads, reads_part. Qed.

Lemma search_sep b s : ∃ b', search visual_re b (js " : " ++ s) = search visual_re b' s.
Proof.
  change (js " : " ++ s) with (32 :: 58 :: 32 :: s).
  rewrite !search_skip by (unfold starter; lia). eauto.
Qed.

(** The parts, then a text without a match. *)
Fixpoint later_text (ps : list part) (tail : jsstr) : jsstr :=
  match ps with [] => tail | p :: ps => js " : " ++ part_text p ++ later_text ps tail end.

Lemma exec_later fuel ps tail b :
  Forall wf_part ps → (length ps < fuel)%nat → (∀ b, search visual_re b tail = None) →
  exec_from visual_re fuel b (later_text ps tail) = map part_caps ps.
Proof.
  intros Hps. revert fuel b. induction Hps as [|p ps Hp _ IH]; intros fuel b Hf Htail;
    (destruct fuel as [|fuel]; [simpl in Hf; lia|]); cbn [exec_from later_text map].
  - by rewrite Htail.
  - destruct (search_sep b (part_text p ++ later_text ps tail)) as [b' ->].
    rewrite search_part by done. cbn [caps before rest]. f_equal. apply IH; [simpl in Hf; lia|done].
Qed.

Lemma later_length ps tail : (length ps <= length (later_text ps tail))%nat.
Proof. induction ps as [|p ps IH]; simpl; [lia|]. rewrite !length_app. lia. Qed.

Lemma exec_parts p ps tail :
  wf_part p → Forall wf_part ps → (∀ b, search visual_re b tail = None) →
  exec_all visual_re (part_text p ++ later_text ps tail) = map part_caps (p :: ps).
Proof.
  intros Hp Hps Ht. unfold exec_all. cbn [exec_from]. rewrite search_part by done.
  cbn [caps before rest map]. f_equal. apply exec_later; [done| |done].
  rewrite length_app. pose proof (later_length ps tail). unfold part_text. rewrite length_app.
  assert (0 < length (texts_text p.2))%nat by (simpl; lia). lia.
Qed.

(** ** Conditions of a match *)

Lemma split_amp_last cur a : 38 ∉ a → split_amp cur a = [trim (reverse cur ++ a)].
Proof.
  revert cur. induction a as [|c a IH]; intros cur Ha; [by rewrite app_nil_r|].
  apply not_elem_of_cons in Ha as [Hc Ha]. cbn [split_amp].
  specialize (IH (c :: cur) Ha). rewrite reverse_cons, <-app_assoc in IH. simpl in IH.
  destruct a; [done|]. by rewrite (proj2 (Z.eqb_neq c 38)) by done.
Qed.

Lemma split_amp_app cur a s :
  38 ∉ a → split_amp cur (a ++ 38 :: 38 :: s) = trim (reverse cur ++ a) :: split_amp [] s.
Proof.
  revert cur. induction a as [|c a IH]; intros cur Ha; [by rewrite app_nil_r|].
  apply not_elem_of_cons in Ha as [Hc Ha]. cbn [app split_amp].
  specialize (IH (c :: cur) Ha). rewrite reverse_cons, <-app_assoc in IH. simpl in IH.
  destruct (a ++ 38 :: 38 :: s) as [|d r] eqn:E; [by destruct a|].
  by rewrite (proj2 (Z.eqb_neq c 38)) by done.
Qed.

Lemma drop_ws_blank u s : blank u → drop_ws (u ++ s) = drop_ws s.
Proof. induction 1 as [|c u Hc _ IH]; simpl; [done|]. by rewrite Hc. Qed.

Lemma trim_blanks u s v : blank u → blank v → trimmed s → s ≠ [] → trim (u ++ s ++ v) = s.
Proof.
  intros Hu Hv [H1 H2] Hne. unfold trim. rewrite drop_ws_blank by done.
  destruct s as [|c s]; [done|]. rewrite (drop_ws_id ((c :: s) ++ v)) by done.
  rewrite reverse_app, drop_ws_blank by by apply Forall_reverse.
  by rewrite (drop_ws_id (reverse (c :: s))), reverse_involutive.
Qed.

Lemma vars_facts v : v ∈ VARS → 38 ∉ v ∧ head_nows v ∧ v ≠ [].
Proof.
  unfold VARS. rewrite !elem_of_cons.
  intros [->|[->|[->|?%elem_of_nil]]]; [..|done]; (split_and!; [by apply (bool_decide_unpack _)|done|done]).
Qed.
Lemma ops_facts o : o ∈ OPS → 38 ∉ o.
Proof.
  unfold OPS. rewrite !elem_of_cons.
  intros [->|[->|[->|[->|?%elem_of_nil]]]]; [..|done]; by apply (bool_decide_unpack _).
Qed.

Lemma unsigned_facts n : unsigned n → 38 ∉ n ∧ ∃ s x, n = s ++ [x] ∧ is_ws x = false.
Proof.
  intros [Hne Hn]. split.
  - intros Hin. rewrite Forall_forall in Hn. apply Hn, unsigned_char_spec in Hin. unfold is_digit in Hin. lia.
  - destruct (exists_last Hne) as (s & x & ->). exists s, x. split; [done|].
    apply Forall_app in Hn as [_ Hn]. by apply Forall_cons in Hn as [?%unsigned_not_ws _].
Qed.

Lemma cond_text_facts q : wf_cond q → 38 ∉ cond_text q ∧ trimmed (cond_text q) ∧ cond_text q ≠ [].
Proof.
  intros (Hv & Ho & Hn). destruct (vars_facts _ Hv) as (Hv1 & Hv2 & Hv3).
  pose proof (ops_facts _ Ho) as Ho1. destruct (unsigned_facts _ Hn) as (Hn1 & s & x & En & Hx).
  unfold cond_text. split_and!.
  - rewrite !not_elem_of_app. split_and!; try done; by apply (bool_decide_unpack _).
  - split; [by destruct q.1.1|]. rewrite En, !reverse_app, reverse_singleton. done.
  - by destruct q.1.1.
Qed.

Lemma split_conds u q qs :
  blank u → wf_cond q → Forall wf_cond qs →
  split_amp [] (u ++ conds_text q qs) = cond_text q :: map cond_text qs.
Proof.
  intros Hu Hq Hqs. revert u q Hu Hq. induction Hqs as [|q' qs Hq' _ IH]; intros u q Hu Hq;
    destruct (cond_text_facts q Hq) as (H1 & H2 & H3);
    (assert (38 ∉ u) by (intros Hin; unfold blank in Hu; rewrite Forall_forall in Hu; by apply Hu in Hin));
    unfold conds_text; cbn [map concat].
  - rewrite split_amp_last by (rewrite !not_elem_of_app; set_solver). f_equal.
    apply (trim_blanks u _ []); [done|constructor|done..].
  - change ((js " && " ++ cond_text q') ++ ?z) with ([32] ++ 38 :: 38 :: [32] ++ cond_text q' ++ z).
    rewrite !app_assoc, <-(app_assoc u). rewrite split_amp_app by (rewrite !not_elem_of_app; set_solver).
    f_equal; [apply (trim_blanks u _ [32]); [done|by repeat constructor|done..]|].
    rewrite <-app_assoc. apply IH; [by repeat constructor|done].
Qed.

Definition cond_of (q : cond_texts) : BillingTiers.TierCondition :=
  BillingTiers.MkCond q.1.1 q.1.2 (str_to_num q.2).

Lemma parse_conds q qs :
  wf_cond q → Forall wf_cond qs → parse_conditions simple_var (conds_text q qs) = map cond_of (q :: qs).
Proof.
  intros Hq Hqs. unfold parse_conditions.
  destruct (conds_first q qs [] Hq) as (x & s & E & _). rewrite app_nil_r in E. rewrite E. cbn [is_empty].
  rewrite <-E. pose proof (split_conds [] q qs (Forall_nil_2 _) Hq Hqs) as Hs. cbn [app] in Hs. rewrite Hs.
  assert (Forall wf_cond (q :: qs)) as Hall by by constructor.
  change (cond_text q :: map cond_text qs) with (map cond_text (q :: qs)).
  induction Hall as [|q' l Hq' _ IH]; [done|]. cbn [map omap list_omap]. rewrite condition_match by done.
  cbn [fmap option_fmap option_map]. unfold cond_of at 1. f_equal; [|exact IH]. f_equal.
  destruct Hq' as (Hv & _). unfold VARS in Hv. rewrite !elem_of_cons in Hv. unfold grp. cbn [cap default from_option Nat.eqb].
  unfold Datatypes.id. destruct Hv as [->|[->|[->|?%elem_of_nil]]]; done.
Qed.

(** ** The texts of the writer *)

(** A cost that is written and read back: zero, or a number that is not zero
    whose text consists of number characters and denotes it. *)
Definition cost_ok (x : num) : Prop :=
  x = num_zero ∨ num_truthy x = true ∧ numeric (num_to_str x) ∧ str_to_num (num_to_str x) = x.

Definition extra_costs (t : VisualTier) : list num :=
  [cache_read_unit_cost t; cache_create_unit_cost t; cache_create_1h_unit_cost t; image_unit_cost t;
   image_output_unit_cost t; audio_input_unit_cost t; audio_output_unit_cost t].

Definition all_costs (t : VisualTier) : list num :=
  [per_call_cost t; input_unit_cost t; output_unit_cost t] ++ extra_costs t.

Lemma or_zero_ok x : cost_ok x → or_zero x = x.
Proof. unfold or_zero. intros [->|[-> _]]; done. Qed.

Lemma cost_numeric x : cost_ok x → numeric (num_to_str x).
Proof. intros [->|(_ & ? & _)]; [by repeat constructor|done]. Qed.

Lemma cost_reads x : cost_ok x → str_to_num (num_to_str x) = x.
Proof. by intros [->|(_ & _ & ?)]. Qed.

Lemma cost_zero x : cost_ok x → nonzero x = false → x = num_zero.
Proof. intros [->|(Ht & _)]; [done|]. by destruct x as [[]|[]| |[]]. Qed.

(** The text of a cost that is written only when it is not zero. *)
Definition written (x : num) : option jsstr := if nonzero x then Some (num_to_str x) else None.

Definition tokens_of (t : VisualTier) : token_texts :=
  MkTokens (num_to_str (input_unit_cost t)) (num_to_str (output_unit_cost t))
    (zip EXTRA_KEYS (map written (extra_costs t))).

Definition has_tokens (t : VisualTier) : bool :=
  existsb nonzero (input_unit_cost t :: output_unit_cost t :: extra_costs t) ||
  negb (nonzero (per_call_cost t)).

Definition texts_of (l : jsstr) (t : VisualTier) : tier_texts :=
  MkTexts l (written (per_call_cost t)) (if has_tokens t then Some (tokens_of t) else None).

Lemma join_concat sep a l : join sep (a :: l) = a ++ concat (map (λ w, sep ++ w) l).
Proof.
  revert a. induction l as [|b l IH]; intros a; [by rewrite app_nil_r|].
  change (join sep (a :: b :: l)) with (a ++ sep ++ join sep (b :: l)). rewrite IH.
  cbn [map concat]. by rewrite <-!app_assoc.
Qed.

Lemma extra_terms_eq t : extra_terms t = zip EXTRA_KEYS (map or_zero (extra_costs t)).
Proof. reflexivity. Qed.

Lemma opt_text_terms ks xs :
  Forall cost_ok xs →
  opt_text (zip ks (map written xs)) =
  concat (map (λ w, js " + " ++ w)
    (map term_text (filter (λ p, nonzero p.2 = true) (zip ks (map or_zero xs))))).
Proof.
  intros Hx. revert ks. induction Hx as [|x xs Hx _ IH]; intros [|k ks]; [done..|].
  cbn [map zip zip_with]. rewrite filter_cons. cbn [snd]. rewrite or_zero_ok by done. unfold opt_text.
  cbn [map concat fst snd]. unfold written at 1. destruct (nonzero x) eqn:E.
  - rewrite decide_True by done. cbn [map concat]. unfold term_text at 1. cbn [fst snd].
    f_equal. apply IH.
  - rewrite decide_False by done. apply IH.
Qed.

Lemma existsb_terms t :
  Forall cost_ok (extra_costs t) →
  existsb (λ p, nonzero p.2) (extra_terms t) = existsb nonzero (extra_costs t).
Proof.
  rewrite extra_terms_eq. unfold extra_costs. intros H.
  repeat (apply Forall_cons in H as [?%or_zero_ok H]). cbn [map]. by repeat match goal with H : or_zero _ = _ |- _ => rewrite H; clear H end.
Qed.

Lemma tier_text_eq l t : Forall cost_ok (all_costs t) → tier_text l t = texts_text (texts_of l t).
Proof.
  intros H. unfold all_costs in H. cbn [app] in H.
  apply Forall_cons in H as [Hpc H]. apply Forall_cons in H as [Hi H]. apply Forall_cons in H as [Ho Hx].
  unfold tier_text, texts_text, buildTierBodyExpr, texts_of, has_tokens. cbn [x_label x_call x_tokens existsb].
  rewrite existsb_terms by done. rewrite !or_zero_ok, orb_assoc by done. do 5 f_equal.
  assert (join (js " + ") ([term_text (js "p", input_unit_cost t); term_text (js "c", output_unit_cost t)] ++
            map term_text (filter (λ t0, nonzero t0.2 = true) (extra_terms t))) = tokens_text (tokens_of t)) as Htok.
  { cbn [app]. rewrite join_concat. cbn [map concat]. unfold tokens_text, tokens_of. cbn [t_in t_out t_extra].
    rewrite opt_text_terms by done. rewrite <-extra_terms_eq. unfold term_text at 1 2. cbn [fst snd].
    unfold term_string. by rewrite <-!app_assoc. }
  unfold written at 1. destruct (_ || negb (nonzero (per_call_cost t))) eqn:Et; cbn [is_none negb].
  - destruct (nonzero (per_call_cost t)); cbn [call_part]; [|cbn [app] in *; by rewrite Htok].
    cbn [app] in *. rewrite join_concat. cbn [map concat]. rewrite join_concat in Htok. cbn [map concat] in Htok.
    rewrite <-Htok. unfold call_string. by rewrite <-!app_assoc.
  - apply orb_false_iff in Et as [_ Et]. apply negb_false_iff in Et. rewrite Et. cbn [call_part app join].
    unfold call_string. by rewrite !app_nil_r.
Qed.

Lemma wf_texts_of l t :
  Forall (λ c, negb (c =? 34) = true) l → Forall cost_ok (all_costs t) → wf_texts (texts_of l t).
Proof.
  intros Hl H. unfold all_costs in H. cbn [app] in H.
  apply Forall_cons in H as [Hpc H]. apply Forall_cons in H as [Hi H]. apply Forall_cons in H as [Ho Hx].
  split_and!; [done| |]; cbn [x_call x_tokens texts_of].
  - unfold written. destruct (nonzero _); [by apply cost_numeric|done].
  - destruct (has_tokens t); [|done]. split_and!; [by apply cost_numeric..| |].
    + cbn [tokens_of t_extra]. by apply fst_zip.
    + cbn [tokens_of t_extra]. apply Forall_forall. intros [k o] Hin. cbn [snd].
      apply elem_of_zip_r, list_elem_of_fmap in Hin as (x & -> & Hin).
      rewrite Forall_forall in Hx. unfold written. destruct (nonzero x); [by apply cost_numeric, Hx|done].
Qed.

(** ** What a match captures *)

Lemma cap_app n a b : cap n (a ++ b) = match cap n a with Some w => Some w | None => cap n b end.
Proof. induction a as [|[m w] a IH]; simpl; [done|]. by destruct (m =? n)%nat. Qed.

Lemma cap_opt_below n k l : (n < k)%nat → cap n (opt_caps k l) = None.
Proof.
  revert k. induction l as [|[v o] l IH]; intros k Hk; cbn [opt_caps]; [done|]. rewrite cap_app, IH by lia.
  destruct o; simpl; [|done]. by rewrite (proj2 (Nat.eqb_neq k n)) by lia.
Qed.

Lemma cap_opt_caps i k l : cap (k + i) (opt_caps k l) = (l !! i) ≫= snd.
Proof.
  revert k i. induction l as [|[v o] l IH]; intros k i; cbn [opt_caps]; [done|]. rewrite cap_app.
  destruct i as [|i].
  - rewrite cap_opt_below by lia. destruct o; simpl; [|done]. by rewrite Nat.add_0_r, Nat.eqb_refl.
  - replace (k + S i)%nat with (S k + i)%nat by lia. rewrite IH. simpl. destruct (l !! i ≫= snd); [done|].
    destruct o; simpl; [|done]. by rewrite (proj2 (Nat.eqb_neq k _)) by lia.
Qed.

(** The groups of a tier whose first group is [k]. *)
Record captured (m : captures) (k : nat) (x : tier_texts) : Prop := {
  cap_label : cap k m = Some (x_label x);
  cap_call : cap (k + 1) m = x_call x;
  cap_in : cap (k + 2) m = t_in <$> x_tokens x;
  cap_out : cap (k + 3) m = t_out <$> x_tokens x;
  cap_extra i : cap (k + 4 + i) m = x_tokens x ≫= λ t, (t_extra t !! i) ≫= snd;
}.

Lemma texts_captured k x m :
  (∀ n, (k <= n)%nat → cap n m = None) → captured (texts_caps k x ++ m) k x.
Proof.
  intros Hm. unfold texts_caps, tokens_caps.
  destruct x as [l o [t|]]; cbn [x_label x_call x_tokens]; split; intros;
    rewrite <-?app_assoc, ?cap_app, ?cap_opt_below by lia.
  all: try (replace (k + 4 + i)%nat with (k + 2 + 2 + i)%nat by lia; rewrite cap_opt_caps;
            cbn [x_tokens mbind option_bind]; destruct (t_extra t !! i ≫= snd); [done|]).
  all: destruct o as [w|]; cbn [x_label x_call x_tokens call_caps cap fmap option_fmap option_map mbind option_bind].
  all: repeat match goal with
    | |- context [(?a =? ?b)%nat] =>
        first [rewrite (proj2 (Nat.eqb_neq a b)) by lia|rewrite (proj2 (Nat.eqb_eq a b)) by lia]
    end; try done; apply Hm; lia.
Qed.

(** Reading a cost back. *)
Definition back (o : option jsstr) : num := match o with Some s => str_to_num s | None => num_zero end.

Lemma back_written x : cost_ok x → back (written x) = x.
Proof.
  intros Hx. unfold written. destruct (nonzero x) eqn:E; simpl; [by apply cost_reads|by symmetry; apply cost_zero].
Qed.

Lemma cost_back x : cost_ok x → cost (str_to_num <$> written x) = x.
Proof.
  intros Hx. unfold written, cost. destruct (nonzero x) eqn:E; simpl.
  - rewrite cost_reads by done. by apply or_zero_ok.
  - by symmetry; apply cost_zero.
Qed.

Lemma assoc_omap {A} (g : jsstr → A) (h : nat → option jsstr) f n (l : list (jsstr * nat)) :
  NoDup l.*1 → (f, n) ∈ l →
  assoc_get f (omap (λ p, (λ s, (p.1, g s)) <$> h p.2) l) = g <$> h n.
Proof.
  induction l as [|[f' n'] l IH]; cbn [fmap list_fmap fst]; [set_solver|].
  rewrite NoDup_cons, elem_of_cons. intros [Hf Hd] [E|Hin].
  - injection E as -> ->. cbn [omap list_omap fst snd]. destruct (h n'); simpl; [by rewrite decide_True|].
    apply assoc_get_None. intros (y & -> & Hy)%list_elem_of_fmap.
    apply list_elem_of_omap in Hy as ([f2 n2] & Hin & Hy). simpl in Hy. destruct (h n2); simplify_eq/=.
    apply Hf, list_elem_of_fmap. by exists (f2, n2).
  - cbn [omap list_omap fst snd]. specialize (IH Hd Hin). destruct (h n'); simpl; [|done].
    rewrite decide_False; [done|]. intros ->. apply Hf, list_elem_of_fmap. by exists (f', n).
Qed.

Lemma tokens_extra t i :
  Forall cost_ok (extra_costs t) → (i < 7)%nat →
  (λ s, str_to_num s) <$> ((if has_tokens t then Some (tokens_of t) else None) ≫= λ k, (t_extra k !! i) ≫= snd)
  = str_to_num <$> ((extra_costs t !! i) ≫= written).
Proof.
  intros Hx Hi. destruct (has_tokens t) eqn:E; cbn [mbind option_bind].
  - unfold tokens_of. cbn [t_extra]. unfold extra_costs.
    do 7 (destruct i as [|i]; [done|]). lia.
  - unfold has_tokens in E. apply orb_false_iff in E as [E _]. cbn [existsb] in E.
    apply orb_false_iff in E as [_ E]. apply orb_false_iff in E as [_ E].
    destruct (extra_costs t !! i) as [x|] eqn:El; simpl; [|done].
    unfold written. destruct (nonzero x) eqn:En; [|done].
    rewrite (proj2 (existsb_exists _ _)) in E; [done|]. exists x. split; [|done].
    by apply list_elem_of_lookup_2, list_elem_of_In in El.
Qed.

(** The costs and the cache mode that are left out of the text are the ones
    the reader fills in. *)
Definition derived_mode (t : VisualTier) : CacheMode :=
  if num_ltb num_zero (cache_create_1h_unit_cost t) then CACHE_MODE_TIMED else CACHE_MODE_GENERIC.

Lemma mode_back x :
  cost_ok x →
  (if num_ltb num_zero (default S754_nan (str_to_num <$> written x)) then CACHE_MODE_TIMED else CACHE_MODE_GENERIC)
  = if num_ltb num_zero x then CACHE_MODE_TIMED else CACHE_MODE_GENERIC.
Proof.
  intros Hx. unfold written. destruct (nonzero x) eqn:E; cbn [fmap option_fmap option_map default from_option].
  - unfold Datatypes.id. by rewrite cost_reads.
  - by rewrite (cost_zero x Hx E).
Qed.

Lemma no_tokens_zero t :
  has_tokens t = false → cost_ok (input_unit_cost t) → cost_ok (output_unit_cost t) →
  num_zero = input_unit_cost t ∧ num_zero = output_unit_cost t.
Proof.
  unfold has_tokens. cbn [existsb]. intros E Hi Ho. apply orb_false_iff in E as [E _].
  apply orb_false_iff in E as [Ei E]. apply orb_false_iff in E as [Eo _].
  by rewrite (cost_zero _ Hi Ei), (cost_zero _ Ho Eo).
Qed.

Lemma captured_tier_back k t m :
  captured m k (texts_of (label t) t) → Forall cost_ok (all_costs t) → cache_mode t = derived_mode t →
  normalizeVisualTier (captured_tier (conditions t) m k) = t.
Proof.
  intros [Hl Hcall Hin Hout Hext] H Hm. unfold all_costs in H. cbn [app] in H.
  apply Forall_cons in H as [Hpc H]. apply Forall_cons in H as [Hi H]. apply Forall_cons in H as [Ho Hx].
  assert (∀ f i x, (f, i) ∈ imap (λ i v, (v.1, i)) BILLING_CACHE_VAR_MAP → extra_costs t !! i = Some x →
    assoc_get f (p_extra (captured_tier (conditions t) m k)) = str_to_num <$> written x) as Hf.
  { intros f i x Hfi Hxi. unfold captured_tier. cbn [p_extra].
    rewrite (assoc_omap str_to_num (λ n, cap n m) f (k + 4 + i)%nat).
    - rewrite Hext. cbn [texts_of x_tokens].
      change (str_to_num <$> ?o) with ((λ s, str_to_num s) <$> o) at 1.
      rewrite tokens_extra by (done || by eapply lookup_lt_Some in Hxi). by rewrite Hxi.
    - apply (bool_decide_unpack (NoDup _)). by vm_compute.
    - apply elem_of_lookup_imap in Hfi as (j & v & E & Hj). injection E as -> ->.
      apply elem_of_lookup_imap. eauto. }
  assert (∀ f i x, (js f, i) ∈ imap (λ i v, (v.1, i)) BILLING_CACHE_VAR_MAP → extra_costs t !! i = Some x →
    cost (extra f (captured_tier (conditions t) m k)) = x) as Hc.
  { intros f i x Hfi Hxi. unfold extra. rewrite (Hf _ i x Hfi Hxi). apply cost_back.
    rewrite Forall_forall in Hx. by eapply Hx, list_elem_of_lookup_2. }
  assert (getTierCacheMode (captured_tier (conditions t) m k) = cache_mode t) as Hmode.
  { rewrite Hm. unfold getTierCacheMode, extra, derived_mode. cbn [p_cache_mode captured_tier].
    rewrite (Hf _ 2%nat (cache_create_1h_unit_cost t)) by (done || by apply (bool_decide_unpack _)).
    apply mode_back. rewrite Forall_forall in Hx. eapply Hx, (list_elem_of_lookup_2 _ 2). done. }
  unfold normalizeVisualTier. rewrite Hmode.
  rewrite (Hc _ 0%nat (cache_read_unit_cost t)), (Hc _ 1%nat (cache_create_unit_cost t)),
    (Hc _ 2%nat (cache_create_1h_unit_cost t)), (Hc _ 3%nat (image_unit_cost t)),
    (Hc _ 4%nat (image_output_unit_cost t)), (Hc _ 5%nat (audio_input_unit_cost t)),
    (Hc _ 6%nat (audio_output_unit_cost t)) by (done || by apply (bool_decide_unpack _)).
  unfold captured_tier, grp. cbn [p_label p_conditions p_input p_output p_per_call].
  rewrite Hl, Hcall, Hin, Hout. cbn [default from_option texts_of x_label x_call x_tokens]. unfold Datatypes.id, cost.
  change (match written ?x with Some s => str_to_num s | None => num_zero end) with (back (written x)).
  rewrite back_written by done. cbn [default from_option]. unfold Datatypes.id. rewrite or_zero_ok by done.
  destruct (has_tokens t) eqn:E; cbn [fmap option_fmap option_map tokens_of t_in t_out].
  - rewrite !cost_reads by done. by destruct t.
  - destruct (no_tokens_zero t E Hi Ho) as [Ei Eo]. rewrite Ei at 1. rewrite Eo. by destruct t.
Qed.

(** ** Well-formed configurations *)

Definition wf_input (c : TierConditionInput) : Prop :=
  var c ∈ VARS ∧ op c ∈ OPS ∧
  match value c with VNum x => unsigned (num_to_str x) ∧ str_to_num (num_to_str x) = x | VStr _ => False end.

Definition wf_tier (t : VisualTier) : Prop :=
  label t ≠ [] ∧ Forall (λ c, negb (c =? 34) = true) (label t) ∧ Forall cost_ok (all_costs t) ∧
  cache_mode t = derived_mode t ∧ Forall wf_input (conditions t).

(** Every tier but the last has conditions, the last has none. *)
Fixpoint guarded (ts : list VisualTier) : Prop :=
  match ts with
  | [] => False
  | [t] => conditions t = []
  | t :: ts => conditions t ≠ [] ∧ guarded ts
  end.

Definition wf_config (ts : VisualConfig) : Prop :=
  Forall wf_tier ts ∧ match ts with [t] => True | _ => guarded ts end.

Definition cond_of_input (c : TierConditionInput) : cond_texts := (var c, op c, value_text (value c)).
Definition guard_of (cs : list TierConditionInput) : guard :=
  match map cond_of_input cs with q :: qs => Some (q, qs) | [] => None end.
Definition part_of (t : VisualTier) : part := (guard_of (conditions t), texts_of (label t) t).

Lemma wf_input_cond c : wf_input c → wf_cond (cond_of_input c).
Proof.
  intros (Hv & Ho & Hx). split_and!; [done|done|]. unfold cond_of_input. cbn [snd].
  destruct (value c); [by destruct Hx|done].
Qed.

Lemma input_back c : wf_input c → input_of (cond_of (cond_of_input c)) = c.
Proof.
  intros (_ & _ & Hx). destruct c as [v o [x|s]]; [|done]. unfold input_of, cond_of, cond_of_input.
  cbn in *. by rewrite (proj2 Hx).
Qed.

Lemma wf_guard_of cs : Forall wf_input cs → wf_guard (guard_of cs).
Proof.
  intros [|c cs' Hc Hcs]; [done|]. split; [by apply wf_input_cond|].
  apply Forall_fmap. eapply Forall_impl; [exact Hcs|]. apply wf_input_cond.
Qed.

Lemma wf_part_of t : wf_tier t → wf_part (part_of t).
Proof. intros (_ & Hl & Hc & _ & Hi). split; [by apply wf_guard_of|by apply wf_texts_of]. Qed.

Lemma conditions_text cs :
  Forall wf_input cs →
  buildConditionStr cs = match guard_of cs with Some (q, qs) => conds_text q qs | None => [] end.
Proof.
  intros Hcs. unfold buildConditionStr.
  rewrite (list_filter_all _ cs).
  - destruct cs as [|c cs]; [done|]. cbn [map guard_of]. rewrite join_concat. unfold conds_text. f_equal.
    clear. induction cs as [|c' cs IH]; [done|]. cbn [map concat]. by rewrite IH.
  - eapply Forall_impl; [exact Hcs|]. intros c (Hv & Ho & Hx).
    destruct (vars_facts _ Hv) as (_ & _ & ?), (ops_first _ [] Ho) as (x & s & E & _).
    rewrite app_nil_r in E. rewrite E. destruct (var c); [done|]. by destruct (value c).
Qed.

Lemma build_conditions_nil cs : Forall wf_input cs → is_empty (buildConditionStr cs) = true ↔ cs = [].
Proof.
  intros H. rewrite conditions_text by done. destruct H as [|c cs Hc _]; [done|]. split; [|done].
  cbn [guard_of map]. destruct (conds_first (cond_of_input c) (map cond_of_input cs) []) as (x & s & E & _);
    [by apply wf_input_cond|]. rewrite app_nil_r in E. by rewrite E.
Qed.

Lemma part_text_of t :
  wf_tier t →
  part_text (part_of t) =
    (if is_empty (buildConditionStr (conditions t)) then [] else buildConditionStr (conditions t) ++ js " ? ")
    ++ tier_text (label t) t.
Proof.
  intros (_ & _ & Hc & _ & Hi). unfold part_text, part_of. cbn [fst snd]. rewrite <-tier_text_eq by done. f_equal.
  destruct (is_empty _) eqn:E.
  - apply build_conditions_nil in E as ->; done.
  - rewrite conditions_text in * by done. by destruct (guard_of (conditions t)) as [[q qs]|].
Qed.

Lemma or_str_id a b : a ≠ [] → or_str a b = a.
Proof. by destruct a. Qed.

Lemma tier_parts_text i t ts :
  Forall wf_tier (t :: ts) → guarded (t :: ts) →
  join (js " : ") (tier_parts i (t :: ts)) = part_text (part_of t) ++ later_text (map part_of ts) [].
Proof.
  intros Hall. inversion Hall as [|? ? Ht Hts]; subst. clear Hall. revert i t Ht.
  induction Hts as [|t' ts Ht' _ IH]; intros i t Ht Hg.
  - cbn [tier_parts length Nat.ltb Nat.leb andb join map later_text]. simpl in Hg. rewrite part_text_of by done.
    rewrite Hg. cbn [app]. rewrite app_nil_r, or_str_id; [done|apply Ht].
  - destruct Hg as [Hne Hg]. specialize (IH (S i) t' Ht' Hg).
    change (tier_parts i (t :: t' :: ts)) with
      ((if negb (is_empty (buildConditionStr (conditions t)))
        then buildConditionStr (conditions t) ++ js " ? " ++ tier_text (or_str (label t) (js "tier_" ++ Z_to_str (Z.of_nat (i + 1)))) t
        else tier_text (or_str (label t) (js "tier_" ++ Z_to_str (Z.of_nat (i + 1)))) t) :: tier_parts (S i) (t' :: ts)).
    change (join (js " : ") (?a :: tier_parts (S i) (t' :: ts))) with (a ++ js " : " ++ join (js " : ") (tier_parts (S i) (t' :: ts))).
    rewrite IH, (part_text_of t) by done. cbn [map later_text].
    rewrite or_str_id by apply Ht.
    destruct (is_empty _) eqn:E; [apply build_conditions_nil in E; [done|apply Ht]|]. cbn [negb]. by rewrite <-!app_assoc.
Qed.

(** ** Reading a part back *)

Lemma texts_below n k x : (n < k)%nat → cap n (texts_caps k x) = None.
Proof.
  intros Hn. unfold texts_caps, tokens_caps. rewrite !cap_app.
  destruct x as [l [w|] [t|]]; cbn [x_tokens x_call x_label call_caps cap];
    rewrite ?cap_app, ?cap_opt_below by lia; cbn [cap];
    by rewrite !(proj2 (Nat.eqb_neq _ n)) by lia.
Qed.

Lemma part_captured t : captured (part_caps (part_of t)) 2 (texts_of (label t) t).
Proof.
  apply texts_captured. intros n Hn. unfold part_of. cbn [fst].
  destruct (guard_of _) as [[q qs]|]; [|done]. cbn [cap]. by rewrite (proj2 (Nat.eqb_neq 1 n)) by lia.
Qed.

Lemma captured_costs m k t : captured m k (texts_of (label t) t) → has_costs m k = true.
Proof.
  intros [_ Hc Hi _ _]. unfold has_costs. rewrite Hc, Hi. cbn [texts_of x_call x_tokens].
  unfold written, has_tokens. by destruct (nonzero (per_call_cost t)), (existsb _ _).
Qed.

Lemma part_conditions t :
  wf_tier t → map input_of (parse_conditions simple_var (grp 1 (part_caps (part_of t)))) = conditions t.
Proof.
  intros (_ & _ & _ & _ & Hi). unfold grp, part_caps, part_of. rewrite cap_app, texts_below by lia. cbn [fst snd].
  unfold guard_of. destruct Hi as [|c cs Hc Hcs]; [done|]. cbn [map cap Nat.eqb default from_option].
  unfold Datatypes.id. rewrite parse_conds; [|by apply wf_input_cond|].
  - change (cond_of_input c :: map cond_of_input cs) with (map cond_of_input (c :: cs)).
    rewrite !map_map. assert (Forall wf_input (c :: cs)) as Hall by by constructor. clear -Hall.
    induction Hall as [|d l Hd _ IH]; [done|]. cbn [map]. by rewrite IH, input_back.
  - apply Forall_fmap. eapply Forall_impl; [exact Hcs|]. apply wf_input_cond.
Qed.

Lemma read_part t : wf_tier t → read_tier (part_caps (part_of t)) = Some t.
Proof.
  intros Ht. unfold read_tier. rewrite (captured_costs _ _ t) by apply part_captured.
  rewrite part_conditions by done. f_equal. apply captured_tier_back; [apply part_captured|apply Ht..].
Qed.

Lemma read_parts ts : Forall wf_tier ts → omap read_tier (map part_caps (map part_of ts)) = ts.
Proof. induction 1 as [|t ts Ht _ IH]; [done|]. cbn [map omap list_omap]. rewrite read_part by done. by f_equal. Qed.

Lemma normalize_tier_id t : Forall cost_ok (all_costs t) → normalizeVisualTier (as_partial t) = t.
Proof.
  intros H. unfold all_costs, extra_costs in H. cbn [app] in H.
  repeat (apply Forall_cons in H as [?%or_zero_ok H]).
  unfold normalizeVisualTier.
  change (extra "cache_read_unit_cost" (as_partial t)) with (Some (cache_read_unit_cost t)).
  change (extra "cache_create_unit_cost" (as_partial t)) with (Some (cache_create_unit_cost t)).
  change (extra "cache_create_1h_unit_cost" (as_partial t)) with (Some (cache_create_1h_unit_cost t)).
  change (extra "image_unit_cost" (as_partial t)) with (Some (image_unit_cost t)).
  change (extra "image_output_unit_cost" (as_partial t)) with (Some (image_output_unit_cost t)).
  change (extra "audio_input_unit_cost" (as_partial t)) with (Some (audio_input_unit_cost t)).
  change (extra "audio_output_unit_cost" (as_partial t)) with (Some (audio_output_unit_cost t)).
  unfold cost, as_partial. cbn [p_label p_conditions p_input p_output p_per_call default from_option].
  unfold Datatypes.id. repeat match goal with H : or_zero _ = _ |- _ => rewrite H; clear H end.
  by destruct t.
Qed.

Lemma normalize_config_id ts : ts ≠ [] → Forall wf_tier ts → normalizeVisualConfig (Some ts) = ts.
Proof.
  intros Hne H. unfold normalizeVisualConfig. destruct ts as [|t ts]; [done|].
  induction H as [|t' l Ht _ IH]; [done|]. cbn [map]. rewrite normalize_tier_id by apply Ht. f_equal.
  destruct l; [done|]. by apply IH.
Qed.

(** Texts that start like a part have no version prefix. *)
Lemma part_first t s : wf_tier t → ∃ x r, part_text (part_of t) ++ s = x :: r ∧ starter x.
Proof.
  intros Ht. apply wf_part_of in Ht as [Hg Hx]. unfold part_text, part_of, starter in *. cbn [fst snd] in *.
  destruct (guard_of _) as [[q qs]|]; cbn [guard_text].
  - rewrite <-!app_assoc. destruct (conds_first q qs (js " ? " ++ texts_text (texts_of (label t) t) ++ s)) as (x & r & -> & Hx');
      [apply Hg|]. exists x, r. naive_solver.
  - eexists _, _. split; [reflexivity|]. auto.
Qed.

Lemma no_version x r : starter x → version_body (x :: r) = x :: r.
Proof.
  intros Hx. unfold version_body, version_re. rewrite match_full_none; [done|].
  intros c (w1 & w2 & c1 & E & [-> _]%parses_lit & _)%parses_seq. injection E as -> _. unfold starter in Hx. lia.
Qed.

Lemma not_single t s :
  wf_tier t → conditions t ≠ [] → match_re (full (tier_re 1)) (part_text (part_of t) ++ s) = None.
Proof.
  intros Ht Hne. apply match_full_none. intros c H. apply wf_part_of in Ht as [Hg _].
  apply (parses_before _ _ _ _ _ _ (λ _, True)) in H; [|done].
  apply before_tier in H as [r E]. unfold part_text, part_of in *. cbn [fst snd] in *.
  unfold guard_of in *. destruct (conditions t) as [|d ds]; [done|]. cbn [map guard_text wf_guard] in *.
  rewrite <-!app_assoc in E.
  destruct (conds_first (cond_of_input d) (map cond_of_input ds) (js " ? " ++ texts_text (texts_of (label t) t) ++ s))
    as (x & s1 & E1 & Hx); [apply Hg|]. rewrite app_nil_r, E1 in E.
  injection E as -> _. lia.
Qed.

Lemma read_many t ts tail :
  Forall wf_tier (t :: ts) → conditions t ≠ [] → (∀ b, search visual_re b tail = None) →
  generateExprFromVisualConfig (Some (t :: ts)) = part_text (part_of t) ++ later_text (map part_of ts) tail →
  tryParseVisualConfig (generateExprFromVisualConfig (Some (t :: ts))) = Some (t :: ts).
Proof.
  intros Hall Hne Htail E. pose proof Hall as [Ht Hts]%Forall_cons. unfold tryParseVisualConfig.
  pose proof E as E'. destruct (part_first t (later_text (map part_of ts) tail) Ht) as (x & r & Ex & Hx).
  rewrite E, Ex. cbn [is_empty]. rewrite no_version by done. rewrite <-Ex, not_single by done. cbn [mbind option_bind].
  rewrite exec_parts; [|by apply wf_part_of| |done].
  - change (part_of t :: map part_of ts) with (map part_of (t :: ts)). rewrite read_parts by done.
    cbn beta iota zeta. rewrite normalize_config_id by done. rewrite decide_True; [done|].
    exact (f_equal strip_ws E).
  - apply Forall_fmap. eapply Forall_impl; [exact Hts|]. apply wf_part_of.
Qed.

Lemma read_single t :
  wf_tier t → conditions t = [] → tryParseVisualConfig (tier_text (label t) t) = Some [t].
Proof.
  intros Ht Hc. pose proof Ht as (_ & Hl & Hcost & Hm & _). unfold tryParseVisualConfig.
  rewrite tier_text_eq by done. set (x := texts_of (label t) t).
  assert (∃ r, texts_text x = 116 :: r) as [r Er] by by eexists. rewrite Er. cbn [is_empty].
  rewrite no_version by (unfold starter; auto). rewrite <-Er.
  rewrite (match_full_reads _ _ (texts_caps 1 x)) by by apply reads_tier, wf_texts_of.
  cbn [mbind option_bind].
  assert (captured (texts_caps 1 x) 1 x) as Hx.
  { rewrite <-(app_nil_r (texts_caps 1 x)). by apply texts_captured. }
  rewrite (captured_costs _ _ t) by done. rewrite <-Hc, captured_tier_back by done.
  rewrite normalize_config_id; [done|done|by constructor].
Qed.

Lemma config_read_back cfg :
  cfg ≠ [] → wf_config cfg → tryParseVisualConfig (generateExprFromVisualConfig (Some cfg)) = Some cfg.
Proof.
  intros Hne [Hall Hg]. destruct cfg as [|t [|t' ts]]; [done| |].
  - apply Forall_cons in Hall as [Ht _]. destruct (decide (conditions t = [])) as [Hc|Hc].
    + cbn [generateExprFromVisualConfig]. rewrite Hc. cbn [is_empty]. rewrite or_str_id by apply Ht.
      by apply read_single.
    + apply (read_many t [] (js " : p * 0 + c * 0")); [by constructor|done|by intros b; vm_compute|].
      cbn [generateExprFromVisualConfig map later_text]. rewrite part_text_of, or_str_id by (done || apply Ht).
      destruct (is_empty _) eqn:E; [by apply build_conditions_nil in E; [|apply Ht]|]. by rewrite <-!app_assoc.
  - apply (read_many t (t' :: ts) []); [done|by destruct Hg|done|]. by apply tier_parts_text.
Qed.

(** C7. What the tier editor writes it reads back: a configuration whose tiers
    have labels without quotation marks and costs that print and read exactly,
    all but the last guarded by conditions, is the one its own expression
    parses to. *)
Theorem visual_config_roundtrip (cfg : VisualConfig) (Hne : cfg ≠ []) (Hwf : wf_config cfg) :
  tryParseVisualConfig (generateExprFromVisualConfig (Some cfg)) = Some cfg.
Proof. by apply config_read_back. Qed.

(** *** A sample *)

Definition sample_tier (l : string) (cs : list TierConditionInput) (call i o cr cc1h : string) : VisualTier :=
  let n s := str_to_num (js s) in
  MkVisual (js l) cs (n i) (n o) (n call) (if decide (cc1h = "0"%string) then CACHE_MODE_GENERIC else CACHE_MODE_TIMED)
    (n cr) num_zero (n cc1h) num_zero num_zero num_zero num_zero.

Definition sample_config : VisualConfig :=
  [sample_tier "short" [MkInput (js "len") (js "<") (VNum (num_of_Z 32000)); MkInput (js "c") (js "<=") (VNum (num_of_Z 4096))]
     "0" "1.25" "10" "0.125" "0";
   sample_tier "long" [MkInput (js "len") (js "<") (VNum (num_of_Z 200000))] "0.01" "2.5" "15" "0.25" "5e-7";
   sample_tier "flat" [] "0.04" "0" "0" "0" "0"].

(** An executable test of well-formedness. *)
Definition all_chars (p : Z → bool) (w : jsstr) : bool := negb (is_empty w) && forallb p w.

Definition cost_check (x : num) : bool :=
  if decide (x = num_zero) then true
  else num_truthy x && all_chars num_char (num_to_str x) && bool_decide (str_to_num (num_to_str x) = x).

Definition input_check (c : TierConditionInput) : bool :=
  bool_decide (var c ∈ VARS) && bool_decide (op c ∈ OPS) &&
  match value c with
  | VNum x => all_chars unsigned_char (num_to_str x) && bool_decide (str_to_num (num_to_str x) = x)
  | VStr _ => false
  end.

#[export] Instance CacheMode_eq_dec : EqDecision CacheMode.
Proof. solve_decision. Defined.

Definition tier_check (t : VisualTier) : bool :=
  all_chars (λ c, negb (c =? 34)) (label t) && forallb cost_check (all_costs t) &&
  bool_decide (cache_mode t = derived_mode t) && forallb input_check (conditions t).

Lemma forallb_Forall {A} (p : A → bool) (P : A → Prop) l :
  (∀ x, p x = true → P x) → forallb p l = true → Forall P l.
Proof. intros HP H. apply Forall_forall. intros x Hx. apply HP. by eapply forallb_forall, list_elem_of_In. Qed.

Lemma all_chars_spec p w : all_chars p w = true → w ≠ [] ∧ Forall (λ c, p c = true) w.
Proof. intros [Hw H]%andb_prop. split; [by destruct w|by eapply forallb_Forall]. Qed.

Lemma cost_check_ok x : cost_check x = true → cost_ok x.
Proof.
  unfold cost_check. case_decide; [by left|].
  intros [[H1 H2%all_chars_spec]%andb_prop H3%bool_decide_eq_true]%andb_prop. by right.
Qed.

Lemma input_check_ok c : input_check c = true → wf_input c.
Proof.
  unfold input_check, wf_input.
  intros [[Hv%bool_decide_eq_true Ho%bool_decide_eq_true]%andb_prop H]%andb_prop.
  split_and!; [done|done|]. destruct (value c); [|done].
  by apply andb_prop in H as [?%all_chars_spec ?%bool_decide_eq_true].
Qed.

Lemma tier_check_ok t : tier_check t = true → wf_tier t.
Proof.
  intros [[[[Hne Hl]%all_chars_spec Hc]%andb_prop Hm%bool_decide_eq_true]%andb_prop Hi]%andb_prop.
  split_and!; [done|done|by eapply forallb_Forall, Hc; apply cost_check_ok|done|].
  by eapply forallb_Forall, Hi; apply input_check_ok.
Qed.

Lemma sample_config_wf : wf_config sample_config.
Proof.
  split; [|by split; [|split]].
  eapply forallb_Forall; [apply tier_check_ok|]. vm_compute. reflexivity.
Qed.

Lemma visual_config_roundtrip_witness :
  tryParseVisualConfig (generateExprFromVisualConfig (Some sample_config)) = Some sample_config.
Proof. apply (visual_config_roundtrip sample_config); [discriminate|apply sample_config_wf]. Defined.
