(* ===== verification/JsBase64.v ===== *)
(** * Base64

    The browser functions [btoa] and [atob] on binary strings (strings of
    characters below 256): the encoding of RFC 4648 with padding, and the
    forgiving decoder of the HTML standard, which ignores ASCII white space and
    accepts unpadded text.  [atob_btoa]: decoding what was encoded gives it back. *)

From stdpp Require Import base list strings.
From Stdlib Require Import ZArith Lia.
From S2P Require Import Prelude JsString.
#[local] Open Scope Z_scope.

(** ** The alphabet *)

Definition b64_char (i : Z) : Z :=
  if i <? 26 then 65 + i
  else if i <? 52 then 71 + i
  else if i <? 62 then i - 4
  else if i =? 62 then 43 else 47.

Definition b64_index (c : Z) : option Z :=
  if (65 <=? c) && (c <=? 90) then Some (c - 65)
  else if (97 <=? c) && (c <=? 122) then Some (c - 71)
  else if (48 <=? c) && (c <=? 57) then Some (c + 4)
  else if c =? 43 then Some 62
  else if c =? 47 then Some 63
  else None.

(** ** Encoding *)

Fixpoint b64_sextets (l : list Z) : list Z :=
  match l with
  | a :: b :: c :: r =>
      a / 4 :: (a mod 4) * 16 + b / 16 :: (b mod 16) * 4 + c / 64 :: c mod 64 :: b64_sextets r
  | [a; b] => [a / 4; (a mod 4) * 16 + b / 16; (b mod 16) * 4]
  | [a] => [a / 4; (a mod 4) * 16]
  | [] => []
  end.

Definition b64_padding (n : nat) : jsstr := repeat 61 ((4 - n mod 4) mod 4).

(** [btoa(s)]: throws when a character does not fit in a byte. *)
Definition btoa (s : jsstr) : res jsstr :=
  if forallb (λ c, (0 <=? c) && (c <? 256)) s then
    let digits := map b64_char (b64_sextets s) in
    Ok (digits ++ b64_padding (length digits))
  else Throw.

(** ** Decoding *)

Definition is_ascii_ws (c : Z) : bool := (c =? 9) || (c =? 10) || (c =? 12) || (c =? 13) || (c =? 32).

(** Up to two padding characters at the end of a text whose length is a
    multiple of four. *)
Definition b64_unpad (s : jsstr) : jsstr :=
  if (length s mod 4 =? 0)%nat then
    match reverse s with
    | a :: b :: r => if a =? 61 then if b =? 61 then reverse r else reverse (b :: r) else s
    | _ => s
    end
  else s.

Fixpoint b64_bytes (l : list Z) : list Z :=
  match l with
  | a :: b :: c :: d :: r =>
      a * 4 + b / 16 :: (b mod 16) * 16 + c / 4 :: (c mod 4) * 64 + d :: b64_bytes r
  | [a; b; c] => [a * 4 + b / 16; (b mod 16) * 16 + c / 4]
  | [a; b] => [a * 4 + b / 16]
  | _ => []
  end.

(** [atob(s)]: throws on a character outside the alphabet and on a length that
    leaves six bits over. *)
Definition atob (s : jsstr) : res jsstr :=
  let t := b64_unpad (base.filter (λ c, is_ascii_ws c = false) s) in
  if (length t mod 4 =? 1)%nat then Throw
  else match mapM b64_index t with
       | Some sextets => Ok (b64_bytes sextets)
       | None => Throw
       end.

(** ** Round trip *)

Definition byte (b : Z) : Prop := 0 <= b < 256.

(** Induction three elements at a time. *)
Lemma triple_ind {A} (P : list A → Prop) :
  P [] → (∀ a, P [a]) → (∀ a b, P [a; b]) → (∀ a b c l, P l → P (a :: b :: c :: l)) → ∀ l, P l.
Proof.
  intros H0 H1 H2 H3. cut (∀ n l, (length l <= n)%nat → P l); [intros H l; by apply (H (length l))|].
  induction n as [|n IH]; intros [|a [|b [|c l]]] Hl; simpl in Hl; auto; [lia..|].
  apply H3, IH. lia.
Qed.

Lemma b64_char_index i : 0 <= i < 64 → b64_index (b64_char i) = Some i.
Proof.
  intros Hi. unfold b64_char, b64_index.
  repeat (case_match; try lia); f_equal; lia.
Qed.

Lemma b64_char_range i : 0 <= i < 64 →
  let c := b64_char i in c ≠ 61 ∧ c ≠ 45 ∧ c ≠ 95 ∧ is_ascii_ws c = false.
Proof. intros Hi c. subst c. unfold b64_char, is_ascii_ws. repeat case_match; lia. Qed.

Lemma b64_sextets_range l : Forall byte l → Forall (λ i, 0 <= i < 64) (b64_sextets l).
Proof.
  unfold byte. induction l as [|a|a b|a b c l IH] using triple_ind; cbn [b64_sextets];
    rewrite ?Forall_cons; intros H; destruct_and?; split_and?; try constructor; try (Z.to_euclidean_division_equations; lia).
  all: auto.
Qed.

Lemma b64_bytes_sextets l : Forall byte l → b64_bytes (b64_sextets l) = l.
Proof.
  unfold byte. induction l as [|a|a b|a b c l IH] using triple_ind; cbn [b64_sextets b64_bytes];
    rewrite ?Forall_cons; intros H; destruct_and?; [done|..]; repeat f_equal;
    try (Z.to_euclidean_division_equations; lia). auto.
Qed.

Lemma b64_sextets_length l : (length (b64_sextets l) mod 4 ≠ 1)%nat.
Proof.
  induction l as [|a|a b|a b c l IH] using triple_ind; [done..|]. cbn [b64_sextets length].
  replace (S (S (S (S (length (b64_sextets l)))))) with (length (b64_sextets l) + 1 * 4)%nat by lia.
  by rewrite Nat.Div0.mod_add.
Qed.

Lemma b64_unpad_padded d :
  (length d mod 4 ≠ 1)%nat → Forall (λ c, c ≠ 61) d → b64_unpad (d ++ b64_padding (length d)) = d.
Proof.
  intros Hl Hd. unfold b64_unpad, b64_padding.
  assert (Forall (λ c, c ≠ 61) (reverse d)) as Hr by by apply Forall_reverse.
  pose proof (Nat.mod_upper_bound (length d) 4 ltac:(lia)) as Hb.
  pose proof (Nat.div_mod_eq (length d) 4) as Hdiv.
  assert (∀ n, (n = (4 - length d mod 4) mod 4)%nat → (length (d ++ repeat 61%Z n) mod 4 =? 0)%nat = true) as Hn.
  { intros n ->. apply Nat.eqb_eq, Nat.Div0.mod_divides. rewrite length_app, repeat_length.
    assert (length d mod 4 = 0 ∨ length d mod 4 = 2 ∨ length d mod 4 = 3)%nat as [E|[E|E]] by lia; rewrite E; simpl.
    - exists (length d / 4)%nat. lia.
    - exists (S (length d / 4))%nat. lia.
    - exists (S (length d / 4))%nat. lia. }
  rewrite Hn by done. rewrite reverse_app. clear Hn.
  assert (length d mod 4 = 0 ∨ length d mod 4 = 2 ∨ length d mod 4 = 3)%nat as [E|[E|E]] by lia; rewrite E.
  - change (repeat 61 ((4 - 0) mod 4)) with ([] : jsstr). rewrite app_nil_r, reverse_nil. cbn [app].
    destruct Hr as [|a r Ha Hr]; [done|]. destruct r; [done|]. by rewrite (proj2 (Z.eqb_neq a 61)).
  - change (reverse (repeat 61 ((4 - 2) mod 4))) with [61; 61]. cbn [app Z.eqb Pos.eqb]. by rewrite reverse_involutive.
  - change (reverse (repeat 61 ((4 - 3) mod 4))) with [61]. cbn [app].
    destruct (reverse d) as [|b r] eqn:Er.
    { apply (f_equal reverse) in Er. rewrite reverse_involutive in Er. by subst d. }
    apply Forall_cons in Hr as [Hb' _]. rewrite (proj2 (Z.eqb_neq b 61)) by done. cbn [Z.eqb Pos.eqb].
    by rewrite <-Er, reverse_involutive.
Qed.

Lemma b64_digits l :
  Forall byte l → Forall (λ c, ∃ i, 0 <= i < 64 ∧ c = b64_char i) (map b64_char (b64_sextets l)).
Proof. intros H%b64_sextets_range. apply Forall_fmap. eapply Forall_impl; [exact H|]. eauto. Qed.

Lemma mapM_index l : Forall (λ i, 0 <= i < 64) l → mapM b64_index (map b64_char l) = Some l.
Proof. induction 1 as [|i l Hi _ IH]; [done|]. cbn [map mapM]. rewrite b64_char_index by done. simpl. by rewrite IH. Qed.

(** Decoding the digits of an encoding, with its padding. *)
Lemma atob_digits l :
  Forall byte l →
  atob (map b64_char (b64_sextets l) ++ b64_padding (length (b64_sextets l))) = Ok l.
Proof.
  intros Hl. pose proof (b64_digits l Hl) as Hd. set (d := map b64_char (b64_sextets l)) in *.
  assert (length d = length (b64_sextets l)) as Hlen by apply length_map. rewrite <-Hlen.
  unfold atob. rewrite list_filter_all.
  - rewrite b64_unpad_padded.
    + rewrite (proj2 (Nat.eqb_neq _ _)) by (rewrite Hlen; apply b64_sextets_length).
      unfold d. rewrite mapM_index by by apply b64_sextets_range. by rewrite b64_bytes_sextets.
    + rewrite Hlen. apply b64_sextets_length.
    + eapply Forall_impl; [exact Hd|]. intros c (i & Hi & ->). by apply b64_char_range.
  - apply Forall_app. split.
    + eapply Forall_impl; [exact Hd|]. intros c (i & Hi & ->). by apply b64_char_range.
    + apply Forall_forall. by intros c ->%list_elem_of_In%repeat_spec.
Qed.

Lemma btoa_bytes l :
  Forall byte l →
  btoa l = Ok (map b64_char (b64_sextets l) ++ b64_padding (length (b64_sextets l))).
Proof.
  intros Hl. unfold btoa. rewrite length_map. rewrite (proj2 (forallb_forall _ l)); [done|].
  intros c Hc%list_elem_of_In. rewrite Forall_forall in Hl. apply Hl in Hc. unfold byte in Hc. lia.
Qed.

Lemma atob_btoa l : Forall byte l → (let* t := btoa l in atob t) = Ok l.
Proof. intros Hl. rewrite btoa_bytes by done. cbn [res_bind]. by apply atob_digits. Qed.
