(* ===== verification/Passkey.v ===== *)
(** * Passkey encoding

    [lib/passkey.ts]: base64url encoding of binary buffers, the conversion of
    the credential options sent by the server, and the payloads sent back.  A
    buffer is its list of bytes.  The browser's [atob] and [btoa] are those of
    [JsBase64]; Node's [Buffer], used where they are missing, is a parameter. *)

From stdpp Require Import base list strings.
From Stdlib Require Import ZArith Lia.
From S2P Require Import Prelude JsString JsValue JsBase64.
#[local] Open Scope Z_scope.

Module Passkey.

(** [Buffer.from(s, 'base64').toString('binary')] and its converse *)
Record NodeBuffer := MkBuffer { from_base64 : jsstr → jsstr; to_base64 : jsstr → jsstr }.

(** The global functions of the environment. *)
Record Globals := MkGlobals { has_atob : bool; has_btoa : bool; Buffer : option NodeBuffer }.

Definition browser : Globals := MkGlobals true true None.

Section environment.
Context (g : Globals).

(** ** Buffers *)

Definition decode (input : jsstr) : res jsstr :=
  if has_atob g then atob input
  else match Buffer g with Some b => Ok (from_base64 b input) | None => Throw end.

Definition encode (input : jsstr) : res jsstr :=
  if has_btoa g then btoa input
  else match Buffer g with Some b => Ok (to_base64 b input) | None => Throw end.

(** The elements of a [Uint8Array] are taken modulo 256. *)
Definition base64UrlToArrayBuffer (value : option jsstr) : res (list Z) :=
  match value with
  | None | Some [] => Ok []
  | Some value =>
      let padding := repeat 61 ((4 - length value mod 4) mod 4) in
      let base64 := replace_char 95 47 (replace_char 45 43 (value ++ padding)) in
      res_map (map (λ c, c mod 256)) (decode base64)
  end.

Fixpoint drop_char (c : Z) (s : jsstr) : jsstr :=
  match s with x :: t => if x =? c then drop_char c t else s | [] => [] end.

(** [s.replace(/=+$/g, '')] *)
Definition strip_padding (s : jsstr) : jsstr := reverse (drop_char 61 (reverse s)).

Definition arrayBufferToBase64Url (buffer : option (list Z)) : res jsstr :=
  match buffer with
  | None => Ok []
  | Some bytes =>
      res_map (λ t, strip_padding (replace_char 47 95 (replace_char 43 45 t))) (encode bytes)
  end.

(** ** Options of the server *)

Record Descriptor := MkDescriptor { id : option jsstr; item_rest : list (jsstr * jsval) }.

Record ServerOptions := MkOptions {
  challenge : option jsstr;
  user_id : option jsstr;
  user_rest : list (jsstr * jsval);
  excludeCredentials : option (list Descriptor);
  allowCredentials : option (list Descriptor);
  attestationFormats : option (list jsstr);
  rest : list (jsstr * jsval);
}.

(** The names under which the options may arrive. *)
Record Payload := MkPayload {
  publicKey : option ServerOptions;
  PublicKey : option ServerOptions;
  response : option ServerOptions;
  Response : option ServerOptions;
}.

Definition or_else {A} (a b : option A) : option A := match a with Some x => Some x | None => b end.

Definition payload_options (payload : option Payload) : option ServerOptions :=
  p ← payload; or_else (publicKey p) (or_else (PublicKey p) (or_else (response p) (Response p))).

Record Credential := MkCredential { raw_id : list Z; c_rest : list (jsstr * jsval) }.

Record CreationOptions := MkCreation {
  c_challenge : list Z;
  c_user_id : list Z;
  c_user_rest : list (jsstr * jsval);
  c_exclude : option (list Credential);
  c_attestationFormats : option (list jsstr);
  c_other : list (jsstr * jsval);
}.

Definition prepare_item (item : Descriptor) : res Credential :=
  let* b := base64UrlToArrayBuffer (id item) in Ok (MkCredential b (item_rest item)).

Definition prepare_items (items : option (list Descriptor)) : res (option (list Credential)) :=
  match items with
  | None => Ok None
  | Some l => res_map Some (res_mapM prepare_item l)
  end.

Definition prepareCredentialCreationOptions (payload : option Payload) : res CreationOptions :=
  match payload_options payload with
  | None => Throw
  | Some options =>
      let* ch := base64UrlToArrayBuffer (challenge options) in
      let* user := base64UrlToArrayBuffer (user_id options) in
      let* exclude := prepare_items (excludeCredentials options) in
      let formats := match attestationFormats options with Some [] => None | f => f end in
      Ok (MkCreation ch user (user_rest options) exclude formats (rest options))
  end.

Record RequestOptions := MkRequest {
  r_challenge : list Z;
  r_allow : option (list Credential);
  r_other : list (jsstr * jsval);
}.

Definition prepareCredentialRequestOptions (payload : option Payload) : res RequestOptions :=
  match payload_options payload with
  | None => Throw
  | Some options =>
      let* ch := base64UrlToArrayBuffer (challenge options) in
      let* allow := prepare_items (allowCredentials options) in
      Ok (MkRequest ch allow (rest options))
  end.

(** ** Results of the authenticator *)

(** A credential; the two kinds of response share the client data. *)
Record PublicKeyCredential (R : Type) := MkPublicKey {
  cred_id : jsstr;
  rawId : list Z;
  cred_type : jsstr;
  authenticatorAttachment : option jsstr;
  clientDataJSON : list Z;
  cred_response : R;
  extensions : option jsval;
}.
Arguments MkPublicKey {_}.
Arguments cred_id {_}.
Arguments rawId {_}.
Arguments cred_type {_}.
Arguments authenticatorAttachment {_}.
Arguments clientDataJSON {_}.
Arguments cred_response {_}.
Arguments extensions {_}.

Record Attestation := MkAttestation { attestationObject : list Z; transports : option (list jsstr) }.
Record Assertion := MkAssertion { authenticatorData : list Z; signature : list Z; userHandle : option (list Z) }.

(** The payload: identifier, encoded raw identifier, type, attachment, encoded
    client data, the rest of the response, extension results. *)
Record Result (R : Type) := MkResult {
  res_id : jsstr;
  res_rawId : jsstr;
  res_type : jsstr;
  res_attachment : option jsstr;
  res_clientData : jsstr;
  res_response : R;
  res_extensions : jsval;
}.
Arguments MkResult {_}.
Arguments res_id {_}.
Arguments res_rawId {_}.
Arguments res_type {_}.
Arguments res_attachment {_}.
Arguments res_clientData {_}.
Arguments res_response {_}.
Arguments res_extensions {_}.

Definition build_result {R S} (convert : R → res S) (credential : option (PublicKeyCredential R))
    : res (option (Result S)) :=
  match credential with
  | None => Ok None
  | Some c =>
      let* raw := arrayBufferToBase64Url (Some (rawId c)) in
      let* client := arrayBufferToBase64Url (Some (clientDataJSON c)) in
      let* r := convert (cred_response c) in
      Ok (Some (MkResult (cred_id c) raw (cred_type c) (authenticatorAttachment c) client r
                  (default (JObj []) (extensions c))))
  end.

Definition buildRegistrationResult :
    option (PublicKeyCredential Attestation) → res (option (Result (jsstr * option (list jsstr)))) :=
  build_result (λ r, let* o := arrayBufferToBase64Url (Some (attestationObject r)) in Ok (o, transports r)).

Definition buildAssertionResult :
    option (PublicKeyCredential Assertion) → res (option (Result (jsstr * jsstr * option jsstr))) :=
  build_result (λ r,
    let* data := arrayBufferToBase64Url (Some (authenticatorData r)) in
    let* sig := arrayBufferToBase64Url (Some (signature r)) in
    let* handle := match userHandle r with
                   | Some h => res_map Some (arrayBufferToBase64Url (Some h))
                   | None => Ok None
                   end in
    Ok (data, sig, handle)).

End environment.

(** ** Theorems *)

(** The characters of base64url. *)
Definition url_safe (c : Z) : Prop :=
  65 <= c <= 90 ∨ 97 <= c <= 122 ∨ 48 <= c <= 57 ∨ c = 45 ∨ c = 95.

Definition url_char (i : Z) : Z := if i =? 62 then 45 else if i =? 63 then 95 else b64_char i.

Lemma url_char_safe i : 0 <= i < 64 → url_safe (url_char i) ∧ url_char i ≠ 61.
Proof. intros Hi. unfold url_char, b64_char, url_safe. repeat case_match; lia. Qed.

Lemma to_url_char i : 0 <= i < 64 →
  (λ c, if c =? 47 then 95 else c) ((λ c, if c =? 43 then 45 else c) (b64_char i)) = url_char i.
Proof. intros Hi. unfold url_char, b64_char. repeat (case_match; try lia). Qed.

Lemma from_url_char i : 0 <= i < 64 →
  (λ c, if c =? 95 then 47 else c) ((λ c, if c =? 45 then 43 else c) (url_char i)) = b64_char i.
Proof. intros Hi. unfold url_char, b64_char. repeat (case_match; try lia). Qed.

Lemma replace_chars (f : Z → Z) (h : Z → Z) a b a' b' l :
  Forall (λ i, (λ c, if c =? a' then b' else c) ((λ c, if c =? a then b else c) (f i)) = h i) l →
  replace_char a' b' (replace_char a b (map f l)) = map h l.
Proof. unfold replace_char. induction 1 as [|i l Hi _ IH]; [done|]. cbn [map]. by rewrite Hi, IH. Qed.

Lemma replace_padding a b a' b' n :
  a ≠ 61 → a' ≠ 61 → replace_char a' b' (replace_char a b (repeat 61 n)) = repeat 61 n.
Proof.
  intros Ha Ha'. unfold replace_char. induction n as [|n IH]; [done|]. cbn [repeat map].
  rewrite (proj2 (Z.eqb_neq 61 a)), (proj2 (Z.eqb_neq 61 a')) by done. by rewrite IH.
Qed.

Lemma replace_app a b s t : replace_char a b (s ++ t) = replace_char a b s ++ replace_char a b t.
Proof. apply map_app. Qed.

Lemma drop_char_repeat c n s : drop_char c (repeat c n ++ s) = drop_char c s.
Proof. induction n as [|n IH]; simpl; [done|]. by rewrite Z.eqb_refl. Qed.

Lemma reverse_repeat (c : Z) n : reverse (repeat c n) = repeat c n.
Proof.
  induction n as [|n IH]; [done|]. cbn [repeat]. rewrite reverse_cons, IH. clear.
  induction n as [|n IH]; [done|]. cbn [repeat app]. by rewrite IH.
Qed.

Lemma strip_padding_app s n : Forall (λ c, c ≠ 61) s → strip_padding (s ++ repeat 61 n) = s.
Proof.
  intros Hs. unfold strip_padding. rewrite reverse_app, reverse_repeat, drop_char_repeat.
  assert (drop_char 61 (reverse s) = reverse s) as ->; [|apply reverse_involutive].
  apply Forall_reverse in Hs. destruct Hs as [|x l Hx _]; [done|]. simpl. by rewrite (proj2 (Z.eqb_neq x 61)).
Qed.

(** The text of a buffer in a browser. *)
Definition url_text (bytes : list Z) : jsstr := map url_char (b64_sextets bytes).

Lemma url_text_sextets bytes : Forall byte bytes → Forall (λ i, 0 <= i < 64) (b64_sextets bytes).
Proof. apply b64_sextets_range. Qed.

Lemma buffer_text bytes : Forall byte bytes → arrayBufferToBase64Url browser (Some bytes) = Ok (url_text bytes).
Proof.
  intros Hb. pose proof (url_text_sextets bytes Hb) as Hs. unfold arrayBufferToBase64Url, encode. cbn [has_btoa browser].
  rewrite btoa_bytes by done. cbn [res_map]. f_equal. rewrite !replace_app. unfold b64_padding.
  rewrite replace_padding by done. rewrite (replace_chars _ url_char).
  - apply strip_padding_app. unfold url_text. apply Forall_fmap. eapply Forall_impl; [exact Hs|].
    intros i Hi. by apply url_char_safe.
  - eapply Forall_impl; [exact Hs|]. apply to_url_char.
Qed.

Lemma text_buffer bytes :
  Forall byte bytes → base64UrlToArrayBuffer browser (Some (url_text bytes)) = Ok bytes.
Proof.
  intros Hb. pose proof (url_text_sextets bytes Hb) as Hs. unfold base64UrlToArrayBuffer.
  destruct (url_text bytes) as [|x l] eqn:E.
  - unfold url_text in E. apply map_eq_nil in E. pose proof (b64_bytes_sextets bytes Hb) as H. rewrite E in H. by subst.
  - rewrite <-E. clear x l E. unfold decode. cbn [has_atob browser].
    rewrite !replace_app, replace_padding by done. unfold url_text. rewrite length_map, (replace_chars _ b64_char).
    + fold (b64_padding (length (b64_sextets bytes))).
      rewrite atob_digits by done. cbn [res_map]. f_equal.
      clear Hs. induction Hb as [|b l Hb _ IH]; [done|]. cbn [map]. rewrite IH. f_equal. by apply Z.mod_small.
    + eapply Forall_impl; [exact Hs|]. apply from_url_char.
Qed.

(** C26. Binary identifiers and challenges survive the transport: the base64url
    text of any buffer uses only characters that are safe in URLs and decodes
    to the same bytes. *)
Theorem base64url_roundtrip (bytes : list Z) (Hb : Forall byte bytes) :
  ∃ text, arrayBufferToBase64Url browser (Some bytes) = Ok text ∧ Forall url_safe text ∧
          base64UrlToArrayBuffer browser (Some text) = Ok bytes.
Proof.
  exists (url_text bytes). split_and!; [by apply buffer_text| |by apply text_buffer].
  unfold url_text. apply Forall_fmap. eapply Forall_impl; [by apply url_text_sextets|].
  intros i Hi. by apply url_char_safe.
Qed.

Lemma base64url_roundtrip_witness :
  ∃ text, arrayBufferToBase64Url browser (Some [251; 255; 190; 0; 62]) = Ok text ∧ Forall url_safe text ∧
          base64UrlToArrayBuffer browser (Some text) = Ok [251; 255; 190; 0; 62].
Proof. apply (base64url_roundtrip [251; 255; 190; 0; 62]). repeat (apply Forall_cons; split; [unfold byte; lia|]). constructor. Defined.

(** A descriptor whose identifier is the text of [bytes]. *)
Definition encoded_item (c : Credential) : Descriptor := MkDescriptor (Some (url_text (raw_id c))) (c_rest c).

Lemma prepare_encoded l :
  Forall (λ c, Forall byte (raw_id c)) l → res_mapM (prepare_item browser) (map encoded_item l) = Ok l.
Proof.
  induction 1 as [|c l Hc _ IH]; [done|]. cbn [map res_mapM]. unfold prepare_item at 1. cbn [id encoded_item].
  rewrite text_buffer by done. cbn [res_bind]. rewrite IH. by destruct c.
Qed.

(** The browser is asked with the bytes the server encoded, under whichever
    name the options arrive. *)
Theorem request_options_bytes (p : Payload) (o : ServerOptions) (ch : list Z) (allow : list Credential) :
  payload_options (Some p) = Some o → challenge o = Some (url_text ch) →
  allowCredentials o = Some (map encoded_item allow) → Forall byte ch →
  Forall (λ c, Forall byte (raw_id c)) allow →
  prepareCredentialRequestOptions browser (Some p) = Ok (MkRequest ch (Some allow) (rest o)).
Proof.
  intros Hp Hc Ha Hch Hal. unfold prepareCredentialRequestOptions. rewrite Hp, Hc, Ha, text_buffer by done.
  cbn [res_bind prepare_items]. by rewrite prepare_encoded.
Qed.

End Passkey.
