(* ===== verification/CodexCredential.v ===== *)
(** * Codex credentials

    [features/channels/lib/codex-credential.ts]: the shapes in which OAuth
    credentials may be pasted into a Codex channel, and the check that every
    one of them names an access token and an account. *)

From stdpp Require Import base list strings sets.
From Stdlib Require Import ZArith Lia SpecFloat.
From S2P Require Import Prelude JsString JsNumber JsValue JsJson JsBase64.
#[local] Open Scope Z_scope.

Module CodexCredential.

Definition isJsonObjectValue (v : jsval) : bool := match v with JObj _ => true | _ => false end.

Definition parseOptionalJson (value : option jsstr) : res jsval :=
  if is_empty (trim (default [] value)) then Ok JUndef else JSON_parse (default [] value).

(** ** Strings at paths *)

(** [key in o] *)
Definition has_key (k : jsstr) (o : list (jsstr * jsval)) : bool :=
  bool_decide (k ∈ o.*1) || bool_decide (k ∈ object_prototype_keys).

Fixpoint getStringAtPath (current : jsval) (path : list jsstr) : jsstr :=
  match path with
  | [] => match current with JStr s => trim s | _ => [] end
  | key :: path =>
      match current with
      | JObj o => if has_key key o then getStringAtPath (obj_get key o) path else []
      | _ => []
      end
  end.

Fixpoint firstStringAtPaths (source : jsval) (paths : list (list jsstr)) : jsstr :=
  match paths with
  | [] => []
  | p :: paths =>
      let value := getStringAtPath source p in
      if is_empty value then firstStringAtPaths source paths else value
  end.

Definition paths_of (l : list (list string)) : list (list jsstr) := map (map js) l.

Definition codexAccessTokenPaths : list (list jsstr) :=
  paths_of [["access_token"]; ["accessToken"]; ["token"]; ["tokens"; "access_token"];
            ["tokens"; "accessToken"]; ["credentials"; "access_token"];
            ["credentials"; "accessToken"]; ["credentials"; "token"]]%string.

Definition codexAccountIDPaths : list (list jsstr) :=
  paths_of [["account_id"]; ["accountId"]; ["chatgpt_account_id"]; ["chatgptAccountId"];
            ["tokens"; "account_id"]; ["tokens"; "accountId"]; ["tokens"; "chatgpt_account_id"];
            ["tokens"; "chatgptAccountId"]; ["account"; "id"]; ["account"; "account_id"];
            ["account"; "accountId"]; ["account"; "chatgpt_account_id"];
            ["account"; "chatgptAccountId"]; ["credentials"; "account_id"];
            ["credentials"; "accountId"]; ["credentials"; "chatgpt_account_id"];
            ["credentials"; "chatgptAccountId"]]%string.

Definition hasCodexTokenSignal (source : jsval) : bool :=
  isJsonObjectValue source && negb (is_empty (firstStringAtPaths source codexAccessTokenPaths)).

(** ** Sources of credentials *)

Definition account_matches (account : jsval) : bool :=
  let platform := to_lower (firstStringAtPaths account [[js "platform"]]) in
  let accountType := to_lower (firstStringAtPaths account [[js "type"]]) in
  (is_empty platform || bool_decide (platform = js "openai")) &&
  (is_empty accountType || bool_decide (accountType = js "oauth") || bool_decide (accountType = js "codex")) &&
  hasCodexTokenSignal account.

Definition firstCodexAccountSource (accounts : jsval) : option jsval :=
  match accounts with
  | JArr l => List.find (λ a, isJsonObjectValue a && account_matches a) l
  | _ => None
  end.

Definition or_else {A} (a b : option A) : option A := match a with Some x => Some x | None => b end.

(** [source.data] when it is an object *)
Definition data_of (source : jsval) : jsval :=
  let data := get_prop_opt (js "data") source in
  if isJsonObjectValue data then data else JUndef.

Definition selectCodexKeySource (source : jsval) : jsval :=
  if hasCodexTokenSignal source then source
  else
    let data := data_of source in
    default source
      (or_else (firstCodexAccountSource (get_prop_opt (js "accounts") source))
      (or_else (firstCodexAccountSource (get_prop_opt (js "Accounts") source))
      (or_else (firstCodexAccountSource (get_prop_opt (js "accounts") data))
               (firstCodexAccountSource (get_prop_opt (js "Accounts") data))))).

Definition account_keys : list jsstr :=
  map js ["accounts"; "Accounts"; "configs"; "Configs"; "items"; "Items"; "keys"; "Keys"]%string.

Definition array_items (v : jsval) : list jsval := match v with JArr l => l | _ => [] end.

(** The items of the arrays in which accounts may be listed. *)
Definition account_values (source : jsval) : list jsval :=
  concat (map (λ k, array_items (get_prop_opt k source)) account_keys)
  ++ concat (map (λ k, array_items (get_prop_opt k (data_of source))) account_keys)
  ++ array_items (get_prop_opt (js "data") source).

(** How deep a value is nested: the recursion below goes at least one level
    down each time. *)
Fixpoint depth (v : jsval) : nat :=
  match v with
  | JArr l => S (fold_right (λ x n, Nat.max (depth x) n) 0%nat l)
  | JObj o => S (fold_right (λ kv n, Nat.max (depth kv.2) n) 0%nat o)
  | _ => 0%nat
  end.

Fixpoint collect (fuel : nat) (source : jsval) : list jsval :=
  match fuel with
  | O => []
  | S n =>
      if negb (isJsonObjectValue source) then []
      else if hasCodexTokenSignal source then [source]
      else
        concat (map (λ value,
          if negb (isJsonObjectValue value) then []
          else if hasCodexTokenSignal value then [value]
          else collect n value) (account_values source))
  end.

Definition collectCodexKeySources (source : jsval) : list jsval := collect (depth source) source.

(** ** Account of an access token *)

Section environment.
(** [typeof atob === 'function'] *)
Context (atob_available : bool).

Definition decodeCodexJWTClaims (token : jsstr) : option jsval :=
  match split_char 46 (trim token) with
  | [_; claims; _] =>
      if negb atob_available then None
      else
        let normalized := replace_char 95 47 (replace_char 45 43 claims) in
        let padded := normalized ++ repeat 61 ((length normalized + 3) / 4 * 4 - length normalized) in
        match (let* text := atob padded in JSON_parse text) with
        | Ok v => if isJsonObjectValue v then Some v else None
        | Throw => None
        end
  | _ => None
  end.

Definition getCodexJWTAccountID (token : jsstr) : jsstr :=
  let auth := match decodeCodexJWTClaims token with
              | Some claims => get_prop_opt (js "https://api.openai.com/auth") claims
              | None => JUndef
              end in
  if isJsonObjectValue auth then
    match get_prop_opt (js "chatgpt_account_id") auth with JStr s => trim s | _ => [] end
  else [].

Definition account_of (source : jsval) : jsstr :=
  let accountID := firstStringAtPaths source codexAccountIDPaths in
  if is_empty accountID
  then getCodexJWTAccountID (firstStringAtPaths source codexAccessTokenPaths) else accountID.

Definition names_account (source : jsval) : bool :=
  negb (is_empty (firstStringAtPaths source codexAccessTokenPaths)) && negb (is_empty (account_of source)).

Definition isCodexCredential (value : option jsstr) : bool :=
  match parseOptionalJson value with
  | Throw => false
  | Ok JUndef => true
  | Ok parsed =>
      if negb (isJsonObjectValue parsed) then false
      else
        let sources := collectCodexKeySources parsed in
        let selectedSources := match sources with [] => [selectCodexKeySource parsed] | _ => sources end in
        forallb names_account selectedSources
  end.
End environment.

(** ** Theorems *)

Lemma depth_arr x l : x ∈ l → (depth x < depth (JArr l))%nat.
Proof. intros Hx. cbn [depth]. induction Hx as [l|x y l _ IH]; simpl in *; lia. Qed.

Lemma depth_obj k v o : (k, v) ∈ o → (depth v < depth (JObj o))%nat.
Proof.
  intros Hx. cbn [depth]. remember (k, v) as kv eqn:E. induction Hx as [l|x y l _ IH]; subst; simpl in *; [lia|].
  specialize (IH eq_refl). lia.
Qed.

Lemma depth_prop k v : (depth (get_prop_opt k v) <= Nat.pred (depth v))%nat ∨ (depth (get_prop_opt k v) = 0)%nat.
Proof.
  unfold get_prop_opt, get_prop, catch.
  destruct v as [| |b|x|s|l|o|n]; try (right; repeat case_match; done).
  - destruct (array_index k) as [n|]; [|right; repeat case_match; done].
    destruct (l !! Z.to_nat n) as [x|] eqn:E; simpl; [|by right].
    apply list_elem_of_lookup_2, depth_arr in E. cbn [depth] in *. left. lia.
  - unfold obj_get. destruct (assoc_get k o) as [v|] eqn:E; [|right; by case_decide].
    left. apply assoc_get_Some_elem, depth_obj in E. lia.
Qed.

Lemma depth_items x v : x ∈ array_items v → (depth x < depth v)%nat.
Proof. destruct v; try by intros ?%elem_of_nil. apply depth_arr. Qed.

Lemma elem_of_concat_map {A B} (f : A → list B) l x : x ∈ concat (map f l) ↔ ∃ a, a ∈ l ∧ x ∈ f a.
Proof.
  induction l as [|a l IH]; cbn [map concat]; [set_solver|]. rewrite elem_of_app, IH. set_solver.
Qed.

Lemma depth_data v : (depth (data_of v) <= depth v)%nat.
Proof. unfold data_of. destruct (isJsonObjectValue _); [|simpl; lia]. destruct (depth_prop (js "data") v); lia. Qed.

(** An account lies below its source. *)
Lemma account_values_depth x v : x ∈ account_values v → (depth x < depth v)%nat.
Proof.
  unfold account_values. rewrite !elem_of_app, !elem_of_concat_map.
  intros [(k & _ & H%depth_items)|[(k & _ & H%depth_items)|H%depth_items]].
  - destruct (depth_prop k v); lia.
  - pose proof (depth_data v). destruct (depth_prop k (data_of v)); lia.
  - destruct (depth_prop (js "data") v); lia.
Qed.

(** The depth of a value is enough fuel. *)
Lemma collect_fuel n m v : (depth v <= n)%nat → (depth v <= m)%nat → collect n v = collect m v.
Proof.
  revert m v. induction n as [|n IH]; intros [|m] v Hn Hm; [done|..].
  - destruct v; simpl in *; try done; lia.
  - destruct v; simpl in *; try done; lia.
  - cbn [collect]. destruct (isJsonObjectValue v), (hasCodexTokenSignal v); try done. cbn [negb]. f_equal.
    apply map_ext_in. intros x Hx%list_elem_of_In%account_values_depth.
    destruct (isJsonObjectValue x); [|done]. destruct (hasCodexTokenSignal x); [done|]. apply IH; lia.
Qed.

(** The recursion of the source, without fuel. *)
Lemma collect_eq v :
  collectCodexKeySources v =
    if negb (isJsonObjectValue v) then []
    else if hasCodexTokenSignal v then [v]
    else concat (map (λ x, if negb (isJsonObjectValue x) then []
                           else if hasCodexTokenSignal x then [x] else collectCodexKeySources x) (account_values v)).
Proof.
  unfold collectCodexKeySources. rewrite (collect_fuel _ (S (depth v))) by lia. cbn [collect].
  destruct (isJsonObjectValue v), (hasCodexTokenSignal v); try done. cbn [negb]. f_equal.
  apply map_ext_in. intros x Hx%list_elem_of_In%account_values_depth.
  destruct (isJsonObjectValue x); [|done]. destruct (hasCodexTokenSignal x); [done|]. apply collect_fuel; lia.
Qed.

(** What is collected carries a token. *)
Lemma collected_tokens v x : x ∈ collectCodexKeySources v → hasCodexTokenSignal x = true.
Proof.
  remember (depth v) as n eqn:En. assert (depth v <= n)%nat as Hn by lia. clear En. revert v Hn.
  induction n as [|n IH]; intros v Hn; rewrite collect_eq.
  - destruct v; simpl in *; try (by intros ?%elem_of_nil); lia.
  - destruct (isJsonObjectValue v); [|by intros ?%elem_of_nil]. destruct (hasCodexTokenSignal v) eqn:E; cbn [negb].
    { by intros ->%list_elem_of_singleton. }
    intros (y & Hy%account_values_depth & Hx)%elem_of_concat_map. destruct (isJsonObjectValue y); [|by apply elem_of_nil in Hx].
    cbn [negb] in Hx. destruct (hasCodexTokenSignal y) eqn:Ey; [by apply list_elem_of_singleton in Hx as ->|].
    apply (IH y); [lia|done].
Qed.

(** An account that is listed with a token is collected. *)
Lemma listed_collected v x :
  isJsonObjectValue v = true → hasCodexTokenSignal v = false → x ∈ account_values v →
  hasCodexTokenSignal x = true → x ∈ collectCodexKeySources v.
Proof.
  intros Hv Hs Hx Ht. rewrite collect_eq, Hv, Hs. cbn [negb]. apply elem_of_concat_map. exists x. split; [done|].
  assert (isJsonObjectValue x = true) as -> by (by apply andb_prop in Ht as [? _]). cbn [negb]. rewrite Ht. by left.
Qed.

Lemma find_account k v a :
  firstCodexAccountSource (get_prop_opt k v) = Some a →
  a ∈ array_items (get_prop_opt k v) ∧ hasCodexTokenSignal a = true.
Proof.
  unfold firstCodexAccountSource. destruct (get_prop_opt k v); try done. intros [Hin H]%find_some.
  apply andb_prop in H as [_ H]. apply andb_prop in H as [_ H]. split; [by apply list_elem_of_In|done].
Qed.

Lemma select_none v :
  isJsonObjectValue v = true → collectCodexKeySources v = [] → selectCodexKeySource v = v.
Proof.
  intros Hv Hc. unfold selectCodexKeySource. destruct (hasCodexTokenSignal v) eqn:Hs; [done|].
  assert (∀ k w, (w = v ∨ w = data_of v) → k ∈ account_keys → firstCodexAccountSource (get_prop_opt k w) = None) as H.
  { intros k w Hw Hk. destruct (firstCodexAccountSource _) as [a|] eqn:E; [|done]. exfalso.
    apply find_account in E as [Hin Ht]. apply (not_elem_of_nil a). rewrite <-Hc. apply listed_collected; [done..| |done].
    unfold account_values. rewrite !elem_of_app, !elem_of_concat_map. destruct Hw as [->| ->]; eauto. }
  rewrite !H; [done|..]; try (by left); try (by right); by apply (bool_decide_unpack _); vm_compute.
Qed.

(** A pasted Codex credential is accepted exactly when it is a JSON object
    in which, at any depth of the account lists, at least one access token is
    found and every one of them comes with an account; the filter by platform
    and account type never has a say. *)
Theorem codex_accepts_iff (atob_available : bool) (text : jsstr) (o : list (jsstr * jsval))
  (Hparse : is_empty (trim text) = false ∧ JSON_parse text = Ok (JObj o)) :
  isCodexCredential atob_available (Some text) = true ↔
  collectCodexKeySources (JObj o) ≠ [] ∧
  ∀ s, s ∈ collectCodexKeySources (JObj o) → account_of atob_available s ≠ [].
Proof.
  destruct Hparse as [Hb Hp]. unfold isCodexCredential, parseOptionalJson. cbn [default from_option].
  unfold Datatypes.id. rewrite Hb, Hp. cbn [isJsonObjectValue negb].
  destruct (collectCodexKeySources (JObj o)) as [|s l] eqn:E.
  - rewrite select_none by done. cbn [forallb]. rewrite collect_eq in E. cbn [isJsonObjectValue negb] in E.
    destruct (hasCodexTokenSignal (JObj o)) eqn:Es; [done|]. unfold hasCodexTokenSignal in Es. cbn [isJsonObjectValue andb] in Es.
    unfold names_account. rewrite Es. split; [done|]. by intros [? _].
  - rewrite forallb_forall. rewrite <-E in *. split.
    + intros H. split; [by rewrite E|]. intros x Hx Hn. specialize (H x (proj1 (list_elem_of_In _ _) Hx)).
      unfold names_account in H. rewrite Hn in H. by rewrite andb_false_r in H.
    + intros [_ H] x Hx%list_elem_of_In. unfold names_account.
      pose proof (collected_tokens _ _ Hx) as Ht. unfold hasCodexTokenSignal in Ht. apply andb_prop in Ht as [_ ->].
      specialize (H x Hx). by destruct (account_of atob_available x).
Qed.

(** JSON text written with single quotes. *)
Definition json_text (s : string) : jsstr := replace_char 39 34 (js s).

Definition sample_credential : jsstr :=
  json_text "{'data':{'accounts':[{'tokens':{'access_token':'a'},'account':{'id':'x'}},{'platform':'other','token':'t'}]}}".

Lemma codex_accepts_iff_witness : isCodexCredential true (Some sample_credential) = false.
Proof.
  set (o := match JSON_parse sample_credential with Ok (JObj o) => o | _ => [] end).
  destruct (isCodexCredential true (Some sample_credential)) eqn:E; [|reflexivity]. exfalso.
  apply (codex_accepts_iff true sample_credential o) in E; [|vm_compute; auto].
  destruct E as [_ H]. apply (H (JObj [(js "platform", JStr (js "other")); (js "token", JStr (js "t"))])).
  - apply list_elem_of_In. vm_compute. auto.
  - vm_compute. reflexivity.
Defined.
End CodexCredential.
