(* ===== verification/ChannelForm.v ===== *)
(** * The channel form

    [features/channels/lib/channel-form.ts]: the checks of the form, and the
    conversions between the channels of the API and the values of the form.
    The settings of a channel travel as JSON text; a value read from it is a
    [jsval], as the code does not check its type. *)

From stdpp Require Import base list strings sets.
From Stdlib Require Import ZArith Lia SpecFloat.
From S2P Require Import Prelude JsString JsNumber JsValue JsJson AdvancedCustom CodexCredential.
#[local] Open Scope Z_scope.

Module ChannelForm.
Import AdvancedCustom.AdvancedCustom.
Import CodexCredential.CodexCredential.

(** ** Checks of single fields *)

Definition isOptionalJsonObject (value : option jsstr) : bool :=
  catch (res_map (λ v, is_undef v || isJsonObjectValue v) (parseOptionalJson value)) false.

Definition isOptionalModelMapping (value : option jsstr) : bool :=
  catch (res_map (λ v, match v with
                       | JUndef => true
                       | JObj o => forallb is_string o.*2
                       | _ => false
                       end) (parseOptionalJson value)) false.

Definition valid_status (x : num) : bool :=
  is_integer x && num_leb (num_of_Z 100) x && num_leb x (num_of_Z 599).

Definition isOptionalStatusCodeMapping (value : option jsstr) : bool :=
  match parseOptionalJson value with
  | Throw => false
  | Ok JUndef => true
  | Ok (JObj o) =>
      catch (res_map (forallb Datatypes.id)
        (res_mapM (λ kv, let* toCode := to_num kv.2 in
                         Ok (valid_status (str_to_num kv.1) && valid_status toCode)) o)) false
  | Ok _ => false
  end.

Definition isVertexJsonKey (value : option jsstr) : bool :=
  match parseOptionalJson value with
  | Throw => false
  | Ok JUndef => true
  | Ok (JArr l) => forallb isJsonObjectValue l
  | Ok v => isJsonObjectValue v
  end.

(** ** Values *)

(** Absent members are [None] (or [JUndef], where the value is unchecked). *)
Record ChannelFormValues := MkForm {
  name : jsstr;
  type : Z;
  base_url : option jsstr;
  key : jsstr;
  openai_organization : option jsstr;
  models : jsstr;
  group : list jsstr;
  model_mapping : option jsstr;
  priority : option num;
  weight : option num;
  test_model : option jsstr;
  auto_ban : option num;
  status : num;
  status_code_mapping : option jsstr;
  tag : option jsstr;
  remark : option jsstr;
  setting : option jsstr;
  param_override : option jsstr;
  header_override : option jsstr;
  settings : option jsstr;
  advanced_custom : option jsstr;
  other : option jsstr;
  multi_key_mode : option jsstr;
  multi_key_type : jsval;
  batch_add_set_key_prefix_2_name : option bool;
  key_mode : option jsstr;
  convert_to_multi_key : option bool;
  force_format : jsval;
  thinking_to_content : jsval;
  thinking_process_strip : jsval;
  proxy : jsval;
  pass_through_body_enabled : jsval;
  system_prompt : jsval;
  system_prompt_override : jsval;
  is_enterprise_account : option bool;
  vertex_key_type : jsval;
  aws_key_type : jsval;
  azure_responses_version : jsval;
  allow_service_tier : option bool;
  disable_store : option bool;
  allow_safety_identifier : option bool;
  allow_include_obfuscation : option bool;
  allow_inference_geo : option bool;
  allow_speed : option bool;
  claude_beta_query : option bool;
  upstream_model_update_check_enabled : option bool;
  upstream_model_update_auto_sync_enabled : option bool;
  upstream_model_update_ignored_models : option jsstr;
}.

(** [x === true] *)
Definition on (x : option bool) : bool := bool_decide (x = Some true).

(** ** Checks across fields *)

Definition blank_text (s : option jsstr) : bool := is_empty (trim (default [] s)).

(** A field and its message. *)
Definition Issue : Type := jsstr * jsstr.
Definition issue (path msg : string) : list Issue := [(js path, js msg)].

(** A mode other than single is chosen. *)
Definition batch_mode (f : ChannelFormValues) : bool :=
  match multi_key_mode f with
  | Some m => negb (is_empty m) && negb (bool_decide (m = js "single"))
  | None => false
  end.

Section refine.
Context {url : UrlParser} (atob_available : bool).

Definition advanced_issues (data : ChannelFormValues) : res (list Issue) :=
  let config := default JNull (parseAdvancedCustomConfig (advanced_custom data)) in
  let* err := validateAdvancedCustomConfig config in
  let* relative := advancedCustomConfigUsesRelativeUpstreamPath config in
  let* listed :=
    if on (upstream_model_update_check_enabled data)
    then hasValidAdvancedCustomModelListRoute config else Ok true in
  Ok ((match err with Some e => [(js "advanced_custom", message e)] | None => [] end)
      ++ (if (relative : bool) && blank_text (base_url data)
          then issue "base_url" "Base URL is required when an advanced route uses an upstream path" else [])
      ++ (if on (upstream_model_update_check_enabled data) && negb listed
          then issue "upstream_model_update_check_enabled"
                 "OpenAI Models route is required to enable upstream model checks" else [])).

Definition superRefine (data : ChannelFormValues) : res (list Issue) :=
  let* advanced :=
    if type data =? CHANNEL_TYPE_ADVANCED_CUSTOM then advanced_issues data else Ok [] in
  Ok ((if on (convert_to_multi_key data) && is_empty (trim (key data))
       then issue "key" "API key is required" else [])
      ++ (if bool_decide (type data ∈ [3; 8; 36; 45]) && blank_text (base_url data)
          then issue "base_url" "Base URL is required for this channel type" else [])
      ++ advanced
      ++ (if bool_decide (type data ∈ [3; 18; 21; 39; 41; 49]) && blank_text (other data)
          then issue "other" "This channel type requires additional configuration" else [])
      ++ (if type data =? 57 then
            (if batch_mode data then issue "multi_key_mode" "Codex channels do not support batch creation" else [])
            ++ (if negb (is_empty (trim (key data))) && negb (isCodexCredential atob_available (Some (key data)))
                then issue "key" "Codex credential must be a JSON object with access_token and account_id" else [])
          else [])
      ++ (if (type data =? 41) && is_str (js "json") (vertex_key_type data) &&
             negb (is_empty (trim (key data))) && negb (isVertexJsonKey (Some (key data)))
          then issue "key" "Vertex AI service account key must be valid JSON" else [])
      ++ (if (type data =? 41) && is_str (js "api_key") (vertex_key_type data) && batch_mode data
          then issue "multi_key_mode" "Vertex AI API Key mode does not support batch creation" else [])).
End refine.

(** ** From a channel to the form *)

(** The members of [Channel] that the form reads. *)
Record Channel := MkChannel {
  ch_name : jsstr;
  ch_type : Z;
  ch_base_url : option jsstr;
  ch_openai_organization : option jsstr;
  ch_models : jsstr;
  ch_group : jsstr;
  ch_model_mapping : option jsstr;
  ch_priority : option num;
  ch_weight : option num;
  ch_test_model : option jsstr;
  ch_auto_ban : option num;
  ch_status : num;
  ch_status_code_mapping : option jsstr;
  ch_tag : option jsstr;
  ch_remark : jsstr;
  ch_setting : option jsstr;
  ch_param_override : option jsstr;
  ch_header_override : option jsstr;
  ch_settings : jsstr;
  ch_other : jsstr;
  ch_multi_key_mode : jsval;
}.

Definition parseGroups (groups : jsstr) : list jsstr :=
  filter (λ g, is_empty g = false) (map trim (split_char 44 groups)).

Definition formatGroups (groups : list jsstr) : jsstr := join (js ",") groups.

(** [x || ''], [x || 0] of a nullable text or number *)
Definition text_or_empty (x : option jsstr) : option jsstr := Some (default [] x).
Definition num_or_zero (x : option num) : option num :=
  Some (match x with Some n => if num_truthy n then n else num_zero | None => num_zero end).

(** The extra settings, in the order of the object. *)
Record ExtraSettings := MkExtra {
  e_force_format : jsval;
  e_thinking_to_content : jsval;
  e_thinking_process_strip : jsval;
  e_proxy : jsval;
  e_pass_through_body_enabled : jsval;
  e_system_prompt : jsval;
  e_system_prompt_override : jsval;
}.

Definition jfalse : jsval := JBool false.
Definition jempty : jsval := JStr [].

Definition default_extra : ExtraSettings := MkExtra jfalse jfalse jfalse jempty jfalse jempty jfalse.

Definition read_extra (setting : option jsstr) : ExtraSettings :=
  match setting with
  | None | Some [] => default_extra
  | Some text =>
      catch (let* parsed := JSON_parse text in
             let field k d := res_map (λ v, js_or v d) (get_prop (js k) parsed) in
             let* a := field "force_format" jfalse in
             let* b := field "thinking_to_content" jfalse in
             let* c := field "thinking_process_strip" jfalse in
             let* d := field "proxy" jempty in
             let* e := field "pass_through_body_enabled" jfalse in
             let* f := field "system_prompt" jempty in
             let* g := field "system_prompt_override" jfalse in
             Ok (MkExtra a b c d e f g)) default_extra
  end.

Record TypeSettings := MkTyped {
  t_vertex_key_type : jsval;
  t_azure_responses_version : jsval;
  t_enterprise : bool;
  t_aws_key_type : jsval;
  t_allow_service_tier : bool;
  t_disable_store : bool;
  t_allow_safety_identifier : bool;
  t_allow_include_obfuscation : bool;
  t_allow_inference_geo : bool;
  t_allow_speed : bool;
  t_claude_beta_query : bool;
  t_check_enabled : bool;
  t_auto_sync_enabled : bool;
  t_ignored_models : jsstr;
  t_advanced_custom : jsstr;
}.

Definition default_typed : TypeSettings :=
  MkTyped (JStr (js "json")) jempty false (JStr (js "ak_sk")) false false false false false false false
    false false [] [].

Definition read_ignored (ignored : jsval) : res jsstr :=
  if is_array ignored then to_str ignored else Ok [].
Definition read_advanced (config : jsval) : res jsstr :=
  if truthy config then res_map (default []) (stringifyAdvancedCustomConfig config) else Ok [].

(** The last two members may throw after the others have been assigned. *)
Definition read_members (parsed : jsval) : TypeSettings :=
  let get k := get_prop_opt (js k) parsed in
  let flag k := is_true (get k) in
  let make ignored advanced :=
    MkTyped (js_or (get "vertex_key_type") (JStr (js "json"))) (js_or (get "azure_responses_version") jempty)
      (flag "openrouter_enterprise") (js_or (get "aws_key_type") (JStr (js "ak_sk")))
      (flag "allow_service_tier") (flag "disable_store") (flag "allow_safety_identifier")
      (flag "allow_include_obfuscation") (flag "allow_inference_geo") (flag "allow_speed")
      (flag "claude_beta_query") (flag "upstream_model_update_check_enabled")
      (flag "upstream_model_update_auto_sync_enabled") ignored advanced in
  match read_ignored (get "upstream_model_update_ignored_models") with
  | Throw => make [] []
  | Ok models => make models (catch (read_advanced (get "advanced_custom")) [])
  end.

Definition read_typed (settings : jsstr) : TypeSettings :=
  if is_empty settings then default_typed
  else match JSON_parse settings with
       | Throw => default_typed
       | Ok parsed => if nullish parsed then default_typed else read_members parsed
       end.

Definition transformChannelToFormDefaults (channel : Channel) : ChannelFormValues :=
  let e := read_extra (ch_setting channel) in
  let t := read_typed (ch_settings channel) in
  MkForm (ch_name channel) (ch_type channel) (text_or_empty (ch_base_url channel)) []
    (text_or_empty (ch_openai_organization channel)) (ch_models channel)
    (parseGroups (if is_empty (ch_group channel) then js "default" else ch_group channel))
    (text_or_empty (ch_model_mapping channel)) (num_or_zero (ch_priority channel))
    (num_or_zero (ch_weight channel)) (text_or_empty (ch_test_model channel))
    (Some (default (num_of_Z 1) (ch_auto_ban channel))) (ch_status channel)
    (text_or_empty (ch_status_code_mapping channel)) (text_or_empty (ch_tag channel))
    (Some (ch_remark channel)) (text_or_empty (ch_setting channel))
    (text_or_empty (ch_param_override channel)) (text_or_empty (ch_header_override channel))
    (Some (if is_empty (ch_settings channel) then js "{}" else ch_settings channel))
    (Some (t_advanced_custom t)) (Some (ch_other channel)) (Some (js "single"))
    (js_or (ch_multi_key_mode channel) (JStr (js "random"))) (Some false) (Some (js "append")) (Some false)
    (e_force_format e) (e_thinking_to_content e) (e_thinking_process_strip e) (e_proxy e)
    (e_pass_through_body_enabled e) (e_system_prompt e) (e_system_prompt_override e)
    (Some (t_enterprise t)) (t_vertex_key_type t) (t_aws_key_type t) (t_azure_responses_version t)
    (Some (t_allow_service_tier t)) (Some (t_disable_store t)) (Some (t_allow_safety_identifier t))
    (Some (t_allow_include_obfuscation t)) (Some (t_allow_inference_geo t)) (Some (t_allow_speed t))
    (Some (t_claude_beta_query t)) (Some (t_check_enabled t)) (Some (t_auto_sync_enabled t))
    (Some (t_ignored_models t)).

(** The values of a new channel. *)
Definition CHANNEL_FORM_DEFAULT_VALUES : ChannelFormValues :=
  let e := Some ([] : jsstr) in let no := Some false in
  MkForm [] 1 e [] e [] [js "default"] e (Some num_zero) (Some num_zero) e (Some (num_of_Z 1)) (num_of_Z 1)
    e e e e e e (Some (js "{}")) e e (Some (js "single")) (JStr (js "random")) no (Some (js "append")) no
    (JBool false) (JBool false) (JBool false) (JStr []) (JBool false) (JStr []) (JBool false)
    no (JStr (js "json")) (JStr (js "ak_sk")) (JStr []) no no no no no no no no no e.

(** ** From the form to a channel *)

(** An object always has a JSON text. *)
Definition json_of (o : list (jsstr * jsval)) : jsstr := default [] (JSON_stringify (JObj o)).

Definition setting_object (f : ChannelFormValues) : list (jsstr * jsval) :=
  [(js "force_format", js_or (force_format f) jfalse);
   (js "thinking_to_content", js_or (thinking_to_content f) jfalse);
   (js "thinking_process_strip", js_or (thinking_process_strip f) jfalse);
   (js "proxy", js_or (proxy f) jempty);
   (js "pass_through_body_enabled", js_or (pass_through_body_enabled f) jfalse);
   (js "system_prompt", js_or (system_prompt f) jempty);
   (js "system_prompt_override", js_or (system_prompt_override f) jfalse)].

Definition buildSettingJSON (f : ChannelFormValues) : jsstr := json_of (setting_object f).

Definition MODEL_FETCHABLE_TYPES : list Z :=
  [1; 4; 14; 17; 20; 23; 24; 25; 26; 27; 31; 34; 35; 40; 42; 43; 47; 48; 57; 58].

(** [o.k = v] when the condition holds, [delete o.k] otherwise *)
Definition put_or_delete (c : bool) (k : string) (v : jsval) (o : list (jsstr * jsval)) : list (jsstr * jsval) :=
  if c then obj_put (js k) v o else assoc_del (js k) o.
Definition put (k : string) (v : jsval) (o : list (jsstr * jsval)) : list (jsstr * jsval) := obj_put (js k) v o.
Definition jbool (b : option bool) : jsval := JBool (on b).

Definition is_type (f : ChannelFormValues) (t : Z) : bool := type f =? t.

(** Members that belong to one channel type. *)
Definition type_members (f : ChannelFormValues) (o : list (jsstr * jsval)) : list (jsstr * jsval) :=
  let o := put_or_delete (is_type f 41) "vertex_key_type" (js_or (vertex_key_type f) (JStr (js "json"))) o in
  let o := put_or_delete (is_type f 3 && truthy (azure_responses_version f)) "azure_responses_version"
             (azure_responses_version f) o in
  let o := put_or_delete (is_type f 20) "openrouter_enterprise" (jbool (is_enterprise_account f)) o in
  put_or_delete (is_type f 33) "aws_key_type" (js_or (aws_key_type f) (JStr (js "ak_sk"))) o.

(** Fields of requests that are passed through. *)
Definition passthrough_members (f : ChannelFormValues) (o : list (jsstr * jsval)) : list (jsstr * jsval) :=
  let o := put_or_delete (is_type f 1 || is_type f 14) "allow_service_tier" (jbool (allow_service_tier f)) o in
  let o :=
    if is_type f 1 then
      put "allow_inference_geo" (jbool (allow_inference_geo f))
        (put "allow_include_obfuscation" (jbool (allow_include_obfuscation f))
          (put "allow_safety_identifier" (jbool (allow_safety_identifier f))
            (put "disable_store" (jbool (disable_store f)) o)))
    else
      let o := assoc_del (js "allow_include_obfuscation")
                 (assoc_del (js "allow_safety_identifier") (assoc_del (js "disable_store") o)) in
      if negb (is_type f 14) then assoc_del (js "allow_inference_geo") o else o in
  if is_type f 14 then
    put "claude_beta_query" (jbool (claude_beta_query f))
      (put "allow_speed" (jbool (allow_speed f)) (put "allow_inference_geo" (jbool (allow_inference_geo f)) o))
  else assoc_del (js "claude_beta_query") (assoc_del (js "allow_speed") o).

Definition ignored_models (f : ChannelFormValues) : list jsstr :=
  dedup (filter (λ m, is_empty m = false)
           (map trim (split_char 44 (default [] (upstream_model_update_ignored_models f))))).

Definition is_number (v : jsval) : bool := match v with JNum _ => true | _ => false end.

Definition update_members (f : ChannelFormValues) (o : list (jsstr * jsval)) : list (jsstr * jsval) :=
  if bool_decide (type f ∈ MODEL_FETCHABLE_TYPES) then
    let check := on (upstream_model_update_check_enabled f) in
    let o := put "upstream_model_update_check_enabled" (JBool check) o in
    let o := put "upstream_model_update_auto_sync_enabled"
               (JBool (check && on (upstream_model_update_auto_sync_enabled f))) o in
    let o := put "upstream_model_update_ignored_models" (JArr (map JStr (ignored_models f))) o in
    let o := if negb (is_array (obj_get (js "upstream_model_update_last_detected_models") o)) || negb check
             then put "upstream_model_update_last_detected_models" (JArr []) o else o in
    if negb (is_number (obj_get (js "upstream_model_update_last_check_time") o))
    then put "upstream_model_update_last_check_time" (JNum (num_of_Z 0)) o else o
  else o.

Definition advanced_member (f : ChannelFormValues) (o : list (jsstr * jsval)) : list (jsstr * jsval) :=
  if type f =? CHANNEL_TYPE_ADVANCED_CUSTOM then
    match parseAdvancedCustomConfig (advanced_custom f) with
    | Some config => put "advanced_custom" config o
    | None => o
    end
  else assoc_del (js "advanced_custom") o.

Definition settings_object (f : ChannelFormValues) (o : list (jsstr * jsval)) : list (jsstr * jsval) :=
  advanced_member f (update_members f (passthrough_members f (type_members f o))).

(** The settings to start from; text that does not parse is dropped. *)
Definition stored_settings (f : ChannelFormValues) : jsval :=
  match settings f with
  | None | Some [] => JObj []
  | Some text => if bool_decide (text = js "{}") then JObj [] else catch (JSON_parse text) (JObj [])
  end.

(** Named members of an array are not printed; any other value that is no
    object has no members to set or to look for. *)
Definition buildSettingsJSON (f : ChannelFormValues) : res jsstr :=
  match stored_settings f with
  | JObj o => Ok (json_of (settings_object f o))
  | JArr l => Ok (default [] (JSON_stringify (JArr l)))
  | _ => Throw
  end.

(** [s.trim().replace(/\/+$/, '')] *)
Fixpoint drop_slashes (s : jsstr) : jsstr :=
  match s with c :: t => if c =? 47 then drop_slashes t else s | [] => [] end.
Definition normalizeBaseUrl (value : option jsstr) : jsstr :=
  reverse (drop_slashes (reverse (trim (default [] value)))).

(** ** Payloads *)

Definition text_or_null (s : jsstr) : jsval := if is_empty s then JNull else JStr s.
Definition opt_or_null (s : option jsstr) : jsval := text_or_null (default [] s).
Definition num_or_null (x : option num) : jsval :=
  match x with Some n => if num_truthy n then JNum n else JNull | None => JNull end.

(** Empty strings become [null]. *)
Definition clean (o : list (jsstr * jsval)) : list (jsstr * jsval) :=
  map (λ kv, (kv.1, if is_str [] kv.2 then JNull else kv.2)) o.

Record CreatePayload := MkCreate {
  mode : jsstr;
  p_multi_key_mode : option jsval;
  p_set_prefix : option bool;
  channel : list (jsstr * jsval);
}.

Definition transformFormDataToCreatePayload (f : ChannelFormValues) : res CreatePayload :=
  let mode := match multi_key_mode f with Some (c :: m) => c :: m | _ => js "single" end in
  let* settings := buildSettingsJSON f in
  let channel :=
    [(js "name", JStr (name f)); (js "type", JNum (num_of_Z (type f)));
     (js "base_url", text_or_null (normalizeBaseUrl (base_url f))); (js "key", JStr (key f));
     (js "openai_organization", opt_or_null (openai_organization f)); (js "models", JStr (models f));
     (js "group", JStr (formatGroups (group f))); (js "model_mapping", opt_or_null (model_mapping f));
     (js "priority", num_or_null (priority f)); (js "weight", num_or_null (weight f));
     (js "test_model", opt_or_null (test_model f));
     (js "auto_ban", JNum (default (num_of_Z 1) (auto_ban f))); (js "status", JNum (status f));
     (js "status_code_mapping", opt_or_null (status_code_mapping f)); (js "tag", opt_or_null (tag f));
     (js "remark", JStr (default [] (remark f))); (js "setting", JStr (buildSettingJSON f));
     (js "param_override", opt_or_null (param_override f));
     (js "header_override", opt_or_null (header_override f)); (js "settings", JStr settings);
     (js "other", JStr (default [] (other f)))] in
  Ok (MkCreate mode
        (if bool_decide (mode = js "multi_to_single") then Some (multi_key_type f) else None)
        (if bool_decide (mode = js "batch") then batch_add_set_key_prefix_2_name f else None)
        (clean channel)).

Definition transformFormDataToUpdatePayload (f : ChannelFormValues) (channelId : num)
    : res (list (jsstr * jsval)) :=
  let* settings := buildSettingsJSON f in
  let payload :=
    [(js "id", JNum channelId); (js "name", JStr (name f)); (js "type", JNum (num_of_Z (type f)));
     (js "base_url", text_or_null (normalizeBaseUrl (base_url f)));
     (js "openai_organization", opt_or_null (openai_organization f)); (js "models", JStr (models f));
     (js "group", JStr (formatGroups (group f))); (js "model_mapping", opt_or_null (model_mapping f));
     (js "priority", JNum (default (num_of_Z 0) (priority f)));
     (js "weight", JNum (default (num_of_Z 0) (weight f)));
     (js "test_model", opt_or_null (test_model f));
     (js "auto_ban", JNum (default (num_of_Z 1) (auto_ban f))); (js "status", JNum (status f));
     (js "status_code_mapping", opt_or_null (status_code_mapping f)); (js "tag", opt_or_null (tag f));
     (js "remark", JStr (default [] (remark f))); (js "setting", JStr (buildSettingJSON f));
     (js "param_override", opt_or_null (param_override f));
     (js "header_override", opt_or_null (header_override f)); (js "settings", JStr settings);
     (js "other", JStr (default [] (other f)))] in
  let payload := if is_empty (trim (key f)) then payload else put "key" (JStr (key f)) payload in
  let payload := clean payload in
  let text k v o := put k (JStr v) o in
  Ok (text "header_override" (default [] (header_override f))
       (text "param_override" (default [] (param_override f))
        (text "status_code_mapping" (default [] (status_code_mapping f))
         (text "model_mapping" (default [] (model_mapping f))
          (text "remark" (default [] (remark f))
           (text "tag" (default [] (tag f))
            (text "test_model" (default [] (test_model f))
             (text "openai_organization" (default [] (openai_organization f))
              (text "base_url" (normalizeBaseUrl (base_url f)) payload))))))))).

(** ** Helpers of the form *)

Definition validateJSON (value : jsstr) : bool :=
  if is_empty (trim value) then true else match JSON_parse value with Ok _ => true | Throw => false end.
Definition validateModelMapping (value : jsstr) : bool :=
  if is_empty (trim value) then true else validateJSON value.
Definition parseModels (models : jsstr) : list jsstr :=
  filter (λ m, is_empty m = false) (map trim (split_char 44 models)).
Definition formatModels (models : list jsstr) : jsstr := join (js ",") models.

(** ** The members of the settings *)

(** What saving a form makes of a member of the stored settings; [None]: the
    member is absent. *)
Definition saved_member (f : ChannelFormValues) (o : list (jsstr * jsval)) (k : jsstr) : option jsval :=
  let key_is s := bool_decide (k = js s) in
  let only_for (c : bool) v := if c then Some v else None in
  let fetchable := bool_decide (type f ∈ MODEL_FETCHABLE_TYPES) in
  let check := on (upstream_model_update_check_enabled f) in
  if key_is "vertex_key_type" then only_for (is_type f 41) (js_or (vertex_key_type f) (JStr (js "json")))
  else if key_is "azure_responses_version" then
    only_for (is_type f 3 && truthy (azure_responses_version f)) (azure_responses_version f)
  else if key_is "openrouter_enterprise" then only_for (is_type f 20) (jbool (is_enterprise_account f))
  else if key_is "aws_key_type" then only_for (is_type f 33) (js_or (aws_key_type f) (JStr (js "ak_sk")))
  else if key_is "allow_service_tier" then
    only_for (is_type f 1 || is_type f 14) (jbool (allow_service_tier f))
  else if key_is "disable_store" then only_for (is_type f 1) (jbool (disable_store f))
  else if key_is "allow_safety_identifier" then only_for (is_type f 1) (jbool (allow_safety_identifier f))
  else if key_is "allow_include_obfuscation" then only_for (is_type f 1) (jbool (allow_include_obfuscation f))
  else if key_is "allow_inference_geo" then
    only_for (is_type f 1 || is_type f 14) (jbool (allow_inference_geo f))
  else if key_is "allow_speed" then only_for (is_type f 14) (jbool (allow_speed f))
  else if key_is "claude_beta_query" then only_for (is_type f 14) (jbool (claude_beta_query f))
  else if key_is "advanced_custom" then
    if type f =? CHANNEL_TYPE_ADVANCED_CUSTOM
    then match parseAdvancedCustomConfig (advanced_custom f) with Some c => Some c | None => assoc_get k o end
    else None
  else if negb fetchable then assoc_get k o
  else if key_is "upstream_model_update_check_enabled" then Some (JBool check)
  else if key_is "upstream_model_update_auto_sync_enabled" then
    Some (JBool (check && on (upstream_model_update_auto_sync_enabled f)))
  else if key_is "upstream_model_update_ignored_models" then Some (JArr (map JStr (ignored_models f)))
  else if key_is "upstream_model_update_last_detected_models" then
    match assoc_get k o with Some (JArr l) => Some (if check then JArr l else JArr []) | _ => Some (JArr []) end
  else if key_is "upstream_model_update_last_check_time" then
    match assoc_get k o with Some (JNum x) => Some (JNum x) | _ => Some (JNum (num_of_Z 0)) end
  else assoc_get k o.

Lemma get_put k s v o : assoc_get k (put s v o) = if decide (k = js s) then Some v else assoc_get k o.
Proof. apply obj_put_assoc. Qed.

Lemma get_put_or_delete k c s v o :
  assoc_get k (put_or_delete c s v o)
  = if decide (k = js s) then if c then Some v else None else assoc_get k o.
Proof. unfold put_or_delete. destruct c; [apply obj_put_assoc|apply assoc_get_del]. Qed.

Lemma get_del k s (o : list (jsstr * jsval)) :
  assoc_get k (assoc_del (js s) o) = if decide (k = js s) then None else assoc_get k o.
Proof. apply assoc_get_del. Qed.

Lemma obj_get_plain k o : k ∉ object_prototype_keys → obj_get k o = default JUndef (assoc_get k o).
Proof. intros H. unfold obj_get. destruct (assoc_get k o); [done|]. by rewrite decide_False. Qed.

Lemma get_passthrough f o k :
  assoc_get k (passthrough_members f o) =
    if decide (k = js "claude_beta_query") then if is_type f 14 then Some (jbool (claude_beta_query f)) else None
    else if decide (k = js "allow_speed") then if is_type f 14 then Some (jbool (allow_speed f)) else None
    else if decide (k = js "allow_inference_geo") then
      if is_type f 1 || is_type f 14 then Some (jbool (allow_inference_geo f)) else None
    else if decide (k = js "allow_include_obfuscation") then
      if is_type f 1 then Some (jbool (allow_include_obfuscation f)) else None
    else if decide (k = js "allow_safety_identifier") then
      if is_type f 1 then Some (jbool (allow_safety_identifier f)) else None
    else if decide (k = js "disable_store") then if is_type f 1 then Some (jbool (disable_store f)) else None
    else if decide (k = js "allow_service_tier") then
      if is_type f 1 || is_type f 14 then Some (jbool (allow_service_tier f)) else None
    else assoc_get k o.
Proof.
  unfold passthrough_members. destruct (is_type f 1), (is_type f 14); cbn [orb negb];
    rewrite ?get_put, ?get_del, ?get_put, ?get_put_or_delete; repeat case_decide; done.
Qed.

Lemma get_update f o k :
  bool_decide (type f ∈ MODEL_FETCHABLE_TYPES) = true →
  assoc_get k (update_members f o) =
    let check := on (upstream_model_update_check_enabled f) in
    if decide (k = js "upstream_model_update_last_check_time") then
      match assoc_get k o with Some (JNum x) => Some (JNum x) | _ => Some (JNum (num_of_Z 0)) end
    else if decide (k = js "upstream_model_update_last_detected_models") then
      match assoc_get k o with Some (JArr l) => Some (if check then JArr l else JArr []) | _ => Some (JArr []) end
    else if decide (k = js "upstream_model_update_ignored_models") then Some (JArr (map JStr (ignored_models f)))
    else if decide (k = js "upstream_model_update_auto_sync_enabled") then
      Some (JBool (check && on (upstream_model_update_auto_sync_enabled f)))
    else if decide (k = js "upstream_model_update_check_enabled") then Some (JBool check)
    else assoc_get k o.
Proof.
  intros Hf. unfold update_members. rewrite Hf. set (check := on _). cbv zeta.
  set (o1 := put "upstream_model_update_ignored_models" _ _).
  assert (∀ s, js s ∉ object_prototype_keys →
    obj_get (js s) o1 = default JUndef (assoc_get (js s) o1)) as Hplain by (intros; by apply obj_get_plain).
  rewrite (Hplain "upstream_model_update_last_detected_models"%string) by (apply (bool_decide_unpack _); by vm_compute).
  assert (assoc_get (js "upstream_model_update_last_detected_models") o1
          = assoc_get (js "upstream_model_update_last_detected_models") o) as -> by (unfold o1; rewrite !get_put; by lit_decide).
  match goal with |- context [if ?c then put ?s (JArr []) o1 else o1] =>
    set (o2 := if c then put s (JArr []) o1 else o1) end.
  rewrite (obj_get_plain _ o2) by (apply (bool_decide_unpack _); by vm_compute).
  assert (assoc_get (js "upstream_model_update_last_check_time") o2
          = assoc_get (js "upstream_model_update_last_check_time") o) as ->.
  { unfold o2, o1. destruct (_ || _); rewrite !get_put; by lit_decide. }
  assert (∀ k', assoc_get k' o2 = if decide (k' = js "upstream_model_update_last_detected_models") then
      match assoc_get k' o with Some (JArr l) => Some (if check then JArr l else JArr []) | _ => Some (JArr []) end
      else assoc_get k' o1) as Ho2.
  { intros k'. unfold o2. destruct (decide (k' = js "upstream_model_update_last_detected_models")) as [->|Hk].
    - destruct (assoc_get _ o) as [[]|] eqn:E; cbn [default from_option is_array negb orb]; unfold Datatypes.id;
        cbn [is_array negb orb]; try (rewrite get_put; by lit_decide).
      destruct check; cbn [negb]; [unfold o1; rewrite !get_put; by lit_decide|rewrite get_put; by lit_decide].
    - destruct (_ || _); [|done]. rewrite get_put. by rewrite decide_False. }
  destruct (assoc_get (js "upstream_model_update_last_check_time") o) as [[]|] eqn:E;
    cbn [default from_option]; unfold Datatypes.id; cbn [is_number negb]; rewrite ?get_put;
    (destruct (decide (k = js "upstream_model_update_last_check_time")) as [->|Hk];
     [rewrite ?E, ?Ho2; unfold o1; rewrite ?get_put; lit_decide; by rewrite ?E|]);
    rewrite Ho2; unfold o1; by rewrite !get_put.
Qed.

Lemma get_type_members f o k :
  assoc_get k (type_members f o) =
    if decide (k = js "aws_key_type") then
      if is_type f 33 then Some (js_or (aws_key_type f) (JStr (js "ak_sk"))) else None
    else if decide (k = js "openrouter_enterprise") then
      if is_type f 20 then Some (jbool (is_enterprise_account f)) else None
    else if decide (k = js "azure_responses_version") then
      if is_type f 3 && truthy (azure_responses_version f) then Some (azure_responses_version f) else None
    else if decide (k = js "vertex_key_type") then
      if is_type f 41 then Some (js_or (vertex_key_type f) (JStr (js "json"))) else None
    else assoc_get k o.
Proof. unfold type_members. by rewrite !get_put_or_delete. Qed.

Lemma get_advanced f o k :
  assoc_get k (advanced_member f o) =
    if decide (k = js "advanced_custom") then
      if type f =? CHANNEL_TYPE_ADVANCED_CUSTOM
      then match parseAdvancedCustomConfig (advanced_custom f) with Some c => Some c | None => assoc_get k o end
      else None
    else assoc_get k o.
Proof.
  unfold advanced_member. destruct (type f =? CHANNEL_TYPE_ADVANCED_CUSTOM); [|apply get_del].
  destruct (parseAdvancedCustomConfig _); [apply get_put|]. by case_decide.
Qed.

Ltac other_key k :=
  repeat match goal with
  | H : k ≠ js ?a |- context [@bool_decide (k = js ?a) ?d] => rewrite (@bool_decide_eq_false_2 (k = js a) d H)
  end.

Lemma settings_member f o k : assoc_get k (settings_object f o) = saved_member f o k.
Proof.
  unfold settings_object, saved_member. rewrite get_advanced. cbv zeta.
  set (o' := passthrough_members f (type_members f o)).
  assert (bool_decide (type f ∈ MODEL_FETCHABLE_TYPES) = false → update_members f o' = o') as Hno
    by (intros H; unfold update_members; by rewrite H).
  pose proof (get_update f o' k) as Hyes. cbv zeta in Hyes.
  destruct (bool_decide (type f ∈ MODEL_FETCHABLE_TYPES)).
  - rewrite Hyes by done. clear Hyes Hno. unfold o'. rewrite get_passthrough, get_type_members.
    repeat match goal with
    | |- context [@decide (k = js ?a) ?d] => destruct (@decide (k = js a) d) as [->|?]
    end; lit_decide; try done.
    all: by other_key k.
  - rewrite Hno by done. clear Hyes Hno. unfold o'. rewrite get_passthrough, get_type_members.
    repeat match goal with
    | |- context [@decide (k = js ?a) ?d] => destruct (@decide (k = js a) d) as [->|?]
    end; lit_decide; try done.
    all: by other_key k.
Qed.

(** ** Theorems *)

Lemma json_text_of o : json_ok (JObj o) = true → JSON_parse (json_of o) = Ok (JObj o) ∧ json_of o ≠ [].
Proof.
  intros H. destruct (json_roundtrip (JObj o) H) as (t & Ht & Hp). unfold json_of. rewrite Ht.
  cbn [default from_option]. unfold Datatypes.id. split; [done|]. by intros ->.
Qed.

(** C2. Saving a form rewrites exactly the members the channel type owns: the
    settings that are written consist of the stored members, with those of
    other types removed, those of the form's type set from the form, the update
    schedule set for the types whose models can be fetched (automatic
    synchronisation only together with the check), and all others unchanged. *)
Theorem settings_members_exact (f : ChannelFormValues) (o : list (jsstr * jsval))
  (Hs : stored_settings f = JObj o) :
  ∃ saved, buildSettingsJSON f = Ok (json_of saved) ∧ ∀ k, assoc_get k saved = saved_member f o k.
Proof.
  exists (settings_object f o). unfold buildSettingsJSON. rewrite Hs. split; [done|]. apply settings_member.
Qed.

Lemma saved_get f o s :
  js s ∉ object_prototype_keys →
  get_prop_opt (js s) (JObj (settings_object f o)) = default JUndef (saved_member f o (js s)).
Proof.
  intros Hk. unfold get_prop_opt, get_prop. cbn [catch]. rewrite obj_get_plain by done. by rewrite settings_member.
Qed.

(** A member of the saved settings, at a literal key. *)
Ltac saved_at :=
  rewrite saved_get by (apply (bool_decide_unpack _); vm_compute; exact I);
  unfold saved_member; cbv zeta; lit_decide.

Lemma join_strings l : to_str (JArr (map JStr l)) = Ok (join (js ",") l).
Proof.
  cbn [to_str]. assert (∀ l, res_mapM (λ x, match x with JUndef | JNull => Ok [] | _ => to_str x end) (map JStr l) = Ok l) as H.
  { clear. induction l as [|s l IH]; [done|]. cbn [map res_mapM to_str res_bind]. by rewrite IH. }
  by rewrite H.
Qed.

Lemma read_saved f o :
  json_ok (JObj (settings_object f o)) = true →
  read_typed (json_of (settings_object f o)) = read_members (JObj (settings_object f o)).
Proof.
  intros Hok. destruct (json_text_of _ Hok) as [Hp Hne]. unfold read_typed. rewrite Hp.
  by destruct (json_of (settings_object f o)).
Qed.

Section reopen.
Context (f : ChannelFormValues) (o : list (jsstr * jsval)).
Let saved := JObj (settings_object f o).

(** The members of [read_members] that need no parsing. *)
Lemma members_flags (t := read_members saved) :
  t_vertex_key_type t = js_or (get_prop_opt (js "vertex_key_type") saved) (JStr (js "json")) ∧
  t_azure_responses_version t = js_or (get_prop_opt (js "azure_responses_version") saved) jempty ∧
  t_enterprise t = is_true (get_prop_opt (js "openrouter_enterprise") saved) ∧
  t_aws_key_type t = js_or (get_prop_opt (js "aws_key_type") saved) (JStr (js "ak_sk")) ∧
  t_allow_service_tier t = is_true (get_prop_opt (js "allow_service_tier") saved) ∧
  t_disable_store t = is_true (get_prop_opt (js "disable_store") saved) ∧
  t_allow_safety_identifier t = is_true (get_prop_opt (js "allow_safety_identifier") saved) ∧
  t_allow_include_obfuscation t = is_true (get_prop_opt (js "allow_include_obfuscation") saved) ∧
  t_allow_inference_geo t = is_true (get_prop_opt (js "allow_inference_geo") saved) ∧
  t_allow_speed t = is_true (get_prop_opt (js "allow_speed") saved) ∧
  t_claude_beta_query t = is_true (get_prop_opt (js "claude_beta_query") saved) ∧
  t_check_enabled t = is_true (get_prop_opt (js "upstream_model_update_check_enabled") saved) ∧
  t_auto_sync_enabled t = is_true (get_prop_opt (js "upstream_model_update_auto_sync_enabled") saved).
Proof. unfold t, read_members. cbv zeta. by destruct (read_ignored _). Qed.

Lemma js_or_idem a b : js_or (js_or a b) b = js_or a b.
Proof. unfold js_or. destruct (truthy a) eqn:E; [by rewrite E|by destruct (truthy b)]. Qed.

Lemma members_ignored :
  bool_decide (type f ∈ MODEL_FETCHABLE_TYPES) = true →
  t_ignored_models (read_members saved) = join (js ",") (ignored_models f).
Proof.
  intros Hf. unfold read_members. cbv zeta.
  assert (get_prop_opt (js "upstream_model_update_ignored_models") saved = JArr (map JStr (ignored_models f))) as ->.
  { unfold saved. saved_at. by rewrite Hf. }
  unfold read_ignored. cbn [is_array]. by rewrite join_strings.
Qed.

Lemma parsed_normal v c : parseAdvancedCustomConfig v = Some c → ∃ w, normalizeAdvancedCustomConfig w = Ok c.
Proof.
  unfold parseAdvancedCustomConfig. destruct v as [text|]; [|done]. destruct (is_empty (trim text)); [done|].
  destruct (JSON_parse text) as [w|]; [|done]. cbn [res_bind]. destruct (not_plain_object w); [done|].
  intros H. exists w. destruct (normalizeAdvancedCustomConfig w); [|done]. cbn in H. by simplify_eq.
Qed.

(** The route table of an Advanced Custom channel is read back. *)
Lemma members_advanced config :
  type f = CHANNEL_TYPE_ADVANCED_CUSTOM → json_ok saved = true → parseAdvancedCustomConfig (advanced_custom f) = Some config →
  parseAdvancedCustomConfig (Some (t_advanced_custom (read_members saved))) = Some config.
Proof.
  intros Ht Hok Hc. assert (saved_member f o (js "advanced_custom") = Some config) as Hm.
  { unfold saved_member. cbv zeta. lit_decide. by rewrite Ht, Hc. }
  assert (json_ok config = true) as Hj.
  { rewrite <-settings_member in Hm. apply assoc_get_Some_elem in Hm. unfold saved in Hok. cbn [json_ok] in Hok.
    apply andb_true_iff in Hok as [_ Hok]. rewrite forallb_forall in Hok.
    apply (Hok (js "advanced_custom", config)). by apply list_elem_of_In. }
  assert (get_prop_opt (js "advanced_custom") saved = config) as Hg by (unfold saved; rewrite saved_get, Hm; [done|];
    apply (bool_decide_unpack _); vm_compute; exact I).
  destruct (parsed_normal _ _ Hc) as [w Hw]. destruct (config_text_roundtrip w config Hw Hj) as (t & _ & Hp & Hs).
  assert (get_prop_opt (js "upstream_model_update_ignored_models") saved = JArr (map JStr (ignored_models f))) as Hi.
  { unfold saved. saved_at. by rewrite Ht. }
  unfold read_members. cbv zeta. rewrite Hi, Hg. unfold read_ignored. cbn [is_array]. rewrite join_strings.
  cbn [t_advanced_custom]. unfold read_advanced. destruct (normalize_config_shape w config Hw) as (rs & _ & ->).
  cbn [truthy config_of]. fold (config_of (map route_val rs)). rewrite Hs. exact Hp.
Qed.
End reopen.

Lemma is_true_bool b : is_true (JBool b) = b.
Proof. by destruct b. Qed.

Lemma extra_reopen f :
  json_ok (JObj (setting_object f)) = true →
  read_extra (Some (buildSettingJSON f)) =
    MkExtra (js_or (force_format f) jfalse) (js_or (thinking_to_content f) jfalse)
      (js_or (thinking_process_strip f) jfalse) (js_or (proxy f) jempty)
      (js_or (pass_through_body_enabled f) jfalse) (js_or (system_prompt f) jempty)
      (js_or (system_prompt_override f) jfalse).
Proof.
  intros Hok. destruct (json_text_of _ Hok) as [Hp Hne]. unfold buildSettingJSON, read_extra.
  destruct (json_of (setting_object f)) as [|c text]; [done|]. rewrite Hp. cbn [res_bind].
  assert (NoDup (setting_object f).*1) as Hnd by (apply (bool_decide_unpack (NoDup _)); vm_compute; exact I).
  assert (∀ i k v, setting_object f !! i = Some (k, v) → get_prop k (JObj (setting_object f)) = Ok v) as Hg.
  { intros i k v H%list_elem_of_lookup_2. cbn [get_prop]. unfold obj_get.
    by rewrite (assoc_get_elem k v (setting_object f) Hnd H). }
  rewrite (Hg 0%nat _ _ eq_refl), (Hg 1%nat _ _ eq_refl), (Hg 2%nat _ _ eq_refl), (Hg 3%nat _ _ eq_refl),
    (Hg 4%nat _ _ eq_refl), (Hg 5%nat _ _ eq_refl), (Hg 6%nat _ _ eq_refl).
  cbn [res_map res_bind catch]. by rewrite !js_or_idem.
Qed.

(** C24. Settings that were saved are shown again: reopening the settings text
    written for a form gives, for the members of its channel type, the values
    of the form (for an Advanced Custom channel a text of the same route table),
    and for the update schedule the check, the synchronisation it allows and the
    cleaned list of ignored models; the extra settings come back as they were. *)
Theorem settings_reopen (f : ChannelFormValues) (o : list (jsstr * jsval))
  (Hs : stored_settings f = JObj o) (Hok : json_ok (JObj (settings_object f o)) = true)
  (Hok' : json_ok (JObj (setting_object f)) = true) :
  ∃ text, buildSettingsJSON f = Ok text ∧
  let t := read_typed text in
  (type f = 41 → t_vertex_key_type t = js_or (vertex_key_type f) (JStr (js "json"))) ∧
  (type f = 3 → t_azure_responses_version t = js_or (azure_responses_version f) jempty) ∧
  (type f = 20 → t_enterprise t = on (is_enterprise_account f)) ∧
  (type f = 33 → t_aws_key_type t = js_or (aws_key_type f) (JStr (js "ak_sk"))) ∧
  (type f = 1 ∨ type f = 14 →
     t_allow_service_tier t = on (allow_service_tier f) ∧ t_allow_inference_geo t = on (allow_inference_geo f)) ∧
  (type f = 1 →
     t_disable_store t = on (disable_store f) ∧
     t_allow_safety_identifier t = on (allow_safety_identifier f) ∧
     t_allow_include_obfuscation t = on (allow_include_obfuscation f)) ∧
  (type f = 14 → t_allow_speed t = on (allow_speed f) ∧ t_claude_beta_query t = on (claude_beta_query f)) ∧
  (type f ∈ MODEL_FETCHABLE_TYPES →
     t_check_enabled t = on (upstream_model_update_check_enabled f) ∧
     t_auto_sync_enabled t =
       on (upstream_model_update_check_enabled f) && on (upstream_model_update_auto_sync_enabled f) ∧
     t_ignored_models t = join (js ",") (ignored_models f)) ∧
  (type f = CHANNEL_TYPE_ADVANCED_CUSTOM → ∀ config, parseAdvancedCustomConfig (advanced_custom f) = Some config →
     parseAdvancedCustomConfig (Some (t_advanced_custom t)) = Some config) ∧
  read_extra (Some (buildSettingJSON f)) =
    MkExtra (js_or (force_format f) jfalse) (js_or (thinking_to_content f) jfalse)
      (js_or (thinking_process_strip f) jfalse) (js_or (proxy f) jempty)
      (js_or (pass_through_body_enabled f) jfalse) (js_or (system_prompt f) jempty)
      (js_or (system_prompt_override f) jfalse).
Proof.
  exists (json_of (settings_object f o)). split; [unfold buildSettingsJSON; by rewrite Hs|].
  cbv zeta. rewrite read_saved by done.
  destruct (members_flags f o) as (H1 & H2 & H3 & H4 & H5 & H6 & H7 & H8 & H9 & H10 & H11 & H12 & H13).
  rewrite H1, H2, H3, H4, H5, H6, H7, H8, H9, H10, H11, H12, H13.
  split_and!; [intros Ht..|by apply extra_reopen].
  1-4: saved_at; unfold is_type; rewrite Ht; cbn [Z.eqb Pos.eqb andb default from_option]; unfold Datatypes.id.
  - apply js_or_idem.
  - destruct (truthy (azure_responses_version f)) eqn:E; cbn [default from_option];
      unfold Datatypes.id, js_or; by rewrite E.
  - apply is_true_bool.
  - apply js_or_idem.
  - split; saved_at; unfold is_type; destruct Ht as [-> | ->]; apply is_true_bool.
  - split_and!; saved_at; unfold is_type; rewrite Ht; apply is_true_bool.
  - split_and!; saved_at; unfold is_type; rewrite Ht; apply is_true_bool.
  - apply (bool_decide_eq_true_2 _) in Ht.
    split_and!; [saved_at; rewrite Ht; apply is_true_bool..|by apply members_ignored].
  - intros config Hc. by apply members_advanced.
Qed.

Lemma get_clean k o :
  assoc_get k (clean o) = (λ v, if is_str [] v then JNull else v) <$> assoc_get k o.
Proof.
  unfold clean. induction o as [|[k' v] o IH]; [done|]. cbn [map assoc_get fst snd]. by case_decide.
Qed.

(** The members that an update must be able to clear. *)
Definition clearable : list string :=
  ["base_url"; "openai_organization"; "test_model"; "tag"; "remark"; "model_mapping";
   "status_code_mapping"; "param_override"; "header_override"]%string.

(** C27. Updates keep the key and can clear texts: a form opened from a channel
    holds no key; an update carries the key exactly when one was typed in, and
    the nullable texts always as strings, an emptied one as the empty string
    rather than [null]. *)
Theorem update_payload_safe (f : ChannelFormValues) (channelId : num) (o : list (jsstr * jsval))
  (Hs : stored_settings f = JObj o) :
  (∀ c, key (transformChannelToFormDefaults c) = []) ∧
  ∃ p, transformFormDataToUpdatePayload f channelId = Ok p ∧
    assoc_get (js "key") p = (if is_empty (trim (key f)) then None else Some (JStr (key f))) ∧
    ∀ k, k ∈ clearable → ∃ s, assoc_get (js k) p = Some (JStr s).
Proof.
  split; [done|]. unfold transformFormDataToUpdatePayload, buildSettingsJSON. rewrite Hs. cbn [res_bind]. cbv zeta.
  match goal with |- context [put "key" (JStr (key f)) ?l] => set (base := l) end.
  assert (assoc_get (js "key") base = None) as Hb.
  { apply assoc_get_None. apply (bool_decide_unpack _). unfold base. vm_compute. exact I. }
  eexists. split; [reflexivity|]. split.
  - rewrite !get_put. lit_decide. rewrite get_clean. destruct (is_empty (trim (key f))) eqn:E; [by rewrite Hb|].
    rewrite get_put. lit_decide. cbn [fmap option_fmap option_map].
    destruct (key f) as [|c l]; [done|]. unfold is_str. by rewrite bool_decide_eq_false_2.
  - intros k. unfold clearable. rewrite !elem_of_cons.
    intros [->|[->|[->|[->|[->|[->|[->|[->|[->|H%elem_of_nil]]]]]]]]]; [..|done]; rewrite !get_put; lit_decide; by eexists.
Qed.

(** *** A sample *)

Definition sample_channel : Channel :=
  MkChannel (js "main") 1 (Some (js "https://api.example.com/")) None (js "gpt-4o,o3") (js "default, vip") None
    (Some (num_of_Z 5)) None None None (num_of_Z 1) None None [] (Some (json_text "{'proxy':'socks5://p'}")) None None
    (json_text "{'vertex_key_type':'json','disable_store':true,'note':[1],'upstream_model_update_check_enabled':true}")
    [] (JStr (js "polling")).

Definition sample_form : ChannelFormValues := transformChannelToFormDefaults sample_channel.

Definition sample_stored : list (jsstr * jsval) :=
  match stored_settings sample_form with JObj o => o | _ => [] end.

Lemma settings_members_exact_witness :
  ∃ saved, buildSettingsJSON sample_form = Ok (json_of saved) ∧
    assoc_get (js "vertex_key_type") saved = None ∧ assoc_get (js "disable_store") saved = Some (JBool true) ∧
    assoc_get (js "note") saved = Some (JArr [JNum (num_of_Z 1)]).
Proof.
  destruct (settings_members_exact sample_form sample_stored) as (saved & Hb & H); [vm_compute; reflexivity|].
  exists saved. rewrite !H. split; [exact Hb|]. vm_compute. auto.
Defined.

Lemma settings_reopen_witness :
  ∃ text, buildSettingsJSON sample_form = Ok text ∧ t_disable_store (read_typed text) = true.
Proof.
  destruct (settings_reopen sample_form sample_stored) as (text & Hb & H);
    [vm_compute; reflexivity|vm_compute; reflexivity|vm_compute; reflexivity|].
  exists text. split; [exact Hb|]. destruct H as (_ & _ & _ & _ & _ & H & _). destruct (H eq_refl) as [E _].
  rewrite E. vm_compute. reflexivity.
Defined.

Lemma update_payload_safe_witness :
  ∃ p, transformFormDataToUpdatePayload sample_form (num_of_Z 7) = Ok p ∧ assoc_get (js "key") p = None.
Proof.
  destruct (update_payload_safe sample_form (num_of_Z 7) sample_stored) as (_ & p & Hp & Hk & _);
    [vm_compute; reflexivity|].
  exists p. split; [exact Hp|]. rewrite Hk. vm_compute. reflexivity.
Defined.
End ChannelForm.
