(* ===== verification/JsUri.v ===== *)
(** * URI components and texts between separators

    [encodeURIComponent] and [decodeURIComponent] of ECMAScript (UTF-8 bytes in
    upper-case percent escapes; a lone surrogate cannot be encoded), and
    [split] and [join] on a separator of several characters.
    [decode_encode]: a component decodes to the text it was made from. *)

From stdpp Require Import base list strings.
From Stdlib Require Import ZArith Lia.
From S2P Require Import Prelude JsString JsNumber JsJson.
#[local] Open Scope Z_scope.

(** ** Encoding *)

(** Letters, digits and [-_.!~*'()]: the characters left as they are. *)
Definition uri_unescaped (c : Z) : bool :=
  ((65 <=? c) && (c <=? 90)) || ((97 <=? c) && (c <=? 122)) || is_digit c ||
  (c =? 45) || (c =? 95) || (c =? 46) || (c =? 33) || (c =? 126) || (c =? 42) ||
  (c =? 39) || (c =? 40) || (c =? 41).

Definition utf8 (p : Z) : list Z :=
  if p <? 128 then [p]
  else if p <? 2048 then [192 + p / 64; 128 + p mod 64]
  else if p <? 65536 then [224 + p / 4096; 128 + p / 64 mod 64; 128 + p mod 64]
  else [240 + p / 262144; 128 + p / 4096 mod 64; 128 + p / 64 mod 64; 128 + p mod 64].

Definition upper_hex (d : Z) : Z := if d <? 10 then 48 + d else 55 + d.
Definition percent (b : Z) : jsstr := [37; upper_hex (b / 16); upper_hex (b mod 16)].
Definition percent_all (p : Z) : jsstr := concat (map percent (utf8 p)).

(** The code point of a surrogate pair, and its two halves. *)
Definition pair_point (c d : Z) : Z := (c - 55296) * 1024 + (d - 56320) + 65536.
Definition utf16 (p : Z) : jsstr :=
  if p <? 65536 then [p] else [55296 + (p - 65536) / 1024; 56320 + (p - 65536) mod 1024].

Fixpoint encodeURIComponent (s : jsstr) : res jsstr :=
  match s with
  | [] => Ok []
  | c :: r =>
      if uri_unescaped c then res_map (cons c) (encodeURIComponent r)
      else if is_trail c then Throw
      else if is_lead c then
        match r with
        | d :: r' =>
            if is_trail d then res_map (app (percent_all (pair_point c d))) (encodeURIComponent r')
            else Throw
        | [] => Throw
        end
      else res_map (app (percent_all c)) (encodeURIComponent r)
  end.

(** ** Decoding *)

(** A text as characters ([inl]) and escaped bytes ([inr]); a percent sign
    without two hexadecimal digits is an error. *)
Fixpoint uri_items (s : jsstr) : option (list (Z + Z)) :=
  match s with
  | [] => Some []
  | c :: r =>
      if c =? 37 then
        match r with
        | a :: b :: r' =>
            match hex_digit a, hex_digit b with
            | Some x, Some y => cons (inr (x * 16 + y)) <$> uri_items r'
            | _, _ => None
            end
        | _ => None
        end
      else cons (inl c) <$> uri_items r
  end.

Definition continuation (b : Z) : bool := (128 <=? b) && (b <? 192).

(** UTF-8 without overlong forms, surrogates and points above 10FFFF. *)
Fixpoint uri_text (l : list (Z + Z)) : option jsstr :=
  match l with
  | [] => Some []
  | inl c :: r => cons c <$> uri_text r
  | inr b :: r =>
      if b <? 128 then cons b <$> uri_text r
      else if (192 <=? b) && (b <? 224) then
        match r with
        | inr b1 :: r' =>
            let p := (b - 192) * 64 + (b1 - 128) in
            if continuation b1 && (128 <=? p) then app (utf16 p) <$> uri_text r' else None
        | _ => None
        end
      else if (224 <=? b) && (b <? 240) then
        match r with
        | inr b1 :: inr b2 :: r' =>
            let p := (b - 224) * 4096 + (b1 - 128) * 64 + (b2 - 128) in
            if continuation b1 && continuation b2 && (2048 <=? p) &&
               negb ((55296 <=? p) && (p <=? 57343))
            then app (utf16 p) <$> uri_text r' else None
        | _ => None
        end
      else if (240 <=? b) && (b <? 248) then
        match r with
        | inr b1 :: inr b2 :: inr b3 :: r' =>
            let p := (b - 240) * 262144 + (b1 - 128) * 4096 + (b2 - 128) * 64 + (b3 - 128) in
            if continuation b1 && continuation b2 && continuation b3 && (65536 <=? p) && (p <=? 1114111)
            then app (utf16 p) <$> uri_text r' else None
        | _ => None
        end
      else None
  end.

Definition decodeURIComponent (s : jsstr) : res jsstr :=
  match uri_items s with
  | Some l => match uri_text l with Some t => Ok t | None => Throw end
  | None => Throw
  end.

(** ** Round trip *)

Lemma upper_hex_digit d : 0 <= d < 16 → hex_digit (upper_hex d) = Some d.
Proof.
  intros Hd. unfold hex_digit, upper_hex, is_digit. repeat (case_match; try lia); f_equal; lia.
Qed.

Lemma utf8_bytes p : 0 <= p < 1114112 → Forall (λ b, 0 <= b < 256) (utf8 p).
Proof.
  intros Hp. unfold utf8. repeat case_match; repeat constructor; bool_prop;
    Z.to_euclidean_division_equations; lia.
Qed.

Lemma uri_items_percent b r :
  0 <= b < 256 → uri_items (percent b ++ r) = cons (inr b) <$> uri_items r.
Proof.
  intros Hb. unfold percent. cbn [app uri_items Z.eqb Pos.eqb].
  rewrite !upper_hex_digit by (Z.to_euclidean_division_equations; lia).
  by replace (b / 16 * 16 + b mod 16) with b by (Z.to_euclidean_division_equations; lia).
Qed.

Lemma uri_items_bytes bs r :
  Forall (λ b, 0 <= b < 256) bs → uri_items (concat (map percent bs) ++ r) = app (map inr bs) <$> uri_items r.
Proof.
  induction 1 as [|b bs Hb _ IH]; cbn [map concat app].
  - by destruct (uri_items r).
  - rewrite <-app_assoc, uri_items_percent, IH by done. by destruct (uri_items r).
Qed.

(** A point that is not a surrogate. *)
Definition scalar (p : Z) : Prop := 0 <= p < 55296 ∨ 57343 < p < 1114112.

Lemma uri_text_utf8 p l : scalar p → uri_text (map inr (utf8 p) ++ l) = app (utf16 p) <$> uri_text l.
Proof.
  intros Hp. unfold scalar in Hp. unfold utf8. repeat case_match; bool_prop; cbn [map app uri_text].
  - rewrite (proj2 (Z.ltb_lt p 128)) by lia. unfold utf16. rewrite (proj2 (Z.ltb_lt p 65536)) by lia.
    by destruct (uri_text l).
  - assert (0 <= p / 64 < 32 ∧ 0 <= p mod 64 < 64 ∧ p = p / 64 * 64 + p mod 64) as (?&?&Hpe)
      by (Z.to_euclidean_division_equations; lia).
    set (a := p / 64) in *. set (b := p mod 64) in *. clearbody a b. subst p. unfold continuation.
    repeat (case_match; bool_prop; try lia).
    by replace ((192 + a - 192) * 64 + (128 + b - 128)) with (a * 64 + b) by lia.
  - assert (0 <= p / 4096 < 16 ∧ 0 <= p / 64 mod 64 < 64 ∧ 0 <= p mod 64 < 64 ∧
            p = p / 4096 * 4096 + p / 64 mod 64 * 64 + p mod 64) as (?&?&?&Hpe)
      by (Z.to_euclidean_division_equations; lia).
    set (a := p / 4096) in *. set (b := p / 64 mod 64) in *. set (c := p mod 64) in *. clearbody a b c. subst p.
    unfold continuation. repeat (case_match; bool_prop; try lia).
    by replace ((224 + a - 224) * 4096 + (128 + b - 128) * 64 + (128 + c - 128))
      with (a * 4096 + b * 64 + c) by lia.
  - assert (0 <= p / 262144 < 5 ∧ 0 <= p / 4096 mod 64 < 64 ∧ 0 <= p / 64 mod 64 < 64 ∧ 0 <= p mod 64 < 64 ∧
            p = p / 262144 * 262144 + p / 4096 mod 64 * 4096 + p / 64 mod 64 * 64 + p mod 64) as (?&?&?&?&Hpe)
      by (Z.to_euclidean_division_equations; lia).
    set (a := p / 262144) in *. set (b := p / 4096 mod 64) in *. set (c := p / 64 mod 64) in *.
    set (d := p mod 64) in *. clearbody a b c d. subst p.
    unfold continuation. repeat (case_match; bool_prop; try lia).
    by replace ((240 + a - 240) * 262144 + (128 + b - 128) * 4096 + (128 + c - 128) * 64 + (128 + d - 128))
      with (a * 262144 + b * 4096 + c * 64 + d) by lia.
Qed.

Lemma utf16_pair c d : is_lead c = true → is_trail d = true → utf16 (pair_point c d) = [c; d].
Proof.
  unfold is_lead, is_trail, utf16, pair_point. intros Hc Hd. bool_prop.
  case_match; bool_prop; [lia|]. repeat f_equal; Z.to_euclidean_division_equations; lia.
Qed.

(** What a component decodes to, item by item. *)
Definition decodes (t s : jsstr) : Prop := ∃ l, uri_items t = Some l ∧ uri_text l = Some s.

Lemma decodes_unescaped c t s : uri_unescaped c = true → decodes t s → decodes (c :: t) (c :: s).
Proof.
  intros Hc (l & Hl & Hs). exists (inl c :: l). cbn [uri_items uri_text]. split.
  - destruct (Z.eqb_spec c 37) as [->|_]; [done|]. by rewrite Hl.
  - by rewrite Hs.
Qed.

Lemma decodes_point p t s : scalar p → decodes t s → decodes (percent_all p ++ t) (utf16 p ++ s).
Proof.
  intros Hp (l & Hl & Hs). exists (map inr (utf8 p) ++ l). unfold percent_all. split.
  - rewrite uri_items_bytes by (apply utf8_bytes; unfold scalar in Hp; lia). by rewrite Hl.
  - rewrite uri_text_utf8 by done. by rewrite Hs.
Qed.

Lemma encode_decodes s : code_units s = true → ∀ t, encodeURIComponent s = Ok t → decodes t s.
Proof.
  induction s as [s IH] using str_length_ind. destruct s as [|c r]; intros Hs t Ht.
  { cbn [encodeURIComponent] in Ht. simplify_eq. by exists []. }
  assert (0 <= c < 65536 ∧ code_units r = true) as [Hc Hr]
    by (unfold code_units in *; cbn [forallb] in Hs; bool_prop; split; [lia|done]).
  cbn [encodeURIComponent] in Ht. destruct (uri_unescaped c) eqn:Eu.
  { apply res_map_Ok in Ht as (t' & Ht' & ->). apply decodes_unescaped; [done|].
    apply IH; [cbn [length]; lia|done..]. }
  destruct (is_trail c) eqn:Et; [done|]. destruct (is_lead c) eqn:El.
  - destruct r as [|d r']; [done|]. destruct (is_trail d) eqn:Ed; [|done].
    apply res_map_Ok in Ht as (t' & Ht' & ->).
    change (c :: d :: r') with ([c; d] ++ r'). rewrite <-(utf16_pair c d) by done.
    apply decodes_point.
    + unfold scalar, pair_point, is_lead, is_trail in *. bool_prop. lia.
    + unfold code_units in Hr; cbn [forallb] in Hr; bool_prop. apply IH; [cbn [length]; lia|done..].
  - apply res_map_Ok in Ht as (t' & Ht' & ->).
    replace (c :: r) with (utf16 c ++ r) by (unfold utf16; by rewrite (proj2 (Z.ltb_lt c 65536)) by lia).
    apply decodes_point; [|apply IH; [cbn [length]; lia|done..]].
    unfold scalar, is_lead, is_trail in *. bool_prop. lia.
Qed.

Lemma decode_encode s t : code_units s = true → encodeURIComponent s = Ok t → decodeURIComponent t = Ok s.
Proof.
  intros Hs Ht. apply encode_decodes in Ht as (l & Hl & Ht); [|done].
  unfold decodeURIComponent. by rewrite Hl, Ht.
Qed.

(** An encoded text consists of unescaped characters and percent signs. *)
Definition uri_char (c : Z) : bool := uri_unescaped c || (c =? 37).

Lemma percent_chars b : 0 <= b < 256 → Forall (λ c, uri_char c = true) (percent b).
Proof.
  intros Hb. unfold percent, uri_char, uri_unescaped, upper_hex, is_digit.
  repeat constructor; repeat case_match; bool_prop; Z.to_euclidean_division_equations; lia.
Qed.

Lemma percent_all_chars p : 0 <= p < 1114112 → Forall (λ c, uri_char c = true) (percent_all p).
Proof.
  intros Hp%utf8_bytes. unfold percent_all. induction Hp as [|b bs Hb _ IH]; cbn [map concat]; [done|].
  apply Forall_app. split; [by apply percent_chars|done].
Qed.

Lemma percent_all_length p : (3 ≤ length (percent_all p))%nat.
Proof. unfold percent_all, utf8. repeat case_match; cbn [map concat length app percent]; lia. Qed.

Lemma encoded_chars s t :
  code_units s = true → encodeURIComponent s = Ok t →
  Forall (λ c, uri_char c = true) t ∧ (length s ≤ length t)%nat.
Proof.
  revert t. induction s as [s IH] using str_length_ind. destruct s as [|c r]; intros t Hs Ht.
  { cbn [encodeURIComponent] in Ht. simplify_eq. split; [done|cbn; lia]. }
  assert (0 <= c < 65536 ∧ code_units r = true) as [Hc Hr]
    by (unfold code_units in *; cbn [forallb] in Hs; bool_prop; split; [lia|done]).
  cbn [encodeURIComponent] in Ht. destruct (uri_unescaped c) eqn:Eu.
  { apply res_map_Ok in Ht as (t' & Ht' & ->). apply IH in Ht' as [? ?]; [|cbn [length]; lia|done].
    split; [constructor; [unfold uri_char; by rewrite Eu|done]|cbn [length]; lia]. }
  destruct (is_trail c) eqn:Et; [done|]. destruct (is_lead c) eqn:El.
  - destruct r as [|d r']; [done|]. destruct (is_trail d) eqn:Ed; [|done].
    apply res_map_Ok in Ht as (t' & Ht' & ->).
    unfold code_units in Hr; cbn [forallb] in Hr; bool_prop.
    apply IH in Ht' as [? ?]; [|cbn [length]; lia|done].
    pose proof (percent_all_length (pair_point c d)). split.
    + apply Forall_app. split; [|done]. apply percent_all_chars.
      unfold pair_point, is_lead, is_trail in *. bool_prop. lia.
    + rewrite length_app. cbn [length]. lia.
  - apply res_map_Ok in Ht as (t' & Ht' & ->). apply IH in Ht' as [? ?]; [|cbn [length]; lia|done].
    pose proof (percent_all_length c). split.
    + apply Forall_app. split; [|done]. apply percent_all_chars. lia.
    + rewrite length_app. cbn [length]. lia.
Qed.

(** A text without surrogates can be encoded. *)
Lemma encode_total s :
  Forall (λ c, is_lead c = false ∧ is_trail c = false) s → ∃ t, encodeURIComponent s = Ok t.
Proof.
  induction 1 as [|c s [Hl Ht] _ [t IH]]; [by exists []|]. cbn [encodeURIComponent]. rewrite Hl, Ht, IH.
  destruct (uri_unescaped c); eexists; done.
Qed.

(** ** Separators of several characters *)

(** [s.split(sep)] for a separator that is not empty; [skip] characters belong
    to the separator just found. *)
Fixpoint split_from (sep : jsstr) (skip : nat) (s : jsstr) : list jsstr :=
  match s with
  | [] => [[]]
  | a :: s' =>
      match skip with
      | S n => split_from sep n s'
      | O =>
          if starts_with sep s then [] :: split_from sep (pred (length sep)) s'
          else match split_from sep 0 s' with
               | [] => [[a]]
               | w :: ws => (a :: w) :: ws
               end
      end
  end.

Definition split_str (sep s : jsstr) : list jsstr := split_from sep 0 s.

(** [s.split(sep).join(value)] *)
Definition replace_all (sep value s : jsstr) : jsstr := join value (split_str sep s).

Lemma split_from_skip sep n s : split_from sep n s = split_from sep 0 (drop n s).
Proof.
  revert s. induction n as [|n IH]; intros [|a s]; [done..|]. cbn [split_from drop]. apply IH.
Qed.

Lemma split_from_nonempty sep n s : split_from sep n s ≠ [].
Proof. revert n. induction s as [|a s IH]; intros n; cbn [split_from]; [done|]. repeat case_match; done. Qed.

Lemma join_cons_char v a w ws : join v ((a :: w) :: ws) = a :: join v (w :: ws).
Proof. by destruct ws. Qed.

Lemma join_nil_head v ws : ws ≠ [] → join v ([] :: ws) = v ++ join v ws.
Proof. by destruct ws. Qed.

Section separator.
Context (c : Z) (q : jsstr).
#[local] Notation sep := (c :: q).

Lemma split_at_sep s : split_str sep (sep ++ s) = [] :: split_str sep s.
Proof.
  unfold split_str. change (sep ++ s) with (c :: (q ++ s)). cbn [split_from].
  change (c :: q ++ s) with (sep ++ s). rewrite starts_with_app. f_equal.
  rewrite split_from_skip. cbn [length pred]. by rewrite drop_app_length.
Qed.

Lemma split_at_char a s :
  starts_with sep (a :: s) = false →
  ∃ w ws, split_str sep s = w :: ws ∧ split_str sep (a :: s) = (a :: w) :: ws.
Proof.
  intros H. unfold split_str. cbn [split_from]. rewrite H.
  destruct (split_from sep 0 s) as [|w ws] eqn:E; [by apply split_from_nonempty in E|]. eauto.
Qed.

Lemma replace_sep v s : replace_all sep v (sep ++ s) = v ++ replace_all sep v s.
Proof.
  unfold replace_all. rewrite split_at_sep. apply join_nil_head. apply split_from_nonempty.
Qed.

Lemma replace_char_kept v a s :
  starts_with sep (a :: s) = false → replace_all sep v (a :: s) = a :: replace_all sep v s.
Proof.
  intros H. unfold replace_all. destruct (split_at_char a s H) as (w & ws & -> & ->). apply join_cons_char.
Qed.

Lemma replace_nil v : replace_all sep v [] = [].
Proof. done. Qed.

(** Characters other than the first one of the separator are kept. *)
Lemma replace_kept v a s : c ∉ a → replace_all sep v (a ++ s) = a ++ replace_all sep v s.
Proof.
  induction a as [|x a IH]; intros Hc; [done|]. rewrite not_elem_of_cons in Hc. destruct Hc as [Hx Hc].
  cbn [app]. rewrite replace_char_kept.
  - by rewrite IH.
  - cbn [starts_with]. by rewrite (proj2 (Z.eqb_neq c x)).
Qed.

(** The parts of a split make up the text. *)
Lemma join_split s : join sep (split_str sep s) = s.
Proof.
  induction s as [s IH] using str_length_ind. destruct s as [|a s]; [done|].
  destruct (starts_with sep (a :: s)) eqn:E.
  - apply starts_with_spec in E as [r Hr]. rewrite Hr, split_at_sep, join_nil_head by apply split_from_nonempty.
    f_equal. apply IH. rewrite Hr, length_app. cbn [length]. lia.
  - destruct (split_at_char a s E) as (w & ws & Hs & ->). rewrite join_cons_char, <-Hs.
    f_equal. apply IH. cbn [length]. lia.
Qed.

Lemma replace_absent v s : includes sep s = false → replace_all sep v s = s.
Proof.
  rewrite includes_false. induction s as [|a s IH]; [done|]. cbn [index_of]. destruct (starts_with sep (a :: s)) eqn:E; [done|].
  intros H. rewrite replace_char_kept by done. f_equal. apply IH. by destruct (index_of sep s).
Qed.
End separator.
