(* ===== verification/ChatLinks.v ===== *)
(** * Chat links

    [features/chat/lib/chat-links.ts] (presets of the chat menu and the links
    made from their templates), [features/chat/hooks/use-chat-presets.ts] (where
    the presets and the server address come from),
    [features/chat/hooks/use-active-chat-key.ts] (the key put into a link) and
    the choice of the preset by the page [routes/_authenticated/chat/$chatId.tsx]. *)

From stdpp Require Import base list strings sets.
From Stdlib Require Import ZArith Lia SpecFloat.
From S2P Require Import Prelude JsString JsNumber JsValue JsJson JsRegex JsBase64 JsUri.
#[local] Open Scope Z_scope.

Module ChatLinks.

(** ** Presets *)

Inductive ChatLinkType := Web | CustomProtocol | Fluent.

#[export] Instance ChatLinkType_eq_dec : EqDecision ChatLinkType.
Proof. solve_decision. Defined.

Record ChatPreset := MkPreset { id : jsstr; name : jsstr; url : jsstr; type : ChatLinkType }.

(** A letter in either case. *)
Definition ci (c : Z) : regex := Chr (λ x, (x =? c) || (x =? c - 32)).

(** [/^https?:\/\//i] *)
Definition HTTP_REGEX : regex :=
  Bol · ci 104 · ci 116 · ci 116 · ci 112 · Opt (ci 115) · lit "://".

Definition detectChatLinkType (url : jsstr) : ChatLinkType :=
  if test_re HTTP_REGEX url then Web
  else if starts_with (js "fluent") (to_lower url) then Fluent
  else CustomProtocol.

Definition chatLinkRequiresApiKey (url : jsstr) : bool :=
  includes (js "{key}") url || includes (js "{cherryConfig}") url ||
  includes (js "{aionuiConfig}") url || includes (js "{deepchatConfig}") url.

(** An entry is an object with one member, a text that is not blank. *)
Definition parse_entry (index : nat) (entry : jsval) : option ChatPreset :=
  match entry with
  | JObj [(name, JStr value)] =>
      let url := trim value in
      if is_empty url then None
      else Some (MkPreset (Z_to_str (Z.of_nat index)) name url (detectChatLinkType url))
  | _ => None
  end.

Definition parse_entries (l : list jsval) : list ChatPreset := omap (λ x, x) (imap parse_entry l).

Definition parseChatConfig (raw : jsval) : list ChatPreset :=
  let parsed := match raw with JStr s => JSON_parse s | _ => Ok raw end in
  match parsed with
  | Ok (JArr l) => parse_entries l
  | _ => []
  end.

(** ** Resolving a template *)

(** [window.btoa], else [Buffer] ([Buffer.from(s, 'utf-8').toString('base64')]),
    else nothing. *)
Record Env := MkEnv { has_btoa : bool; buffer_base64 : option (jsstr → jsstr) }.

Definition browser : Env := MkEnv true None.

Definition toBase64 (env : Env) (value : jsstr) : res jsstr :=
  if has_btoa env then btoa value
  else match buffer_base64 env with Some f => Ok (f value) | None => Ok [] end.

Definition replaceToken (source token value : jsstr) : jsstr := replace_all token value source.

Definition normalizeApiKey (apiKey : jsstr) : jsstr :=
  let trimmed := trim apiKey in
  if is_empty trimmed then []
  else if starts_with (js "sk-") trimmed then trimmed else js "sk-" ++ trimmed.

(** The configuration record put into a link; its first member depends on the
    client. *)
Definition config_payload (member : string) (address key : jsstr) : jsval :=
  JObj [(js member, JStr (js "new-api")); (js "baseUrl", JStr address); (js "apiKey", JStr key)].

Definition encoded_config (env : Env) (payload : jsval) : res jsstr :=
  let* text := toBase64 env (default (js "undefined") (JSON_stringify payload)) in
  encodeURIComponent text.

Record ResolveChatUrlParams := MkParams {
  template : jsstr;
  apiKey : option jsstr;
  serverAddress : jsstr;
}.

Definition resolveChatUrl (env : Env) (p : ResolveChatUrlParams) : res jsstr :=
  let url := template p in
  let safeServerAddress := serverAddress p in
  let safeApiKey := normalizeApiKey (default [] (apiKey p)) in
  if includes (js "{cherryConfig}") url then
    let* encoded := encoded_config env (config_payload "id" safeServerAddress safeApiKey) in
    Ok (replaceToken url (js "{cherryConfig}") encoded)
  else if includes (js "{aionuiConfig}") url then
    let* encoded := encoded_config env (config_payload "platform" safeServerAddress safeApiKey) in
    Ok (replaceToken url (js "{aionuiConfig}") encoded)
  else if includes (js "{deepchatConfig}") url then
    let* encoded := encoded_config env (config_payload "id" safeServerAddress safeApiKey) in
    Ok (replaceToken url (js "{deepchatConfig}") encoded)
  else
    let* url := if is_empty safeServerAddress then Ok url
                else let* encodedAddress := encodeURIComponent safeServerAddress in
                     Ok (replaceToken url (js "{address}") encodedAddress) in
    Ok (if is_empty safeApiKey then url else replaceToken url (js "{key}") safeApiKey).

(** ** The key *)

Definition ENABLED : num := num_of_Z 1.

Record ActiveApiKey := MkKey { key_id : num; key : jsstr; status : num }.

Definition enabled_key (item : ActiveApiKey) : bool := num_eqb (status item) ENABLED.

(** [l.find((item) => item.status === API_KEY_STATUS.ENABLED)] *)
Definition find_enabled (l : list ActiveApiKey) : option ActiveApiKey :=
  head (base.filter (λ k, enabled_key k = true) l).

(** [None]: the argument is no array. *)
Definition getFirstActiveKey (keys : option (list ActiveApiKey)) : option ActiveApiKey :=
  match keys with
  | None => None
  | Some l => find_enabled l
  end.

(** The replies of the two requests: the page of keys, and the secret of one. *)
Record KeysReply := MkKeys { keys_ok : bool; items : option (list ActiveApiKey) }.
Record SecretReply := MkSecret { secret_ok : bool; secret : option jsstr }.

Definition fetchActiveChatKey (getApiKeys : res KeysReply) (fetchTokenKey : num → res SecretReply)
    : res jsstr :=
  let* result := getApiKeys in
  if negb (keys_ok result) then Throw
  else match find_enabled (default [] (items result)) with
       | None => Throw
       | Some active =>
           let* reply := fetchTokenKey (key_id active) in
           match secret reply with
           | Some (c :: k) => if secret_ok reply then Ok (js "sk-" ++ c :: k) else Throw
           | _ => Throw
           end
       end.

(** ** Where presets and address come from *)

(** A browser window: the stored status ([None]: no item; a throw: no access),
    and the origin. *)
Record Window := MkWindow { stored_status : res (option jsstr); origin : jsstr }.

Definition getStoredStatusChats (window : option Window) : jsval :=
  match window with
  | None => JUndef
  | Some w =>
      catch (let* raw := stored_status w in
             match raw with
             | None | Some [] => Ok JUndef
             | Some raw =>
                 let* parsed := JSON_parse raw in
                 Ok (js_coalesce (get_prop_opt (js "chats") parsed) (get_prop_opt (js "Chats") parsed))
             end) JUndef
  end.

Definition data_of (status : jsval) : jsval := get_prop_opt (js "data") status.

Definition extractServerAddress (window : option Window) (status : jsval) : jsstr :=
  let fromStatus :=
    js_coalesce (get_prop_opt (js "server_address") status)
      (js_coalesce (get_prop_opt (js "serverAddress") status)
         (js_coalesce (get_prop_opt (js "server_address") (data_of status))
            (get_prop_opt (js "serverAddress") (data_of status)))) in
  match fromStatus with
  | JStr (c :: s) => c :: s
  | _ => match window with Some w => origin w | None => [] end
  end.

Definition extractChats (window : option Window) (status : jsval) : jsval :=
  let raw :=
    js_coalesce (get_prop_opt (js "Chats") status)
      (js_coalesce (get_prop_opt (js "chats") status)
         (js_coalesce (get_prop_opt (js "Chats") (data_of status))
            (get_prop_opt (js "chats") (data_of status)))) in
  js_coalesce raw (getStoredStatusChats window).

Definition useChatPresets (window : option Window) (status : jsval) : list ChatPreset * jsstr :=
  (parseChatConfig (extractChats window status), extractServerAddress window status).

(** ** The chat page *)

(** The loader turns away an identifier that is no integer. *)
Definition chat_loader (chatId : jsstr) : res unit :=
  if is_integer (str_to_num chatId) then Ok tt else Throw.

(** [chatPresets[index]] *)
Definition page_preset (chatId : jsstr) (chatPresets : list ChatPreset) : option ChatPreset :=
  let index := str_to_num chatId in
  if is_integer index then
    if trunc_Z index <? 0 then None else chatPresets !! Z.to_nat (trunc_Z index)
  else None.

Definition isWebLink (preset : option ChatPreset) : bool :=
  match preset with Some p => bool_decide (type p = Web) | None => false end.

Definition requiresActiveKey (preset : option ChatPreset) : bool :=
  match preset with Some p => isWebLink preset && chatLinkRequiresApiKey (url p) | None => false end.

Definition nonempty (s : option jsstr) : bool := match s with Some (_ :: _) => true | _ => false end.

Definition iframeSrc (env : Env) (preset : option ChatPreset) (activeKey : option jsstr)
    (serverAddress : jsstr) : res jsstr :=
  match preset with
  | Some p =>
      if negb (isWebLink preset) then Ok []
      else if requiresActiveKey preset && negb (nonempty activeKey) then Ok []
      else resolveChatUrl env (MkParams (url p) (if requiresActiveKey preset then activeKey else None)
                                 serverAddress)
  | None => Ok []
  end.

(** ** The preset a link opens *)

Lemma omap_at {A} (opts : list (option A)) i p :
  opts !! i = Some (Some p) →
  omap (λ x, x) opts !! length (omap (λ x, x) (take i opts)) = Some p.
Proof.
  revert i. induction opts as [|o opts IH]; intros [|i] H; cbn in *; simplify_eq; [done|].
  destruct o; cbn; by apply IH.
Qed.

Lemma omap_at_inv {A} (opts : list (option A)) a p :
  omap (λ x, x) opts !! a = Some p →
  ∃ j, opts !! j = Some (Some p) ∧ a = length (omap (λ x, x) (take j opts)).
Proof.
  revert a. induction opts as [|[x|] opts IH]; intros a H; cbn in H; [done| |].
  - destruct a as [|a]; cbn in H; simplify_eq; [by exists 0%nat|].
    apply IH in H as (j & Hj & ->). by exists (S j).
  - apply IH in H as (j & Hj & ->). by exists (S j).
Qed.

Lemma omap_length_all {A} (opts : list (option A)) :
  (length (omap (λ x, x) opts) ≤ length opts)%nat ∧
  (length (omap (λ x, x) opts) = length opts ↔ Forall is_Some opts).
Proof.
  induction opts as [|[x|] opts [Hle IH]]; cbn; [done|..].
  - rewrite Forall_cons. split; [lia|]. split; [intros H; split; [eauto|apply IH; lia]|].
    intros [_ H]. apply IH in H. lia.
  - rewrite Forall_cons. split; [lia|]. split; [lia|]. by intros [[]%is_Some_None _].
Qed.

Lemma parse_entry_id i e p : parse_entry i e = Some p → id p = Z_to_str (Z.of_nat i).
Proof. unfold parse_entry. intros. by repeat (case_match; simplify_eq/=). Qed.

Lemma entry_at l i e : l !! i = Some e → imap parse_entry l !! i = Some (parse_entry i e).
Proof. intros H. by rewrite list_lookup_imap, H. Qed.

Lemma index_text_inj i j : Z_to_str (Z.of_nat i) = Z_to_str (Z.of_nat j) → i = j.
Proof. intros H%(f_equal dec_value). rewrite !Z_to_str_value in H by lia. lia. Qed.

(** The page of a link shows the preset at the position the link names. *)
Lemma page_at i (presets : list ChatPreset) :
  (Z.of_nat i < 2 ^ 53) → page_preset (Z_to_str (Z.of_nat i)) presets = presets !! i.
Proof.
  intros Hi. unfold page_preset. destruct (str_to_num_index (Z.of_nat i)) as [-> ->]; [lia|].
  rewrite (proj2 (Z.ltb_ge _ 0)) by lia. by rewrite Nat2Z.id.
Qed.

(** C25. The link of a preset in the chat menu opens that preset exactly when
    every entry before it in the administrator's list is well formed: the link
    carries the position in that list, and the page looks it up among the
    entries that were kept. *)
Theorem chat_link_opens (l : list jsval) (i : nat) (e : jsval) (p : ChatPreset)
    (He : l !! i = Some e) (Hp : parse_entry i e = Some p) (Hi : Z.of_nat i < 2 ^ 53) :
  p ∈ parseChatConfig (JArr l) ∧
  (page_preset (id p) (parseChatConfig (JArr l)) = Some p ↔
   ∀ j e', (j < i)%nat → l !! j = Some e' → is_Some (parse_entry j e')).
Proof.
  cbn [parseChatConfig]. unfold parse_entries. set (opts := imap parse_entry l).
  assert (opts !! i = Some (Some p)) as Ho by (unfold opts; by rewrite (entry_at l i e), Hp).
  apply omap_at in Ho as Hpos. split; [by eapply list_elem_of_lookup_2|].
  rewrite (parse_entry_id i e p Hp), page_at by done.
  destruct (omap_length_all (take i opts)) as [_ Hall].
  rewrite length_take_le in Hall by (apply lookup_lt_Some in Ho; lia).
  transitivity (length (omap (λ x, x) (take i opts)) = i).
  - split; [|intros Heq; by rewrite Heq in Hpos].
    intros (j & Hj & Hlen)%omap_at_inv. assert (j = i) as ->; [|done].
    clear Hlen. unfold opts in Hj. rewrite list_lookup_imap in Hj.
    destruct (l !! j) as [e'|]; simplify_eq/=. apply index_text_inj.
    by rewrite <-(parse_entry_id j e' p), <-(parse_entry_id i e p).
  - rewrite Hall, Forall_lookup. split.
    + intros H j e' Hj Hl. apply (H j). rewrite lookup_take_lt by done. by apply entry_at.
    + intros H j o Hj. apply lookup_take_Some in Hj as [Hj Hlt]. unfold opts in Hj.
      rewrite list_lookup_imap in Hj. destruct (l !! j) as [e'|] eqn:E; simplify_eq/=. by apply (H j e').
Qed.

(** The first entry has a blank address; the link of the second opens the third. *)
Definition sample_chats : list jsval :=
  [JObj [(js "a", JStr (js " "))]; JObj [(js "b", JStr (js "https://b"))]; JObj [(js "c", JStr (js "https://c"))]].

Definition sample_preset : ChatPreset := MkPreset (js "1") (js "b") (js "https://b") Web.

Lemma chat_link_opens_witness :
  sample_chats !! 1%nat = Some (JObj [(js "b", JStr (js "https://b"))]) ∧
  (page_preset (id sample_preset) (parseChatConfig (JArr sample_chats)) = Some sample_preset ↔
   ∀ j e', (j < 1)%nat → sample_chats !! j = Some e' → is_Some (parse_entry j e')) ∧
  page_preset (id sample_preset) (parseChatConfig (JArr sample_chats)) =
    Some (MkPreset (js "2") (js "c") (js "https://c") Web).
Proof.
  split; [reflexivity|]. split; [|vm_compute; reflexivity].
  apply (chat_link_opens sample_chats 1 (JObj [(js "b", JStr (js "https://b"))]) sample_preset);
    [reflexivity|vm_compute; reflexivity|reflexivity].
Defined.

(** ** Templates

    A template whose braces only mark placeholders: pieces of text, and holes. *)

Inductive piece := Text (s : jsstr) | Hole (n : jsstr).

#[export] Instance piece_eq_dec : EqDecision piece.
Proof. solve_decision. Defined.

Definition token (n : jsstr) : jsstr := 123 :: n ++ [125].
Definition piece_text (p : piece) : jsstr := match p with Text s => s | Hole n => token n end.
Definition template_text (ps : list piece) : jsstr := concat (map piece_text ps).

Definition brace_free (s : jsstr) : Prop := 123 ∉ s ∧ 125 ∉ s.
Definition piece_ok (p : piece) : Prop := match p with Text s => 123 ∉ s | Hole n => brace_free n end.

(** The template with [v] in the holes [n]. *)
Definition put_in (n v : jsstr) (p : piece) : jsstr := if decide (p = Hole n) then v else piece_text p.

Lemma hole_prefix n m s :
  125 ∉ n → 125 ∉ m → starts_with (n ++ [125]) (m ++ 125 :: s) = true → n = m.
Proof.
  revert m. induction n as [|a n IH]; intros [|b m] Hn Hm H; cbn [app starts_with] in H; [done|..];
    apply andb_true_iff in H as [H1%Z.eqb_eq H2]; subst.
  - by apply not_elem_of_cons in Hm as [? _].
  - by apply not_elem_of_cons in Hn as [? _].
  - apply not_elem_of_cons in Hm as [_ ?], Hn as [_ ?]. f_equal. by apply IH.
Qed.

(** At a hole the token of [n] is found exactly when the hole is [n]. *)
Lemma token_at_hole n m s :
  brace_free n → brace_free m → starts_with (token n) (token m ++ s) = bool_decide (m = n).
Proof.
  intros [_ Hn] [_ Hm]. case_bool_decide as E; [subst; by rewrite starts_with_app|].
  apply not_true_iff_false. intros H. apply E. symmetry. unfold token in H. cbn [app starts_with Z.eqb Pos.eqb andb] in H.
  rewrite <-app_assoc in H. by eapply hole_prefix.
Qed.

Lemma token_tail m s : token m ++ s = 123 :: (m ++ [125]) ++ s.
Proof. done. Qed.

Lemma brace_free_tail m : brace_free m → 123 ∉ m ++ [125].
Proof. intros [? ?]. rewrite elem_of_app, list_elem_of_singleton. naive_solver. Qed.

Lemma replace_pieces n v ps :
  brace_free n → Forall piece_ok ps →
  replaceToken (template_text ps) (token n) v = concat (map (put_in n v) ps).
Proof.
  intros Hn. unfold replaceToken, template_text. induction 1 as [|p ps Hp _ IH]; [done|].
  cbn [map concat]. unfold put_in at 1. destruct p as [s|m]; cbn [piece_text piece_ok] in *.
  - rewrite decide_False by done. unfold token. rewrite replace_kept by done. fold (token n). by rewrite IH.
  - destruct (decide (m = n)) as [->|Hne].
    + rewrite decide_True by done. unfold token at 1 2. rewrite replace_sep. fold (token n). by rewrite IH.
    + rewrite decide_False by (by intros [=]). rewrite token_tail. unfold token at 1. rewrite replace_char_kept.
      * rewrite (replace_kept 123 (n ++ [125])) by by apply brace_free_tail.
        fold (token n). by rewrite IH.
      * fold (token n). rewrite <-token_tail, token_at_hole by done. by rewrite bool_decide_false.
Qed.

Lemma includes_cons p a s : p ≠ [] → includes p (a :: s) = starts_with p (a :: s) || includes p s.
Proof.
  intros Hp. unfold includes. cbn [index_of]. destruct (starts_with p (a :: s)); [done|]. by destruct (index_of p s).
Qed.

Lemma includes_kept n a s : 123 ∉ a → includes (token n) (a ++ s) = includes (token n) s.
Proof.
  induction a as [|x a IH]; intros Ha; [done|]. apply not_elem_of_cons in Ha as [Hx Ha].
  cbn [app]. rewrite includes_cons, IH by done. unfold token. cbn [starts_with].
  by rewrite (proj2 (Z.eqb_neq 123 x)).
Qed.

Lemma includes_pieces n ps :
  brace_free n → Forall piece_ok ps →
  includes (token n) (template_text ps) = bool_decide (Hole n ∈ ps).
Proof.
  intros Hn. unfold template_text. induction 1 as [|p ps Hp _ IH].
  { symmetry. apply bool_decide_false. apply not_elem_of_nil. }
  cbn [map concat]. destruct p as [s|m]; cbn [piece_text piece_ok] in *.
  - rewrite includes_kept, IH by done. apply bool_decide_ext. set_solver.
  - rewrite token_tail, includes_cons, <-token_tail, token_at_hole by done.
    rewrite includes_kept, IH by by apply brace_free_tail.
    rewrite <-bool_decide_or. apply bool_decide_ext. set_solver.
Qed.

(** ** What resolving a template gives *)

Lemma brace_free_name (n : string) :
  bool_decide (brace_free (js n)) = true → brace_free (js n).
Proof. by rewrite bool_decide_eq_true. Qed.

Inductive Client := Cherry | Aionui | Deepchat.

Definition client_hole (c : Client) : jsstr :=
  match c with
  | Cherry => js "cherryConfig"
  | Aionui => js "aionuiConfig"
  | Deepchat => js "deepchatConfig"
  end.

Definition client_member (c : Client) : string := match c with Aionui => "platform" | _ => "id" end.

(** The client a template is for. *)
Definition client_of (ps : list piece) : option Client :=
  find (λ c, bool_decide (Hole (client_hole c) ∈ ps)) [Cherry; Aionui; Deepchat].

Lemma client_hole_free c : brace_free (client_hole c).
Proof. destruct c; by apply brace_free_name. Qed.

Lemma client_token c :
  token (client_hole c) =
  match c with Cherry => js "{cherryConfig}" | Aionui => js "{aionuiConfig}" | Deepchat => js "{deepchatConfig}" end.
Proof. by destruct c. Qed.

(** The branches of [resolveChatUrl] are the clients of the template. *)
Lemma resolve_pieces env ps key addr :
  Forall piece_ok ps →
  resolveChatUrl env (MkParams (template_text ps) key addr) =
  match client_of ps with
  | Some c =>
      let* encoded := encoded_config env (config_payload (client_member c) addr (normalizeApiKey (default [] key))) in
      Ok (concat (map (put_in (client_hole c) encoded) ps))
  | None =>
      let* url := if is_empty addr then Ok (template_text ps)
                  else let* enc := encodeURIComponent addr in
                       Ok (replaceToken (template_text ps) (token (js "address")) enc) in
      Ok (if is_empty (normalizeApiKey (default [] key)) then url
          else replaceToken url (token (js "key")) (normalizeApiKey (default [] key)))
  end.
Proof.
  intros Hps. unfold resolveChatUrl. cbn [template apiKey serverAddress].
  rewrite <-(client_token Cherry), <-(client_token Aionui), <-(client_token Deepchat).
  rewrite !includes_pieces by (exact Hps || apply client_hole_free).
  unfold client_of. cbn [find].
  repeat case_bool_decide; [..|done].
  all: cbn [client_member]; destruct (encoded_config _ _); cbn [res_bind]; [|done].
  all: rewrite replace_pieces; [reflexivity|apply client_hole_free|exact Hps].
Qed.

(** *** Configurations *)

Lemma unicode_escape_bytes c : byte c → Forall byte (unicode_escape c).
Proof.
  unfold byte. intros Hc. unfold unicode_escape, hex_char.
  repeat constructor; repeat case_match; bool_prop; Z.to_euclidean_division_equations; lia.
Qed.

Lemma quote_char_bytes c : byte c → Forall byte (quote_char c).
Proof.
  intros Hc. unfold quote_char. repeat case_match;
    try (repeat (apply Forall_cons; split; [unfold byte in *; lia|]); apply Forall_nil; done).
  by apply unicode_escape_bytes.
Qed.

Lemma quote_bytes s : Forall byte s → Forall byte (quote s).
Proof.
  intros Hs. unfold quote. constructor; [unfold byte; lia|]. apply Forall_app. split; [|repeat constructor; unfold byte; lia].
  induction Hs as [|c s Hc Hs IH]; [done|]. cbn [quote_body]. unfold is_lead, is_trail. unfold byte in Hc.
  rewrite (proj2 (Z.leb_gt 55296 c)), (proj2 (Z.leb_gt 56320 c)) by lia. cbn [andb].
  apply Forall_app. split; [by apply quote_char_bytes|done].
Qed.

Definition bytesb (s : jsstr) : bool := forallb (λ c, (0 <=? c) && (c <? 256)) s.

Lemma bytesb_spec s : bytesb s = true → Forall byte s.
Proof.
  intros H. apply Forall_forall. intros c Hc%list_elem_of_In. unfold bytesb in H.
  rewrite forallb_forall in H. apply H in Hc. unfold byte. lia.
Qed.

Lemma bytes_code_units s : Forall byte s → code_units s = true.
Proof.
  intros H. unfold code_units. apply forallb_forall. intros c Hc%list_elem_of_In.
  rewrite Forall_forall in H. apply H in Hc. unfold byte in Hc. lia.
Qed.

Lemma normalize_bytes k : Forall byte k → Forall byte (normalizeApiKey k).
Proof.
  intros Hk. assert (Forall byte (trim k)) as Ht.
  { rewrite Forall_forall in Hk |- *. intros c Hc%elem_of_trim. auto. }
  unfold normalizeApiKey. repeat case_match; [done|done|]. apply Forall_app. split; [|done].
  repeat constructor; unfold byte; lia.
Qed.

Lemma member_bytes k v : Forall byte k → Forall byte v → Forall byte (quote k ++ 58 :: quote v).
Proof.
  intros Hk Hv. apply Forall_app. split; [by apply quote_bytes|].
  constructor; [unfold byte; lia|by apply quote_bytes].
Qed.

Lemma stringify_three a x b y c z :
  JSON_stringify (JObj [(a, JStr x); (b, JStr y); (c, JStr z)]) =
  Some ([123] ++ ((quote a ++ 58 :: quote x) ++ [44] ++ (quote b ++ 58 :: quote y) ++ [44] ++
        (quote c ++ 58 :: quote z)) ++ [125]).
Proof. reflexivity. Qed.

Lemma payload_text member a k :
  Forall byte (js member) → json_ok (config_payload member a k) = true → Forall byte a → Forall byte k →
  ∃ t, JSON_stringify (config_payload member a k) = Some t ∧ Forall byte t ∧
       JSON_parse t = Ok (config_payload member a k).
Proof.
  intros Hm Hok Ha Hk. destruct (json_roundtrip _ Hok) as (t & Ht & Hp).
  exists t. split_and!; [done| |done]. unfold config_payload in Ht. rewrite stringify_three in Ht. apply (inj Some) in Ht. rewrite <-Ht.
  apply (Forall_app_2 _ [123]); [by apply bytesb_spec|]. apply Forall_app_2; [|by apply bytesb_spec].
  apply Forall_app_2; [apply member_bytes; [done|by apply bytesb_spec]|].
  apply (Forall_app_2 _ [44]); [by apply bytesb_spec|].
  apply Forall_app_2; [apply member_bytes; [by apply bytesb_spec|done]|].
  apply (Forall_app_2 _ [44]); [by apply bytesb_spec|]. apply member_bytes; [by apply bytesb_spec|done].
Qed.

Lemma client_payload_ok c a k :
  Forall byte a → Forall byte k →
  Forall byte (js (client_member c)) ∧ json_ok (config_payload (client_member c) a k) = true.
Proof.
  intros Ha%bytes_code_units Hk%bytes_code_units. unfold config_payload.
  split; [destruct c; by apply bytesb_spec|]. cbn [json_ok map forallb snd].
  rewrite Ha, Hk. destruct c; vm_compute; reflexivity.
Qed.

Lemma b64_text_chars l :
  Forall byte l →
  ∃ t, btoa l = Ok t ∧ atob t = Ok l ∧ Forall (λ c, 0 <= c < 128) t.
Proof.
  intros Hl. exists (map b64_char (b64_sextets l) ++ b64_padding (length (b64_sextets l))).
  split_and!; [by apply btoa_bytes|by apply atob_digits|].
  apply Forall_app. split.
  - eapply Forall_impl; [by apply b64_digits|]. intros c (i & Hi & ->). unfold b64_char. repeat case_match; lia.
  - apply Forall_forall. unfold b64_padding. intros c ->%list_elem_of_In%repeat_spec. lia.
Qed.

(** C21. A link for a chat client carries the server address and the key: every
    placeholder of the client is filled with one URL-safe text, which decodes
    to the configuration record with the address and the key as they were given
    (the key with its prefix), and the rest of the template is kept.  The
    address and the key are texts of characters below 256. *)
Theorem client_config_roundtrip (ps : list piece) (c : Client) (key addr : jsstr)
    (Hps : Forall piece_ok ps) (Hc : client_of ps = Some c)
    (Haddr : Forall byte addr) (Hkey : Forall byte key) :
  ∃ enc b64 text,
    resolveChatUrl browser (MkParams (template_text ps) (Some key) addr) =
      Ok (concat (map (put_in (client_hole c) enc) ps)) ∧
    Forall (λ x, uri_char x = true) enc ∧
    decodeURIComponent enc = Ok b64 ∧ atob b64 = Ok text ∧
    JSON_parse text = Ok (config_payload (client_member c) addr (normalizeApiKey key)).
Proof.
  rewrite resolve_pieces, Hc by done. cbn [default from_option]. unfold Datatypes.id.
  pose proof (normalize_bytes key Hkey) as Hk.
  destruct (client_payload_ok c addr (normalizeApiKey key) Haddr Hk) as [Hm Hok].
  destruct (payload_text _ _ _ Hm Hok Haddr Hk) as (text & Ht & Hb & Hp).
  destruct (b64_text_chars text Hb) as (b64 & Hbt & Hat & Hr).
  destruct (encode_total b64) as [enc Henc].
  { eapply Forall_impl; [exact Hr|]. intros x Hx. cbv beta in Hx. unfold is_lead, is_trail. lia. }
  assert (code_units b64 = true) as Hcu.
  { apply bytes_code_units. eapply Forall_impl; [exact Hr|]. intros x Hx. cbv beta in Hx. unfold byte. lia. }
  exists enc, b64, text. unfold encoded_config. rewrite Ht. cbn [default from_option toBase64 browser has_btoa].
  unfold Datatypes.id. rewrite Hbt. cbn [res_bind]. rewrite Henc. cbn [res_bind].
  split_and!; [done|by eapply encoded_chars|by apply decode_encode|done|done].
Qed.

Definition sample_template : list piece :=
  [Text (js "cherrystudio://providers/api-keys?v=1&data="); Hole (js "cherryConfig")].

Lemma client_config_roundtrip_witness :
  Forall piece_ok sample_template ∧
  ∃ enc b64 text,
    resolveChatUrl browser (MkParams (template_text sample_template) (Some (js "abc")) (js "https://x.y")) =
      Ok (concat (map (put_in (client_hole Cherry) enc) sample_template)) ∧
    Forall (λ x, uri_char x = true) enc ∧
    decodeURIComponent enc = Ok b64 ∧ atob b64 = Ok text ∧
    JSON_parse text = Ok (config_payload "id" (js "https://x.y") (normalizeApiKey (js "abc"))).
Proof.
  assert (Forall piece_ok sample_template) as Hps.
  { repeat (apply Forall_cons; split); [| |by apply Forall_nil];
      apply (bool_decide_unpack _); vm_compute; exact I. }
  split; [exact Hps|].
  apply (client_config_roundtrip sample_template Cherry (js "abc") (js "https://x.y"));
    [exact Hps|vm_compute; reflexivity|by apply bytesb_spec|by apply bytesb_spec].
Defined.

(** An address with a character above 255 (here an internationalised host)
    cannot be put into a configuration: [btoa] throws, and nothing catches it. *)
Example config_link_throws :
  resolveChatUrl browser (MkParams (js "x://{cherryConfig}") (Some (js "k")) (js "https://例.cn")) = Throw.
Proof. vm_compute. reflexivity. Qed.

(** *** Address and key *)

Lemma uri_brace_free t : Forall (λ c, uri_char c = true) t → brace_free t.
Proof.
  intros H. rewrite Forall_forall in H. split; intros Hc; by apply H in Hc.
Qed.

(** What stands in a placeholder of a template without a client. *)
Definition filled (enc key : jsstr) (p : piece) : jsstr :=
  match p with
  | Text s => s
  | Hole n => if decide (n = js "address") then enc else if decide (n = js "key") then key else token n
  end.

Definition fill_address (enc : jsstr) (p : piece) : piece :=
  if decide (p = Hole (js "address")) then Text enc else p.

Lemma fill_address_text enc ps :
  concat (map (put_in (js "address") enc) ps) = template_text (map (fill_address enc) ps).
Proof.
  unfold template_text. f_equal. rewrite map_map. apply map_ext. intros p.
  unfold put_in, fill_address. by case_decide.
Qed.

Lemma fill_both enc key ps :
  concat (map (put_in (js "key") key) (map (fill_address enc) ps)) = concat (map (filled enc key) ps).
Proof.
  f_equal. rewrite map_map. apply map_ext. intros [s|n].
  - unfold fill_address, put_in, filled. by rewrite !decide_False by done.
  - unfold fill_address, filled. destruct (decide (n = js "address")) as [->|Hn].
    + rewrite decide_True by done. unfold put_in. by rewrite decide_False by done.
    + rewrite decide_False by (by intros [= ->]). unfold put_in. destruct (decide (n = js "key")) as [->|Hk].
      * by rewrite decide_True by done.
      * by rewrite decide_False by (by intros [= ->]).
Qed.

(** In a template for no particular client every placeholder of the
    address is filled with a URL-safe text that decodes to the address, every
    placeholder of the key with the key and its prefix, and all else is kept. *)
Theorem placeholders_filled (env : Env) (ps : list piece) (key addr enc : jsstr)
    (Hps : Forall piece_ok ps) (Hc : client_of ps = None) (Hu : code_units addr = true)
    (Ha : addr ≠ []) (He : encodeURIComponent addr = Ok enc) (Hk : normalizeApiKey key ≠ []) :
  resolveChatUrl env (MkParams (template_text ps) (Some key) addr) =
    Ok (concat (map (filled enc (normalizeApiKey key)) ps)) ∧
  Forall (λ c, uri_char c = true) enc ∧ decodeURIComponent enc = Ok addr.
Proof.
  destruct (encoded_chars addr enc Hu He) as [Hchars _].
  split_and!; [|done|by apply decode_encode].
  rewrite resolve_pieces, Hc by done. cbn [default from_option]. unfold Datatypes.id.
  rewrite He. destruct addr as [|a addr]; [done|]. cbn [is_empty res_bind].
  destruct (normalizeApiKey key) as [|k key'] eqn:Ek; [done|]. cbn [is_empty]. rewrite <-Ek.
  rewrite replace_pieces by (done || by apply brace_free_name).
  rewrite fill_address_text, replace_pieces; [by rewrite fill_both|by apply brace_free_name|].
  apply Forall_fmap. eapply Forall_impl; [exact Hps|]. intros p Hp. unfold compose, fill_address.
  case_decide; [|done]. by apply uri_brace_free.
Qed.

Definition sample_link : list piece :=
  [Text (js "https://chat/#/?settings=key:"); Hole (js "key"); Text (js ",url:"); Hole (js "address")].

Lemma placeholders_filled_witness :
  resolveChatUrl browser (MkParams (template_text sample_link) (Some (js "abc")) (js "http://x")) =
    Ok (concat (map (filled (js "http%3A%2F%2Fx") (normalizeApiKey (js "abc"))) sample_link)) ∧
  Forall (λ c, uri_char c = true) (js "http%3A%2F%2Fx") ∧
  decodeURIComponent (js "http%3A%2F%2Fx") = Ok (js "http://x").
Proof.
  apply (placeholders_filled browser sample_link (js "abc") (js "http://x") (js "http%3A%2F%2Fx"));
    [|vm_compute; reflexivity|vm_compute; reflexivity|done|vm_compute; reflexivity|vm_compute; discriminate].
  repeat (apply Forall_cons; split); [| | | |by apply Forall_nil]; apply (bool_decide_unpack _); vm_compute; exact I.
Defined.

(** ** Templates that ask for no key *)

Lemma includes_spec p s : p ≠ [] → includes p s = true ↔ ∃ a b, s = a ++ p ++ b.
Proof.
  intros Hp. induction s as [|x s IH].
  - split; [|intros (a & b & H); by destruct a, p]. unfold includes. cbn [index_of].
    destruct p; [done|]. by cbn.
  - rewrite includes_cons, orb_true_iff, IH, starts_with_spec by done. split.
    + intros [[r ->]|(a & b & ->)]; [by exists [], r|by exists (x :: a), b].
    + intros ([|y a] & b & H); [left; by exists b|right]. cbn [app] in H. simplify_eq. eauto.
Qed.

Lemma includes_join_part p sep w l : p ≠ [] → w ∈ l → includes p w = true → includes p (join sep l) = true.
Proof.
  intros Hp Hw. rewrite !includes_spec by done. intros (a & b & ->).
  induction l as [|u l IH]; [by apply not_elem_of_nil in Hw|].
  apply elem_of_cons in Hw as [<-|Hw].
  - destruct l as [|u' l]; [by exists a, b|]. exists a, (b ++ sep ++ join sep (u' :: l)).
    cbn [join]. by rewrite <-!app_assoc.
  - destruct l as [|u' l]; [by apply not_elem_of_nil in Hw|]. destruct (IH Hw) as (a' & b' & Hj).
    exists (u ++ sep ++ a'), b'. cbn [join]. cbn [join] in Hj. rewrite Hj. by rewrite <-!app_assoc.
Qed.

(** A token that starts in [b] and reaches into a text as long as the token
    ends there. *)
Lemma token_ends_in n b v r :
  b ≠ [] → (length n < length v)%nat → (length b < length (token n))%nat →
  starts_with (token n) (b ++ v ++ r) = true → 125 ∈ v.
Proof.
  intros Hb Hv Hl [z Hz]%starts_with_spec.
  assert (length (token n) = length n + 2)%nat as Ht by (unfold token; cbn; rewrite length_app; cbn; lia).
  assert ((b ++ v ++ r) !! (length n + 1)%nat = Some 125) as Hlast.
  { rewrite Hz, lookup_app_l by lia. unfold token. change (123 :: n ++ [125]) with ([123] ++ n ++ [125]).
    rewrite app_assoc, lookup_app_r by (cbn; lia). cbn [app length].
    replace (length n + 1 - S (length n))%nat with 0%nat by lia. done. }
  rewrite lookup_app_r in Hlast by lia. assert (0 < length b)%nat by (destruct b; cbn; [done|lia]).
  rewrite lookup_app_l in Hlast by lia. by apply list_elem_of_lookup_2 in Hlast.
Qed.

Lemma includes_across n v a r :
  brace_free v → (length n < length v)%nat →
  includes (token n) (a ++ v ++ r) = includes (token n) a || includes (token n) r.
Proof.
  intros Hv Hl. induction a as [|x a IH].
  { cbn [app]. by rewrite includes_kept by apply Hv. }
  cbn [app]. rewrite !includes_cons, IH, orb_assoc by done. do 2 f_equal.
  apply eq_bool_prop_intro. rewrite !Is_true_true. split.
  - intros H. destruct (decide (length (x :: a) < length (token n))%nat) as [Hlt|Hge].
    + exfalso. destruct Hv as [_ Hv]. apply Hv. by apply (token_ends_in n (x :: a) v r).
    + apply starts_with_spec in H as [z Hz]. apply starts_with_spec.
      change (x :: a ++ v ++ r) with ((x :: a) ++ v ++ r) in Hz.
      exists (drop (length (token n)) (x :: a)).
      apply (f_equal (take (length (token n)))) in Hz as Ht.
      rewrite take_app_le, take_app_length in Ht by lia. rewrite <-Ht at 1. by rewrite take_drop.
  - intros [z Hz]%starts_with_spec. apply starts_with_spec. exists (z ++ v ++ r).
    change (x :: a ++ v ++ r) with ((x :: a) ++ v ++ r). rewrite Hz. by rewrite <-app_assoc.
Qed.

Lemma includes_join n v l :
  brace_free v → (length n < length v)%nat →
  Forall (λ w, includes (token n) w = false) l → includes (token n) (join v l) = false.
Proof.
  intros Hv Hl. induction 1 as [|w l Hw Hall IH]; [done|]. destruct l as [|w' l]; [done|].
  change (join v (w :: w' :: l)) with (w ++ v ++ join v (w' :: l)).
  by rewrite includes_across, Hw, IH by done.
Qed.

(** Filling in the address makes no new placeholder of the key. *)
Lemma address_adds_no_key t enc :
  includes (token (js "key")) t = false → brace_free enc → (4 ≤ length enc)%nat →
  includes (token (js "key")) (replaceToken t (token (js "address")) enc) = false.
Proof.
  intros Ht He Hl. unfold replaceToken, replace_all. apply includes_join; [done|change (length (js "key")) with 3%nat; lia|].
  apply Forall_forall. intros w Hw. apply not_true_iff_false. intros Hi.
  apply (λ H, includes_join_part _ (token (js "address")) w _ H Hw) in Hi; [|done].
  rewrite (join_split 123 (js "address" ++ [125])) in Hi. congruence.
Qed.

(** A preset that the interface treats as needing no key gets none: its link
    is the same whatever key is passed to the template.  (A server address of
    one to three letters is excluded: [{k{address}}] with the address [ey]
    would become a placeholder of the key.) *)
Theorem key_not_disclosed (env : Env) (t addr : jsstr) (k k' : option jsstr)
    (Ht : chatLinkRequiresApiKey t = false) (Hu : code_units addr = true)
    (Ha : addr = [] ∨ (4 ≤ length addr)%nat) :
  resolveChatUrl env (MkParams t k addr) = resolveChatUrl env (MkParams t k' addr).
Proof.
  unfold chatLinkRequiresApiKey in Ht. rewrite !orb_false_iff in Ht. destruct Ht as [[[Hk Hc] Ha'] Hd].
  unfold resolveChatUrl. cbn [template apiKey serverAddress]. rewrite Hc, Ha', Hd.
  assert (∀ url v, includes (js "{key}") url = false →
    (if is_empty (normalizeApiKey v) then url else replaceToken url (js "{key}") (normalizeApiKey v)) = url) as Hno.
  { intros url v Hurl. case_match; [done|]. unfold replaceToken.
    change (js "{key}") with (token (js "key")) in *. by apply replace_absent. }
  destruct (is_empty addr) eqn:Eaddr; cbn [res_bind]; [by rewrite !Hno|].
  destruct Ha as [->|Ha]; [done|]. destruct (encodeURIComponent addr) as [enc|] eqn:He; [|done].
  destruct (encoded_chars addr enc Hu He) as [Hchars Hlen]. cbn [res_bind].
  rewrite !Hno; [done|..]; change (js "{key}") with (token (js "key")) in *;
    apply address_adds_no_key; [done|by apply uri_brace_free|lia|done|by apply uri_brace_free|lia].
Qed.

Lemma key_not_disclosed_witness :
  resolveChatUrl browser (MkParams (js "https://chat/?base={address}") (Some (js "secret")) (js "http://x")) =
  resolveChatUrl browser (MkParams (js "https://chat/?base={address}") None (js "http://x")).
Proof.
  apply (key_not_disclosed browser (js "https://chat/?base={address}") (js "http://x") (Some (js "secret")) None);
    [vm_compute; reflexivity|vm_compute; reflexivity|right; vm_compute; lia].
Defined.

End ChatLinks.
