(* ===== verification/JsOrder.v ===== *)
(** * The order of doubles

    Every finite double is an integer multiple of 2^-1074; [scaled] is that
    integer.  [leb_scaled]: comparing doubles is comparing these integers;
    [sub_sign]: the sign of a rounded difference is that of the exact one, so
    the comparator [(a, b) => a - b] of a numeric sort is a total preorder. *)

From stdpp Require Import base list strings gmap.
From Stdlib Require Import ZArith Lia SpecFloat.
From S2P Require Import Prelude JsString JsNumber.
#[local] Open Scope Z_scope.

(** The finite numbers a program can hold: normalised mantissa and exponent. *)
Definition finite_double (x : num) : bool := is_finite x && valid_binary 53 1024 x.

Definition magnitude (m : positive) (e : Z) : Z := Zpos m * 2 ^ (e + 1074).

Definition scaled (x : num) : Z :=
  match x with S754_finite s m e => cond_Zopp s (magnitude m e) | _ => 0 end.

(** ** Comparison *)

Lemma bounded_spec m e :
  bounded 53 1024 m e = true →
  -1074 <= e <= 971 ∧ Zpos m < 2 ^ 53 ∧ (-1074 < e → 2 ^ 52 <= Zpos m).
Proof.
  unfold bounded, canonical_mantissa, fexp, emin. intros [H1%Z.eqb_eq H2%Z.leb_le]%andb_true_iff.
  pose proof (digits2_bounds m) as [Hl Hu]. split_and!; [lia|lia|..].
  - eapply Z.lt_le_trans; [exact Hu|]. apply Z.pow_le_mono_r; lia.
  - intros He. assert (Zpos (digits2_pos m) = 53) as Hd by lia. rewrite Hd in Hl. exact Hl.
Qed.

Lemma magnitude_pos m e : -1074 <= e → 0 < magnitude m e.
Proof. intros He. unfold magnitude. pose proof (Z.pow_pos_nonneg 2 (e + 1074)). nia. Qed.

Lemma magnitude_lt m1 e1 m2 e2 :
  bounded 53 1024 m1 e1 = true → bounded 53 1024 m2 e2 = true → e1 < e2 →
  magnitude m1 e1 < magnitude m2 e2.
Proof.
  intros (H1 & Hm1 & _)%bounded_spec (H2 & _ & Hm2)%bounded_spec He. specialize (Hm2 ltac:(lia)).
  unfold magnitude. apply Z.lt_le_trans with (2 ^ 53 * 2 ^ (e1 + 1074)).
  - apply Z.mul_lt_mono_pos_r; [apply Z.pow_pos_nonneg; lia|done].
  - apply Z.le_trans with (2 ^ 52 * 2 ^ (e2 + 1074)).
    + rewrite <-!Z.pow_add_r by lia. apply Z.pow_le_mono_r; lia.
    + apply Z.mul_le_mono_nonneg_r; [apply Z.pow_nonneg; lia|done].
Qed.

Lemma magnitude_compare m1 e1 m2 e2 :
  bounded 53 1024 m1 e1 = true → bounded 53 1024 m2 e2 = true →
  match e1 ?= e2 with Eq => Pos.compare_cont Eq m1 m2 | c => c end = (magnitude m1 e1 ?= magnitude m2 e2).
Proof.
  intros H1 H2. symmetry. destruct (Z.compare_spec e1 e2) as [->|He|He].
  - unfold magnitude. apply bounded_spec in H2 as [? _].
    change (Pos.compare_cont Eq m1 m2) with (Zpos m1 ?= Zpos m2). symmetry.
    apply Zmult_compare_compat_r. pose proof (Z.pow_pos_nonneg 2 (e2 + 1074)). lia.
  - apply Z.compare_lt_iff. by apply magnitude_lt.
  - apply Z.compare_gt_iff. by apply magnitude_lt.
Qed.

Lemma finite_double_spec x :
  finite_double x = true →
  (∃ s, x = S754_zero s) ∨ (∃ s m e, x = S754_finite s m e ∧ bounded 53 1024 m e = true).
Proof. unfold finite_double. destruct x; cbn; try done; eauto 8. Qed.

Lemma leb_scaled x y :
  finite_double x = true → finite_double y = true → num_leb x y = (scaled x <=? scaled y).
Proof.
  intros [[s ->]|(s & m & e & -> & Hm)]%finite_double_spec [[s' ->]|(s' & m' & e' & -> & Hm')]%finite_double_spec;
    unfold num_leb, SFleb; cbn [SFcompare scaled cond_Zopp]; [done|..].
  1,2: (apply bounded_spec in Hm as [He _] || apply bounded_spec in Hm' as [He _]);
    (pose proof (magnitude_pos m e ltac:(lia)) as Hp || pose proof (magnitude_pos m' e' ltac:(lia)) as Hp);
    (destruct s || idtac); (destruct s' || idtac); cbn [cond_Zopp]; symmetry; apply Z.leb_le || apply Z.leb_gt; lia.
  pose proof (magnitude_compare m e m' e' Hm Hm') as Hc.
  assert (0 < magnitude m e) by (apply magnitude_pos; apply bounded_spec in Hm; lia).
  assert (0 < magnitude m' e') by (apply magnitude_pos; apply bounded_spec in Hm'; lia).
  destruct s, s'; cbn [cond_Zopp].
  - assert (match e ?= e' with Eq => CompOpp (Pos.compare_cont Eq m m') | Lt => Gt | Gt => Lt end
            = CompOpp (magnitude m e ?= magnitude m' e')) as -> by (rewrite <-Hc; by destruct (e ?= e')).
    destruct (Z.compare_spec (magnitude m e) (magnitude m' e')); cbn; symmetry;
      [apply Z.leb_le|apply Z.leb_gt|apply Z.leb_le]; lia.
  - symmetry. apply Z.leb_le. lia.
  - symmetry. apply Z.leb_gt. lia.
  - assert (match e ?= e' with Eq => Pos.compare_cont Eq m m' | Lt => Lt | Gt => Gt end
            = (magnitude m e ?= magnitude m' e')) as -> by (rewrite <-Hc; by destruct (e ?= e')).
    destruct (Z.compare_spec (magnitude m e) (magnitude m' e')); cbn; symmetry;
      [apply Z.leb_le|apply Z.leb_le|apply Z.leb_gt]; lia.
Qed.

(** ** The sign of a difference *)

Lemma iter_pos_iter {A} (f : A → A) p x : iter_pos f p x = Pos.iter f x p.
Proof.
  revert x. induction p as [p IH|p IH|]; intros x; cbn; [|by rewrite !IH|done].
  by rewrite !IH, !Pos.iter_swap.
Qed.

Lemma iter_pos_S {A} (f : A → A) p x : iter_pos f (Pos.succ p) x = iter_pos f p (f x).
Proof. by rewrite !iter_pos_iter, Pos.iter_succ, Pos.iter_swap. Qed.

(** Shifting a mantissa right divides it. *)
Lemma shr_iter p r : 0 <= shr_m r → shr_m (iter_pos shr_1 p r) = shr_m r / 2 ^ Zpos p.
Proof.
  revert r. induction p as [|p IH] using Pos.peano_ind; intros r Hr.
  - cbn [iter_pos]. destruct r as [[|[q|q|]|q] ? ?]; cbn in *; try lia;
      Z.to_euclidean_division_equations; lia.
  - rewrite iter_pos_S. assert (shr_m (shr_1 r) = shr_m r / 2 ∧ 0 <= shr_m (shr_1 r)) as [Hs Hn].
    { destruct r as [[|[q|q|]|q] ? ?]; cbn in *; split; try lia; Z.to_euclidean_division_equations; lia. }
    rewrite IH, Hs by done. rewrite Zdiv.Zdiv_Zdiv by lia. f_equal.
    rewrite Pos2Z.inj_succ, Z.pow_succ_r by lia. lia.
Qed.

(** Alignment keeps a positive mantissa positive: at most all but 53 of its
    digits are dropped. *)
Lemma shr_fexp_pos m e l :
  -1074 <= e → 0 < m →
  0 < shr_m (shr_fexp 53 1024 m e l).1 ∧ -1074 <= (shr_fexp 53 1024 m e l).2.
Proof.
  intros He Hm. unfold shr_fexp. set (n := fexp 53 1024 (Zdigits2 m + e) - e).
  assert (∀ l', shr_m (shr_record_of_loc m l') = m) as Hl by (intros [|[]]; done).
  destruct n as [|p|p] eqn:En; cbn [shr fst snd]; rewrite ?Hl; [done| |done].
  split; [|lia]. rewrite shr_iter, Hl by (rewrite Hl; lia).
  destruct m as [|q|q]; [lia| |lia]. cbn [Zdigits2] in *. unfold n, fexp, emin in En.
  pose proof (digits2_bounds q) as [Hq _]. apply Z.div_str_pos. split; [apply Z.pow_pos_nonneg; lia|].
  eapply Z.le_trans; [|exact Hq]. apply Z.pow_le_mono_r; lia.
Qed.

Lemma round_pos m l : 0 < m → 0 < round_nearest_even m l.
Proof. intros Hm. unfold round_nearest_even. repeat case_match; lia. Qed.

(** A rounded magnitude is not zero. *)
Lemma round_aux_sign s m e l :
  -1074 <= e → 0 < m →
  (∃ m' e', binary_round_aux 53 1024 s m e l = S754_finite s m' e') ∨
  binary_round_aux 53 1024 s m e l = S754_infinity s.
Proof.
  intros He Hm. unfold binary_round_aux. destruct (shr_fexp_pos m e l He Hm) as [Hm1 He1].
  destruct (shr_fexp 53 1024 m e l) as [r1 e1]. cbn [fst snd] in *.
  destruct (shr_fexp_pos (round_nearest_even (shr_m r1) (loc_of_shr_record r1)) e1 loc_Exact He1) as [Hm2 _];
    [by apply round_pos|].
  destruct (shr_fexp 53 1024 _ e1 loc_Exact) as [r2 e2]. cbn [fst snd] in *.
  destruct (shr_m r2) as [|q|q]; [lia| |lia]. case_match; eauto.
Qed.

Lemma binary_round_sign s p e :
  -1074 <= e →
  (∃ m' e', binary_round 53 1024 s p e = S754_finite s m' e') ∨
  binary_round 53 1024 s p e = S754_infinity s.
Proof.
  intros He. unfold binary_round, shl_align. set (ez := fexp 53 1024 (Zpos (digits2_pos p) + e)).
  assert (-1074 <= ez) by (unfold ez, fexp, emin; lia).
  destruct (ez - e); apply round_aux_sign; lia.
Qed.

Lemma normalize_sign d e :
  -1074 <= e → num_leb (binary_normalize 53 1024 d e false) num_zero = (d <=? 0).
Proof.
  intros He. unfold binary_normalize. destruct d as [|p|p]; [done|..].
  - destruct (binary_round_sign false p e He) as [(m' & e' & ->)| ->]; done.
  - destruct (binary_round_sign true p e He) as [(m' & e' & ->)| ->]; done.
Qed.

Lemma align_magnitude m e ez :
  ez <= e → -1074 <= ez → Zpos (shl_align m e ez).1 * 2 ^ (ez + 1074) = magnitude m e.
Proof.
  intros Hz He. unfold shl_align, magnitude. destruct (ez - e) as [|k|k] eqn:Ek; cbn [fst].
  - by replace e with ez by lia.
  - lia.
  - fold (Pos.iter xO m k). rewrite shift_value, <-Z.mul_assoc, <-Z.pow_add_r by lia. do 2 f_equal. lia.
Qed.

Lemma sub_sign x y :
  finite_double x = true → finite_double y = true →
  num_leb (num_sub x y) num_zero = (scaled x <=? scaled y).
Proof.
  intros Hx Hy. destruct (finite_double_spec x Hx) as [[s ->]|(s & m & e & -> & Hm)],
    (finite_double_spec y Hy) as [[s' ->]|(s' & m' & e' & -> & Hm')].
  - by destruct s, s'.
  - rewrite <-leb_scaled by done. by destruct s'.
  - rewrite <-leb_scaled by done. by destruct s.
  - apply bounded_spec in Hm as [He _], Hm' as [He' _].
    unfold num_sub. cbn [SFsub]. rewrite normalize_sign by lia. cbn [scaled].
    set (ez := Z.min e e').
    rewrite <-(align_magnitude m e ez), <-(align_magnitude m' e' ez) by lia.
    set (a := (shl_align m e ez).1). set (b := (shl_align m' e' ez).1).
    pose proof (Z.pow_pos_nonneg 2 (ez + 1074)) as Hp. specialize (Hp ltac:(lia) ltac:(lia)).
    set (k := 2 ^ (ez + 1074)) in *. clearbody k a b. apply eq_bool_prop_intro. rewrite !Is_true_true, !Z.leb_le.
    destruct s, s'; cbn [cond_Zopp]; nia.
Qed.

(** The comparator [(a, b) => a - b] of a sort: [a] may stay before [b]. *)
Lemma sub_total x y :
  finite_double x = true → finite_double y = true →
  num_leb (num_sub x y) num_zero = false → num_leb (num_sub y x) num_zero = true.
Proof. intros Hx Hy. rewrite !sub_sign by done. lia. Qed.
