(* ===== verification/PricingFilters.v ===== *)
(** * The model square: filters, sorting and tags

    [features/pricing/lib/filters.ts], the constants it reads, and the state of
    the page's filters, [features/pricing/hooks/use-filters.ts].  Lower-casing
    and collation depend on Unicode and on the locale: they are the parameters
    [toLowerCase] and [localeCompare] (whether a text may stay before another).
    The theorems hold for any lower-casing; only the order by name assumes that
    the collation is a total preorder. *)

From stdpp Require Import base list strings sets sorting.
From Stdlib Require Import ZArith Lia SpecFloat.
From S2P Require Import Prelude JsString JsNumber JsOrder.
#[local] Open Scope Z_scope.

Module PricingFilters.

(** ** Constants *)

Definition SORT_NAME : jsstr := js "name".
Definition SORT_PRICE_LOW : jsstr := js "price-low".
Definition SORT_PRICE_HIGH : jsstr := js "price-high".
Definition FILTER_ALL : jsstr := js "all".
Definition QUOTA_ALL : jsstr := js "all".
Definition QUOTA_TOKEN : jsstr := js "token".
Definition QUOTA_REQUEST : jsstr := js "request".
Definition QUOTA_HYBRID : jsstr := js "hybrid".
Definition ENDPOINT_ALL : jsstr := js "all".
Definition TOKEN : num := num_of_Z 0.
Definition REQUEST : num := num_of_Z 1.
Definition HYBRID : num := num_of_Z 2.

(** The members of a model that the page reads; [None] for a missing one. *)
Record PricingModel := MkModel {
  model_name : option jsstr;
  description : option jsstr;
  tags : option jsstr;
  vendor_name : option jsstr;
  quota_type : num;
  model_ratio : num;
  model_price : option num;
  enable_groups : option (list jsstr);
  supported_endpoint_types : option (list jsstr);
}.

(** ** Tags *)

(** [[,;|\s]] *)
Definition tag_separator (c : Z) : bool := (c =? 44) || (c =? 59) || (c =? 124) || is_ws c.

(** [s.split(/p+/)]; [in_run]: the previous character was a separator. *)
Fixpoint split_runs (p : Z → bool) (in_run : bool) (s : jsstr) : list jsstr :=
  match s with
  | [] => [[]]
  | c :: t =>
      if p c then (if in_run then split_runs p true t else [] :: split_runs p true t)
      else match split_runs p false t with
           | [] => [[c]]
           | w :: ws => (c :: w) :: ws
           end
  end.

Definition parseTags (tagsString : option jsstr) : list jsstr :=
  match tagsString with
  | None | Some [] => []
  | Some s => base.filter (λ t, is_empty t = false) (map trim (split_runs tag_separator false s))
  end.

Section locale.
Context (toLowerCase : jsstr → jsstr) (localeCompare : jsstr → jsstr → bool).

(** ** Filters *)

(** [field?.toLowerCase().includes(q)] *)
Definition field_has (q : jsstr) (field : option jsstr) : bool :=
  match field with Some s => includes q (toLowerCase s) | None => false end.

Definition filterBySearch (models : list PricingModel) (query : jsstr) : list PricingModel :=
  if is_empty query then models
  else let lowerQuery := toLowerCase query in
       base.filter (λ m, field_has lowerQuery (model_name m) || field_has lowerQuery (description m) ||
                         field_has lowerQuery (tags m) || field_has lowerQuery (vendor_name m) = true) models.

Definition filterByVendor (models : list PricingModel) (vendor : jsstr) : list PricingModel :=
  if decide (vendor = FILTER_ALL) then models
  else base.filter (λ m, vendor_name m = Some vendor) models.

Definition filterByGroup (models : list PricingModel) (group : jsstr) : list PricingModel :=
  if decide (group = FILTER_ALL) then models
  else base.filter (λ m, group ∈ default [] (enable_groups m)) models.

Definition target_type (quotaType : jsstr) : num :=
  if decide (quotaType = QUOTA_TOKEN) then TOKEN
  else if decide (quotaType = QUOTA_HYBRID) then HYBRID else REQUEST.

Definition filterByQuotaType (models : list PricingModel) (quotaType : jsstr) : list PricingModel :=
  if decide (quotaType = QUOTA_ALL) then models
  else base.filter (λ m, num_eqb (quota_type m) (target_type quotaType) = true) models.

Definition filterByEndpointType (models : list PricingModel) (endpointType : jsstr) : list PricingModel :=
  if decide (endpointType = ENDPOINT_ALL) then models
  else base.filter (λ m, endpointType ∈ default [] (supported_endpoint_types m)) models.

Definition filterByTag (models : list PricingModel) (tag : jsstr) : list PricingModel :=
  if decide (tag = FILTER_ALL) then models
  else base.filter (λ m, toLowerCase tag ∈ map toLowerCase (parseTags (tags m))) models.

(** ** Sorting *)

(** [a || b] on an optional number and a number *)
Definition num_or (a : option num) (b : num) : num :=
  match a with Some x => if num_truthy x then x else b | None => b end.

Definition getModelPrice (m : PricingModel) : num :=
  if num_eqb (quota_type m) (num_of_Z 0) then model_ratio m
  else num_or (model_price m) (num_or (Some (model_ratio m)) num_zero).

Definition name_of (m : PricingModel) : jsstr := default [] (model_name m).

(** Whether [a] may stay before [b]: the comparator is not positive. *)
Definition by_name (a b : PricingModel) : bool := localeCompare (name_of a) (name_of b).
Definition by_price (a b : PricingModel) : bool :=
  num_leb (num_sub (getModelPrice a) (getModelPrice b)) num_zero.

Definition sortModels (models : list PricingModel) (sortBy : jsstr) : list PricingModel :=
  if decide (sortBy = SORT_NAME) then sort_by by_name models
  else if decide (sortBy = SORT_PRICE_LOW) then sort_by by_price models
  else if decide (sortBy = SORT_PRICE_HIGH) then sort_by (λ a b, by_price b a) models
  else models.

Record Filters := MkFilters {
  f_search : jsstr;
  f_vendor : jsstr;
  f_group : jsstr;
  f_quotaType : jsstr;
  f_endpointType : jsstr;
  f_tag : jsstr;
  f_sortBy : jsstr;
}.

Definition filterAndSortModels (models : list PricingModel) (filters : Filters) : list PricingModel :=
  let result := filterBySearch models (f_search filters) in
  let result := filterByVendor result (f_vendor filters) in
  let result := filterByGroup result (f_group filters) in
  let result := filterByQuotaType result (f_quotaType filters) in
  let result := filterByEndpointType result (f_endpointType filters) in
  let result := filterByTag result (f_tag filters) in
  sortModels result (f_sortBy filters).

(** ** The tags on offer *)

(** The map from lower-case tags to their first spelling, in insertion order. *)
Definition add_tag (tagsByKey : list (jsstr * jsstr)) (tag : jsstr) : list (jsstr * jsstr) :=
  let key := toLowerCase tag in
  if decide (key ∈ tagsByKey.*1) then tagsByKey else tagsByKey ++ [(key, tag)].

Definition add_model_tags (tagsByKey : list (jsstr * jsstr)) (m : PricingModel) : list (jsstr * jsstr) :=
  fold_left add_tag (parseTags (tags m)) tagsByKey.

Definition extractAllTags (models : list PricingModel) : list jsstr :=
  sort_by localeCompare (fold_left add_model_tags models []).*2.

(** ** The state of the page *)

Inductive TokenUnit := UnitM | UnitK.
Inductive ViewMode := CARD | TABLE.

#[export] Instance TokenUnit_eq_dec : EqDecision TokenUnit.
Proof. solve_decision. Defined.

#[export] Instance ViewMode_eq_dec : EqDecision ViewMode.
Proof. solve_decision. Defined.

Record FilterState := MkState {
  search : option jsstr;
  sort : option jsstr;
  vendor : option jsstr;
  group : option jsstr;
  quotaType : option jsstr;
  endpointType : option jsstr;
  tag : option jsstr;
  tokenUnit : option TokenUnit;
  view : option ViewMode;
  rechargePrice : option bool;
}.

(** [value || fallback] *)
Definition text_or (value : option jsstr) (fallback : jsstr) : jsstr :=
  match value with Some (c :: s) => c :: s | _ => fallback end.

Definition searchInput (st : FilterState) : jsstr := text_or (search st) [].
Definition sortBy (st : FilterState) : jsstr := text_or (sort st) SORT_NAME.
Definition vendorFilter (st : FilterState) : jsstr := text_or (vendor st) FILTER_ALL.
Definition groupFilter (st : FilterState) : jsstr := text_or (group st) FILTER_ALL.
Definition quotaTypeFilter (st : FilterState) : jsstr := text_or (quotaType st) QUOTA_ALL.
Definition endpointTypeFilter (st : FilterState) : jsstr := text_or (endpointType st) ENDPOINT_ALL.
Definition tagFilter (st : FilterState) : jsstr := text_or (tag st) FILTER_ALL.
Definition shownUnit (st : FilterState) : TokenUnit :=
  if decide (tokenUnit st = Some UnitK) then UnitK else UnitM.
Definition viewMode (st : FilterState) : ViewMode :=
  if decide (view st = Some TABLE) then TABLE else CARD.
Definition showRechargePrice (st : FilterState) : bool :=
  match rechargePrice st with Some true => true | _ => false end.

(** The value stored for [v]: nothing for the default. *)
Definition unless_default (dflt v : jsstr) : option jsstr := if decide (v = dflt) then None else Some v.

Inductive Event :=
| SetSearchInput (v : jsstr)
| SetSortBy (v : jsstr)
| SetVendorFilter (v : jsstr)
| SetGroupFilter (v : jsstr)
| SetQuotaTypeFilter (v : jsstr)
| SetEndpointTypeFilter (v : jsstr)
| SetTagFilter (v : jsstr)
| SetTokenUnit (v : TokenUnit)
| SetViewMode (v : ViewMode)
| SetShowRechargePrice (v : bool)
| ClearFilters
| ClearSearch.

(** [updateFilters]: the new members over the old ones, [undefined] ones dropped. *)
Definition updateFilters (st : FilterState) (e : Event) : FilterState :=
  let '(MkState s so ve g q en t u vi r) := st in
  match e with
  | SetSearchInput v => MkState (if is_empty v then None else Some v) so ve g q en t u vi r
  | SetSortBy v => MkState s (unless_default SORT_NAME v) ve g q en t u vi r
  | SetVendorFilter v => MkState s so (unless_default FILTER_ALL v) g q en t u vi r
  | SetGroupFilter v => MkState s so ve (unless_default FILTER_ALL v) q en t u vi r
  | SetQuotaTypeFilter v => MkState s so ve g (unless_default QUOTA_ALL v) en t u vi r
  | SetEndpointTypeFilter v => MkState s so ve g q (unless_default ENDPOINT_ALL v) t u vi r
  | SetTagFilter v => MkState s so ve g q en (unless_default FILTER_ALL v) u vi r
  | SetTokenUnit v => MkState s so ve g q en t (if decide (v = UnitM) then None else Some v) vi r
  | SetViewMode v => MkState s so ve g q en t u (if decide (v = CARD) then None else Some v) r
  | SetShowRechargePrice v => MkState s so ve g q en t u vi (if v then Some true else None)
  | ClearFilters => MkState s so None None None None None u vi r
  | ClearSearch => MkState None so ve g q en t u vi r
  end.

Definition filters_of (st : FilterState) : Filters :=
  MkFilters (searchInput st) (vendorFilter st) (groupFilter st) (quotaTypeFilter st)
    (endpointTypeFilter st) (tagFilter st) (sortBy st).

Definition filteredModels (models : list PricingModel) (st : FilterState) : list PricingModel :=
  match models with [] => [] | _ => filterAndSortModels models (filters_of st) end.

Definition availableTags (models : list PricingModel) : list jsstr :=
  match models with [] => [] | _ => extractAllTags models end.

Definition activeFilterCount (st : FilterState) : nat :=
  (if decide (vendorFilter st = FILTER_ALL) then 0 else 1) +
  (if decide (groupFilter st = FILTER_ALL) then 0 else 1) +
  (if decide (quotaTypeFilter st = QUOTA_ALL) then 0 else 1) +
  (if decide (endpointTypeFilter st = ENDPOINT_ALL) then 0 else 1) +
  (if decide (tagFilter st = FILTER_ALL) then 0 else 1).

Definition hasActiveFilters (st : FilterState) : bool :=
  negb (bool_decide (vendorFilter st = FILTER_ALL) && bool_decide (groupFilter st = FILTER_ALL) &&
        bool_decide (quotaTypeFilter st = QUOTA_ALL) && bool_decide (endpointTypeFilter st = ENDPOINT_ALL) &&
        bool_decide (tagFilter st = FILTER_ALL)).

(** ** What the page shows *)

(** A model passes the filters. *)
Definition matches (f : Filters) (m : PricingModel) : Prop :=
  (f_search f = [] ∨
   Exists (λ field, field_has (toLowerCase (f_search f)) field = true)
     [model_name m; description m; tags m; vendor_name m]) ∧
  (f_vendor f = FILTER_ALL ∨ vendor_name m = Some (f_vendor f)) ∧
  (f_group f = FILTER_ALL ∨ f_group f ∈ default [] (enable_groups m)) ∧
  (f_quotaType f = QUOTA_ALL ∨ num_eqb (quota_type m) (target_type (f_quotaType f)) = true) ∧
  (f_endpointType f = ENDPOINT_ALL ∨ f_endpointType f ∈ default [] (supported_endpoint_types m)) ∧
  (f_tag f = FILTER_ALL ∨ toLowerCase (f_tag f) ∈ map toLowerCase (parseTags (tags m))).

#[export] Instance matches_dec f m : Decision (matches f m).
Proof. unfold matches. apply _. Defined.

(** A filter with a value that switches it off. *)
Lemma filter_or {A} (C : Prop) `{!Decision C} (P : A → Prop) `{!∀ x, Decision (P x)} (l : list A) :
  (if decide C then l else base.filter P l) = base.filter (λ x, C ∨ P x) l.
Proof.
  case_decide.
  - symmetry. apply list_filter_all, Forall_forall. auto.
  - apply list_filter_iff. naive_solver.
Qed.

Lemma search_matches q m :
  (field_has q (model_name m) || field_has q (description m) || field_has q (tags m) ||
   field_has q (vendor_name m) = true) ↔
  Exists (λ field, field_has q field = true) [model_name m; description m; tags m; vendor_name m].
Proof. rewrite !orb_true_iff, !Exists_cons, Exists_nil. tauto. Qed.

Lemma filter_search l q :
  filterBySearch l q =
  base.filter (λ m, q = [] ∨ Exists (λ field, field_has (toLowerCase q) field = true)
                               [model_name m; description m; tags m; vendor_name m]) l.
Proof.
  rewrite <-filter_or. unfold filterBySearch. destruct q as [|c q]; cbn [is_empty].
  - by rewrite decide_True by done.
  - rewrite decide_False by done. apply list_filter_iff. intros m. apply search_matches.
Qed.

(** The filters together keep exactly the models that match. *)
Lemma filters_compose models f :
  filterAndSortModels models f = sortModels (base.filter (matches f) models) (f_sortBy f).
Proof.
  unfold filterAndSortModels. f_equal.
  unfold filterByTag, filterByEndpointType, filterByQuotaType, filterByGroup, filterByVendor.
  rewrite filter_search, !filter_or, !list_filter_filter. apply list_filter_iff.
  intros m. unfold matches. tauto.
Qed.

Lemma filtered_models l st :
  filteredModels l st =
  sortModels (base.filter (matches (filters_of st)) l) (f_sortBy (filters_of st)).
Proof.
  destruct l; [unfold sortModels; by repeat case_decide|]. apply filters_compose.
Qed.

(** *** Order *)

(** The order chosen, and the models it does not tell apart. *)
Definition ordered (sortBy : jsstr) (a b : PricingModel) : Prop :=
  if decide (sortBy = SORT_NAME) then by_name a b = true
  else if decide (sortBy = SORT_PRICE_LOW) then num_leb (getModelPrice a) (getModelPrice b) = true
  else if decide (sortBy = SORT_PRICE_HIGH) then num_leb (getModelPrice b) (getModelPrice a) = true
  else True.

Definition same_rank (sortBy : jsstr) (a b : PricingModel) : Prop := ordered sortBy a b ∧ ordered sortBy b a.

#[export] Instance ordered_dec sb a b : Decision (ordered sb a b).
Proof. unfold ordered. repeat case_decide; apply _. Defined.

Section sorted.
Context (collation_total : ∀ a b, localeCompare a b = false → localeCompare b a = true).
Context (collation_trans : ∀ a b c, localeCompare a b = true → localeCompare b c = true → localeCompare a c = true).

(** Every model has a finite price. *)
Context (models : list PricingModel).
Context (finite_prices : Forall (λ m, finite_double (getModelPrice m) = true) models).

Definition price_rank (m : PricingModel) : Z := scaled (getModelPrice m).

Lemma price_finite m : m ∈ models → finite_double (getModelPrice m) = true.
Proof using finite_prices. clear -finite_prices. rewrite Forall_forall in finite_prices. auto. Qed.

Lemma by_price_rank a b : a ∈ models → b ∈ models → by_price a b = (price_rank a <=? price_rank b).
Proof using finite_prices. intros Ha Hb. apply sub_sign; by apply price_finite. Qed.

Lemma price_le_rank a b :
  a ∈ models → b ∈ models → num_leb (getModelPrice a) (getModelPrice b) = (price_rank a <=? price_rank b).
Proof using finite_prices. intros Ha Hb. apply leb_scaled; by apply price_finite. Qed.

(** The sort is a stable sort by a total preorder that agrees with the chosen
    order on the models of the list. *)
Lemma sort_models_le sb l :
  (∀ m, m ∈ l → m ∈ models) →
  ∃ le : PricingModel → PricingModel → bool,
    (∀ a b, le a b = false → le b a = true) ∧
    (∀ a b c, le a b = true → le b c = true → le a c = true) ∧
    (∀ a b, a ∈ models → b ∈ models → le a b = true ↔ ordered sb a b) ∧
    (sb ∈ [SORT_NAME; SORT_PRICE_LOW; SORT_PRICE_HIGH] → sortModels l sb = sort_by le l) ∧
    (sb ∉ [SORT_NAME; SORT_PRICE_LOW; SORT_PRICE_HIGH] → sortModels l sb = l).
Proof using All.
  intros Hl. unfold sortModels, ordered.
  destruct (decide (sb = SORT_NAME)) as [->|Hn].
  { exists by_name. unfold by_name. split_and!; [eauto|eauto|done|done|set_solver]. }
  destruct (decide (sb = SORT_PRICE_LOW)) as [->|Hlow].
  { exists (λ a b, price_rank a <=? price_rank b). split_and!; [lia|lia|..].
    - intros a b Ha Hb. by rewrite price_le_rank.
    - intros _. apply sort_by_ext. intros a b Ha Hb. apply by_price_rank; auto.
    - set_solver. }
  destruct (decide (sb = SORT_PRICE_HIGH)) as [->|Hhigh].
  { exists (λ a b, price_rank b <=? price_rank a). split_and!; [lia|lia|..].
    - intros a b Ha Hb. by rewrite price_le_rank.
    - intros _. apply sort_by_ext. intros a b Ha Hb. apply by_price_rank; auto.
    - set_solver. }
  exists (λ _ _, true). split_and!; [done|done|done|set_solver|done].
Qed.

(** C19. The page shows exactly the models that pass every filter, each as often
    as it is listed; they stand in the chosen order (by name, by price upwards
    or downwards), and models of the same rank keep the order of the list. *)
Theorem model_list_exact (st : FilterState) :
  let f := filters_of st in
  let out := filteredModels models st in
  out ≡ₚ base.filter (matches f) models ∧
  StronglySorted (ordered (f_sortBy f)) out ∧
  ∀ x, x ∈ models →
    base.filter (λ m, same_rank (f_sortBy f) m x) out =
    base.filter (λ m, same_rank (f_sortBy f) m x) (base.filter (matches f) models).
Proof using All.
  intros f out. set (kept := base.filter (matches f) models). set (sb := f_sortBy f).
  assert (∀ m, m ∈ kept → m ∈ models) as Hk by (intros m [_ Hm]%list_elem_of_filter; done).
  assert (out = sortModels kept sb) as -> by apply filtered_models.
  destruct (sort_models_le sb kept Hk) as (le & Htot & Htr & Hord & Hs & Hu).
  assert (∀ a b, a ∈ kept → b ∈ kept → le a b = true ↔ ordered sb a b) as Hord' by (intros; apply Hord; auto).
  destruct (decide (sb ∈ [SORT_NAME; SORT_PRICE_LOW; SORT_PRICE_HIGH])) as [Hin|Hout].
  - rewrite Hs by done. split_and!; [apply sort_by_perm|..].
    + pose proof (sort_by_sorted le Htot Htr kept) as Hsort.
      assert (∀ m, m ∈ sort_by le kept → m ∈ models) as Hin' by (intros m ?%elem_of_sort_by; auto).
      clear -Hsort Hord Hin'. induction Hsort as [|a l Hl IH Hall]; constructor.
      * apply IH. intros m Hm. apply Hin'. by right.
      * rewrite Forall_forall in Hall |- *. intros b Hb. apply Hord; [apply Hin'; left|apply Hin'; by right|auto].
    + intros x Hx. apply sort_by_stable. intros a b Ha Hb [Hax Hxa] [Hbx Hxb].
      apply Htr with x; apply Hord; auto.
  - rewrite Hu by done. split_and!; [done| |done].
    assert (∀ a b, ordered sb a b) as Htriv.
    { intros a b. unfold ordered. rewrite !decide_False by set_solver. done. }
    clear -Htriv. induction kept; constructor; [done|]. apply Forall_forall. auto.
Qed.

End sorted.

(** ** Tags on offer *)

(** The map of tags: distinct keys, each the lower-case form of its tag. *)
Definition tag_map_ok (acc : list (jsstr * jsstr)) : Prop :=
  NoDup (acc.*1) ∧ Forall (λ kv, kv.1 = toLowerCase kv.2) acc.

Lemma add_tag_ok acc t : tag_map_ok acc → tag_map_ok (add_tag acc t).
Proof.
  intros [Hn Hk]. unfold add_tag. case_decide as E; [done|]. split.
  - rewrite fmap_app. apply NoDup_app. split_and!; [done| |apply NoDup_singleton].
    intros k Hk' Hs. apply list_elem_of_singleton in Hs as ->. done.
  - apply Forall_app. split; [done|by repeat constructor].
Qed.

Lemma add_tag_keys acc t k : k ∈ (add_tag acc t).*1 ↔ k ∈ acc.*1 ∨ k = toLowerCase t.
Proof.
  unfold add_tag. case_decide as E; [naive_solver|].
  rewrite fmap_app, elem_of_app. cbn. rewrite list_elem_of_singleton. done.
Qed.

Lemma add_tag_tags acc t t' : t' ∈ (add_tag acc t).*2 → t' ∈ acc.*2 ∨ t' = t.
Proof.
  unfold add_tag. case_decide as E; [auto|].
  rewrite fmap_app, elem_of_app. cbn. rewrite list_elem_of_singleton. done.
Qed.

(** Adding the tags of all models is adding all tags. *)
Lemma add_all_tags models acc :
  fold_left add_model_tags models acc = fold_left add_tag (concat (map (λ m, parseTags (tags m)) models)) acc.
Proof.
  revert acc. induction models as [|m models IH]; intros acc; [done|].
  cbn [map concat fold_left]. rewrite fold_left_app, IH. done.
Qed.

Lemma add_tags_spec ts acc :
  tag_map_ok acc →
  let r := fold_left add_tag ts acc in
  tag_map_ok r ∧ (∀ k, k ∈ r.*1 ↔ k ∈ acc.*1 ∨ k ∈ map toLowerCase ts) ∧
  (∀ t, t ∈ r.*2 → t ∈ acc.*2 ∨ t ∈ ts).
Proof.
  revert acc. induction ts as [|t ts IH]; intros acc Hacc; cbn [fold_left map].
  - split_and!; [done|set_solver|auto].
  - destruct (IH (add_tag acc t) (add_tag_ok acc t Hacc)) as (Hok & Hkeys & Htags). split_and!; [done|..].
    + intros k. rewrite Hkeys, add_tag_keys, elem_of_cons. tauto.
    + intros t' Ht'. apply Htags in Ht' as [Ht'|Ht']; [|right; by right].
      apply add_tag_tags in Ht' as [Ht'| ->]; [by left|right; left].
Qed.

Lemma all_tags_elem models t :
  t ∈ concat (map (λ m, parseTags (tags m)) models) ↔ ∃ m, m ∈ models ∧ t ∈ parseTags (tags m).
Proof.
  induction models as [|m models IH]; cbn [map concat].
  - split; [by intros H%not_elem_of_nil|by intros (m & H%not_elem_of_nil & _)].
  - rewrite elem_of_app, IH. split.
    + intros [H|(m' & H & H')]; [exists m; split; [left|done]|exists m'; split; [by right|done]].
    + intros (m' & Hm & H). apply elem_of_cons in Hm as [->|Hm]; eauto.
Qed.

(** The tags offered by the page: no two are equal up to case, each is
    spelt as some model spells it, every model that has tags is listed under an
    offered one, and choosing an offered tag alone never leaves the page empty. *)
Theorem tags_offered (models : list PricingModel) :
  let offered := extractAllTags models in
  NoDup (map toLowerCase offered) ∧
  (∀ t, t ∈ offered → ∃ m, m ∈ models ∧ t ∈ parseTags (tags m)) ∧
  (∀ m t, m ∈ models → t ∈ parseTags (tags m) → ∃ t', t' ∈ offered ∧ m ∈ filterByTag models t') ∧
  (∀ t, t ∈ offered → filterByTag models t ≠ []).
Proof.
  intros offered. unfold offered, extractAllTags. rewrite add_all_tags. clear offered.
  set (ts := concat (map (λ m, parseTags (tags m)) models)).
  destruct (add_tags_spec ts []) as ((Hn & Hk) & Hkeys & Htags); [split; [apply NoDup_nil_2|apply Forall_nil_2]|].
  set (r := fold_left add_tag ts []) in *. set (offered := sort_by localeCompare r.*2).
  assert (∀ t, t ∈ offered ↔ t ∈ r.*2) as Hoff by (intros t; apply elem_of_sort_by).
  assert (map toLowerCase (r.*2) = r.*1) as Hmap.
  { clear -Hk. induction Hk as [|[k t] r Hkt _ IH]; [done|]. cbn in *. by rewrite IH, Hkt. }
  assert (∀ m t t', m ∈ models → t ∈ parseTags (tags m) → toLowerCase t = toLowerCase t' → m ∈ filterByTag models t') as Hin.
  { intros m t t' Hm Ht Ht'. unfold filterByTag. case_decide; [done|]. apply list_elem_of_filter. split; [|done].
    rewrite <-Ht'. by apply list_elem_of_fmap_2. }
  split_and!.
  - unfold offered. rewrite (sort_by_perm localeCompare). by rewrite Hmap.
  - intros t Ht%Hoff%Htags. destruct Ht as [Ht|Ht]; [by apply not_elem_of_nil in Ht|]. by apply all_tags_elem in Ht.
  - intros m t Hm Ht. assert (toLowerCase t ∈ r.*1) as Hkey.
    { apply Hkeys. right. apply list_elem_of_fmap_2. apply all_tags_elem. eauto. }
    rewrite <-Hmap in Hkey. apply list_elem_of_fmap_1 in Hkey as (t' & Heq & Ht').
    exists t'. split; [by apply Hoff|]. by apply (Hin m t).
  - intros t Ht%Hoff%Htags. destruct Ht as [Ht|Ht]; [by apply not_elem_of_nil in Ht|].
    apply all_tags_elem in Ht as (m & Hm & Ht). intros Hnil.
    pose proof (Hin m t t Hm Ht eq_refl) as Hm'. rewrite Hnil in Hm'. by apply not_elem_of_nil in Hm'.
Qed.

End locale.

(** ** The state as the last choices *)

(** What the page shows of its state, with every choice explicit. *)
Record Choices := MkChoices {
  c_filters : Filters;
  c_unit : TokenUnit;
  c_view : ViewMode;
  c_recharge : bool;
}.

Definition shown (st : FilterState) : Choices :=
  MkChoices (filters_of st) (shownUnit st) (viewMode st) (showRechargePrice st).

(** A choice replaces the one before; an empty text is the default. *)
Definition or_default (dflt v : jsstr) : jsstr := if is_empty v then dflt else v.

Definition choose (c : Choices) (e : Event) : Choices :=
  let '(MkChoices (MkFilters s ve g q en t so) u vi r) := c in
  match e with
  | SetSearchInput v => MkChoices (MkFilters v ve g q en t so) u vi r
  | SetSortBy v => MkChoices (MkFilters s ve g q en t (or_default SORT_NAME v)) u vi r
  | SetVendorFilter v => MkChoices (MkFilters s (or_default FILTER_ALL v) g q en t so) u vi r
  | SetGroupFilter v => MkChoices (MkFilters s ve (or_default FILTER_ALL v) q en t so) u vi r
  | SetQuotaTypeFilter v => MkChoices (MkFilters s ve g (or_default QUOTA_ALL v) en t so) u vi r
  | SetEndpointTypeFilter v => MkChoices (MkFilters s ve g q (or_default ENDPOINT_ALL v) t so) u vi r
  | SetTagFilter v => MkChoices (MkFilters s ve g q en (or_default FILTER_ALL v) so) u vi r
  | SetTokenUnit v => MkChoices (MkFilters s ve g q en t so) v vi r
  | SetViewMode v => MkChoices (MkFilters s ve g q en t so) u v r
  | SetShowRechargePrice v => MkChoices (MkFilters s ve g q en t so) u vi v
  | ClearFilters => MkChoices (MkFilters s FILTER_ALL FILTER_ALL QUOTA_ALL ENDPOINT_ALL FILTER_ALL so) u vi r
  | ClearSearch => MkChoices (MkFilters [] ve g q en t so) u vi r
  end.

Lemma stored_text dflt v : dflt ≠ [] → text_or (unless_default dflt v) dflt = or_default dflt v.
Proof.
  intros Hd. unfold unless_default, or_default. case_decide; [subst; by destruct dflt|]. by destruct v.
Qed.

Lemma shown_step st e : shown (updateFilters st e) = choose (shown st) e.
Proof.
  destruct st, e; cbn; unfold shown, filters_of, searchInput, sortBy, vendorFilter, groupFilter, quotaTypeFilter,
    endpointTypeFilter, tagFilter, shownUnit, viewMode, showRechargePrice;
    cbn [search sort vendor group quotaType endpointType tag tokenUnit view rechargePrice];
    rewrite ?stored_text by done; try reflexivity.
  all: match goal with v : _ |- _ => by destruct v end.
Qed.

(** The five filters of the side bar with their defaults *)
Definition side_filters (f : Filters) : list (jsstr * jsstr) :=
  [(f_vendor f, FILTER_ALL); (f_group f, FILTER_ALL); (f_quotaType f, QUOTA_ALL); (f_endpointType f, ENDPOINT_ALL);
   (f_tag f, FILTER_ALL)].

Definition chosen (f : Filters) : list (jsstr * jsstr) := base.filter (λ c, c.1 ≠ c.2) (side_filters f).

Lemma active_count st : activeFilterCount st = length (chosen (filters_of st)).
Proof.
  unfold activeFilterCount, chosen, side_filters, filters_of. cbn [f_vendor f_group f_quotaType f_endpointType f_tag].
  rewrite !filter_cons, filter_nil. cbn [fst snd].
  repeat (case_decide; try (exfalso; tauto)); done.
Qed.

Lemma has_active st : hasActiveFilters st = true ↔ chosen (filters_of st) ≠ [].
Proof.
  unfold hasActiveFilters, chosen, side_filters, filters_of. cbn [f_vendor f_group f_quotaType f_endpointType f_tag].
  rewrite !filter_cons, filter_nil. cbn [fst snd]. rewrite negb_true_iff.
  repeat (case_bool_decide; cbn [andb]); repeat (case_decide; try (exfalso; tauto)); done.
Qed.

Lemma sort_models_perm localeCompare l sb : sortModels localeCompare l sb ≡ₚ l.
Proof. unfold sortModels. repeat case_decide; try done; apply sort_by_perm. Qed.

(** C30. Whatever the order of the choices made on the page, it shows for each
    control the last choice (an empty one being the default), independently of
    the others; the count of active filters is the number of the five filters
    of the side bar that are not at their default, and they count as active when
    there is one; the list has exactly the models that match the choices shown;
    and clearing the filters makes the count zero and keeps the search, the order
    and the display settings. *)
Theorem page_state_refines (st : FilterState) (events : list Event) :
  let st' := fold_left updateFilters events st in
  let c := fold_left choose events (shown st) in
  shown st' = c ∧
  activeFilterCount st' = length (chosen (c_filters c)) ∧
  (hasActiveFilters st' = true ↔ chosen (c_filters c) ≠ []) ∧
  (∀ toLowerCase localeCompare models,
     filteredModels toLowerCase localeCompare models st' ≡ₚ base.filter (matches toLowerCase (c_filters c)) models) ∧
  activeFilterCount (updateFilters st' ClearFilters) = 0%nat ∧
  shown (updateFilters st' ClearFilters) = choose c ClearFilters.
Proof.
  intros st' c. assert (shown st' = c) as Hc.
  { unfold st', c. clear st' c. revert st. induction events as [|e events IH]; intros st; [done|].
    cbn [fold_left]. by rewrite IH, shown_step. }
  rewrite <-Hc. change (c_filters (shown st')) with (filters_of st'). split_and!; [done| | | | |].
  - apply active_count.
  - apply has_active.
  - intros lower compare models. rewrite filtered_models. apply sort_models_perm.
  - by destruct st'.
  - apply shown_step.
Qed.

(** ** Witnesses *)

(** Code-unit order: a collation. *)
Fixpoint lex_le (a b : jsstr) : bool :=
  match a, b with
  | [], _ => true
  | _, [] => false
  | x :: a', y :: b' => if x <? y then true else if y <? x then false else lex_le a' b'
  end.

Lemma lex_le_total a b : lex_le a b = false → lex_le b a = true.
Proof.
  revert b. induction a as [|x a IH]; intros [|y b]; cbn [lex_le]; try done.
  repeat (case_match; bool_prop; try lia; try done). apply IH.
Qed.

Lemma lex_le_trans a b c : lex_le a b = true → lex_le b c = true → lex_le a c = true.
Proof.
  revert b c. induction a as [|x a IH]; intros [|y b] [|z c]; cbn [lex_le]; try done.
  repeat (case_match; bool_prop; try lia; try done). apply IH.
Qed.

Definition sample_model (name : string) (ratio : Z) : PricingModel :=
  MkModel (Some (js name)) None (Some (js "chat, Fast")) None (num_of_Z 0) (num_of_Z ratio) None None None.

Definition sample_models : list PricingModel :=
  [sample_model "b" 3; sample_model "c" 1; sample_model "a" 3].

Definition sample_state : FilterState :=
  MkState (Some (js "chat")) (Some SORT_PRICE_LOW) None None None None (Some (js "FAST")) None None None.

Lemma model_list_exact_witness :
  let f := filters_of sample_state in
  let out := filteredModels to_lower lex_le sample_models sample_state in
  map model_name out = [Some (js "c"); Some (js "b"); Some (js "a")] ∧
  out ≡ₚ base.filter (matches to_lower f) sample_models ∧
  StronglySorted (ordered lex_le (f_sortBy f)) out ∧
  ∀ x, x ∈ sample_models →
    base.filter (λ m, same_rank lex_le (f_sortBy f) m x) out =
    base.filter (λ m, same_rank lex_le (f_sortBy f) m x) (base.filter (matches to_lower f) sample_models).
Proof.
  intros f out. split; [vm_compute; reflexivity|].
  apply (model_list_exact to_lower lex_le lex_le_total lex_le_trans sample_models).
  repeat (apply Forall_cons; split; [vm_compute; reflexivity|]). by apply Forall_nil.
Defined.

End PricingFilters.
