(* ===== verification/SiteSettings.v ===== *)
(** * Administration of header and sidebar modules

    [features/system-settings/maintenance/config.ts] (reading and writing the
    two configurations as options of the system) and the forms that edit them
    ([header-navigation-section.tsx], [sidebar-modules-section.tsx], built in
    [site/section-registry.tsx]).  The theorems compose them with the readers
    of the site in [Navigation]: what an administrator saves is what the
    visitors get. *)

From stdpp Require Import base list strings sets.
From Stdlib Require Import ZArith Lia SpecFloat.
From S2P Require Import Prelude JsString JsNumber JsValue JsJson JsKeys Navigation.
#[local] Open Scope Z_scope.

Module SiteSettings.
Import NavModules.

(** An object of the declared types, as its own properties in order. *)
Notation object := (list (jsstr * jsval)).

(** ** Defaults *)

Definition HEADER_NAV_DEFAULT : object :=
  [(js "home", JBool true); (js "console", JBool true); (js "pricing", access_val (Access true false));
   (js "rankings", access_val (Access true false)); (js "docs", JBool true); (js "about", JBool true)].

Definition SIDEBAR_SECTIONS : list (string * list string) :=
  [("chat", ["enabled"; "playground"; "chat"]);
   ("console", ["enabled"; "detail"; "token"; "log"; "model_monitor"; "tickets"; "empty_response";
                "midjourney"; "task"]);
   ("personal", ["enabled"; "topup"; "personal"])]%string.

(** The sections with the switches [f]. *)
Definition sidebar_with (f : string → string → bool) : object :=
  map (λ s, (js s.1, JObj (map (λ m, (js m, JBool (f s.1 m))) s.2))) SIDEBAR_SECTIONS.

Definition SIDEBAR_MODULES_DEFAULT : object := sidebar_with (λ _ _, true).

(** Fresh copies of immutable data are the data. *)
Definition cloneHeaderNavDefault : object := HEADER_NAV_DEFAULT.
Definition cloneSidebarDefault : object := SIDEBAR_MODULES_DEFAULT.

(** ** Reading *)

Definition toBoolean (value : jsval) (fallback : bool) : bool :=
  match value with
  | JBool b => b
  | JNum x => num_eqb x (num_of_Z 1)
  | JStr s =>
      let normalized := to_lower (trim s) in
      if decide (normalized = js "true" ∨ normalized = js "1") then true
      else if decide (normalized = js "false" ∨ normalized = js "0") then false
      else fallback
  | _ => fallback
  end.

Definition parseAccessModule (raw : jsval) (fallback : ModuleAccess) : ModuleAccess :=
  match raw with
  | JBool _ | JStr _ | JNum _ => Access (toBoolean raw (enabled fallback)) (requireAuth fallback)
  | JObj _ | JArr _ =>
      Access (toBoolean (get_prop_opt (js "enabled") raw) (enabled fallback))
             (toBoolean (get_prop_opt (js "requireAuth") raw) (requireAuth fallback))
  | _ => fallback
  end.

Definition apply_header_entry (result : object) (entry : jsstr * jsval) : object :=
  let '(key, raw) := entry in
  let base := cloneHeaderNavDefault in
  if decide (key = js "pricing") then
    obj_put (js "pricing") (access_val (parseAccessModule raw (Access true false))) result
  else if decide (key = js "rankings") then
    obj_put (js "rankings") (access_val (parseAccessModule raw (Access true false))) result
  else match raw with
       | JBool b => assign_prop key raw result
       | JStr _ | JNum _ => assign_prop key (JBool (toBoolean raw (truthy (obj_get key base)))) result
       | _ => result
       end.

(** [None]: [null] or [undefined]. *)
Definition parseHeaderNavModules (value : option jsstr) : object :=
  let base := cloneHeaderNavDefault in
  match value with
  | None | Some [] => base
  | Some text =>
      catch (let* parsed := JSON_parse text in
             let* es := entries parsed in
             Ok (fold_left apply_header_entry es base)) base
  end.

Definition object_text (o : object) : jsstr := default (js "undefined") (JSON_stringify (JObj o)).
Definition serializeHeaderNavModules (config : object) : jsstr := object_text config.

(** ** The header form *)

Record HeaderNavFormValues := MkValues {
  v_home : bool;
  v_console : bool;
  pricingEnabled : bool;
  pricingRequireAuth : bool;
  rankingsEnabled : bool;
  rankingsRequireAuth : bool;
  v_docs : bool;
  v_about : bool;
}.

(** [x === undefined ? dflt : Boolean(x)] *)
Definition bool_or (dflt : bool) (x : jsval) : bool := if is_undef x then dflt else truthy x.

Definition toFormValues (config : object) : HeaderNavFormValues :=
  let access name member dflt := bool_or dflt (get_prop_opt (js member) (obj_get (js name) config)) in
  MkValues (bool_or true (obj_get (js "home") config)) (bool_or true (obj_get (js "console") config))
    (access "pricing" "enabled" true)%string (access "pricing" "requireAuth" false)%string
    (access "rankings" "enabled" true)%string (access "rankings" "requireAuth" false)%string
    (bool_or true (obj_get (js "docs") config)) (bool_or true (obj_get (js "about") config)).

(** [{ ...(a ?? dflt), enabled, requireAuth }] *)
Definition with_access (a : jsval) (enabled requireAuth : bool) : jsval :=
  JObj (obj_put (js "requireAuth") (JBool requireAuth)
          (obj_put (js "enabled") (JBool enabled)
             (spread (js_coalesce a (access_val (Access true false)))))).

Definition header_payload (config : object) (v : HeaderNavFormValues) : object :=
  let o := spread (JObj config) in
  let o := obj_put (js "home") (JBool (v_home v)) o in
  let o := obj_put (js "console") (JBool (v_console v)) o in
  let o := obj_put (js "docs") (JBool (v_docs v)) o in
  let o := obj_put (js "about") (JBool (v_about v)) o in
  let o := obj_put (js "pricing")
             (with_access (obj_get (js "pricing") config) (pricingEnabled v) (pricingRequireAuth v)) o in
  obj_put (js "rankings")
    (with_access (obj_get (js "rankings") config) (rankingsEnabled v) (rankingsRequireAuth v)) o.

(** The text sent to the server; [None] when nothing changed. *)
Definition header_submit (config : object) (initialSerialized : jsstr) (v : HeaderNavFormValues)
    : option jsstr :=
  let serialized := serializeHeaderNavModules (header_payload config v) in
  if decide (serialized = initialSerialized) then None else Some serialized.

(** The section of the settings page: form values of the stored option, and
    what submitting them stores. *)
Definition open_header (stored : option jsstr) : HeaderNavFormValues :=
  toFormValues (parseHeaderNavModules stored).
Definition submit_header (stored : option jsstr) (v : HeaderNavFormValues) : option jsstr :=
  let config := parseHeaderNavModules stored in
  match header_submit config (serializeHeaderNavModules config) v with
  | Some text => Some text
  | None => stored
  end.

(** ** The sidebar *)

Definition flag_or (dflt : bool) (x : jsval) : bool :=
  match x with JBool b => b | JUndef | JNull => dflt | _ => truthy x end.

(** [defaultSection[key] ?? true] *)
Definition default_flag (defaultSection : object) (key : jsstr) : bool :=
  flag_or true (obj_get key defaultSection).

Definition section_entry (defaultSection : object) (cfg : object) (entry : jsstr * jsval) : object :=
  let '(moduleKey, moduleValue) := entry in
  if decide (moduleKey = js "enabled") then cfg
  else assign_prop moduleKey (JBool (toBoolean moduleValue (default_flag defaultSection moduleKey))) cfg.

(** [defaults[sectionKey] ?? { enabled: true }] *)
Definition default_section_of (sectionKey : jsstr) : object :=
  match assoc_get sectionKey SIDEBAR_MODULES_DEFAULT with
  | Some (JObj o) => o
  | _ => [(js "enabled", JBool true)]
  end.

Definition parse_section (sectionKey : jsstr) (raw : jsval) : object :=
  let defaultSection := default_section_of sectionKey in
  let first := [(js "enabled", JBool (toBoolean (get_prop_opt (js "enabled") raw) (default_flag defaultSection (js "enabled"))))] in
  fold_left (section_entry defaultSection) (catch (entries raw) []) first.

Definition read_section (result : object) (entry : jsstr * jsval) : object :=
  let '(sectionKey, raw) := entry in
  if truthy raw && is_object_type raw then assign_prop sectionKey (JObj (parse_section sectionKey raw)) result
  else result.

(** [if (!(key in section)) section[key] = value] *)
Definition fill_module (section : object) (entry : jsstr * jsval) : object :=
  let '(k, v) := entry in
  if decide (k ∈ section.*1 ∨ k ∈ object_prototype_keys) then section else obj_put k v section.

Definition fill_section (result : object) (entry : jsstr * jsval) : object :=
  let '(sectionKey, config) := entry in
  match obj_get sectionKey result, config with
  | JObj section, JObj modules => obj_put sectionKey (JObj (fold_left fill_module modules section)) result
  | _, _ => obj_put sectionKey config result
  end.

Definition parseSidebarModulesAdmin (value : option jsstr) : object :=
  let defaults := cloneSidebarDefault in
  match value with
  | None => defaults
  | Some text =>
      if is_empty (trim text) then defaults
      else catch (let* parsed := JSON_parse text in
                  let* es := entries parsed in
                  Ok (fold_left fill_section defaults (fold_left read_section es []))) defaults
  end.

Definition serializeSidebarModulesAdmin (config : object) : jsstr := object_text config.

Definition sidebar_submit (config : object) (initialSerialized : jsstr) : option jsstr :=
  let serialized := serializeSidebarModulesAdmin config in
  if decide (serialized = initialSerialized) then None else Some serialized.

(** ** Well-formed header configurations *)

Definition header_names : list jsstr := HEADER_NAV_DEFAULT.*1.

(** The value of a member by its declared type. *)
Definition header_member (k : jsstr) (v : jsval) : Prop :=
  if decide (k = js "pricing" ∨ k = js "rankings") then ∃ a, v = access_val a else ∃ b, v = JBool b.

Record config_ok (c : object) : Prop := {
  ok_keys : wf_keysb (c.*1) = true;
  ok_units : forallb code_units (c.*1) = true;
  ok_proto : js "__proto__" ∉ c.*1;
  ok_names : ∀ k, k ∈ header_names → k ∈ c.*1;
  ok_members : ∀ k v, (k, v) ∈ c → header_member k v;
}.

Lemma access_json_ok a : json_ok (access_val a) = true.
Proof. destruct a as [[] []]; vm_compute; reflexivity. Qed.

Lemma member_json_ok k v : header_member k v → json_ok v = true.
Proof. unfold header_member. case_decide; intros [x ->]; [apply access_json_ok|done]. Qed.

Lemma config_json_ok c : config_ok c → json_ok (JObj c) = true.
Proof.
  intros [Hk Hu _ _ Hm]. cbn [json_ok]. rewrite Hk, Hu. cbn [andb]. apply forallb_forall.
  intros [k v] Hin%list_elem_of_In. cbn [snd]. eapply member_json_ok, Hm, Hin.
Qed.

Lemma config_NoDup c : config_ok c → NoDup (c.*1).
Proof. intros H. apply wf_keys_NoDup, wf_keysb_spec, H. Qed.

(** The text of a configuration reads back as the configuration, and is not
    blank. *)
Lemma config_text c :
  json_ok (JObj c) = true →
  JSON_parse (object_text c) = Ok (JObj c) ∧ ∃ t, object_text c = 123 :: t.
Proof.
  intros Hok. destruct (json_roundtrip _ Hok) as (t & Ht & Hp). unfold object_text. rewrite Ht.
  cbn [default from_option]. unfold Datatypes.id. split; [done|]. by eapply stringify_object_head.
Qed.

(** ** Saving a header configuration *)

Lemma spread_id o : wf_keys o → spread (JObj o) = o.
Proof.
  intros Hwf. unfold spread, spread_over. cbn [entries catch].
  assert (∀ p r, p ++ r = o → fold_left (λ acc kv, obj_put kv.1 kv.2 acc) r p = o) as H; [|by apply (H [])].
  intros p r. revert p. induction r as [|[k v] r IH]; intros p Hp; cbn [fold_left fst snd].
  - by rewrite app_nil_r in Hp.
  - subst o. assert (wf_keys (p ++ [(k, v)])) as Hw.
    { unfold wf_keys in *. rewrite cons_middle, app_assoc, fmap_app in Hwf.
      clear -Hwf. revert Hwf. generalize (r.*1) as ks. intros ks. generalize ((p ++ [(k, v)]).*1) as l. intros l.
      induction l as [|x l IHl]; intros H; [constructor|]. inversion H as [|? ? Hs Hall]; subst.
      constructor; [by apply IHl|]. apply Forall_app in Hall as [? _]. done. }
    rewrite obj_put_snoc by done. apply IH. by rewrite <-app_assoc.
Qed.

Lemma put_present k v o : k ∈ o.*1 → (obj_put k v o).*1 = o.*1.
Proof.
  intros Hk. unfold obj_put. rewrite decide_True by done. rewrite keys_set, decide_True by done. apply app_nil_r.
Qed.

Lemma put_elem k v o k' v' : k ∈ o.*1 → (k', v') ∈ obj_put k v o → (k', v') ∈ o ∨ (k' = k ∧ v' = v).
Proof.
  intros Hk. unfold obj_put. rewrite decide_True by done. clear Hk.
  induction o as [|[k1 v1] o IH]; cbn [assoc_set].
  - intros [= -> ->]%list_elem_of_singleton. auto.
  - case_decide; intros [[= -> ->]|Hin]%elem_of_cons; auto using list_elem_of_here, list_elem_of_further.
    destruct (IH Hin); auto using list_elem_of_further.
Qed.

(** A member of the declared type replaced by another keeps the configuration
    well formed. *)
Lemma put_ok k v c : config_ok c → k ∈ header_names → header_member k v → config_ok (obj_put k v c).
Proof.
  intros [H1 H2 H3 H4 H5] Hk Hv. pose proof (put_present k v c (H4 k Hk)) as Hkeys.
  constructor; rewrite ?Hkeys; [done..|]. intros k' v' [Hin|[-> ->]]%put_elem; eauto.
Qed.

Lemma with_access_val a e r : with_access (access_val a) e r = access_val (Access e r).
Proof. destruct a as [[] []]; vm_compute; reflexivity. Qed.

Lemma config_access c k :
  config_ok c → k = js "pricing" ∨ k = js "rankings" → ∃ a, obj_get k c = access_val a.
Proof.
  intros Hc Hk. assert (k ∈ c.*1) as Hin.
  { apply Hc. destruct Hk as [-> | ->]; apply (bool_decide_unpack _); vm_compute; exact I. }
  apply list_elem_of_fmap_1 in Hin as ([k' v] & -> & Hin). cbn [fst] in *.
  unfold obj_get. rewrite (assoc_get_elem k' v) by (done || by apply config_NoDup).
  apply Hc in Hin. unfold header_member in Hin. by rewrite decide_True in Hin.
Qed.

Lemma header_name (k : string) : bool_decide (js k ∈ header_names) = true → js k ∈ header_names.
Proof. by rewrite bool_decide_eq_true. Qed.

Lemma member_flag (k : string) b :
  bool_decide (js k = js "pricing" ∨ js k = js "rankings") = false → header_member (js k) (JBool b).
Proof. intros H%bool_decide_eq_false. unfold header_member. rewrite decide_False by done. eauto. Qed.

Lemma member_access k a : k = js "pricing" ∨ k = js "rankings" → header_member k (access_val a).
Proof. intros H. unfold header_member. rewrite decide_True by done. eauto. Qed.

(** The configuration saved is well formed. *)
Lemma payload_ok c v : config_ok c → config_ok (header_payload c v).
Proof.
  intros Hc. unfold header_payload. rewrite spread_id by apply wf_keysb_spec, Hc.
  destruct (config_access c (js "pricing") Hc) as [p ->]; [auto|].
  destruct (config_access c (js "rankings") Hc) as [r ->]; [auto|]. rewrite !with_access_val.
  repeat apply put_ok; try (apply header_name; vm_compute; reflexivity);
    try (apply member_flag; vm_compute; reflexivity); try (apply member_access; auto); done.
Qed.

Lemma payload_get c v k :
  config_ok c →
  obj_get k (header_payload c v) =
  if decide (k = js "rankings") then access_val (Access (rankingsEnabled v) (rankingsRequireAuth v))
  else if decide (k = js "pricing") then access_val (Access (pricingEnabled v) (pricingRequireAuth v))
  else if decide (k = js "about") then JBool (v_about v)
  else if decide (k = js "docs") then JBool (v_docs v)
  else if decide (k = js "console") then JBool (v_console v)
  else if decide (k = js "home") then JBool (v_home v)
  else obj_get k c.
Proof.
  intros Hc. unfold header_payload. rewrite spread_id by apply wf_keysb_spec, Hc.
  destruct (config_access c (js "pricing") Hc) as [p ->]; [auto|].
  destruct (config_access c (js "rankings") Hc) as [r ->]; [auto|]. rewrite !with_access_val.
  by rewrite !obj_put_get.
Qed.

(** *** Reading it back in the form *)

Lemma parse_access_val a f : parseAccessModule (access_val a) f = a.
Proof. by destruct a as [[] []]. Qed.

Lemma reread_entry r k v :
  header_member k v → k ≠ js "__proto__" → apply_header_entry r (k, v) = obj_put k v r.
Proof.
  unfold header_member, apply_header_entry. intros Hv Hk.
  destruct (decide (k = js "pricing")) as [->|Hp].
  { rewrite decide_True in Hv by auto. destruct Hv as [a ->]. by rewrite parse_access_val. }
  destruct (decide (k = js "rankings")) as [->|Hr].
  { rewrite decide_True in Hv by auto. destruct Hv as [a ->]. by rewrite parse_access_val. }
  rewrite decide_False in Hv by naive_solver. destruct Hv as [b ->].
  unfold assign_prop. by rewrite decide_False.
Qed.

Lemma reread_fold es r :
  (∀ k v, (k, v) ∈ es → header_member k v ∧ k ≠ js "__proto__") →
  fold_left apply_header_entry es r = fold_left (λ acc kv, obj_put kv.1 kv.2 acc) es r.
Proof.
  revert r. induction es as [|[k v] es IH]; intros r H; [done|]. cbn [fold_left fst snd].
  destruct (H k v) as [Hv Hk]; [left|]. rewrite reread_entry by done. apply IH. intros. apply H. by right.
Qed.

Lemma ok_entries c k v : config_ok c → (k, v) ∈ c → header_member k v ∧ k ≠ js "__proto__".
Proof.
  intros Hc Hin. split; [by apply Hc|]. intros ->. apply (ok_proto c Hc). by apply (list_elem_of_fmap_2 fst) in Hin.
Qed.

(** The administrator's reader gives every member of a saved configuration. *)
Lemma reread c k : config_ok c → obj_get k (parseHeaderNavModules (Some (object_text c))) = obj_get k c.
Proof.
  intros Hc. destruct (config_text c (config_json_ok c Hc)) as [Hp [t Ht]].
  unfold parseHeaderNavModules. rewrite Hp. rewrite Ht at 1. cbn [entries res_bind catch].
  rewrite reread_fold by (intros; by apply (ok_entries c)). rewrite fold_put_assoc by by apply config_NoDup.
  destruct (assoc_get k c) as [v|] eqn:E; [unfold obj_get; by rewrite E|].
  assert (assoc_get k HEADER_NAV_DEFAULT = None) as Hd.
  { apply assoc_get_None. intros Hk. apply assoc_get_None in E. by apply E, Hc. }
  unfold obj_get, cloneHeaderNavDefault. by rewrite E, Hd.
Qed.

(** *** Reading it on the site *)

Lemma site_access_val a f : parseAccess (access_val a) f = a.
Proof. by destruct a as [[] []]. Qed.

(** One entry changes one part of the modules. *)
Lemma site_entry r k v :
  header_member k v → k ≠ js "__proto__" →
  (k = js "pricing" ∧ ∃ a, v = access_val a ∧ apply_entry r (k, v) = Modules a (rankings r) (flags r)) ∨
  (k = js "rankings" ∧ ∃ a, v = access_val a ∧ apply_entry r (k, v) = Modules (pricing r) a (flags r)) ∨
  (k ≠ js "pricing" ∧ k ≠ js "rankings" ∧
   apply_entry r (k, v) = Modules (pricing r) (rankings r) (obj_put k v (flags r))).
Proof.
  unfold header_member, apply_entry. intros Hv Hk.
  destruct (decide (k = js "pricing")) as [->|Hp].
  { rewrite decide_True in Hv by auto. destruct Hv as [a ->]. left. split; [done|]. exists a. by rewrite site_access_val. }
  destruct (decide (k = js "rankings")) as [->|Hr].
  { rewrite decide_True in Hv by auto. destruct Hv as [a ->]. right. left. split; [done|]. exists a. by rewrite site_access_val. }
  rewrite decide_False in Hv by naive_solver. destruct Hv as [b ->]. right. right. split_and!; [done..|].
  cbn [is_boolean is_number is_string]. rewrite orb_true_r. cbn [orb parseHeaderNavBoolean].
  unfold assign_prop. by rewrite decide_False.
Qed.

(** The modules read from well-formed entries. *)
Definition site_reads (es : object) (r m : HeaderNavModules) : Prop :=
  (∀ a, (js "pricing", access_val a) ∈ es → pricing m = a) ∧
  (js "pricing" ∉ es.*1 → pricing m = pricing r) ∧
  (∀ a, (js "rankings", access_val a) ∈ es → rankings m = a) ∧
  (js "rankings" ∉ es.*1 → rankings m = rankings r) ∧
  (∀ k v, k ≠ js "pricing" → k ≠ js "rankings" → (k, v) ∈ es → obj_get k (flags m) = v) ∧
  (∀ k, k ∉ es.*1 → obj_get k (flags m) = obj_get k (flags r)).

#[export] Instance access_val_inj : Inj (=) (=) access_val.
Proof. intros [[] []] [[] []] H; done || (exfalso; revert H; vm_compute; discriminate). Qed.

Lemma elem_of_entries (k' k : jsstr) (v' v : jsval) es :
  (k', v') ∈ (k, v) :: es ↔ (k' = k ∧ v' = v) ∨ (k', v') ∈ es.
Proof. rewrite elem_of_cons. naive_solver. Qed.

Lemma pricing_not_rankings : js "pricing" ≠ js "rankings".
Proof. js_differ. Qed.

Lemma site_fold es r :
  NoDup (es.*1) → (∀ k v, (k, v) ∈ es → header_member k v ∧ k ≠ js "__proto__") →
  site_reads es r (fold_left apply_entry es r).
Proof.
  revert r. induction es as [|[k v] es IH]; intros r Hnd Hok.
  { split_and!; try done; intros; exfalso; by eapply not_elem_of_nil. }
  apply NoDup_cons in Hnd as [Hk Hnd]. cbn [fold_left]. destruct (Hok k v) as [Hv Hp]; [left|].
  destruct (IH (apply_entry r (k, v)) Hnd) as (I1 & I2 & I3 & I4 & I5 & I6); [intros; apply Hok; by right|].
  set (m := fold_left apply_entry es (apply_entry r (k, v))) in *. clearbody m. clear IH Hok Hnd.
  assert (∀ k' v', (k', v') ∈ es → k' ≠ k) as Hne.
  { intros k' v' Hin ->. apply Hk. by apply (list_elem_of_fmap_2 fst) in Hin. }
  destruct (site_entry r k v Hv Hp) as [(-> & a & -> & Heq)|[(-> & a & -> & Heq)|(Hk1 & Hk2 & Heq)]];
    rewrite Heq in I2, I4, I6; cbn [pricing rankings flags] in *.
  - split_and!.
    + intros a' [[_ H]|H]%elem_of_entries; [|by apply Hne in H]. rewrite I2 by done. by apply (inj access_val).
    + intros H. exfalso. apply H. left.
    + intros a' [[H _]|H]%elem_of_entries; [by apply symmetry, pricing_not_rankings in H|auto].
    + intros [_ H]%not_elem_of_cons. auto.
    + intros k' v' H1 H2 [[H3 _]|H]%elem_of_entries; [done|auto].
    + intros k' [_ H]%not_elem_of_cons. auto.
  - split_and!.
    + intros a' [[H _]|H]%elem_of_entries; [by apply pricing_not_rankings in H|auto].
    + intros [_ H]%not_elem_of_cons. auto.
    + intros a' [[_ H]|H]%elem_of_entries; [|by apply Hne in H]. rewrite I4 by done. by apply (inj access_val).
    + intros H. exfalso. apply H. left.
    + intros k' v' H1 H2 [[H3 _]|H]%elem_of_entries; [done|auto].
    + intros k' [_ H]%not_elem_of_cons. auto.
  - split_and!.
    + intros a' [[H _]|H]%elem_of_entries; [by subst k|auto].
    + intros [_ H]%not_elem_of_cons. auto.
    + intros a' [[H _]|H]%elem_of_entries; [by subst k|auto].
    + intros [_ H]%not_elem_of_cons. auto.
    + intros k' v' H1 H2 [[-> ->]|H]%elem_of_entries; [|auto]. rewrite I6 by done.
      rewrite obj_put_get. by rewrite decide_True.
    + intros k' [Hne' H]%not_elem_of_cons. rewrite I6 by done. rewrite obj_put_get. by rewrite decide_False.
Qed.

Lemma site_modules c :
  config_ok c →
  ∃ m, NavModules.parseHeaderNavModules (JStr (object_text c)) = Ok m ∧
       site_reads c cloneHeaderNavDefaults m.
Proof.
  intros Hc. destruct (config_text c (config_json_ok c Hc)) as [Hp [t Ht]].
  exists (fold_left apply_entry c cloneHeaderNavDefaults). split.
  - unfold NavModules.parseHeaderNavModules, parseHeaderNavRecord. cbn [to_str res_bind is_object_type].
    rewrite Hp. rewrite Ht. cbn [truthy is_empty negb]. rewrite trim_nonempty by done. done.
  - apply site_fold; [by apply config_NoDup|]. intros. by apply (ok_entries c).
Qed.

(** A member of a configuration on the site. *)
Lemma site_flag c m k :
  config_ok c → site_reads c cloneHeaderNavDefaults m → k ≠ js "pricing" → k ≠ js "rankings" →
  obj_get k (flags m) = obj_get k c.
Proof.
  intros Hc (_ & _ & _ & _ & H5 & H6) Hk1 Hk2. destruct (assoc_get k c) as [v|] eqn:E.
  - unfold obj_get at 2. rewrite E. apply H5; [done..|]. by apply assoc_get_Some_elem.
  - apply assoc_get_None in E as Hn. rewrite H6 by done.
    assert (assoc_get k (flags cloneHeaderNavDefaults) = None) as Hd.
    { apply assoc_get_None. intros Hin. apply Hn, Hc. revert Hin. vm_compute. set_solver. }
    unfold obj_get. by rewrite E, Hd.
Qed.

Lemma member_elem c k a :
  config_ok c → k ∈ header_names → obj_get k c = access_val a → (k, access_val a) ∈ c.
Proof.
  intros Hc Hk%(ok_names c Hc) Hg. apply list_elem_of_fmap_1 in Hk as ([k' v] & -> & Hin). cbn [fst] in *.
  unfold obj_get in Hg. rewrite (assoc_get_elem k' v) in Hg by (done || by apply config_NoDup). by subst v.
Qed.

(** *** What is read is well formed *)

Lemma put_member k v o k' v' : (k', v') ∈ obj_put k v o → (k', v') ∈ o ∨ (k' = k ∧ v' = v).
Proof.
  destruct (decide (k ∈ o.*1)) as [Hk|Hk]; [by apply put_elem|]. unfold obj_put. rewrite decide_False by done.
  destruct (array_index k) as [n|].
  - clear Hk. induction o as [|[k1 v1] o IH]; cbn [obj_insert_index].
    + intros [= -> ->]%list_elem_of_singleton. auto.
    + destruct (array_index k1); [destruct (_ <? _)|]; intros [[= -> ->]|Hin]%elem_of_cons;
        auto using list_elem_of_here. destruct (IH Hin); auto using list_elem_of_further.
  - intros [Hin|[= -> ->]%list_elem_of_singleton]%elem_of_app; auto.
Qed.

Lemma put_new_ok k v c :
  config_ok c → units k → k ≠ js "__proto__" → header_member k v → config_ok (obj_put k v c).
Proof.
  intros [H1 H2 H3 H4 H5] Hu Hp Hv. constructor.
  - by apply put_ordered.
  - apply forallb_forall. intros x Hx%list_elem_of_In%put_keys. destruct Hx as [->|Hx]; [done|].
    rewrite forallb_forall in H2. by apply H2, list_elem_of_In.
  - intros [?|?]%put_keys; congruence.
  - intros x Hx%H4. assert (assoc_get x (obj_put k v c) ≠ None) as Hn.
    { rewrite obj_put_assoc. case_decide; [done|]. rewrite assoc_get_None. auto. }
    destruct (decide (x ∈ (obj_put k v c).*1)) as [|Hni]; [done|]. by apply assoc_get_None in Hni.
  - intros k' v' [Hin|[-> ->]]%put_member; auto.
Qed.

Lemma entry_ok c k raw : config_ok c → units k → config_ok (apply_header_entry c (k, raw)).
Proof.
  intros Hc Hu. unfold apply_header_entry.
  destruct (decide (k = js "pricing")); [apply put_ok; [done|by apply header_name|apply member_access; by left]|].
  destruct (decide (k = js "rankings")); [apply put_ok; [done|by apply header_name|apply member_access; by right]|].
  assert (∀ b, config_ok (assign_prop k (JBool b) c)) as Hput.
  { intros b. unfold assign_prop. case_decide; [done|]. apply put_new_ok; [done..|].
    unfold header_member. rewrite decide_False by naive_solver. eauto. }
  destruct raw; auto.
Qed.

Lemma default_ok : config_ok HEADER_NAV_DEFAULT.
Proof.
  constructor; [vm_compute; reflexivity|vm_compute; reflexivity| |done|].
  - apply (bool_decide_unpack _). vm_compute. exact I.
  - intros k v Hin. unfold HEADER_NAV_DEFAULT in Hin.
    repeat (apply elem_of_entries in Hin as [[-> ->]|Hin];
            [(apply member_flag; vm_compute; reflexivity) || (apply member_access; auto)|]).
    by apply not_elem_of_nil in Hin.
Qed.

Lemma read_ok stored : Forall units (option_list stored) → config_ok (parseHeaderNavModules stored).
Proof.
  intros Hu. unfold parseHeaderNavModules. destruct stored as [[|x text]|]; [apply default_ok| |apply default_ok].
  apply Forall_inv in Hu. destruct (JSON_parse (x :: text)) as [w|] eqn:E; [|apply default_ok]. cbn [res_bind].
  destruct (entries w) as [es|] eqn:Ees; [|apply default_ok]. cbn [res_bind catch].
  pose proof (parsed_keys _ _ _ Hu E Ees) as Hk. pose proof default_ok as Hd. revert Hk Hd.
  unfold cloneHeaderNavDefault. generalize HEADER_NAV_DEFAULT. clear.
  induction es as [|[k raw] es IH]; intros c Hk Hc; [done|]. cbn [fold_left]. apply Forall_cons in Hk as [Hk Hks].
  apply IH; [done|]. by apply entry_ok.
Qed.

(** *** The form as it is shown *)

Lemma put_same k v o : NoDup o.*1 → assoc_get k o = Some v → obj_put k v o = o.
Proof.
  intros Hnd Hg. assert (k ∈ o.*1) as Hk by (apply assoc_get_Some_elem in Hg; by apply (list_elem_of_fmap_2 fst) in Hg).
  unfold obj_put. rewrite decide_True by done. clear Hnd Hk. induction o as [|[k1 v1] o IH]; [done|].
  cbn [assoc_get assoc_set] in *. case_decide; [by simplify_eq|]. by rewrite IH.
Qed.

Lemma member_at c k : config_ok c → k ∈ header_names → assoc_get k c = Some (obj_get k c) ∧ header_member k (obj_get k c).
Proof.
  intros Hc Hk%(ok_names c Hc). apply list_elem_of_fmap_1 in Hk as ([k' v] & -> & Hin). cbn [fst].
  unfold obj_get. rewrite (assoc_get_elem k' v) by (done || by apply config_NoDup). split; [done|]. by apply Hc.
Qed.

Lemma flag_at c (k : string) :
  config_ok c → bool_decide (js k ∈ header_names) = true →
  bool_decide (js k = js "pricing" ∨ js k = js "rankings") = false →
  assoc_get (js k) c = Some (JBool (bool_or true (obj_get (js k) c))).
Proof.
  intros Hc Hk Hn%bool_decide_eq_false. destruct (member_at c (js k) Hc (header_name k Hk)) as [-> Hm].
  unfold header_member in Hm. rewrite decide_False in Hm by done. by destruct Hm as [b ->].
Qed.

Lemma shown_payload c : config_ok c → header_payload c (toFormValues c) = c.
Proof.
  intros Hc. unfold header_payload. rewrite spread_id by apply wf_keysb_spec, Hc. pose proof (config_NoDup c Hc) as Hnd.
  destruct (member_at c (js "pricing") Hc) as [Hp _]; [by apply header_name|].
  destruct (member_at c (js "rankings") Hc) as [Hr _]; [by apply header_name|].
  destruct (config_access c (js "pricing") Hc) as [p Ep]; [auto|].
  destruct (config_access c (js "rankings") Hc) as [r Er]; [auto|]. unfold toFormValues. rewrite Ep, Er, !with_access_val.
  cbn [v_home v_console v_docs v_about pricingEnabled pricingRequireAuth rankingsEnabled rankingsRequireAuth].
  rewrite (put_same (js "home") _ c), (put_same (js "console") _ c), (put_same (js "docs") _ c), (put_same (js "about") _ c)
    by (done || by apply flag_at).
  rewrite Ep in Hp. rewrite Er in Hr.
  rewrite (put_same (js "pricing") _ c) by (done || (rewrite Hp; by destruct p as [[] []])).
  rewrite (put_same (js "rankings") _ c) by (done || (rewrite Hr; by destruct r as [[] []])). done.
Qed.

Lemma saved_reopens c v : config_ok c → open_header (Some (object_text (header_payload c v))) = v.
Proof.
  intros Hc. pose proof (payload_ok c v Hc) as Hp. pose proof (λ k, payload_get c v k Hc) as Hg.
  unfold open_header, toFormValues. rewrite !reread, !Hg by done. lit_decide. by destruct v as [[] [] [] [] [] [] [] []].
Qed.

Lemma unchanged_reopens c : config_ok c → open_header (Some (object_text c)) = toFormValues c.
Proof. intros Hc. unfold open_header, toFormValues. by rewrite !reread by done. Qed.


Definition stored_header : jsstr := replace_char 39 34 (js "{'blog':false,'home':'off','7':true}").
Definition sample_values : HeaderNavFormValues := MkValues true false true true false false true true.


(** The two readers differ on a number other than 0 and 1: the form shows such
    a switch as off, the site as on, and saving the form as shown stores nothing. *)
Example numeric_switch_stuck :
  let stored := replace_char 39 34 (js "{'docs':2}") in
  let v := open_header (Some stored) in
  v_docs v = false ∧ submit_header (Some stored) v = Some stored ∧
  ∃ m, NavModules.parseHeaderNavModules (JStr stored) = Ok m ∧ obj_get (js "docs") (flags m) = JBool true.
Proof.
  cbv zeta. split; [vm_compute; reflexivity|]. split; [vm_compute; reflexivity|].
  eexists. split; vm_compute; reflexivity.
Qed.

(** ** Saving a sidebar configuration *)

(** A section as the form edits it: switches, one of them for the section. *)
Record section_ok (s : object) : Prop := {
  section_keys : wf_keysb (s.*1) = true;
  section_units : forallb code_units (s.*1) = true;
  section_proto : js "__proto__" ∉ s.*1;
  section_enabled : js "enabled" ∈ s.*1;
  section_flags : ∀ k v, (k, v) ∈ s → ∃ b, v = JBool b;
}.

Record sidebar_ok (c : object) : Prop := {
  sidebar_keys : wf_keysb (c.*1) = true;
  sidebar_units : forallb code_units (c.*1) = true;
  sidebar_proto : js "__proto__" ∉ c.*1;
  sidebar_sections : ∀ k v, (k, v) ∈ c → ∃ s, v = JObj s ∧ section_ok s;
  sidebar_defaults : ∀ k ms, (k, JObj ms) ∈ SIDEBAR_MODULES_DEFAULT →
                       ∃ s, (k, JObj s) ∈ c ∧ ∀ m, m ∈ ms.*1 → m ∈ s.*1;
}.

Lemma section_json_ok s : section_ok s → json_ok (JObj s) = true.
Proof.
  intros [Hk Hu _ _ Hf]. cbn [json_ok]. rewrite Hk, Hu. cbn [andb]. apply forallb_forall.
  intros [k v] Hin%list_elem_of_In. apply Hf in Hin as [b ->]. done.
Qed.

Lemma sidebar_json_ok c : sidebar_ok c → json_ok (JObj c) = true.
Proof.
  intros [Hk Hu _ Hs _]. cbn [json_ok]. rewrite Hk, Hu. cbn [andb]. apply forallb_forall.
  intros [k v] Hin%list_elem_of_In. apply Hs in Hin as (s & -> & Hs'). by apply section_json_ok.
Qed.

(** *** Reading a section *)

Lemma section_fold d es cfg :
  (∀ k v, (k, v) ∈ es → k ≠ js "__proto__" ∧ ∃ b, v = JBool b) →
  ∀ m, obj_get m (fold_left (section_entry d) es cfg) =
       if decide (m = js "enabled") then obj_get m cfg
       else obj_get m (fold_left (λ acc kv, obj_put kv.1 kv.2 acc) es cfg).
Proof.
  intros H m. enough (∀ cfg', (m ≠ js "enabled" → obj_get m cfg = obj_get m cfg') →
    obj_get m (fold_left (section_entry d) es cfg) =
    if decide (m = js "enabled") then obj_get m cfg
    else obj_get m (fold_left (λ acc kv, obj_put kv.1 kv.2 acc) es cfg')) as Hgen by by apply Hgen.
  revert cfg. induction es as [|[k v] es IH]; intros cfg cfg' Heq; cbn [fold_left fst snd].
  { case_decide; auto. }
  destruct (H k v) as [Hk [b ->]]; [left|]. rewrite (IH ltac:(intros; apply H; by right) _ (obj_put k (JBool b) cfg')).
  - case_decide as Em; [|done]. subst m. unfold section_entry. case_decide; [done|]. unfold assign_prop.
    rewrite decide_False by done. rewrite obj_put_get. by rewrite decide_False by congruence.
  - intros Hm. unfold section_entry. rewrite obj_put_get. destruct (decide (k = js "enabled")) as [->|Ek].
    + rewrite decide_False by done. auto.
    + unfold assign_prop. rewrite decide_False by done. rewrite obj_put_get.
      destruct (decide (m = k)); [done|auto].
Qed.

Lemma section_NoDup s : section_ok s → NoDup (s.*1).
Proof. intros H. apply wf_keys_NoDup, wf_keysb_spec, H. Qed.

Lemma section_entries s k v : section_ok s → (k, v) ∈ s → k ≠ js "__proto__" ∧ ∃ b, v = JBool b.
Proof.
  intros Hs Hin. split; [|by eapply section_flags]. intros ->. apply (section_proto s Hs).
  by apply (list_elem_of_fmap_2 fst) in Hin.
Qed.

Lemma section_member s k : section_ok s → k ∈ s.*1 → ∃ b, obj_get k s = JBool b.
Proof.
  intros Hs Hk. apply list_elem_of_fmap_1 in Hk as ([k' v] & -> & Hin). cbn [fst].
  destruct (section_flags s Hs _ _ Hin) as [b ->]. exists b. unfold obj_get.
  by rewrite (assoc_get_elem k' (JBool b)) by (done || by apply section_NoDup).
Qed.

(** A typed section is read as it is. *)
Lemma parse_section_get key s m : section_ok s → obj_get m (parse_section key (JObj s)) = obj_get m s.
Proof.
  intros Hs. unfold parse_section. cbn [entries catch].
  rewrite section_fold by (intros; by eapply section_entries).
  destruct (section_member s (js "enabled") Hs (section_enabled s Hs)) as [b Hb].
  case_decide as Em.
  - subst m. rewrite Hb. unfold get_prop_opt. cbn [get_prop catch]. rewrite Hb. done.
  - rewrite fold_put_assoc by by apply section_NoDup. unfold obj_get at 2.
    destruct (assoc_get m s) as [v|] eqn:E; [done|].
    unfold obj_get. cbn [assoc_get]. by rewrite decide_False.
Qed.

(** *** Reading the sections *)

Lemma sidebar_NoDup c : sidebar_ok c → NoDup (c.*1).
Proof. intros H. apply wf_keys_NoDup, wf_keysb_spec, H. Qed.

Lemma read_sections_get es r k :
  (∀ k v, (k, v) ∈ es → k ≠ js "__proto__" ∧ ∃ s, v = JObj s) → NoDup (es.*1) →
  obj_get k (fold_left read_section es r) =
  match assoc_get k es with Some v => JObj (parse_section k v) | None => obj_get k r end.
Proof.
  revert r. induction es as [|[k1 v1] es IH]; intros r H Hnd; [done|].
  apply NoDup_cons in Hnd as [Hk Hnd]. cbn [fold_left assoc_get].
  destruct (H k1 v1) as [Hp [s ->]]; [left|]. rewrite IH; [|intros; apply H; by right|done].
  unfold read_section. cbn [truthy is_object_type andb]. unfold assign_prop. rewrite decide_False by done.
  rewrite obj_put_get. destruct (decide (k = k1)) as [->|Hne]; [|done].
  by rewrite (proj2 (assoc_get_None k1 es)).
Qed.

(** The defaults add nothing to a section that has them. *)
Lemma fill_present ms s : (∀ m, m ∈ ms.*1 → m ∈ s.*1) → fold_left fill_module ms s = s.
Proof.
  induction ms as [|[m v] ms IH]; intros H; [done|]. cbn [fold_left]. unfold fill_module at 2.
  rewrite decide_True by (left; apply H; left). apply IH. intros. apply H. by right.
Qed.

Lemma fill_sections_get ds r k :
  (∀ d ms, (d, JObj ms) ∈ ds → ∃ s, obj_get d r = JObj s ∧ ∀ m, m ∈ ms.*1 → m ∈ s.*1) →
  (∀ d v, (d, v) ∈ ds → ∃ ms, v = JObj ms) →
  obj_get k (fold_left fill_section ds r) = obj_get k r.
Proof.
  revert r. induction ds as [|[d v] ds IH]; intros r H Ho; [done|]. cbn [fold_left].
  destruct (Ho d v) as [ms ->]; [left|]. destruct (H d ms) as (s & Hs & Hm); [left|].
  assert (∀ k', obj_get k' (fill_section r (d, JObj ms)) = obj_get k' r) as Hget.
  { intros k'. unfold fill_section. rewrite Hs, fill_present by done. rewrite obj_put_get.
    case_decide; [by subst|done]. }
  rewrite IH; [apply Hget| |intros; eapply Ho; by right].
  intros d' ms' Hin. rewrite Hget. apply H. by right.
Qed.

Lemma default_sections d v : (d, v) ∈ SIDEBAR_MODULES_DEFAULT → ∃ ms, v = JObj ms.
Proof.
  unfold SIDEBAR_MODULES_DEFAULT, sidebar_with, SIDEBAR_SECTIONS. cbn [map]. intros Hin.
  repeat (apply elem_of_entries in Hin as [[_ ->]|Hin]; [eauto|]). by apply not_elem_of_nil in Hin.
Qed.

Lemma obj_get_flag k o b : obj_get k o = JBool b → k ∈ o.*1.
Proof.
  unfold obj_get. destruct (assoc_get k o) as [v|] eqn:E; [|by case_decide].
  intros ->. by apply assoc_get_Some_elem, (list_elem_of_fmap_2 fst) in E.
Qed.

Lemma section_at c k s : sidebar_ok c → (k, JObj s) ∈ c → assoc_get k c = Some (JObj s) ∧ section_ok s.
Proof.
  intros Hc Hin. split; [apply assoc_get_elem; [by apply sidebar_NoDup|done]|].
  by destruct (sidebar_sections c Hc _ _ Hin) as (s' & [= <-] & Hs).
Qed.

(** The administrator's reader gives every switch of a saved configuration. *)
Lemma sidebar_reread c k s m :
  sidebar_ok c → (k, JObj s) ∈ c →
  ∃ s', obj_get k (parseSidebarModulesAdmin (Some (object_text c))) = JObj s' ∧ obj_get m s' = obj_get m s.
Proof.
  intros Hc Hin. destruct (config_text c (sidebar_json_ok c Hc)) as [Hp [t Ht]].
  unfold parseSidebarModulesAdmin. rewrite Hp. rewrite Ht, trim_nonempty by done. cbn [entries res_bind catch].
  assert (∀ k v, (k, v) ∈ c → k ≠ js "__proto__" ∧ ∃ s, v = JObj s) as Hes.
  { intros k' v Hin'. split; [|destruct (sidebar_sections c Hc _ _ Hin') as (s' & -> & _); eauto].
    intros ->. apply (sidebar_proto c Hc). by apply (list_elem_of_fmap_2 fst) in Hin'. }
  assert (∀ k s, (k, JObj s) ∈ c → obj_get k (fold_left read_section c []) = JObj (parse_section k (JObj s))) as Hget.
  { intros k' s' Hin'. rewrite read_sections_get by (done || by apply sidebar_NoDup).
    by destruct (section_at c k' s' Hc Hin') as [-> _]. }
  unfold cloneSidebarDefault. rewrite fill_sections_get; [|..|by apply default_sections].
  - exists (parse_section k (JObj s)). split; [by apply Hget|].
    apply parse_section_get. by eapply section_at.
  - intros d ms Hd. destruct (sidebar_defaults c Hc d ms Hd) as (s' & Hs' & Hms).
    exists (parse_section d (JObj s')). split; [by apply Hget|]. intros m' Hm'.
    destruct (section_at c d s' Hc Hs') as [_ Hok]. destruct (section_member s' m' Hok (Hms m' Hm')) as [b Hb].
    apply (obj_get_flag m' _ b). by rewrite parse_section_get.
Qed.

(** What a configuration says of a module: off when the section or the module is. *)
Definition switched_on (c : object) (section module : jsstr) : bool :=
  match assoc_get section c with
  | Some (JObj s) => negb (is_false (obj_get (js "enabled") s)) && negb (is_false (obj_get module s))
  | _ => true
  end.

Lemma guard_reads storage st c section module :
  sidebar_ok c → getCachedStatus storage = JObj st →
  obj_get (js "SidebarModulesAdmin") st = JStr (object_text c) →
  isSidebarModuleEnabled storage section module = Ok (switched_on c section module).
Proof.
  intros Hc Hst Hraw. destruct (config_text c (sidebar_json_ok c Hc)) as [Hp [t Ht]].
  unfold isSidebarModuleEnabled. rewrite Hst. cbn [truthy negb get_prop res_bind]. rewrite Hraw.
  cbn [to_str res_bind]. rewrite Hp. rewrite Ht. cbn [truthy is_empty negb]. rewrite trim_nonempty by done. f_equal.
  cbn [res_bind get_prop]. unfold switched_on. destruct (assoc_get section c) as [v|] eqn:E.
  - destruct (sidebar_sections c Hc section v) as (s & -> & Hs); [by apply assoc_get_Some_elem|].
    assert (obj_get section c = JObj s) as -> by (unfold obj_get; by rewrite E).
    cbn [res_bind truthy negb get_prop].
    destruct (is_false (obj_get (js "enabled") s)); [done|]. by destruct (is_false (obj_get module s)).
  - assert (obj_get section c = JUndef ∨ obj_get section c = JFun section) as [-> | ->]
      by (unfold obj_get; rewrite E; case_decide; auto); cbn [res_bind truthy negb get_prop]; [done|].
    by repeat case_decide.
Qed.

(** Saving the sidebar form reaches the visitors: for the text stored by a
    submission, the route guard lets a module through exactly when neither its
    section nor the module is switched off in the form, and opening the form
    again shows every switch as it was saved. *)
Theorem sidebar_save_reaches_site (c : object) (init t : jsstr) (storage : Storage) (st : object)
    (Hc : sidebar_ok c) (Hs : sidebar_submit c init = Some t)
    (Hst : getCachedStatus storage = JObj st) (Hraw : obj_get (js "SidebarModulesAdmin") st = JStr t) :
  (∀ section module, isSidebarModuleEnabled storage section module = Ok (switched_on c section module)) ∧
  ∀ k s m, (k, JObj s) ∈ c →
    ∃ s', obj_get k (parseSidebarModulesAdmin (Some t)) = JObj s' ∧ obj_get m s' = obj_get m s.
Proof.
  unfold sidebar_submit in Hs. case_decide; [done|]. injection Hs as <-. unfold serializeSidebarModulesAdmin in *.
  split; [intros; by apply (guard_reads storage st)|intros; by apply sidebar_reread].
Qed.

(** Every configuration that the switches of the form can reach. *)
Lemma form_sidebar_ok f : sidebar_ok (sidebar_with f).
Proof.
  assert (∀ s, s ∈ SIDEBAR_SECTIONS → section_ok (map (λ m, (js m, JBool (f s.1 m))) s.2)) as Hsec.
  { intros s Hs. unfold SIDEBAR_SECTIONS in Hs.
    repeat (apply elem_of_cons in Hs as [->|Hs]; [|]); [..|by apply not_elem_of_nil in Hs];
      (constructor; [vm_compute; reflexivity|vm_compute; reflexivity
        |apply (bool_decide_unpack _); vm_compute; exact I|left|]);
      intros k v (m & [= _ ->] & _)%list_elem_of_fmap_1; eauto. }
  constructor; [vm_compute; reflexivity|vm_compute; reflexivity
    |apply (bool_decide_unpack _); vm_compute; exact I|..].
  - intros k v (s & [= _ ->] & Hs)%list_elem_of_fmap_1. eauto.
  - intros k ms (s & [= -> ->] & Hs)%list_elem_of_fmap_1.
    exists (map (λ m, (js m, JBool (f s.1 m))) s.2). split.
    + by apply (list_elem_of_fmap_2 (λ s, (js s.1, JObj (map (λ m, (js m, JBool (f s.1 m))) s.2)))) in Hs.
    + intros m. by rewrite <-!list_fmap_compose.
Qed.

(** The usage logs switched off. *)
Definition sample_sidebar : object := sidebar_with (λ s m, negb (String.eqb s "console" && String.eqb m "log")).
Definition sample_status : object := [(js "SidebarModulesAdmin", JStr (object_text sample_sidebar))].
Definition sample_storage : Storage := Store (Ok (Some (object_text sample_status))) true.

Lemma sidebar_save_reaches_site_witness :
  switched_on sample_sidebar (js "console") (js "log") = false ∧
  (∀ section module, isSidebarModuleEnabled sample_storage section module =
                     Ok (switched_on sample_sidebar section module)) ∧
  ∀ k s m, (k, JObj s) ∈ sample_sidebar →
    ∃ s', obj_get k (parseSidebarModulesAdmin (Some (object_text sample_sidebar))) = JObj s' ∧
          obj_get m s' = obj_get m s.
Proof.
  split; [vm_compute; reflexivity|].
  apply (sidebar_save_reaches_site sample_sidebar [] (object_text sample_sidebar) sample_storage sample_status);
    [apply form_sidebar_ok|vm_compute; reflexivity|vm_compute; reflexivity|vm_compute; reflexivity].
Defined.

End SiteSettings.
