(* ===== verification/JsonParser.v ===== *)
(** * Lenient JSON parsing of options

    [features/system-settings/utils/json-parser.ts]: reading option values that
    may be empty or malformed, and locating a syntax error in the text.  The
    message of a syntax error is the engine's: the parameter [parse_error].
    The messages written to the console in development are not modelled. *)

From stdpp Require Import base list strings.
From Stdlib Require Import ZArith Lia.
From S2P Require Import Prelude JsString JsNumber JsValue JsJson JsRegex.
#[local] Open Scope Z_scope.

Module JsonParser.

(** ** Locating an error *)

Record JsonErrorPosition := MkPosition {
  line : option Z;
  column : option Z;
  position : option Z;
}.

(** [text.substring(0, position).split('\n')]: the number of lines, and the
    length of the last one plus one. *)
Definition getLineAndColumn (text : jsstr) (position : Z) : Z * Z :=
  let lines := split_char 10 (take (Z.to_nat position) text) in
  (Z.of_nat (length lines), Z.of_nat (length (default [] (last lines))) + 1).

(** A text in either case. *)
Fixpoint ci_chars (w : jsstr) : regex :=
  match w with
  | [] => Eps
  | c :: w => Chr (λ x, (x =? c) || ((97 <=? c) && (c <=? 122) && (x =? c - 32))) · ci_chars w
  end.
Definition ci (s : string) : regex := ci_chars (js s).
Definition digits (n : nat) : regex := Group n (Plus (Chr is_digit)).

(** [/at position (\d+)/i] and [/at line (\d+) column (\d+)/i] *)
Definition POSITION_REGEX : regex := ci "at position " · digits 1.
Definition LINE_REGEX : regex := ci "at line " · digits 1 · ci " column " · digits 2.

Definition group_value (n : nat) (m : captures) : Z := dec_value (default [] (cap n m)).

(** [message]: [None] when what was thrown is no [Error]. *)
Definition extractErrorPosition (message : option jsstr) (jsonString : jsstr) : JsonErrorPosition :=
  match message with
  | None => MkPosition None None None
  | Some message =>
      match match_re POSITION_REGEX message with
      | Some m =>
          let position := group_value 1 m in
          let '(line, column) := getLineAndColumn jsonString position in
          MkPosition (Some line) (Some column) (Some position)
      | None =>
          match match_re LINE_REGEX message with
          | Some m => MkPosition (Some (group_value 1 m)) (Some (group_value 2 m)) None
          | None => MkPosition None None None
          end
      end
  end.

Definition isMissingCommaError (message : jsstr) : bool :=
  includes (js "Expected ','") message || includes (js "Expected property name") message ||
  includes (js "Unexpected string") message.

Definition formatErrorDescription (message : option jsstr) (jsonString : jsstr) : option jsstr :=
  match message with
  | None => None
  | Some msg =>
      let p := extractErrorPosition message jsonString in
      let l := default 0 (line p) in
      let c := default 0 (column p) in
      if negb (l =? 0) && negb (c =? 0) then
        let hint := if isMissingCommaError msg && (1 <? l)
                    then js " (check line " ++ Z_to_str (l - 1) ++ js " for missing comma)" else [] in
        Some (js "Error at line " ++ Z_to_str l ++ js ", column " ++ Z_to_str c ++ js ": " ++ msg ++ hint)
      else match position p with
           | Some q => Some (js "Error at position " ++ Z_to_str q ++ js ": " ++ msg)
           | None => Some msg
           end
  end.

(** ** Parsing *)

(** [!value || value.trim() === ''] *)
Definition blank (value : option jsstr) : bool :=
  match value with Some s => is_empty (trim s) | None => true end.

(** [fallback] is [JUndef] when it is left out. *)
Definition safeJsonParse (value : option jsstr) (fallback : jsval) : jsval :=
  if blank value then js_coalesce fallback JNull
  else catch (JSON_parse (trim (default [] value))) (js_coalesce fallback JNull).

Definition safeJsonParseWithValidation (value : option jsstr) (fallback : jsval) (validator : jsval → bool)
    : jsval :=
  let parsed := safeJsonParse value fallback in
  if negb (validator parsed) then fallback else parsed.

Section errors.
Context (parse_error : jsstr → jsstr).

Definition tryJsonParse (value : option jsstr) : jsval + jsstr :=
  if blank value then inr (js "Empty value")
  else let text := trim (default [] value) in
       match JSON_parse text with Ok data => inl data | Throw => inr (parse_error text) end.

(** ** Theorems *)

(** The two readers agree: a value is read exactly when the strict reader
    reads it, and otherwise the fallback is given. *)
Theorem safe_parse_agrees (value : option jsstr) (fallback : jsval) :
  safeJsonParse value fallback =
  match tryJsonParse value with inl data => data | inr _ => js_coalesce fallback JNull end.
Proof. unfold safeJsonParse, tryJsonParse. case_match; [done|]. by destruct (JSON_parse _). Qed.
End errors.

Lemma split_lines_length s :
  (fold_right (λ w n, length w + n) 0 (split_char 10 s) + length (split_char 10 s) = length s + 1)%nat.
Proof.
  induction s as [|a s IH]; [done|]. cbn [split_char]. case_match; cbn [fold_right length]; [lia|].
  destruct (split_char 10 s) as [|w ws] eqn:E; cbn [fold_right length] in *; lia.
Qed.

Lemma last_line s : ∃ ls w, split_char 10 s = ls ++ [w] ∧ last (split_char 10 s) = Some w.
Proof.
  destruct (split_char 10 s) as [|w ws] eqn:E using rev_ind; [by apply split_char_nonempty in E|].
  exists ws, w. by rewrite last_snoc.
Qed.

(** The place reported for an error is the place: the text before it consists
    of the lines before the reported line, their line ends, and one character
    less than the reported column. *)
Theorem line_column_exact (text : jsstr) (position : nat) :
  (position ≤ length text)%nat →
  ∃ ls w, split_char 10 (take position text) = ls ++ [w] ∧
    getLineAndColumn text (Z.of_nat position) = (Z.of_nat (length ls) + 1, Z.of_nat (length w) + 1) ∧
    (fold_right (λ w n, length w + 1 + n) 0 ls + length w = position)%nat.
Proof.
  intros Hp. destruct (last_line (take position text)) as (ls & w & Hs & Hl). exists ls, w.
  split; [done|]. unfold getLineAndColumn. rewrite Nat2Z.id, Hl, Hs, length_app. cbn [length default from_option].
  unfold Datatypes.id. split; [f_equal; lia|].
  pose proof (split_lines_length (take position text)) as Hsum. rewrite Hs, length_app, length_take_le in Hsum by done.
  clear -Hsum. assert (∀ m, fold_right (λ w n, length w + n) 0 (ls ++ [w]) + length ls = m →
    fold_right (λ w n, length w + 1 + n) 0 ls + length w = m)%nat as H.
  { clear Hsum. induction ls as [|l ls IH]; intros m Hm; cbn in *; [lia|].
    specialize (IH (m - length l - 1)%nat). lia. }
  apply H. cbn [length] in Hsum. lia.
Qed.

End JsonParser.
