(* ===== verification/ParamOverride.v ===== *)
(** * The parameter override editor: data, parsing and building

    [features/channels/components/dialogs/param-override-editor-dialog.tsx]:
    rules that rewrite the parameters of a relayed request.  This file holds the
    data of the editor and the functions between the stored JSON text and the
    rules: reading ([normalizeOperation], [parseInitialState]), checking
    ([validateOperations]), writing ([buildOperationsJson]), and the drafts of
    the two structured values ([return_error] and [prune_objects]).

    Identifiers come from a counter shared by the whole module: the functions
    that create them are written in [IdM], which threads the counter and keeps
    it when they throw.  The clock is a parameter. *)

From stdpp Require Import base list strings sets.
From Stdlib Require Import ZArith Lia SpecFloat.
From S2P Require Import Prelude JsString JsNumber JsValue JsJson.
#[local] Open Scope Z_scope.

Module ParamOverride.

(** ** Data *)

Record ParamOverrideCondition := MkCondition {
  c_id : jsstr;
  c_path : jsstr;
  c_mode : jsstr;
  c_value_text : jsstr;
  c_invert : bool;
  c_pass_missing_key : bool;
}.

Record ParamOverrideOperation := MkOperation {
  id : jsstr;
  description : jsstr;
  path : jsstr;
  mode : jsstr;
  from : jsstr;
  to : jsstr;
  value_text : jsstr;
  keep_origin : bool;
  logic : jsstr;
  conditions : list ParamOverrideCondition;
}.

#[export] Instance condition_eq_dec : EqDecision ParamOverrideCondition.
Proof. solve_decision. Defined.

#[export] Instance operation_eq_dec : EqDecision ParamOverrideOperation.
Proof. solve_decision. Defined.

(** ** Modes *)

Definition OPERATION_MODE_OPTIONS : list (string * string) :=
  [("Set Field", "set"); ("Delete Field", "delete"); ("Append to End", "append");
   ("Prepend to Start", "prepend"); ("Copy Field", "copy"); ("Move Field", "move");
   ("String Replace", "replace"); ("Regex Replace", "regex_replace"); ("Trim Prefix", "trim_prefix");
   ("Trim Suffix", "trim_suffix"); ("Ensure Prefix", "ensure_prefix"); ("Ensure Suffix", "ensure_suffix");
   ("Trim Space", "trim_space"); ("To Lowercase", "to_lower"); ("To Uppercase", "to_upper");
   ("Return Custom Error", "return_error"); ("Prune Object Items", "prune_objects");
   ("Pass Through Headers", "pass_headers"); ("Sync Fields", "sync_fields");
   ("Set Request Header", "set_header"); ("Delete Request Header", "delete_header");
   ("Copy Request Header", "copy_header"); ("Move Request Header", "move_header")]%string.

Definition OPERATION_MODE_VALUES : list jsstr := map (λ o, js o.2) OPERATION_MODE_OPTIONS.

Definition OPERATION_MODE_LABEL_MAP : list (jsstr * jsstr) :=
  map (λ o, (js o.2, js o.1)) OPERATION_MODE_OPTIONS.

Definition CONDITION_MODE_VALUES : list jsstr :=
  map js ["full"; "prefix"; "suffix"; "contains"; "gt"; "gte"; "lt"; "lte"]%string.

(** The fields a mode uses. *)
Record ModeMeta := MkMeta {
  m_path : bool;
  m_pathOptional : bool;
  m_value : bool;
  m_from : bool;
  m_to : bool;
  m_keepOrigin : bool;
  m_pathAlias : bool;
}.

Definition meta_path : ModeMeta := MkMeta true false false false false false false.
Definition meta_path_value : ModeMeta := MkMeta true false true false false false false.
Definition meta_write : ModeMeta := MkMeta true false true false false true false.
Definition meta_from_to : ModeMeta := MkMeta false false false true true false false.
Definition meta_replace : ModeMeta := MkMeta true false false true false false false.
Definition meta_header_move : ModeMeta := MkMeta false false false true true true true.

Definition MODE_META : list (jsstr * ModeMeta) :=
  map (λ o : string * ModeMeta, (js o.1, o.2))
    [("delete", meta_path); ("set", meta_write); ("append", meta_write); ("prepend", meta_write);
     ("copy", meta_from_to); ("move", meta_from_to); ("replace", meta_replace);
     ("regex_replace", meta_replace); ("trim_prefix", meta_path_value); ("trim_suffix", meta_path_value);
     ("ensure_prefix", meta_path_value); ("ensure_suffix", meta_path_value); ("trim_space", meta_path);
     ("to_lower", meta_path); ("to_upper", meta_path);
     ("return_error", MkMeta false false true false false false false);
     ("prune_objects", MkMeta false true true false false false false);
     ("pass_headers", MkMeta false false true false false true false);
     ("sync_fields", meta_from_to); ("set_header", meta_write); ("delete_header", meta_path);
     ("copy_header", meta_header_move); ("move_header", meta_header_move)]%string.

(** [MODE_META[mode] || MODE_META.set]; a mode is never the name of an inherited
    member. *)
Definition meta_of (mode : jsstr) : ModeMeta := default meta_write (assoc_get mode MODE_META).

Definition VALUE_REQUIRED_MODES : list jsstr :=
  map js ["trim_prefix"; "trim_suffix"; "ensure_prefix"; "ensure_suffix"; "set_header"; "return_error";
          "prune_objects"; "pass_headers"]%string.

Definition FROM_REQUIRED_MODES : list jsstr :=
  map js ["copy"; "move"; "replace"; "regex_replace"; "copy_header"; "move_header"; "sync_fields"]%string.

Definition TO_REQUIRED_MODES : list jsstr :=
  map js ["copy"; "move"; "copy_header"; "move_header"; "sync_fields"]%string.

(** ** Values *)

Definition toValueText (value : jsval) : jsstr :=
  match value with
  | JUndef => []
  | JStr s => s
  | v => default (js "undefined") (JSON_stringify v)
  end.

Definition parseLooseValue (valueText : jsstr) : jsval :=
  let raw := trim valueText in
  if is_empty raw then JStr [] else catch (JSON_parse raw) (JStr raw).

Definition verifyJSON (text : jsstr) : bool := match JSON_parse text with Ok _ => true | Throw => false end.

(** [s.toUpperCase()] on the letters a to z; the result is only compared with
    ASCII words that no other character is upper-cased into. *)
Definition to_upper (s : jsstr) : jsstr :=
  map (λ c, if (97 <=? c) && (c <=? 122) then c - 32 else c) s.

Definition AND : jsstr := js "AND".
Definition OR : jsstr := js "OR".

(** ** Computations that make identifiers *)

Definition IdM (A : Type) : Type := nat → res A * nat.

Definition ret {A} (x : A) : IdM A := λ n, (Ok x, n).

Definition bind {A B} (m : IdM A) (k : A → IdM B) : IdM B :=
  λ n, match m n with (Ok x, n') => k x n' | (Throw, n') => (Throw, n') end.

(** A computation that makes none. *)
Definition lift {A} (r : res A) : IdM A := λ n, (r, n).

(** [try { return m } catch { return dflt }] *)
Definition attempt {A} (m : IdM A) (dflt : A) : IdM A := λ n, let r := m n in (Ok (catch r.1 dflt), r.2).

Notation "'let!' x ':=' c 'in' k" := (bind c (λ x, k))
  (at level 10, x pattern, c at level 100, k at level 200) : js_scope.

Section identifiers.
(** The clock when the [n]-th identifier is made. *)
Context (now : nat → Z).

Definition nextLocalId (n : nat) : jsstr :=
  js "po_" ++ Z_to_str (now n) ++ js "_" ++ Z_to_str (Z.of_nat n).

Definition fresh : IdM jsstr := λ n, (Ok (nextLocalId n), S n).

(** ** Reading *)

(** [typeof v.k === 'string' ? v.k : ''] *)
Definition str_field (k : string) (v : jsval) : res jsstr :=
  res_map (λ x, match x with JStr s => s | _ => [] end) (get_prop (js k) v).

Definition true_field (k : string) (v : jsval) : res bool := res_map is_true (get_prop (js k) v).

(** [set.has(v.k) ? v.k : dflt] *)
Definition mode_field (modes : list jsstr) (dflt : jsstr) (v : jsval) : res jsstr :=
  res_map (λ x, match x with JStr s => if decide (s ∈ modes) then s else dflt | _ => dflt end)
    (get_prop (js "mode") v).

Definition normalizeCondition (condition : jsval) : IdM ParamOverrideCondition :=
  let! id := fresh in
  lift (let* path := str_field "path" condition in
        let* mode := mode_field CONDITION_MODE_VALUES (js "full") condition in
        let* value := get_prop (js "value") condition in
        let* invert := true_field "invert" condition in
        let* pass := true_field "pass_missing_key" condition in
        Ok (MkCondition id path mode (toValueText value) invert pass)).

(** [l.map(f)] *)
Fixpoint map_ids {A B} (f : A → IdM B) (l : list A) : IdM (list B) :=
  match l with
  | [] => ret []
  | x :: l' =>
      let! y := f x in
      let! ys := map_ids f l' in
      ret (y :: ys)
  end.

Definition logic_field (v : jsval) : res jsstr :=
  let* l := get_prop (js "logic") v in
  let* text := to_str (js_or l (JStr OR)) in
  Ok (if decide (to_upper text = AND) then AND else OR).

Definition normalizeOperation (operation : jsval) : IdM ParamOverrideOperation :=
  let! id := fresh in
  let! head :=
    lift (let* description := str_field "description" operation in
          let* path := str_field "path" operation in
          let* mode := mode_field OPERATION_MODE_VALUES (js "set") operation in
          let* value := get_prop (js "value") operation in
          let* keep := true_field "keep_origin" operation in
          let* from := str_field "from" operation in
          let* to := str_field "to" operation in
          let* logic := logic_field operation in
          let* cs := get_prop (js "conditions") operation in
          Ok (MkOperation id description path mode from to (toValueText value) keep logic, cs)) in
  let! conditions := match head.2 with JArr l => map_ids normalizeCondition l | _ => ret [] end in
  ret (head.1 conditions).

Definition createDefaultCondition : IdM ParamOverrideCondition :=
  let! id := fresh in ret (MkCondition id [] (js "full") [] false false).

Definition createDefaultOperation : IdM ParamOverrideOperation :=
  let! id := fresh in ret (MkOperation id [] [] (js "set") [] [] [] false OR []).

(** ** The list of rules *)

Fixpoint find_index {A} (p : A → bool) (l : list A) : option nat :=
  match l with [] => None | x :: l' => if p x then Some 0%nat else S <$> find_index p l' end.

Inductive Position := Before | After.

Definition has_id (i : jsstr) (o : ParamOverrideOperation) : bool := bool_decide (id o = i).

Definition reorderOperations (ops : list ParamOverrideOperation) (sourceId targetId : jsstr)
    (position : Position) : list ParamOverrideOperation :=
  if is_empty sourceId || is_empty targetId || bool_decide (sourceId = targetId) then ops
  else match find_index (has_id sourceId) ops with
       | None => ops
       | Some srcIdx =>
           match ops !! srcIdx with
           | None => ops
           | Some moved =>
               let next := delete srcIdx ops in
               match find_index (has_id targetId) next with
               | None => ops
               | Some j =>
                   let insertIdx := match position with After => S j | Before => j end in
                   take insertIdx next ++ moved :: drop insertIdx next
               end
           end
       end.

Definition isConditionUsed (c : ParamOverrideCondition) : bool :=
  negb (is_empty (trim (c_path c))) || negb (is_empty (trim (c_value_text c))) ||
  negb (bool_decide (c_mode c = js "full")) || c_invert c || c_pass_missing_key c.

Definition isOperationBlank (o : ParamOverrideOperation) : bool :=
  bool_decide (mode o = js "set") && is_empty (trim (path o)) && is_empty (trim (from o)) &&
  is_empty (trim (to o)) && is_empty (trim (value_text o)) && negb (keep_origin o) &&
  negb (existsb isConditionUsed (conditions o)).

(** [a || b || '-'] *)
Definition first_text (l : list jsstr) : jsstr :=
  default (js "-") (head (base.filter (λ s, is_empty s = false) l)).

Definition getOperationSummary (o : ParamOverrideOperation) (index : nat) : jsstr :=
  let m := if is_empty (mode o) then js "set" else mode o in
  let modeLabel := first_text [default [] (assoc_get m OPERATION_MODE_LABEL_MAP); m] in
  let texts := if decide (m = js "sync_fields") then [trim (from o); trim (to o)]
               else [trim (path o); trim (from o); trim (to o)] in
  Z_to_str (Z.of_nat index + 1) ++ js ". " ++ modeLabel ++ js " · " ++ first_text texts.

(** ** Targets of [sync_fields] *)

Definition parseSyncTargetSpec (spec : jsstr) : jsstr * jsstr :=
  let raw := trim spec in
  if is_empty raw then (js "json", [])
  else match index_of [58] raw with
       | None => (js "json", raw)
       | Some idx =>
           let prefix := to_lower (trim (take idx raw)) in
           let key := trim (drop (S idx) raw) in
           if decide (prefix = js "header") then (js "header", key) else (js "json", key)
       end.

Definition buildSyncTargetSpec (type key : jsstr) : jsstr :=
  let normalizedType := if decide (type = js "header") then js "header" else js "json" in
  let normalizedKey := trim key in
  if is_empty normalizedKey then [] else normalizedType ++ js ":" ++ normalizedKey.

(** ** The value of [return_error] *)

Record ReturnErrorDraft := MkErrorDraft {
  e_message : jsstr;
  e_statusCode : num;
  e_code : jsstr;
  e_type : jsstr;
  e_skipRetry : bool;
  e_simpleMode : bool;
}.

Definition status_or_400 (x : num) : num :=
  if is_integer x && num_leb (num_of_Z 100) x && num_leb x (num_of_Z 599) then x else num_of_Z 400.

Definition default_error_draft : ReturnErrorDraft := MkErrorDraft [] (num_of_Z 400) [] [] true true.

(** [String(v.k || '').trim()] *)
Definition text_field (k : string) (v : jsval) : res jsstr :=
  let* x := get_prop (js k) v in res_map trim (to_str (js_or x (JStr []))).

Definition read_error_draft (parsed : jsval) : res ReturnErrorDraft :=
  let* status_code := get_prop (js "status_code") parsed in
  let* status := get_prop (js "status") parsed in
  let* statusValue := to_num (if is_undef status_code then status else status_code) in
  let* m := get_prop (js "message") parsed in
  let* msg := get_prop (js "msg") parsed in
  let* message := to_str (js_or (js_or m msg) (JStr [])) in
  let* code := text_field "code" parsed in
  let* type := text_field "type" parsed in
  let* skip := get_prop (js "skip_retry") parsed in
  Ok (MkErrorDraft (trim message) (status_or_400 statusValue) code type (negb (is_false skip)) false).

(** A text that is no JSON object, or an object whose members cannot be
    converted to text, is the message. *)
Definition parseReturnErrorDraft (valueText : jsstr) : ReturnErrorDraft :=
  let raw := trim valueText in
  let plain := MkErrorDraft raw (num_of_Z 400) [] [] true true in
  if is_empty raw then default_error_draft
  else match JSON_parse raw with
       | Ok (JObj o) => catch (read_error_draft (JObj o)) plain
       | _ => plain
       end.

Definition buildReturnErrorValueText (d : ReturnErrorDraft) : jsstr :=
  let message := trim (e_message d) in
  if e_simpleMode d then message
  else
    let payload := [(js "message", JStr message); (js "status_code", JNum (status_or_400 (e_statusCode d)))] in
    let code := trim (e_code d) in
    let type := trim (e_type d) in
    let payload := if is_empty code then payload else obj_put (js "code") (JStr code) payload in
    let payload := if is_empty type then payload else obj_put (js "type") (JStr type) payload in
    let payload := if e_skipRetry d then payload else obj_put (js "skip_retry") (JBool false) payload in
    toValueText (JObj payload).

(** ** The value of [prune_objects] *)

(** A rule of the draft has the members of a condition. *)
Record PruneObjectsDraft := MkPruneDraft {
  p_simpleMode : bool;
  p_typeText : jsstr;
  p_logic : jsstr;
  p_recursive : bool;
  p_rules : list ParamOverrideCondition;
}.

Definition default_prune_draft : PruneObjectsDraft := MkPruneDraft true [] AND true [].

Definition normalizePruneRule (rule : jsval) : IdM ParamOverrideCondition :=
  let! id := fresh in
  lift (let* path := str_field "path" rule in
        let* mode := mode_field CONDITION_MODE_VALUES (js "full") rule in
        let* value := get_prop (js "value") rule in
        let* invert := true_field "invert" rule in
        let* pass := true_field "pass_missing_key" rule in
        Ok (MkCondition id path mode (toValueText value) invert pass)).

(** The rules of an object that maps paths to values. *)
Definition path_rule (entry : jsstr * jsval) : IdM ParamOverrideCondition :=
  let! id := fresh in ret (MkCondition id entry.1 (js "full") (toValueText entry.2) false false).

Definition object_rules (v : jsval) : IdM (list ParamOverrideCondition) :=
  match v with JObj es => map_ids path_rule es | _ => ret [] end.

(** The members of [conditions]: an array of rules (what is no object is
    skipped) or an object that maps paths to values. *)
Definition condition_rules (v : jsval) : IdM (list ParamOverrideCondition) :=
  match v with
  | JArr l => map_ids normalizePruneRule (base.filter (λ x, truthy x && is_object_type x = true) l)
  | _ => object_rules v
  end.

Definition prune_logic (v : jsval) : res jsstr :=
  let* text := to_str (js_or v (JStr AND)) in
  Ok (if decide (to_upper text = OR) then OR else AND).

Definition parsePruneObjectsDraft (valueText : jsstr) : IdM PruneObjectsDraft :=
  let raw := trim valueText in
  let plain text := MkPruneDraft true text AND true [] in
  if is_empty raw then ret default_prune_draft
  else match JSON_parse raw with
       | Throw => ret (plain raw)
       | Ok (JStr s) => ret (plain (trim s))
       | Ok (JObj o) =>
           attempt
             (let! whereRules := object_rules (obj_get (js "where") o) in
              let! conditionRules := condition_rules (obj_get (js "conditions") o) in
              lift
                (let type := obj_get (js "type") o in
                 let* typeText := if is_undef type then Ok [] else res_map trim (to_str type) in
                 let* logic := prune_logic (obj_get (js "logic") o) in
                 let hasAdvancedFields := existsb (λ k, negb (is_undef (obj_get (js k) o)))
                                            ["logic"; "recursive"; "where"; "conditions"]%string in
                 Ok (MkPruneDraft (negb hasAdvancedFields) typeText logic
                       (negb (is_false (obj_get (js "recursive") o))) (whereRules ++ conditionRules))))
             (plain raw)
       | Ok v => attempt (lift (res_map (λ s, plain (trim s)) (to_str (js_coalesce v (JStr []))))) (plain raw)
       end.

Definition prune_condition (r : ParamOverrideCondition) : jsval :=
  let payload := [(js "path", JStr (trim (c_path r)));
                  (js "mode", JStr (if decide (c_mode r ∈ CONDITION_MODE_VALUES) then c_mode r else js "full"))] in
  let valueRaw := trim (c_value_text r) in
  let payload := if is_empty valueRaw then payload
                 else obj_put (js "value") (parseLooseValue valueRaw) payload in
  let payload := if c_invert r then obj_put (js "invert") (JBool true) payload else payload in
  let payload := if c_pass_missing_key r then obj_put (js "pass_missing_key") (JBool true) payload else payload in
  JObj payload.

Definition buildPruneObjectsValueText (d : PruneObjectsDraft) : jsstr :=
  let typeText := trim (p_typeText d) in
  if p_simpleMode d then typeText
  else
    let payload := if is_empty typeText then [] else [(js "type", JStr typeText)] in
    let payload := if decide (to_upper (p_logic d) = OR) then obj_put (js "logic") (JStr OR) payload else payload in
    let payload := if p_recursive d then payload else obj_put (js "recursive") (JBool false) payload in
    let conditions := map prune_condition (base.filter (λ r, is_empty (trim (c_path r)) = false) (p_rules d)) in
    let payload := if decide (conditions = []) then payload else obj_put (js "conditions") (JArr conditions) payload in
    if is_empty typeText && bool_decide (conditions = []) then toValueText (JObj [(js "logic", JStr AND)])
    else toValueText (JObj payload).

(** ** Checking *)

(** [String(i ?? '').trim()] of the items, without the blank ones *)
Definition header_names (l : list jsval) : res (list jsstr) :=
  res_map (λ ts, base.filter (λ s, is_empty s = false) (map trim ts))
    (res_mapM (λ i, to_str (js_coalesce i (JStr []))) l).

Definition parsePassHeaderNames (rawValue : jsval) : res (list jsstr) :=
  match rawValue with
  | JArr l => header_names l
  | JObj o =>
      match obj_get (js "headers") o with
      | JArr l => header_names l
      | _ =>
          let header := obj_get (js "header") o in
          if is_undef header then Ok [] else header_names [header]
      end
  | JStr s => Ok (base.filter (λ t, is_empty t = false) (map trim (split_char 44 s)))
  | _ => Ok []
  end.

Inductive RuleError :=
| MissingTargetPath
| MissingSourceField
| MissingTargetField
| MissingValue
| MessageRequired
| HeadersInvalid.

#[export] Instance RuleError_eq_dec : EqDecision RuleError.
Proof. solve_decision. Defined.

Definition mode_or_set (o : ParamOverrideOperation) : jsstr := if is_empty (mode o) then js "set" else mode o.

(** A JSON object must have a message; anything else is the message. *)
Definition lacks_message (raw : jsstr) : bool :=
  match JSON_parse raw with
  | Ok (JObj o) =>
      match to_str (js_or (obj_get (js "message") o) (JStr [])) with
      | Ok s => is_empty (trim s)
      | Throw => false
      end
  | _ => false
  end.

(** The first complaint about a rule.  The checks of [prune_objects] and
    [pass_headers] for a blank value repeat the one of [VALUE_REQUIRED_MODES]
    and never decide. *)
Definition check_operation (op : ParamOverrideOperation) : res (option RuleError) :=
  let m := mode_or_set op in
  let meta := meta_of m in
  let blank s := is_empty (trim s) in
  let alias := m_pathAlias meta && negb (blank (path op)) in
  if m_path meta && blank (path op) then Ok (Some MissingTargetPath)
  else if bool_decide (m ∈ FROM_REQUIRED_MODES) && blank (from op) && negb alias then Ok (Some MissingSourceField)
  else if bool_decide (m ∈ TO_REQUIRED_MODES) && blank (to op) && negb alias then Ok (Some MissingTargetField)
  else if bool_decide (m ∈ VALUE_REQUIRED_MODES) && blank (value_text op) then Ok (Some MissingValue)
  else if decide (m = js "return_error") then
    Ok (if lacks_message (trim (value_text op)) then Some MessageRequired else None)
  else if decide (m = js "pass_headers") then
    let* headers := parsePassHeaderNames (parseLooseValue (trim (value_text op))) in
    Ok (if decide (headers = []) then Some HeadersInvalid else None)
  else Ok None.

(** The line of the first rule with a complaint. *)
Fixpoint validate_from (line : nat) (ops : list ParamOverrideOperation) : res (option (nat * RuleError)) :=
  match ops with
  | [] => Ok None
  | op :: ops' =>
      let* e := check_operation op in
      match e with Some e => Ok (Some (line, e)) | None => validate_from (S line) ops' end
  end.

Definition validateOperations (ops : list ParamOverrideOperation) : res (option (nat * RuleError)) :=
  validate_from 1 ops.

(** ** Writing *)

Definition buildConditionPayload (c : ParamOverrideCondition) : option jsval :=
  let path := trim (c_path c) in
  if is_empty path then None
  else
    let payload := [(js "path", JStr path); (js "mode", JStr (if is_empty (c_mode c) then js "full" else c_mode c));
                    (js "value", parseLooseValue (c_value_text c))] in
    let payload := if c_invert c then obj_put (js "invert") (JBool true) payload else payload in
    Some (JObj (if c_pass_missing_key c then obj_put (js "pass_missing_key") (JBool true) payload else payload)).

(** [if (b) o[k] = v] *)
Definition put_if (b : bool) (k : string) (v : jsval) (o : list (jsstr * jsval)) : list (jsstr * jsval) :=
  if b then obj_put (js k) v o else o.

Definition operation_payload (o : ParamOverrideOperation) : list (jsstr * jsval) :=
  let m := mode_or_set o in
  let meta := meta_of m in
  let descriptionValue := trim (description o) in
  let pathValue := trim (path o) in
  let fromValue := trim (from o) in
  let toValue := trim (to o) in
  let filled s := negb (is_empty s) in
  let p := [(js "mode", JStr m)] in
  let p := put_if (filled descriptionValue) "description" (JStr descriptionValue) p in
  let p := put_if (m_path meta) "path" (JStr pathValue) p in
  let p := put_if (m_pathOptional meta && filled pathValue) "path" (JStr pathValue) p in
  let p := put_if (m_value meta) "value" (parseLooseValue (value_text o)) p in
  let p := put_if (m_keepOrigin meta && keep_origin o) "keep_origin" (JBool true) p in
  let p := put_if (m_from meta) "from" (JStr fromValue) p in
  let p := put_if (negb (m_to meta) && filled toValue) "to" (JStr toValue) p in
  let p := put_if (m_to meta) "to" (JStr toValue) p in
  let p := put_if (m_pathAlias meta && negb (truthy (obj_get (js "from") p)) && filled pathValue) "from"
             (JStr pathValue) p in
  let p := put_if (m_pathAlias meta && negb (truthy (obj_get (js "to") p)) && filled pathValue) "to"
             (JStr pathValue) p in
  let cs := omap buildConditionPayload (conditions o) in
  let p := put_if (negb (bool_decide (cs = []))) "conditions" (JArr cs) p in
  put_if (negb (bool_decide (cs = []))) "logic" (JStr (if decide (logic o = AND) then AND else OR)) p.

(** What building gives: the text, a complaint, or an exception of the
    conversions. *)
Inductive Built :=
| BuiltText (t : jsstr)
| BuiltError (line : nat) (e : RuleError)
| BuiltThrow.

Definition operations_text (ops : list ParamOverrideOperation) : jsstr :=
  default (js "undefined")
    (JSON_stringify_pretty (JObj [(js "operations", JArr (map (λ o, JObj (operation_payload o)) ops))])).

Definition buildOperationsJson (sourceOperations : list ParamOverrideOperation) (validate : bool) : Built :=
  let filteredOps := base.filter (λ o, isOperationBlank o = false) sourceOperations in
  if decide (filteredOps = []) then BuiltText []
  else if validate then
    match validateOperations filteredOps with
    | Throw => BuiltThrow
    | Ok (Some (line, e)) => BuiltError line e
    | Ok None => BuiltText (operations_text filteredOps)
    end
  else BuiltText (operations_text filteredOps).

(** ** The initial state *)

Inductive EditMode := Visual | Json.
Inductive VisualMode := Operations | Legacy.

(** The messages of the editor; [ConversionError] is the one of an exception
    of the conversions. *)
Inductive Notice :=
| NoError
| InvalidJsonFormat
| JsonFormatError
| MustBeValidJson
| MustBeJsonObject
| LegacyMustBeObject
| CannotAppend
| RuleComplaint (line : nat) (e : RuleError)
| ConversionError.

Record EditorState := MkEditor {
  s_editMode : EditMode;
  s_visualMode : VisualMode;
  s_legacyValue : jsstr;
  s_operations : list ParamOverrideOperation;
  s_jsonText : jsstr;
  s_jsonError : Notice;
}.

Definition pretty (v : jsval) : jsstr := default (js "undefined") (JSON_stringify_pretty v).

(** The rules of an array, at least one. *)
Definition rules_of (l : list jsval) : IdM (list ParamOverrideOperation) :=
  match l with
  | [] => let! o := createDefaultOperation in ret [o]
  | _ => map_ids normalizeOperation l
  end.

Definition one_default : IdM (list ParamOverrideOperation) := let! o := createDefaultOperation in ret [o].

(** A rule that is [null] throws. *)
Definition parseInitialState (rawValue : jsstr) : IdM EditorState :=
  let trimmed := trim rawValue in
  if is_empty trimmed then let! ops := one_default in ret (MkEditor Visual Operations [] ops [] NoError)
  else match JSON_parse trimmed with
       | Throw => let! ops := one_default in ret (MkEditor Json Operations [] ops rawValue InvalidJsonFormat)
       | Ok (JObj o) =>
           match obj_get (js "operations") o with
           | JArr l =>
               let! ops := rules_of l in
               ret (MkEditor Visual Operations [] ops (pretty (JObj o)) NoError)
           | _ =>
               let! ops := one_default in
               ret (MkEditor Visual Legacy (pretty (JObj o)) ops (pretty (JObj o)) NoError)
           end
       | Ok v => let! ops := one_default in ret (MkEditor Json Operations [] ops (pretty v) NoError)
       end.

End identifiers.

(** ** Properties of the identifiers *)

(** The rule and the condition made from nothing are the defaults. *)
Lemma createDefaultOperation_spec now :
  normalizeOperation now (JObj [(js "mode", JStr (js "set"))]) = createDefaultOperation now.
Proof. reflexivity. Qed.

Lemma createDefaultCondition_spec now : normalizeCondition now (JObj []) = createDefaultCondition now.
Proof. reflexivity. Qed.

Lemma Z_to_str_no_underscore z : 95 ∉ Z_to_str z.
Proof.
  intros H. assert (∀ n, 0 <= n → 95 ∉ Z_to_str n) as Hpos.
  { intros n Hn H'. pose proof (all_digits_elem _ _ (Z_to_str_digits n Hn) H'). lia. }
  destruct (Z_le_gt_dec 0 z) as [Hz|Hz]; [by apply (Hpos z)|].
  unfold Z_to_str in H. rewrite (proj2 (Z.ltb_lt z 0)) in H by lia.
  apply elem_of_cons in H as [H|H]; [done|]. apply (Hpos (- z)); [lia|].
  unfold Z_to_str. by rewrite (proj2 (Z.ltb_ge (- z) 0)) by lia.
Qed.

Lemma separated_inj (c : Z) a b a' b' :
  c ∉ a → c ∉ a' → a ++ c :: b = a' ++ c :: b' → b = b'.
Proof.
  revert a'. induction a as [|x a IH]; intros [|x' a'] Ha Ha' H; simplify_eq/=; [done|set_solver..|].
  apply (IH a'); set_solver.
Qed.

Lemma nextLocalId_inj now n m : nextLocalId now n = nextLocalId now m → n = m.
Proof.
  unfold nextLocalId. intros H%app_inv_head. apply separated_inj in H; [|apply Z_to_str_no_underscore..].
  apply (f_equal dec_value) in H. rewrite !Z_to_str_value in H by lia. lia.
Qed.

(** A computation never lowers the counter, and what it returns satisfies [P]
    of the counter before and after. *)
Definition spec {A} (m : IdM A) (P : nat → nat → A → Prop) : Prop :=
  ∀ n, (n ≤ (m n).2)%nat ∧ ∀ x, (m n).1 = Ok x → P n (m n).2 x.

Lemma spec_ret {A} (x : A) (P : nat → nat → A → Prop) : (∀ n, P n n x) → spec (ret x) P.
Proof. intros H n. split; [done|]. intros y [= <-]. apply H. Qed.

Lemma spec_lift {A} (r : res A) (P : nat → nat → A → Prop) : (∀ n x, r = Ok x → P n n x) → spec (lift r) P.
Proof. intros H n. split; [done|]. intros y Hy. by apply H. Qed.

Lemma spec_fresh now : spec (fresh now) (λ n n' i, n' = S n ∧ i = nextLocalId now n).
Proof. intros n. split; [simpl; lia|]. by intros y [= <-]. Qed.

Lemma spec_bind {A B} (m : IdM A) (k : A → IdM B) P (Q : A → nat → nat → B → Prop) (R : nat → nat → B → Prop) :
  spec m P → (∀ x, spec (k x) (Q x)) →
  (∀ n n' n'' x y, (n ≤ n')%nat → (n' ≤ n'')%nat → P n n' x → Q x n' n'' y → R n n'' y) →
  spec (bind m k) R.
Proof.
  intros Hm Hk HR n. destruct (Hm n) as [Hle HP]. unfold bind.
  destruct (m n) as [[x|] n'] eqn:E; simpl in *; [|by split].
  destruct (Hk x n') as [Hle' HQ]. split; [lia|]. intros y Hy. eapply HR; eauto.
Qed.

Lemma spec_weaken {A} (m : IdM A) (P Q : nat → nat → A → Prop) :
  spec m P → (∀ n n' x, (n ≤ n')%nat → P n n' x → Q n n' x) → spec m Q.
Proof. intros Hm H n. destruct (Hm n) as [Hle HP]. split; [done|]. intros x Hx. auto. Qed.

Lemma spec_attempt {A} (m : IdM A) dflt (P : nat → nat → A → Prop) :
  spec m P → (∀ n n', (n ≤ n')%nat → P n n' dflt) → spec (attempt m dflt) P.
Proof.
  intros Hm Hd n. destruct (Hm n) as [Hle HP]. unfold attempt. split; [done|].
  intros x [= <-]. destruct (m n) as [[y|] n'] eqn:E; simpl in *; auto.
Qed.

(** The identifiers of [l] are distinct and were made when the counter went
    from [lo] to [hi]. *)
Definition ids_in (now : nat → Z) (lo hi : nat) (l : list jsstr) : Prop :=
  NoDup l ∧ ∀ i, i ∈ l → ∃ k, (lo ≤ k < hi)%nat ∧ i = nextLocalId now k.

Lemma ids_in_nil now lo hi : ids_in now lo hi [].
Proof. split; [constructor|]. by intros i ?%elem_of_nil. Qed.

Lemma ids_in_one now n : ids_in now n (S n) [nextLocalId now n].
Proof.
  split; [apply NoDup_singleton|]. intros i ->%list_elem_of_singleton. exists n. split; [lia|done].
Qed.

Lemma ids_in_mono now lo hi lo' hi' l :
  ids_in now lo hi l → (lo' ≤ lo)%nat → (hi ≤ hi')%nat → ids_in now lo' hi' l.
Proof.
  intros [Hn Hi] ??. split; [done|]. intros i (k & ? & ->)%Hi. exists k. split; [lia|done].
Qed.

Lemma ids_in_app now lo mid hi l1 l2 :
  ids_in now lo mid l1 → ids_in now mid hi l2 → (lo ≤ mid ≤ hi)%nat → ids_in now lo hi (l1 ++ l2).
Proof.
  intros [Hn1 Hi1] [Hn2 Hi2] Hle. split.
  - apply NoDup_app. repeat split; [done| |done].
    intros i (k & ? & ->)%Hi1 (k' & ? & E%nextLocalId_inj)%Hi2. lia.
  - intros i [Hi|Hi]%elem_of_app; [apply Hi1 in Hi as (k & ? & ->)|apply Hi2 in Hi as (k & ? & ->)];
      exists k; (split; [lia|done]).
Qed.

Lemma ids_in_sub now lo hi l l' : ids_in now lo hi l → sublist l' l → ids_in now lo hi l'.
Proof.
  intros [Hn Hi] Hs. split; [by eapply sublist_NoDup|].
  intros i H. apply Hi. by eapply elem_of_sublist.
Qed.

#[export] Instance ids_in_perm now lo hi : Proper ((≡ₚ) ==> iff) (ids_in now lo hi).
Proof. intros l l' H. unfold ids_in. by setoid_rewrite H. Qed.

(** Mapping keeps the identifiers apart, and relates the elements one by one. *)
Lemma spec_map_ids {A B} now (f : A → IdM B) (g : B → list jsstr) l :
  (∀ x, x ∈ l → spec (f x) (λ n n' y, ids_in now n n' (g y))) →
  spec (map_ids f l) (λ n n' ys, ids_in now n n' (ys ≫= g)).
Proof.
  induction l as [|x l IH]; intros Hf; simpl.
  - apply spec_ret. intros n. apply ids_in_nil.
  - eapply (spec_bind _ _ _ (λ y n n' r, ∃ ys, r = y :: ys ∧ ids_in now n n' (ys ≫= g)));
      [apply Hf; constructor| |].
    + intros y. eapply (spec_bind _ _ _ (λ ys n n' r, n' = n ∧ r = y :: ys));
        [apply IH; intros z Hz; apply Hf; by constructor| |].
      * intros ys. by apply spec_ret.
      * intros n n' n'' ys r ? ? Hys [-> ->]. by exists ys.
    + intros n n' n'' y r ?? Hy (ys & -> & Hys). by apply (ids_in_app now n n' n'').
Qed.

Lemma spec_map_rel {A B} (f : A → IdM B) (R : A → B → Prop) l :
  (∀ x, x ∈ l → spec (f x) (λ _ _ y, R x y)) → spec (map_ids f l) (λ _ _ ys, Forall2 R l ys).
Proof.
  induction l as [|x l IH]; intros Hf; simpl.
  - apply spec_ret. intros _. constructor.
  - eapply (spec_bind _ _ _ (λ y _ _ r, ∃ ys, r = y :: ys ∧ Forall2 R l ys)); [apply Hf; constructor| |].
    + intros y. eapply (spec_bind _ _ _ (λ ys _ _ r, r = y :: ys));
        [apply IH; intros z Hz; apply Hf; by constructor| |].
      * intros ys. by apply spec_ret.
      * intros n n' n'' ys r ? ? Hys ->. by exists ys.
    + intros n n' n'' y r ?? Hy (ys & -> & Hys). by constructor.
Qed.

Lemma spec_and {A} (m : IdM A) (P Q : nat → nat → A → Prop) :
  spec m P → spec m Q → spec m (λ n n' x, P n n' x ∧ Q n n' x).
Proof. intros HP HQ n. destruct (HP n) as [? ?], (HQ n) as [_ ?]. split; [done|]. auto. Qed.

(** The identifiers of a rule and of its conditions. *)
Definition op_ids (o : ParamOverrideOperation) : list jsstr := id o :: map c_id (conditions o).

(** What the lists of choices allow. *)
Definition condition_ok (c : ParamOverrideCondition) : Prop := c_mode c ∈ CONDITION_MODE_VALUES.

Definition op_ok (o : ParamOverrideOperation) : Prop :=
  mode o ∈ OPERATION_MODE_VALUES ∧ logic o ∈ [AND; OR] ∧ Forall condition_ok (conditions o).

Lemma mode_field_in modes dflt v m : dflt ∈ modes → mode_field modes dflt v = Ok m → m ∈ modes.
Proof.
  intros Hd H. unfold mode_field in H. apply res_map_Ok in H as (x & _ & ->).
  destruct x; try done. by case_decide.
Qed.

Lemma full_in : js "full" ∈ CONDITION_MODE_VALUES.
Proof. apply (bool_decide_unpack _). vm_compute. exact I. Qed.

Lemma set_in : js "set" ∈ OPERATION_MODE_VALUES.
Proof. apply (bool_decide_unpack _). vm_compute. exact I. Qed.

Lemma normalizeCondition_spec now v :
  spec (normalizeCondition now v)
    (λ n n' c, ids_in now n n' ([c_id c]) ∧ condition_ok c).
Proof.
  eapply (spec_bind _ _ _ (λ i n n' c, n' = n ∧ c_id c = i ∧ condition_ok c)); [apply spec_fresh| |].
  - intros i. apply spec_lift. intros n c H.
    res_step H as p Hp. res_step H as m Hm. res_step H as x Hx. res_step H as b Hb. res_step H as b' Hb'.
    simplify_eq/=. split_and!; [done..|]. by apply (mode_field_in _ _ _ _ full_in Hm).
  - intros n n' n'' i c ?? [-> ->] (-> & Hc & ?). simpl. rewrite Hc. split; [apply ids_in_one|done].
Qed.

Lemma normalizePruneRule_spec now v :
  spec (normalizePruneRule now v)
    (λ n n' c, ids_in now n n' ([c_id c]) ∧ condition_ok c).
Proof. apply normalizeCondition_spec. Qed.

Lemma bind_singleton {A B} (f : A → B) l : (l ≫= λ x, [f x]) = map f l.
Proof. induction l as [|x l IH]; simpl; [done|]. by rewrite <- IH. Qed.

Lemma map_conditions_spec now l :
  spec (map_ids (normalizeCondition now) l)
    (λ n n' cs, ids_in now n n' (map c_id cs) ∧ Forall condition_ok cs).
Proof.
  apply spec_and.
  - eapply spec_weaken; [apply (spec_map_ids now _ (λ c, [c_id c]))|].
    + intros x _. eapply spec_weaken; [apply normalizeCondition_spec|]. by intros ???? [??].
    + intros n n' cs _ Hcs. by rewrite <- bind_singleton.
  - eapply spec_weaken; [apply (spec_map_rel _ (λ _, condition_ok))|].
    + intros x _. eapply spec_weaken; [apply normalizeCondition_spec|]. by intros ???? [??].
    + intros n n' cs _ H. induction H; constructor; auto.
Qed.

Lemma logic_field_in v l : logic_field v = Ok l → l ∈ [AND; OR].
Proof.
  intros H. unfold logic_field in H. res_step H as x Hx. res_step H as t Ht. simplify_eq.
  case_decide; set_solver.
Qed.

Lemma normalizeOperation_spec now v :
  spec (normalizeOperation now v) (λ n n' o, ids_in now n n' (op_ids o) ∧ op_ok o).
Proof.
  eapply (spec_bind _ _ _ (λ i n n' o, id o = i ∧ ids_in now n n' (map c_id (conditions o)) ∧ op_ok o));
    [apply spec_fresh| |].
  - intros i. eapply (spec_bind _ _ (λ n n' h, n' = n ∧ ∀ cs, id (h.1 cs) = i ∧ conditions (h.1 cs) = cs ∧
                        mode (h.1 cs) ∈ OPERATION_MODE_VALUES ∧ logic (h.1 cs) ∈ [AND; OR])
                      (λ h n n' o, ∃ cs, o = h.1 cs ∧ ids_in now n n' (map c_id cs) ∧ Forall condition_ok cs)).
    + apply spec_lift. intros n h H.
      res_step H as p1 Hp1. res_step H as p2 Hp2. res_step H as m Hm. res_step H as x Hx.
      res_step H as b Hb. res_step H as f Hf. res_step H as t Ht. res_step H as l Hl. res_step H as cs Hcs.
      simplify_eq/=. split; [done|]. intros cs'. split_and!; [done..| |by eapply logic_field_in].
      by apply (mode_field_in _ _ _ _ set_in Hm).
    + intros h. eapply (spec_bind _ _ (λ n n' cs, ids_in now n n' (map c_id cs) ∧ Forall condition_ok cs)
                          (λ cs n n' o, n' = n ∧ o = h.1 cs)).
      * destruct h.2; try (apply spec_ret; intros n; split; [apply ids_in_nil|constructor]).
        apply map_conditions_spec.
      * intros cs. by apply spec_ret.
      * intros n n' n'' cs o ?? [??] [-> ->]. by exists cs.
    + intros n n' n'' h o ?? [-> Hh] (cs & -> & ? & ?). destruct (Hh cs) as (? & Hc & ? & ?).
      unfold op_ok. rewrite Hc. done.
  - intros n n' n'' i o ?? [-> ->] (Hi & Hc & ?). split; [|done]. unfold op_ids. rewrite Hi.
    apply (ids_in_app now n (S n) n'' [_]); [apply ids_in_one|done|lia].
Qed.

(** The identifiers of a list of rules. *)
Definition all_ids (ops : list ParamOverrideOperation) : list jsstr := ops ≫= op_ids.

Lemma map_operations_spec now l :
  spec (map_ids (normalizeOperation now) l)
    (λ n n' ops, ids_in now n n' (all_ids ops) ∧ Forall op_ok ops ∧ length ops = length l).
Proof.
  apply spec_and; [|apply spec_and].
  - apply (spec_map_ids now _ op_ids). intros x _.
    eapply spec_weaken; [apply normalizeOperation_spec|]. by intros ???? [??].
  - eapply spec_weaken; [apply (spec_map_rel _ (λ _, op_ok))|].
    + intros x _. eapply spec_weaken; [apply normalizeOperation_spec|]. by intros ???? [??].
    + intros n n' ops _ H. induction H; constructor; auto.
  - eapply spec_weaken; [apply (spec_map_rel _ (λ _ _, True))|].
    + intros x _. eapply spec_weaken; [apply normalizeOperation_spec|]. done.
    + intros n n' ops _ Hall. apply Forall2_length in Hall. by rewrite Hall.
Qed.

(** Rules ready to be shown: at least one, each with what the choices allow,
    no identifier twice. *)
Definition made_rules (now : nat → Z) (n n' : nat) (ops : list ParamOverrideOperation) : Prop :=
  ids_in now n n' (all_ids ops) ∧ Forall op_ok ops ∧ ops ≠ [].

Lemma createDefaultOperation_made now :
  spec (createDefaultOperation now) (λ n n' o, ids_in now n n' (op_ids o) ∧ op_ok o).
Proof. rewrite <- createDefaultOperation_spec. apply normalizeOperation_spec. Qed.

Lemma one_default_spec now : spec (one_default now) (made_rules now).
Proof.
  eapply (spec_bind _ _ _ (λ o n n' ops, n' = n ∧ ops = [o])); [apply createDefaultOperation_made| |].
  - intros o. by apply spec_ret.
  - intros n n' n'' o ops ?? [??] [-> ->]. split_and!; [|by constructor|done].
    unfold all_ids. simpl. by rewrite app_nil_r.
Qed.

Lemma rules_of_spec now l : spec (rules_of now l) (made_rules now).
Proof.
  destruct l as [|v l]; [apply one_default_spec|].
  eapply spec_weaken; [apply map_operations_spec|]. intros n n' ops _ (? & ? & Hl).
  split_and!; [done..|]. by destruct ops.
Qed.

Lemma parseInitialState_spec now value :
  spec (parseInitialState now value) (λ n n' e, made_rules now n n' (s_operations e)).
Proof.
  assert (∀ m (k : list ParamOverrideOperation → EditorState), spec m (made_rules now) →
    (∀ ops, s_operations (k ops) = ops) →
    spec (let! ops := m in ret (k ops)) (λ n n' e, made_rules now n n' (s_operations e))) as Hk.
  { intros m k Hm Hk. eapply (spec_bind _ _ _ (λ ops n n' e, n' = n ∧ s_operations e = ops)); [done| |].
    - intros ops. by apply spec_ret.
    - by intros n n' n'' ops e ?? ? [-> ->]. }
  pose proof (one_default_spec now) as Hone.
  unfold parseInitialState. case_match; [by apply Hk|].
  destruct (JSON_parse _) as [[]|]; try by apply Hk.
  case_match; try by apply Hk. apply Hk; [apply rules_of_spec|done].
Qed.

(** *** Rules of [prune_objects] *)

Lemma path_rule_spec now e : spec (path_rule now e) (λ n n' r, ids_in now n n' [c_id r]).
Proof.
  eapply (spec_bind _ _ _ (λ i n n' r, n' = n ∧ c_id r = i)); [apply spec_fresh| |].
  - intros i. by apply spec_ret.
  - intros n n' n'' i r ?? [-> ->] [-> ->]. apply ids_in_one.
Qed.

Lemma spec_map_one {A} now (f : A → IdM ParamOverrideCondition) l :
  (∀ x, spec (f x) (λ n n' r, ids_in now n n' [c_id r])) →
  spec (map_ids f l) (λ n n' rs, ids_in now n n' (map c_id rs)).
Proof.
  intros Hf. eapply spec_weaken; [apply (spec_map_ids now _ (λ c, [c_id c])); auto|].
  intros n n' rs _ Hrs. by rewrite <- bind_singleton.
Qed.

Lemma object_rules_spec now v : spec (object_rules now v) (λ n n' rs, ids_in now n n' (map c_id rs)).
Proof.
  destruct v; try (apply spec_ret; intros; apply ids_in_nil). apply spec_map_one, path_rule_spec.
Qed.

Lemma condition_rules_spec now v : spec (condition_rules now v) (λ n n' rs, ids_in now n n' (map c_id rs)).
Proof.
  destruct v; try apply object_rules_spec. apply spec_map_one. intros x.
  eapply spec_weaken; [apply normalizePruneRule_spec|]. by intros ???? [??].
Qed.

(** Every reading of a text makes its own identifiers. *)
Lemma parsePruneObjectsDraft_spec now t :
  spec (parsePruneObjectsDraft now t) (λ n n' d, ids_in now n n' (map c_id (p_rules d))).
Proof.
  pose proof (ids_in_nil now) as Hnil.
  unfold parsePruneObjectsDraft. case_match; [apply spec_ret; intros; apply Hnil|].
  assert (∀ r : res PruneObjectsDraft, (∀ d, r = Ok d → p_rules d = []) →
    spec (lift r) (λ n n' d, ids_in now n n' (map c_id (p_rules d)))) as Hlift.
  { intros r Hr. apply spec_lift. intros n d Hd. rewrite (Hr d Hd). apply Hnil. }
  destruct (JSON_parse _) as [v|]; [|apply spec_ret; intros; apply Hnil].
  destruct v; try (apply spec_ret; intros; apply Hnil);
    (apply spec_attempt; [|intros; apply Hnil]);
    try (apply Hlift; intros d Hd; apply res_map_Ok in Hd as (s' & _ & Hs'); by rewrite Hs').
  eapply (spec_bind _ _ _ (λ rs n n' d, ∃ rs', p_rules d = rs ++ rs' ∧ ids_in now n n' (map c_id rs')));
    [apply object_rules_spec| |].
  - intros rs. eapply (spec_bind _ _ _ (λ rs' n n' d, n' = n ∧ p_rules d = rs ++ rs'));
      [apply condition_rules_spec| |].
    + intros rs'. apply spec_lift. intros n d Hd. res_step Hd as t' Ht'. res_step Hd as l Hl. by simplify_eq.
    + intros n n' n'' rs' d ?? Hrs' [-> Hd]. by exists rs'.
  - intros n n' n'' rs d ?? Hrs (rs' & -> & Hrs'). rewrite map_app. by apply (ids_in_app now n n' n'').
Qed.

End ParamOverride.
