(* ===== verification/ParamOverrideEditor.v ===== *)
(** * The parameter override editor: the dialog

    The state and the handlers of [ParamOverrideEditorDialog]
    (features/channels/components/dialogs/param-override-editor-dialog.tsx): the
    two ways to edit (rules or text), the list of rules with its selection and
    drag and drop, the structured editors of [return_error] and
    [prune_objects], the templates, and saving.

    Every handler is a function on [Dialog], which holds the React state, the
    shared counter of identifiers, the messages shown and the text handed to
    [onSave].  [step] is one event followed by the effect that keeps the
    selection valid; only opening can throw. *)

From stdpp Require Import base list strings sets.
From Stdlib Require Import ZArith Lia SpecFloat.
From S2P Require Import Prelude JsString JsNumber JsValue JsJson ParamOverride.
Import ParamOverride.
#[local] Open Scope Z_scope.

Module ParamOverrideEditor.

(** ** Templates *)

Definition rule_obj (l : list (string * jsval)) : jsval := JObj (map (λ e, (js e.1, e.2)) l).
Definition text (s : string) : jsval := JStr (js s).

Definition LEGACY_TEMPLATE : jsval :=
  rule_obj [("temperature", JNum (num_of_Z 0)); ("max_tokens", JNum (num_of_Z 1000))]%string.

Definition condition_obj (path mode value : string) : jsval :=
  rule_obj [("path", text path); ("mode", text mode); ("value", text value)]%string.

Definition OPERATION_TEMPLATE : list jsval :=
  [rule_obj [("description", text "Set default temperature for openai/* models.");
             ("path", text "temperature"); ("mode", text "set"); ("value", JNum (dec_to_num false 7 (-1)));
             ("conditions", JArr [condition_obj "model" "prefix" "openai/"]); ("logic", text "AND")]]%string.

Definition HEADER_PASSTHROUGH_TEMPLATE : list jsval :=
  [rule_obj [("description", text "Pass through X-Request-Id header to upstream.");
             ("mode", text "pass_headers"); ("value", JArr [text "X-Request-Id"]);
             ("keep_origin", JBool true)]]%string.

Definition GEMINI_IMAGE_4K_TEMPLATE : list jsval :=
  [rule_obj [("description", text "Set imageSize to 4K when model contains gemini/image and ends with 4k.");
             ("mode", text "set"); ("path", text "generationConfig.imageConfig.imageSize");
             ("value", text "4K");
             ("conditions", JArr [condition_obj "original_model" "contains" "gemini";
                                  condition_obj "original_model" "contains" "image";
                                  condition_obj "original_model" "suffix" "4k"]);
             ("logic", text "AND")]]%string.

Definition CODEX_CLI_HEADER_PASSTHROUGH_HEADERS : list string :=
  ["Originator"; "Session_id"; "User-Agent"; "X-Codex-Beta-Features"; "X-Codex-Turn-Metadata"]%string.

Definition CLAUDE_CLI_HEADER_PASSTHROUGH_HEADERS : list string :=
  ["X-Stainless-Arch"; "X-Stainless-Lang"; "X-Stainless-Os"; "X-Stainless-Package-Version";
   "X-Stainless-Retry-Count"; "X-Stainless-Runtime"; "X-Stainless-Runtime-Version"; "X-Stainless-Timeout";
   "User-Agent"; "X-App"; "Anthropic-Beta"; "Anthropic-Dangerous-Direct-Browser-Access";
   "Anthropic-Version"]%string.

Definition buildPassHeadersTemplate (headers : list string) : list jsval :=
  [rule_obj [("mode", text "pass_headers"); ("value", JArr (map text headers));
             ("keep_origin", JBool true)]]%string.

Definition bedrock_tokens : list (string * jsval) :=
  let same k := (k, text k) in
  let none k := (k, JNull) in
  [("advanced-tool-use-2025-11-20", text "tool-search-tool-2025-10-19"); none "bash_20241022";
   none "bash_20250124"; none "code-execution-2025-08-25"; same "compact-2026-01-12";
   same "computer-use-2025-01-24"; same "computer-use-2025-11-24"; same "context-1m-2025-08-07";
   same "context-management-2025-06-27"; none "effort-2025-11-24"; none "fast-mode-2026-02-01";
   none "files-api-2025-04-14"; none "fine-grained-tool-streaming-2025-05-14";
   same "interleaved-thinking-2025-05-14"; none "mcp-client-2025-11-20"; none "mcp-client-2025-04-04";
   none "mcp-servers-2025-12-04"; none "output-128k-2025-02-19"; none "structured-output-2024-03-01";
   none "prompt-caching-scope-2026-01-05"; none "skills-2025-10-02"; none "structured-outputs-2025-11-13";
   none "text_editor_20241022"; none "text_editor_20250124"; none "token-efficient-tools-2025-02-19";
   same "tool-search-tool-2025-10-19"; none "web-fetch-2025-09-10"; none "web-search-2025-03-05";
   none "oauth-2025-04-20"]%string.

Definition AWS_BEDROCK_ANTHROPIC_COMPAT_TEMPLATE : list jsval :=
  [rule_obj [("description", text "Normalize anthropic-beta header tokens for Bedrock compatibility.");
             ("mode", text "set_header"); ("path", text "anthropic-beta"); ("value", rule_obj bedrock_tokens)];
   rule_obj [("description", text "Remove all tools[*].custom.input_examples before upstream relay.");
             ("mode", text "delete"); ("path", text "tools.*.custom.input_examples")]]%string.

(** What a template holds: a list of rules or an object of the old format. *)
Inductive TemplatePreset :=
| OperationsPreset (operations : list jsval)
| LegacyPreset (payload : jsval).

Definition TEMPLATE_PRESET_CONFIG : list (jsstr * TemplatePreset) :=
  map (λ e : string * TemplatePreset, (js e.1, e.2))
    [("operations_default", OperationsPreset OPERATION_TEMPLATE);
     ("legacy_default", LegacyPreset LEGACY_TEMPLATE);
     ("pass_headers_auth", OperationsPreset HEADER_PASSTHROUGH_TEMPLATE);
     ("gemini_image_4k", OperationsPreset GEMINI_IMAGE_4K_TEMPLATE);
     ("claude_cli_headers_passthrough",
       OperationsPreset (buildPassHeadersTemplate CLAUDE_CLI_HEADER_PASSTHROUGH_HEADERS));
     ("codex_cli_headers_passthrough",
       OperationsPreset (buildPassHeadersTemplate CODEX_CLI_HEADER_PASSTHROUGH_HEADERS));
     ("aws_bedrock_anthropic_beta_override", OperationsPreset AWS_BEDROCK_ANTHROPIC_COMPAT_TEMPLATE)]%string.

Definition preset_of (key : jsstr) : TemplatePreset :=
  default (OperationsPreset OPERATION_TEMPLATE) (assoc_get key TEMPLATE_PRESET_CONFIG).

(** ** State *)

Record Drag := MkDrag {
  draggedOperationId : jsstr;
  dragOverOperationId : jsstr;
  dragOverPosition : Position;
}.

Definition no_drag : Drag := MkDrag [] [] Before.

Record Dialog := MkDialog {
  editor : EditorState;
  operationSearch : jsstr;
  selectedOperationId : jsstr;
  expandedConditions : list (jsstr * bool);
  drag : Drag;
  templatePresetKey : jsstr;
  seed : nat;  (** [localIdSeed] *)
  toasts : list Notice;  (** the messages shown, latest first *)
  saved : option jsstr;  (** what [onSave] was called with last *)
  is_open : bool;
}.

Definition operations (d : Dialog) : list ParamOverrideOperation := s_operations (editor d).

Definition set_editor (e : EditorState) (d : Dialog) : Dialog :=
  MkDialog e (operationSearch d) (selectedOperationId d) (expandedConditions d) (drag d) (templatePresetKey d)
    (seed d) (toasts d) (saved d) (is_open d).

Definition set_operations (ops : list ParamOverrideOperation) (d : Dialog) : Dialog :=
  let e := editor d in
  set_editor (MkEditor (s_editMode e) (s_visualMode e) (s_legacyValue e) ops (s_jsonText e) (s_jsonError e)) d.

Definition set_json (txt : jsstr) (err : Notice) (d : Dialog) : Dialog :=
  let e := editor d in
  set_editor (MkEditor (s_editMode e) (s_visualMode e) (s_legacyValue e) (s_operations e) txt err) d.

Definition set_edit_mode (m : EditMode) (d : Dialog) : Dialog :=
  let e := editor d in
  set_editor (MkEditor m (s_visualMode e) (s_legacyValue e) (s_operations e) (s_jsonText e) (s_jsonError e)) d.

Definition set_legacy (txt : jsstr) (d : Dialog) : Dialog :=
  let e := editor d in
  set_editor (MkEditor (s_editMode e) (s_visualMode e) txt (s_operations e) (s_jsonText e) (s_jsonError e)) d.

Definition set_selected (i : jsstr) (d : Dialog) : Dialog :=
  MkDialog (editor d) (operationSearch d) i (expandedConditions d) (drag d) (templatePresetKey d) (seed d)
    (toasts d) (saved d) (is_open d).

Definition set_expanded (es : list (jsstr * bool)) (d : Dialog) : Dialog :=
  MkDialog (editor d) (operationSearch d) (selectedOperationId d) es (drag d) (templatePresetKey d) (seed d)
    (toasts d) (saved d) (is_open d).

Definition set_drag (g : Drag) (d : Dialog) : Dialog :=
  MkDialog (editor d) (operationSearch d) (selectedOperationId d) (expandedConditions d) g (templatePresetKey d)
    (seed d) (toasts d) (saved d) (is_open d).

Definition set_search (s : jsstr) (d : Dialog) : Dialog :=
  MkDialog (editor d) s (selectedOperationId d) (expandedConditions d) (drag d) (templatePresetKey d) (seed d)
    (toasts d) (saved d) (is_open d).

Definition set_preset (k : jsstr) (d : Dialog) : Dialog :=
  MkDialog (editor d) (operationSearch d) (selectedOperationId d) (expandedConditions d) (drag d) k (seed d)
    (toasts d) (saved d) (is_open d).

Definition set_seed (n : nat) (d : Dialog) : Dialog :=
  MkDialog (editor d) (operationSearch d) (selectedOperationId d) (expandedConditions d) (drag d)
    (templatePresetKey d) n (toasts d) (saved d) (is_open d).

Definition toast_error (t : Notice) (d : Dialog) : Dialog :=
  MkDialog (editor d) (operationSearch d) (selectedOperationId d) (expandedConditions d) (drag d)
    (templatePresetKey d) (seed d) (t :: toasts d) (saved d) (is_open d).

Definition close_with (result : jsstr) (d : Dialog) : Dialog :=
  MkDialog (editor d) (operationSearch d) (selectedOperationId d) (expandedConditions d) (drag d)
    (templatePresetKey d) (seed d) (toasts d) (Some result) false.

(** Run a computation that makes identifiers; when it throws, the handler ends
    there. *)
Definition with_ids {A} (m : IdM A) (k : A → Dialog → Dialog) (d : Dialog) : Dialog :=
  match m (seed d) with
  | (Ok x, n) => k x (set_seed n d)
  | (Throw, n) => set_seed n d
  end.

(** The first identifier of a list of rules, or the empty text. *)
Definition first_id (ops : list ParamOverrideOperation) : jsstr :=
  match ops with [] => [] | o :: _ => id o end.

(** ** What is shown *)

Definition operationCount (d : Dialog) : nat :=
  length (base.filter (λ o, isOperationBlank o = false) (operations d)).

Definition searchable (o : ParamOverrideOperation) : jsstr :=
  to_lower (join [32] (base.filter (λ s, is_empty s = false)
    [description o; mode o; path o; from o; to o; value_text o])).

Definition filteredOperations (d : Dialog) : list ParamOverrideOperation :=
  let keyword := to_lower (trim (operationSearch d)) in
  if is_empty keyword then operations d
  else base.filter (λ o, includes keyword (searchable o) = true) (operations d).

Definition selectedOperation (d : Dialog) : option ParamOverrideOperation :=
  head (base.filter (λ o, id o = selectedOperationId d) (operations d)).

Definition selectedOperationIndex (d : Dialog) : option nat :=
  find_index (has_id (selectedOperationId d)) (operations d).

Definition count_mode (counts : list (jsstr * nat)) (o : ParamOverrideOperation) : list (jsstr * nat) :=
  let m := mode_or_set o in assoc_set m (S (default 0%nat (assoc_get m counts))) counts.

(** A mode is no array index, so the entries are in the order of insertion. *)
Definition topOperationModes (d : Dialog) : list (jsstr * nat) :=
  take 4 (sort_by (λ a b : jsstr * nat, Nat.leb b.2 a.2) (foldl count_mode [] (operations d))).

Definition returnErrorDraft (d : Dialog) : option ReturnErrorDraft :=
  o ← selectedOperation d;
  if decide (mode o = js "return_error") then Some (parseReturnErrorDraft (value_text o)) else None.

(** ** Patches *)

Inductive OperationPatch :=
| PatchDescription (s : jsstr)
| PatchPath (s : jsstr)
| PatchMode (s : jsstr)
| PatchFrom (s : jsstr)
| PatchTo (s : jsstr)
| PatchEndpoints (from to : jsstr)
| PatchValueText (s : jsstr)
| PatchKeepOrigin (b : bool)
| PatchLogic (s : jsstr).

Definition patch_operation (p : OperationPatch) (o : ParamOverrideOperation) : ParamOverrideOperation :=
  let '(MkOperation i ds pa m f t v k l cs) := o in
  match p with
  | PatchDescription s => MkOperation i s pa m f t v k l cs
  | PatchPath s => MkOperation i ds s m f t v k l cs
  | PatchMode s => MkOperation i ds pa s f t v k l cs
  | PatchFrom s => MkOperation i ds pa m s t v k l cs
  | PatchTo s => MkOperation i ds pa m f s v k l cs
  | PatchEndpoints s s' => MkOperation i ds pa m s s' v k l cs
  | PatchValueText s => MkOperation i ds pa m f t s k l cs
  | PatchKeepOrigin b => MkOperation i ds pa m f t v b l cs
  | PatchLogic s => MkOperation i ds pa m f t v k s cs
  end.

Definition set_conditions (cs : list ParamOverrideCondition) (o : ParamOverrideOperation)
    : ParamOverrideOperation :=
  MkOperation (id o) (description o) (path o) (mode o) (from o) (to o) (value_text o) (keep_origin o)
    (logic o) cs.

(** A condition and a rule of [prune_objects] have the same members. *)
Inductive ConditionPatch :=
| PatchConditionPath (s : jsstr)
| PatchConditionMode (s : jsstr)
| PatchConditionValue (s : jsstr)
| PatchInvert (b : bool)
| PatchPassMissing (b : bool).

Definition patch_condition (p : ConditionPatch) (c : ParamOverrideCondition) : ParamOverrideCondition :=
  let '(MkCondition i pa m v inv pass) := c in
  match p with
  | PatchConditionPath s => MkCondition i s m v inv pass
  | PatchConditionMode s => MkCondition i pa s v inv pass
  | PatchConditionValue s => MkCondition i pa m s inv pass
  | PatchInvert b => MkCondition i pa m v b pass
  | PatchPassMissing b => MkCondition i pa m v inv b
  end.

(** The edits of the editor of [return_error]; the status code is typed. *)
Inductive ErrorPatch :=
| PatchErrorSimple (b : bool)
| PatchMessage (s : jsstr)
| PatchStatus (typed : jsstr)
| PatchErrorCode (s : jsstr)
| PatchErrorType (s : jsstr)
| PatchSkipRetry (b : bool)
| PatchErrorPreset (status : Z) (code type : jsstr).

(** [parseInt(typed, 10) || 400] *)
Definition typed_status (typed : jsstr) : num :=
  let x := parseInt10 typed in if num_truthy x then x else num_of_Z 400.

Definition patch_error (p : ErrorPatch) (e : ReturnErrorDraft) : ReturnErrorDraft :=
  let '(MkErrorDraft m s c t k b) := e in
  match p with
  | PatchErrorSimple b => MkErrorDraft m s c t k b
  | PatchMessage m => MkErrorDraft m s c t k b
  | PatchStatus typed => MkErrorDraft m (typed_status typed) c t k b
  | PatchErrorCode c => MkErrorDraft m s c t k b
  | PatchErrorType t => MkErrorDraft m s c t k b
  | PatchSkipRetry k => MkErrorDraft m s c t k b
  | PatchErrorPreset status c t => MkErrorDraft m (num_of_Z status) c t k b
  end.

Inductive PrunePatch :=
| PatchPruneSimple (b : bool)
| PatchTypeText (s : jsstr)
| PatchPruneLogic (s : jsstr)
| PatchRecursive (b : bool).

Definition patch_prune (p : PrunePatch) (r : PruneObjectsDraft) : PruneObjectsDraft :=
  let '(MkPruneDraft b t l rc rs) := r in
  match p with
  | PatchPruneSimple b => MkPruneDraft b t l rc rs
  | PatchTypeText t => MkPruneDraft b t l rc rs
  | PatchPruneLogic l => MkPruneDraft b t (if is_empty l then AND else l) rc rs
  | PatchRecursive rc => MkPruneDraft b t l rc rs
  end.

Definition set_rules (b : bool) (rs : list ParamOverrideCondition) (r : PruneObjectsDraft) : PruneObjectsDraft :=
  MkPruneDraft b (p_typeText r) (p_logic r) (p_recursive r) rs.

(** ** Handlers *)

Section handlers.
Context (now : nat → Z).

Definition map_operation (operationId : jsstr) (f : ParamOverrideOperation → ParamOverrideOperation)
    (ops : list ParamOverrideOperation) : list ParamOverrideOperation :=
  map (λ o, if has_id operationId o then f o else o) ops.

Definition updateOperation (operationId : jsstr) (patch : OperationPatch) (d : Dialog) : Dialog :=
  set_operations (map_operation operationId (patch_operation patch) (operations d)) d.

Definition addOperation : Dialog → Dialog :=
  with_ids (createDefaultOperation now) (λ created d,
    set_selected (id created) (set_operations (operations d ++ [created]) d)).

(** The object the copy of a rule is read from. *)
Definition copy_source (o : ParamOverrideOperation) : jsval :=
  rule_obj
    [("description", JStr (description o)); ("path", JStr (path o)); ("mode", JStr (mode o));
     ("value", parseLooseValue (value_text o)); ("keep_origin", JBool (keep_origin o));
     ("from", JStr (from o)); ("to", JStr (to o)); ("logic", JStr (logic o));
     ("conditions", JArr (map (λ c, rule_obj
        [("path", JStr (c_path c)); ("mode", JStr (c_mode c)); ("value", parseLooseValue (c_value_text c));
         ("invert", JBool (c_invert c)); ("pass_missing_key", JBool (c_pass_missing_key c))]%string)
        (conditions o)))]%string.

(** React runs the updater of [setOperations] at once when no other update is
    pending ([eager]); otherwise [insertedId] is still empty at the test that
    follows, and the selection stays. *)
Definition duplicateOperation (eager : bool) (operationId : jsstr) (d : Dialog) : Dialog :=
  match find_index (has_id operationId) (operations d) with
  | None => d
  | Some idx =>
      match operations d !! idx with
      | None => d
      | Some source =>
          with_ids (normalizeOperation now (copy_source source)) (λ cloned d,
            let d := set_operations (take (S idx) (operations d) ++ cloned :: drop (S idx) (operations d)) d in
            if eager then set_selected (id cloned) d else d) d
      end
  end.

Definition removeOperation (operationId : jsstr) (d : Dialog) : Dialog :=
  if Nat.leb (length (operations d)) 1
  then with_ids (one_default now) set_operations d
  else set_operations (base.filter (λ o, id o ≠ operationId) (operations d)) d.

Definition addCondition (operationId : jsstr) : Dialog → Dialog :=
  with_ids (createDefaultCondition now) (λ created d,
    set_expanded (assoc_set (c_id created) true (expandedConditions d))
      (set_operations (map_operation operationId (λ o, set_conditions (conditions o ++ [created]) o)
                         (operations d)) d)).

Definition updateCondition (operationId conditionId : jsstr) (patch : ConditionPatch) (d : Dialog) : Dialog :=
  set_operations
    (map_operation operationId
       (λ o, set_conditions
          (map (λ c, if decide (c_id c = conditionId) then patch_condition patch c else c) (conditions o)) o)
       (operations d)) d.

Definition removeCondition (operationId conditionId : jsstr) (d : Dialog) : Dialog :=
  set_operations
    (map_operation operationId
       (λ o, set_conditions (base.filter (λ c, c_id c ≠ conditionId) (conditions o)) o) (operations d)) d.

Definition updateReturnErrorDraft (operationId : jsstr) (patch : ErrorPatch) (d : Dialog) : Dialog :=
  set_operations
    (map_operation operationId
       (λ o, patch_operation
          (PatchValueText (buildReturnErrorValueText (patch_error patch (parseReturnErrorDraft (value_text o)))))
          o) (operations d)) d.

(** *** The value of [prune_objects]

    The draft is read from the text of the rule every time, with new
    identifiers. *)

Definition rewrite_prune (updater : PruneObjectsDraft → IdM PruneObjectsDraft) (o : ParamOverrideOperation)
    : IdM ParamOverrideOperation :=
  let! draft := parsePruneObjectsDraft now (value_text o) in
  let! next := updater draft in
  ret (patch_operation (PatchValueText (buildPruneObjectsValueText next)) o).

Definition updatePruneObjectsDraft (operationId : jsstr) (updater : PruneObjectsDraft → IdM PruneObjectsDraft)
    (d : Dialog) : Dialog :=
  with_ids (map_ids (λ o, if has_id operationId o then rewrite_prune updater o else ret o) (operations d))
    set_operations d.

Definition patchPruneObjectsDraft (operationId : jsstr) (patch : PrunePatch) : Dialog → Dialog :=
  updatePruneObjectsDraft operationId (λ draft, ret (patch_prune patch draft)).

Definition addPruneRule (operationId : jsstr) : Dialog → Dialog :=
  updatePruneObjectsDraft operationId (λ draft,
    let! rule := normalizePruneRule now (JObj []) in ret (set_rules false (p_rules draft ++ [rule]) draft)).

Definition updatePruneRule (operationId ruleId : jsstr) (patch : ConditionPatch) : Dialog → Dialog :=
  updatePruneObjectsDraft operationId (λ draft,
    ret (set_rules (p_simpleMode draft)
           (map (λ r, if decide (c_id r = ruleId) then patch_condition patch r else r) (p_rules draft)) draft)).

Definition removePruneRule (operationId ruleId : jsstr) : Dialog → Dialog :=
  updatePruneObjectsDraft operationId (λ draft,
    ret (set_rules (p_simpleMode draft) (base.filter (λ r, c_id r ≠ ruleId) (p_rules draft)) draft)).

(** The draft that is shown: computed, with identifiers of its own, when the
    selected rule changes. *)
Definition pruneObjectsDraft (d : Dialog) : IdM (option PruneObjectsDraft) :=
  match selectedOperation d with
  | Some o =>
      if decide (mode o = js "prune_objects") then
        let! draft := parsePruneObjectsDraft now (value_text o) in ret (Some draft)
      else ret None
  | None => ret None
  end.

Definition render (d : Dialog) : Dialog := with_ids (pruneObjectsDraft d) (λ _ d, d) d.

(** *** Drag and drop *)

Definition handleDragStart (operationId : jsstr) (d : Dialog) : Dialog :=
  set_selected operationId
    (set_drag (MkDrag operationId (dragOverOperationId (drag d)) (dragOverPosition (drag d))) d).

(** [position] is the half of the row the pointer is in. *)
Definition handleDragOver (operationId : jsstr) (position : Position) (d : Dialog) : Dialog :=
  let dragged := draggedOperationId (drag d) in
  if is_empty dragged || bool_decide (dragged = operationId) then d
  else set_drag (MkDrag dragged operationId position) d.

(** [data] is the text of the data transfer. *)
Definition handleDrop (data operationId : jsstr) (d : Dialog) : Dialog :=
  let g := drag d in
  let sourceId := if is_empty (draggedOperationId g) then data else draggedOperationId g in
  let position := if decide (dragOverOperationId g = operationId) then dragOverPosition g else Before in
  set_drag no_drag
    (if negb (is_empty sourceId) && negb (is_empty operationId) && negb (bool_decide (sourceId = operationId))
     then set_selected sourceId
            (set_operations (reorderOperations (operations d) sourceId operationId position) d)
     else d).

(** *** Text and rules *)

Definition is_legacy (d : Dialog) : bool :=
  match s_visualMode (editor d) with Legacy => true | Operations => false end.

Definition built_result (b : Built) : jsstr + Notice :=
  match b with
  | BuiltText t => inl t
  | BuiltError line e => inr (RuleComplaint line e)
  | BuiltThrow => inr ConversionError
  end.

Definition buildVisualJson (d : Dialog) : jsstr + Notice :=
  if is_legacy d then
    let trimmed := trim (s_legacyValue (editor d)) in
    if is_empty trimmed then inl []
    else match JSON_parse trimmed with
         | Throw => inr MustBeValidJson
         | Ok (JObj o) => inl (pretty (JObj o))
         | Ok _ => inr LegacyMustBeObject
         end
  else built_result (buildOperationsJson (operations d) true).

Definition unchecked_text (d : Dialog) : jsstr :=
  if is_legacy d then s_legacyValue (editor d)
  else match buildOperationsJson (operations d) false with BuiltText t => t | _ => [] end.

Definition switchToJsonMode (d : Dialog) : Dialog :=
  match s_editMode (editor d) with
  | Json => d
  | Visual =>
      set_edit_mode Json
        (match buildVisualJson d with
         | inl t => set_json t NoError d
         | inr e => set_json (unchecked_text d) e (toast_error e d)
         end)
  end.

(** The state in which rules are edited. *)
Definition show_rules (ops : list ParamOverrideOperation) (d : Dialog) : Dialog :=
  set_selected (first_id ops)
    (set_editor (MkEditor Visual Operations [] ops (s_jsonText (editor d)) NoError) d).

(** An exception of [normalizeOperation] leaves everything as it is. *)
Definition switchToVisualMode (d : Dialog) : Dialog :=
  match s_editMode (editor d) with
  | Visual => d
  | Json =>
      let trimmed := trim (s_jsonText (editor d)) in
      if is_empty trimmed then with_ids (one_default now) show_rules d
      else match JSON_parse trimmed with
           | Throw => toast_error MustBeValidJson d
           | Ok (JObj o) =>
               match obj_get (js "operations") o with
               | JArr l =>
                   with_ids (rules_of now l) (λ ops d, set_preset (js "operations_default") (show_rules ops d)) d
               | _ =>
                   with_ids (one_default now) (λ ops d,
                     set_preset (js "legacy_default")
                       (set_selected (first_id ops)
                          (set_editor (MkEditor Visual Legacy (pretty (JObj o)) ops (s_jsonText (editor d))
                                         NoError) d))) d
               end
           | Ok _ => toast_error MustBeJsonObject d
           end
  end.

(** *** Templates *)

Definition fill_legacy (payload : jsval) : Dialog → Dialog :=
  with_ids (one_default now) (λ ops d,
    set_editor (MkEditor Visual Legacy (pretty payload) ops (pretty payload) NoError) d).

(** The members of the current object over the ones of the template. *)
Definition append_legacy (payload : jsval) (d : Dialog) : Dialog :=
  let trimmed := trim (s_legacyValue (editor d)) in
  if is_empty trimmed then fill_legacy (JObj (spread_over (spread payload) (JObj []))) d
  else match JSON_parse trimmed with
       | Throw => toast_error CannotAppend d
       | Ok current => fill_legacy (JObj (spread_over (spread payload) current)) d
       end.

Definition append_rules (payload : list jsval) : Dialog → Dialog :=
  with_ids (map_ids (normalizeOperation now) payload) (λ appended d,
    let existing := if is_legacy d then []
                    else base.filter (λ o, isOperationBlank o = false) (operations d) in
    let nextOps := existing ++ appended in
    set_selected (first_id nextOps) (set_editor (MkEditor Visual Operations [] nextOps [] NoError) d)).

Definition fill_rules (payload : list jsval) : Dialog → Dialog :=
  with_ids (rules_of now payload) (λ ops d,
    set_selected (first_id ops)
      (set_editor (MkEditor Visual Operations (s_legacyValue (editor d)) ops
                     (pretty (JObj [(js "operations", JArr payload)])) NoError) d)).

Definition fillTemplate (append : bool) (d : Dialog) : Dialog :=
  match preset_of (templatePresetKey d) with
  | LegacyPreset payload => if append && is_legacy d then append_legacy payload d else fill_legacy payload d
  | OperationsPreset payload => if append then append_rules payload d else fill_rules payload d
  end.

Definition resetEditorState : Dialog → Dialog :=
  with_ids (one_default now) (λ ops d,
    set_preset (js "operations_default")
      (set_selected (first_id ops) (set_editor (MkEditor Visual Operations [] ops [] NoError) d))).

(** *** Text and saving *)

Definition handleJsonChange (nextValue : jsstr) (d : Dialog) : Dialog :=
  let trimmed := trim nextValue in
  set_json nextValue (if is_empty trimmed || verifyJSON trimmed then NoError else JsonFormatError) d.

Definition formatJson (d : Dialog) : Dialog :=
  let trimmed := trim (s_jsonText (editor d)) in
  if is_empty trimmed then d
  else match JSON_parse trimmed with
       | Throw => toast_error MustBeValidJson d
       | Ok v => set_json (pretty v) NoError d
       end.

Definition visualValidationError (d : Dialog) : Notice :=
  match s_editMode (editor d) with
  | Json => NoError
  | Visual => match buildVisualJson d with inl _ => NoError | inr e => e end
  end.

Definition save_result (d : Dialog) : jsstr + Notice :=
  match s_editMode (editor d) with
  | Visual => buildVisualJson d
  | Json =>
      let trimmed := trim (s_jsonText (editor d)) in
      if is_empty trimmed then inl []
      else match JSON_parse trimmed with Throw => inr MustBeValidJson | Ok v => inl (pretty v) end
  end.

Definition handleSave (d : Dialog) : Dialog :=
  match save_result d with inl t => close_with t d | inr e => toast_error e d end.

Definition set_all_conditions (expanded : bool) (d : Dialog) : Dialog :=
  match selectedOperation d with
  | None => d
  | Some o => set_expanded (foldl (λ es c, assoc_set (c_id c) expanded es) (expandedConditions d) (conditions o)) d
  end.

Definition expandAllConditions : Dialog → Dialog := set_all_conditions true.
Definition collapseAllConditions : Dialog → Dialog := set_all_conditions false.

(** *** Effects *)

(** The dialog opens, or its value changes while it is open. *)
Definition open_effect (value : jsstr) (d : Dialog) : res Dialog :=
  match parseInitialState now value (seed d) with
  | (Throw, _) => Throw
  | (Ok e, n) =>
      Ok (MkDialog e [] (first_id (s_operations e)) [] no_drag
            (match s_visualMode e with Legacy => js "legacy_default" | Operations => js "operations_default" end)
            n (toasts d) (saved d) true)
  end.

Definition keep_selection (d : Dialog) : Dialog :=
  match operations d with
  | [] => set_selected [] d
  | o :: _ => if existsb (has_id (selectedOperationId d)) (operations d) then d else set_selected (id o) d
  end.

Inductive Event :=
| Open (value : jsstr)
| Select (operationId : jsstr)
| Search (keyword : jsstr)
| UpdateOperation (operationId : jsstr) (patch : OperationPatch)
| AddOperation
| DuplicateOperation (eager : bool) (operationId : jsstr)
| RemoveOperation (operationId : jsstr)
| AddCondition (operationId : jsstr)
| UpdateCondition (operationId conditionId : jsstr) (patch : ConditionPatch)
| RemoveCondition (operationId conditionId : jsstr)
| UpdateReturnError (operationId : jsstr) (patch : ErrorPatch)
| UpdatePrune (operationId : jsstr) (patch : PrunePatch)
| AddPruneRule (operationId : jsstr)
| UpdatePruneRule (operationId ruleId : jsstr) (patch : ConditionPatch)
| RemovePruneRule (operationId ruleId : jsstr)
| Render
| DragStart (operationId : jsstr)
| DragOver (operationId : jsstr) (position : Position)
| Drop (data operationId : jsstr)
| DragEnd
| ToJson
| ToVisual
| LegacyChange (value : jsstr)
| JsonChange (value : jsstr)
| FormatJson
| ChoosePreset (key : jsstr)
| FillTemplate (append : bool)
| ResetEditor
| Expand (conditionId : jsstr) (expanded : bool)
| ExpandAll (expanded : bool)
| Save.

Definition handle (e : Event) (d : Dialog) : Dialog :=
  match e with
  | Open _ => d
  | Select i => set_selected i d
  | Search k => set_search k d
  | UpdateOperation i p => updateOperation i p d
  | AddOperation => addOperation d
  | DuplicateOperation eager i => duplicateOperation eager i d
  | RemoveOperation i => removeOperation i d
  | AddCondition i => addCondition i d
  | UpdateCondition i c p => updateCondition i c p d
  | RemoveCondition i c => removeCondition i c d
  | UpdateReturnError i p => updateReturnErrorDraft i p d
  | UpdatePrune i p => patchPruneObjectsDraft i p d
  | AddPruneRule i => addPruneRule i d
  | UpdatePruneRule i r p => updatePruneRule i r p d
  | RemovePruneRule i r => removePruneRule i r d
  | Render => render d
  | DragStart i => handleDragStart i d
  | DragOver i pos => handleDragOver i pos d
  | Drop data i => handleDrop data i d
  | DragEnd => set_drag no_drag d
  | ToJson => switchToJsonMode d
  | ToVisual => switchToVisualMode d
  | LegacyChange v => set_legacy v d
  | JsonChange v => handleJsonChange v d
  | FormatJson => formatJson d
  | ChoosePreset k => set_preset (if is_empty k then js "operations_default" else k) d
  | FillTemplate append => fillTemplate append d
  | ResetEditor => resetEditorState d
  | Expand c b => set_expanded (assoc_set c b (expandedConditions d)) d
  | ExpandAll b => set_all_conditions b d
  | Save => handleSave d
  end.

Definition step (e : Event) (d : Dialog) : res Dialog :=
  res_map keep_selection (match e with Open v => open_effect v d | _ => Ok (handle e d) end).

Fixpoint run (es : list Event) (d : Dialog) : res Dialog :=
  match es with
  | [] => Ok d
  | e :: es' => let* d' := step e d in run es' d'
  end.

(** The state of the component before it is opened. *)
Definition mounted (n : nat) : Dialog :=
  let r := createDefaultOperation now n in
  keep_selection
    (MkDialog (MkEditor Visual Operations [] (match r.1 with Ok o => [o] | Throw => [] end) [] NoError) [] [] []
       no_drag (js "operations_default") r.2 [] None false).

End handlers.

(** ** The invariant *)

(** What the lists of choices let through. *)
Definition allowed (e : Event) : Prop :=
  match e with
  | UpdateOperation _ (PatchMode m) => m ∈ OPERATION_MODE_VALUES
  | UpdateOperation _ (PatchLogic l) => l ∈ [AND; OR]
  | UpdateCondition _ _ (PatchConditionMode m) => m ∈ CONDITION_MODE_VALUES
  | _ => True
  end.

Section invariant.
Context (now : nat → Z).

(** Rules made before the counter reached [n]. *)
Definition good (n : nat) (ops : list ParamOverrideOperation) : Prop := made_rules now 0 n ops.

Definition inv (d : Dialog) : Prop := good (seed d) (operations d).

Lemma made_good lo n ops : made_rules now lo n ops → good n ops.
Proof. intros (? & ? & ?). split_and!; [|done..]. eapply ids_in_mono; [done|lia..]. Qed.

Lemma good_mono n n' ops : good n ops → (n ≤ n')%nat → good n' ops.
Proof. intros (? & ? & ?) ?. split_and!; [|done..]. eapply ids_in_mono; [done|lia..]. Qed.

Lemma all_ids_app l l' : all_ids (l ++ l') = all_ids l ++ all_ids l'.
Proof. apply bind_app. Qed.

Lemma all_ids_perm l l' : l ≡ₚ l' → all_ids l ≡ₚ all_ids l'.
Proof. intros Hl. unfold all_ids. by rewrite Hl. Qed.

Lemma all_ids_sublist l l' : sublist l l' → sublist (all_ids l) (all_ids l').
Proof.
  induction 1 as [|x l l' _ IH|x l l' _ IH]; [done| |].
  - change (sublist (op_ids x ++ all_ids l) (op_ids x ++ all_ids l')). by apply sublist_app.
  - change (sublist (all_ids l) (op_ids x ++ all_ids l')). by apply sublist_inserts_l.
Qed.

Lemma ids_of_all_ids l : sublist (map id l) (all_ids l).
Proof.
  induction l as [|o l IH]; [done|]. simpl. unfold all_ids, op_ids. simpl. constructor.
  by apply sublist_inserts_l.
Qed.

Lemma good_ids n ops : good n ops → NoDup (map id ops).
Proof. intros ((? & _) & _). eapply sublist_NoDup; [done|apply ids_of_all_ids]. Qed.

Lemma good_sub n ops ops' : good n ops → sublist ops' ops → ops' ≠ [] → good n ops'.
Proof.
  intros (Hi & Hok & _) Hs ?. split_and!; [|by eapply Forall_sub|done].
  eapply ids_in_sub; [done|by apply all_ids_sublist].
Qed.

Lemma good_perm n ops ops' : good n ops → ops' ≡ₚ ops → good n ops'.
Proof.
  intros (Hi & Hok & Hne) Hp. split_and!.
  - by rewrite (all_ids_perm _ _ Hp).
  - by rewrite Hp.
  - intros ->. by apply Permutation_nil_l in Hp.
Qed.

(** A rewriting of the rules one by one that makes no identifier. *)
Lemma good_rel n ops ops' :
  good n ops →
  Forall2 (λ o o', sublist (op_ids o') (op_ids o) ∧ (op_ok o → op_ok o')) ops ops' → good n ops'.
Proof.
  intros (Hi & Hok & Hne) Hall. split_and!.
  - eapply ids_in_sub; [done|]. clear Hi Hok Hne.
    induction Hall as [|o o' ops ops' [Ho _] _ IH]; [done|]. by apply sublist_app.
  - clear Hi Hne. induction Hall as [|o o' ops ops' [_ Ho] _ IH]; inversion Hok; constructor; auto.
  - intros ->. by inversion Hall.
Qed.

Lemma good_map n (f : ParamOverrideOperation → ParamOverrideOperation) ops :
  good n ops →
  (∀ o, o ∈ ops → sublist (op_ids (f o)) (op_ids o) ∧ (op_ok o → op_ok (f o))) → good n (map f ops).
Proof.
  intros Hg Hf. apply (good_rel _ _ _ Hg). apply Forall2_fmap_r, Forall_Forall2_diag.
  by apply Forall_forall.
Qed.

Lemma good_map_operation n i f ops :
  good n ops →
  (∀ o, o ∈ ops → sublist (op_ids (f o)) (op_ids o) ∧ (op_ok o → op_ok (f o))) →
  good n (map_operation i f ops).
Proof.
  intros Hg Hf. apply good_map; [done|]. intros o Ho. case_match; auto.
Qed.

Lemma good_app n n' ops new :
  good n ops → ids_in now n n' (all_ids new) → Forall op_ok new → (n ≤ n')%nat → good n' (ops ++ new).
Proof.
  intros (Hi & Hok & Hne) Hnew ??. split_and!.
  - rewrite all_ids_app. eapply ids_in_app; [done..|lia].
  - by apply Forall_app.
  - by destruct ops.
Qed.

(** Operations that make identifiers advance the counter. *)
Lemma with_ids_inv {A} (m : IdM A) k d (P : nat → nat → A → Prop) :
  inv d → spec m P →
  (∀ x n, (seed d ≤ n)%nat → P (seed d) n x → inv (k x (set_seed n d))) → inv (with_ids m k d).
Proof.
  intros Hd Hm Hk. unfold with_ids. destruct (Hm (seed d)) as [Hle HP].
  destruct (m (seed d)) as [[x|] n]; simpl in *; [by apply Hk; [|apply HP]|].
  by apply (good_mono (seed d)).
Qed.

(** A handler that shows new rules. *)
Lemma with_ids_made m k d :
  inv d → spec m (made_rules now) →
  (∀ ops d, operations (k ops d) = ops ∧ seed (k ops d) = seed d) → inv (with_ids m k d).
Proof.
  intros Hd Hm Hk. eapply with_ids_inv; [done..|]. intros ops n Hn Hops.
  unfold inv. destruct (Hk ops (set_seed n d)) as [-> ->]. by eapply made_good.
Qed.

(** *** Every handler keeps it *)

Lemma patch_operation_ids p o : op_ids (patch_operation p o) = op_ids o.
Proof. by destruct p, o. Qed.

Lemma patch_operation_ok i p o : allowed (UpdateOperation i p) → op_ok o → op_ok (patch_operation p o).
Proof. destruct p, o; simpl; intros ? (? & ? & ?); by split_and!. Qed.

Lemma patch_condition_id p c : c_id (patch_condition p c) = c_id c.
Proof. by destruct p, c. Qed.

Lemma patch_condition_ok i j p c :
  allowed (UpdateCondition i j p) → condition_ok c → condition_ok (patch_condition p c).
Proof. by destruct p, c. Qed.

Lemma updateOperation_inv i p d : allowed (UpdateOperation i p) → inv d → inv (updateOperation i p d).
Proof.
  intros Hp Hd. apply good_map_operation; [done|]. intros o _. rewrite patch_operation_ids.
  split; [done|]. by apply (patch_operation_ok i).
Qed.

Lemma addOperation_inv d : inv d → inv (addOperation now d).
Proof.
  intros Hd. eapply with_ids_inv; [done|apply createDefaultOperation_made|].
  intros o n Hn [Ho Hok]. eapply good_app; [done| |by constructor|done].
  unfold all_ids. simpl. by rewrite app_nil_r.
Qed.

Lemma insert_perm {A} i (x : A) l : take i l ++ x :: drop i l ≡ₚ x :: l.
Proof. rewrite <- Permutation_middle. by rewrite take_drop. Qed.

Lemma duplicateOperation_inv eager i d : inv d → inv (duplicateOperation now eager i d).
Proof.
  intros Hd. unfold duplicateOperation. case_match; [|done]. case_match; [|done].
  eapply with_ids_inv; [done|apply normalizeOperation_spec|].
  intros c n' Hn [Hc Hok]. assert (good n' (operations d ++ [c])) as Hg.
  { eapply good_app; [done| |by constructor|done]. unfold all_ids. simpl. by rewrite app_nil_r. }
  assert (take (S n) (operations d) ++ c :: drop (S n) (operations d) ≡ₚ operations d ++ [c]) as Hp
    by (rewrite insert_perm, Permutation_app_comm; done).
  destruct eager; by apply (good_perm _ _ _ Hg Hp).
Qed.

Lemma filter_other_nonempty i ops :
  NoDup (map id ops) → (1 < length ops)%nat → base.filter (λ o, id o ≠ i) ops ≠ [].
Proof.
  intros Hn Hl E. destruct ops as [|a [|b ops]]; simpl in *; [lia..|].
  apply NoDup_cons in Hn as [Ha Hn].
  assert (∀ o, o ∈ a :: b :: ops → id o = i) as Hall.
  { intros o Ho. destruct (decide (id o = i)) as [|Hne]; [done|].
    assert (o ∈ base.filter (λ o, id o ≠ i) (a :: b :: ops)) as H by (apply list_elem_of_filter; done).
    rewrite E in H. by apply elem_of_nil in H. }
  apply Ha. rewrite (Hall a), <- (Hall b) by set_solver. constructor.
Qed.

Lemma removeOperation_inv i d : inv d → inv (removeOperation now i d).
Proof.
  intros Hd. unfold removeOperation. case_match eqn:Hl.
  - apply with_ids_made; [done|apply one_default_spec|done].
  - apply Nat.leb_gt in Hl. eapply good_sub; [done|apply sublist_filter|].
    apply filter_other_nonempty; [by eapply good_ids|done].
Qed.

Lemma map_operation_absent i f ops : i ∉ map id ops → map_operation i f ops = ops.
Proof.
  intros Hi. unfold map_operation. rewrite <- (map_id ops) at 2. apply map_ext_in.
  intros o Ho%list_elem_of_In. unfold has_id. rewrite bool_decide_eq_false_2; [done|].
  intros <-. by apply Hi, list_elem_of_fmap_2.
Qed.

Lemma add_condition_ids i c ops :
  NoDup (map id ops) →
  let ops' := map_operation i (λ o, set_conditions (conditions o ++ [c]) o) ops in
  ops' = ops ∨ all_ids ops' ≡ₚ all_ids ops ++ [c_id c].
Proof.
  induction ops as [|o ops IH]; intros Hn; simpl; [by left|]. simpl in Hn. apply NoDup_cons in Hn as [Ho Hn].
  destruct (has_id i o) eqn:Hi.
  - right. apply bool_decide_eq_true in Hi. subst i. rewrite map_operation_absent by done.
    unfold all_ids, op_ids. simpl. rewrite map_app. simpl.
    rewrite <- !app_assoc. by rewrite (Permutation_app_comm [c_id c]).
  - destruct (IH Hn) as [E|Hp]; [left; by rewrite E|right].
    change (op_ids o ++ all_ids (map_operation i (λ o, set_conditions (conditions o ++ [c]) o) ops)
      ≡ₚ (op_ids o ++ all_ids ops) ++ [c_id c]). rewrite <- app_assoc. by rewrite Hp.
Qed.

Lemma addCondition_inv i d : inv d → inv (addCondition now i d).
Proof.
  intros Hd. eapply with_ids_inv; [done|rewrite <- createDefaultCondition_spec; apply normalizeCondition_spec|].
  intros c n Hn [Hc Hok]. pose proof Hd as (Hi & Hall & Hne). unfold inv. simpl.
  set (ops' := map_operation _ _ _).
  split_and!.
  - destruct (add_condition_ids i c (operations d)) as [E|Hp]; [by eapply good_ids| |].
    + unfold ops'. change (operations (set_seed n d)) with (operations d). rewrite E.
      eapply ids_in_mono; [done|lia..].
    + unfold ops'. change (operations (set_seed n d)) with (operations d). rewrite Hp.
      apply (ids_in_app now 0 (seed d) n); [done|done|lia].
  - unfold ops', map_operation. apply Forall_map. eapply Forall_impl; [done|]. intros o (? & ? & ?).
    case_match; [|done]. split_and!; [done..|]. by apply Forall_app; split; [|constructor].
  - unfold ops', map_operation. change (operations (set_seed n d)) with (operations d).
    by destruct (operations d).
Qed.

Lemma updateCondition_inv i j p d :
  allowed (UpdateCondition i j p) → inv d → inv (updateCondition i j p d).
Proof.
  intros Hp Hd. apply good_map_operation; [done|]. intros o _. split.
  - unfold op_ids. simpl. rewrite map_map.
    erewrite map_ext; [done|]. intros c. case_decide; [apply patch_condition_id|done].
  - intros (? & ? & Hc). split_and!; [done..|]. simpl. apply Forall_map.
    eapply Forall_impl; [done|]. intros c. case_decide; [by apply (patch_condition_ok i j)|done].
Qed.

Lemma removeCondition_inv i j d : inv d → inv (removeCondition i j d).
Proof.
  intros Hd. apply good_map_operation; [done|]. intros o _. split.
  - unfold op_ids. simpl. constructor. apply (fmap_sublist c_id), sublist_filter.
  - intros (? & ? & Hc). split_and!; [done..|]. simpl. eapply Forall_sub; [done|apply sublist_filter].
Qed.

Lemma value_text_kept (i : jsstr) t o :
  sublist (op_ids (patch_operation (PatchValueText t) o)) (op_ids o) ∧
  (op_ok o → op_ok (patch_operation (PatchValueText t) o)).
Proof. rewrite patch_operation_ids. split; [done|]. by apply (patch_operation_ok i). Qed.

Lemma updateReturnErrorDraft_inv i p d : inv d → inv (updateReturnErrorDraft i p d).
Proof. intros Hd. apply good_map_operation; [done|]. intros o _. apply (value_text_kept i). Qed.

Lemma updatePruneObjectsDraft_inv i f d :
  (∀ r, spec (f r) (λ _ _ _, True)) → inv d → inv (updatePruneObjectsDraft now i f d).
Proof.
  intros Hf Hd. eapply with_ids_inv; [done| |].
  - apply (spec_map_rel _ (λ o o', sublist (op_ids o') (op_ids o) ∧ (op_ok o → op_ok o'))).
    intros o _. case_match; [|by apply spec_ret].
    eapply (spec_bind _ _ _ (λ _ _ _ o', sublist (op_ids o') (op_ids o) ∧ (op_ok o → op_ok o')));
      [apply parsePruneObjectsDraft_spec| |].
    + intros r. eapply (spec_bind _ _ _ (λ _ _ _ o', sublist (op_ids o') (op_ids o) ∧ (op_ok o → op_ok o')));
        [apply Hf| |intros; assumption].
      intros next. apply spec_ret. intros _. apply (value_text_kept i).
    + intros; assumption.
  - intros ops n Hn Hops. apply (good_rel n (operations d)); [by apply (good_mono (seed d))|assumption].
Qed.

Lemma render_inv d : inv d → inv (render now d).
Proof.
  intros Hd. eapply (with_ids_inv _ _ _ (λ _ _ _, True)); [done| |].
  - unfold pruneObjectsDraft. case_match; [|by apply spec_ret]. case_decide; [|by apply spec_ret].
    eapply (spec_bind _ _ _ (λ _ _ _ _, True)); [apply parsePruneObjectsDraft_spec| |done].
    intros r. by apply spec_ret.
  - intros r n Hn _. by eapply good_mono.
Qed.

Lemma reorderOperations_perm ops i j pos : reorderOperations ops i j pos ≡ₚ ops.
Proof.
  unfold reorderOperations. case_match; [done|]. case_match; [|done]. case_match eqn:Hm; [|done].
  case_match; [|done]. rewrite insert_perm. symmetry. by apply delete_Permutation.
Qed.

Lemma handleDrop_inv data i d : inv d → inv (handleDrop data i d).
Proof.
  intros Hd. unfold handleDrop. case_match; [|done]. eapply good_perm; [done|].
  apply reorderOperations_perm.
Qed.

Lemma preset_rules key : match preset_of key with OperationsPreset l => l ≠ [] | LegacyPreset _ => True end.
Proof.
  unfold preset_of. destruct (assoc_get key TEMPLATE_PRESET_CONFIG) as [p|] eqn:E; [|done].
  apply assoc_get_Some_elem, (list_elem_of_fmap_2 snd) in E. simpl in E.
  assert (Forall (λ p, match p with OperationsPreset l => l ≠ [] | LegacyPreset _ => True end)
    (map snd TEMPLATE_PRESET_CONFIG)) as Hall by (repeat constructor; discriminate).
  rewrite Forall_forall in Hall. by apply (Hall p).
Qed.

Lemma fillTemplate_inv append d : inv d → inv (fillTemplate now append d).
Proof.
  intros Hd. unfold fillTemplate. pose proof (preset_rules (templatePresetKey d)) as Hp.
  destruct (preset_of _) as [l|payload].
  - destruct append; [|apply with_ids_made; [done|apply rules_of_spec|done]].
    eapply with_ids_inv; [done|apply map_operations_spec|].
    intros new n Hn (Hi & Hok & Hl). unfold inv. simpl. pose proof Hd as (Hids & Hall & Hne).
    change (operations (set_seed n d)) with (operations d). change (is_legacy (set_seed n d)) with (is_legacy d).
    split_and!.
    + cbn. rewrite all_ids_app. apply (ids_in_app now 0 (seed d) n); [|done|lia].
      destruct (is_legacy d); [apply ids_in_nil|]. eapply ids_in_sub; [done|].
      apply all_ids_sublist, sublist_filter.
    + cbn. apply Forall_app. split; [|done]. destruct (is_legacy d); [constructor|eapply Forall_sub; [done|apply sublist_filter]].
    + cbn. intros E%app_eq_nil. destruct E as [_ ->]. by destruct l.
  - assert (∀ v, inv (fill_legacy now v d)) as Hfill
      by (intros v; apply with_ids_made; [done|apply one_default_spec|done]).
    case_match; [|apply Hfill]. unfold append_legacy. case_match; [apply Hfill|].
    case_match; [apply Hfill|done].
Qed.

Lemma switchToVisualMode_inv d : inv d → inv (switchToVisualMode now d).
Proof.
  intros Hd. unfold switchToVisualMode. case_match; [done|].
  case_match; [apply with_ids_made; [done|apply one_default_spec|done]|].
  destruct (JSON_parse _) as [[]|]; try done.
  case_match; apply with_ids_made; try done; try apply one_default_spec. apply rules_of_spec.
Qed.

Lemma handle_inv e d : allowed e → inv d → inv (handle now e d).
Proof.
  intros He Hd. destruct e; simpl; try done.
  - by apply updateOperation_inv.
  - by apply addOperation_inv.
  - by apply duplicateOperation_inv.
  - by apply removeOperation_inv.
  - by apply addCondition_inv.
  - by apply updateCondition_inv.
  - by apply removeCondition_inv.
  - by apply updateReturnErrorDraft_inv.
  - apply updatePruneObjectsDraft_inv; [|done]. intros r. by apply spec_ret.
  - apply updatePruneObjectsDraft_inv; [|done]. intros r.
    eapply (spec_bind _ _ _ (λ _ _ _ _, True)); [apply normalizePruneRule_spec| |done].
    intros c. by apply spec_ret.
  - apply updatePruneObjectsDraft_inv; [|done]. intros r. by apply spec_ret.
  - apply updatePruneObjectsDraft_inv; [|done]. intros r. by apply spec_ret.
  - by apply render_inv.
  - unfold handleDragOver. by case_match.
  - by apply handleDrop_inv.
  - unfold switchToJsonMode. repeat case_match; done.
  - by apply switchToVisualMode_inv.
  - unfold formatJson. repeat case_match; done.
  - by apply fillTemplate_inv.
  - apply with_ids_made; [done|apply one_default_spec|done].
  - unfold set_all_conditions. by case_match.
  - unfold handleSave. by case_match.
Qed.

Lemma open_effect_inv v d d' : open_effect now v d = Ok d' → inv d'.
Proof.
  unfold open_effect. destruct (parseInitialState_spec now v (seed d)) as [Hle HP].
  destruct (parseInitialState _ _ _) as [[e|] n]; [|done]. intros [= <-]. simpl in *.
  eapply made_good. by apply HP.
Qed.

Lemma keep_selection_inv d : inv d → inv (keep_selection d).
Proof. intros Hd. unfold keep_selection. by repeat case_match. Qed.

Lemma keep_selection_valid d : inv d → selectedOperationId (keep_selection d) ∈ map id (operations (keep_selection d)).
Proof.
  intros (_ & _ & Hne). unfold keep_selection. destruct (operations d) as [|o l] eqn:E; [done|].
  case_match eqn:Hs; [|change (id o ∈ map id (operations d)); rewrite E; constructor]. rewrite E.
  apply existsb_exists in Hs as (o' & Ho & Hi%bool_decide_eq_true). rewrite <- Hi.
  apply list_elem_of_fmap_2. by apply list_elem_of_In.
Qed.

Lemma step_inv e d d' :
  allowed e → inv d → step now e d = Ok d' → inv d' ∧ selectedOperationId d' ∈ map id (operations d').
Proof.
  intros He Hd H. unfold step in H. apply res_map_Ok in H as (d0 & H0 & ->).
  assert (inv d0) as Hi.
  { pose proof (handle_inv _ _ He Hd) as Hh.
    destruct e; cbv beta iota in H0; [by eapply open_effect_inv|..];
      (assert (∀ x y : Dialog, Ok x = Ok y → inv x → inv y) as Hinj by congruence); exact (Hinj _ _ H0 Hh). }
  split; [by apply keep_selection_inv|by apply keep_selection_valid].
Qed.

Lemma mounted_inv n :
  inv (mounted now n) ∧ selectedOperationId (mounted now n) ∈ map id (operations (mounted now n)).
Proof.
  unfold mounted. set (d := MkDialog _ _ _ _ _ _ _ _ _ _). assert (inv d) as Hd.
  { destruct (createDefaultOperation_made now n) as [Hle HP].
    split_and!; [|by repeat constructor; apply HP|done].
    destruct (HP _ eq_refl) as [Hi _]. unfold all_ids. cbn in *. by eapply ids_in_mono; [|lia|]. }
  split; [by apply keep_selection_inv|by apply keep_selection_valid].
Qed.

Lemma run_inv es : ∀ d d',
  Forall allowed es → inv d ∧ selectedOperationId d ∈ map id (operations d) → run now es d = Ok d' →
  inv d' ∧ selectedOperationId d' ∈ map id (operations d').
Proof.
  induction es as [|e es IH]; intros d d' He [Hd Hs] H; [by injection H as <-|].
  inversion He; subst. simpl in H. res_step H as d1 Hd1. eapply IH; [done| |done]. by eapply step_inv.
Qed.

End invariant.

(** ** Claims *)

(** C8. Whatever is done in the dialog after it is mounted (rules added, copied,
    removed, dragged, rewritten from text or from a template), there is always a
    rule, no two rules or conditions share an identifier, every mode and
    connective is one of the choices, and the rule shown on the right is one of
    the list. *)
Theorem rules_identified now n es d :
  Forall allowed es → run now es (mounted now n) = Ok d →
  operations d ≠ [] ∧ NoDup (all_ids (operations d)) ∧ Forall op_ok (operations d) ∧
  ∃ o, selectedOperation d = Some o ∧ o ∈ operations d ∧ id o = selectedOperationId d.
Proof.
  intros He H. destruct (run_inv now es _ _ He (mounted_inv now n) H) as [((Hi & _) & Hok & Hne) Hs].
  split_and!; [done..|]. apply list_elem_of_fmap in Hs as (o & Ho & Hin).
  unfold selectedOperation. destruct (base.filter _ _) as [|o' l] eqn:E.
  - assert (o ∈ base.filter (λ o, id o = selectedOperationId d) (operations d)) as Hf
      by (apply list_elem_of_filter; done).
    rewrite E in Hf. by apply elem_of_nil in Hf.
  - assert (o' ∈ o' :: l) as Hf by constructor. rewrite <- E in Hf.
    apply list_elem_of_filter in Hf as [??]. by exists o'.
Qed.

Lemma rules_identified_witness :
  let now := λ _ : nat, 7 in
  let id1 := nextLocalId now 0 in
  match run now [UpdateOperation id1 (PatchMode (js "delete")); AddCondition id1; DuplicateOperation true id1;
                 AddOperation; RemoveOperation id1; FillTemplate true] (mounted now 0) with
  | Ok d => length (operations d) = 2%nat ∧ NoDup (all_ids (operations d))
  | Throw => False
  end.
Proof.
  intros now id1. destruct (run _ _ _) as [d|] eqn:E; [|vm_compute in E; discriminate].
  split; [vm_compute in E; by simplify_eq|].
  apply (rules_identified now 0 _ d) in E; [by destruct E as (_ & ? & _)|].
  repeat constructor.
Defined.

Lemma find_index_Some {A} (p : A → bool) l k :
  find_index p l = Some k → ∃ a x b, l = a ++ x :: b ∧ length a = k ∧ p x = true.
Proof.
  revert k. induction l as [|y l IH]; simpl; intros k H; [done|]. destruct (p y) eqn:Hp.
  - simplify_eq. by exists [], y, l.
  - apply fmap_Some in H as (k' & Hk & ->). destruct (IH k' Hk) as (a & x & b & -> & <- & ?).
    by exists (y :: a), x, b.
Qed.

Lemma find_index_elem {A} (p : A → bool) l x : x ∈ l → p x = true → is_Some (find_index p l).
Proof.
  induction 1 as [|x y l Hx IH]; simpl; intros Hp; [by rewrite Hp|].
  destruct (p y); [done|]. destruct (IH Hp) as [k ->]. done.
Qed.

Lemma same_id ops x y : NoDup (map id ops) → x ∈ ops → y ∈ ops → id x = id y → x = y.
Proof.
  induction ops as [|o ops IH]; simpl; intros Hn Hx Hy E; [by apply elem_of_nil in Hx|].
  apply NoDup_cons in Hn as [Ho Hn].
  apply elem_of_cons in Hx as [->|Hx], Hy as [->|Hy]; auto; exfalso; apply Ho.
  - rewrite E. by apply list_elem_of_fmap_2.
  - rewrite <- E. by apply list_elem_of_fmap_2.
Qed.

Lemma find_id ops x :
  NoDup (map id ops) → x ∈ ops →
  ∃ a b, ops = a ++ x :: b ∧ find_index (has_id (id x)) ops = Some (length a).
Proof.
  intros Hn Hx. destruct (find_index_elem (has_id (id x)) ops x Hx) as [k Hk]; [by apply bool_decide_eq_true|].
  pose proof (find_index_Some _ _ _ Hk) as (a & x' & b & E & <- & Hp%bool_decide_eq_true).
  assert (x' = x) as -> by (apply (same_id ops); [done|set_solver|done|done]). by exists a, b.
Qed.

Lemma filter_middle i a x b :
  id x = i → base.filter (λ o, id o ≠ i) (a ++ x :: b) = base.filter (λ o, id o ≠ i) (a ++ b).
Proof. intros Hx. rewrite !filter_app, filter_cons_False; [done|]. intros Hc. by apply Hc. Qed.

(** Moving a rule: it ends next to the target, the others keep their order. *)
Lemma reorder_exact ops x y pos :
  NoDup (map id ops) → x ∈ ops → y ∈ ops → id x ≠ id y → id x ≠ [] → id y ≠ [] →
  let r := reorderOperations ops (id x) (id y) pos in
  base.filter (λ o, id o ≠ id x) r = base.filter (λ o, id o ≠ id x) ops ∧
  ∃ a b, r = a ++ match pos with Before => [x; y] | After => [y; x] end ++ b.
Proof.
  intros Hn Hx Hy Hne Hx0 Hy0. destruct (find_id ops x Hn Hx) as (a & b & E & Hf).
  unfold reorderOperations. rewrite bool_decide_eq_false_2 by done.
  destruct (id x) as [|c i] eqn:Ei; [done|]. destruct (id y) as [|c' j] eqn:Ej; [done|]. simpl is_empty.
  cbv beta iota. simpl orb. rewrite <- Ei, <- Ej in *. cbv iota. rewrite Hf.
  assert (ops !! length a = Some x) as Hl by (rewrite E; by apply list_lookup_middle).
  rewrite Hl. assert (delete (length a) ops = a ++ b) as Hd by (rewrite E; by rewrite delete_middle).
  rewrite Hd. assert (NoDup (map id (a ++ b))) as Hn'.
  { eapply sublist_NoDup; [exact Hn|]. rewrite E. apply (fmap_sublist id).
    apply sublist_app; [done|]. by apply sublist_cons. }
  destruct (find_id (a ++ b) y Hn') as (a' & b' & E' & Hf').
  { rewrite E in Hy. apply elem_of_app in Hy as [Hy|[->|Hy]%elem_of_cons]; set_solver. }
  rewrite Hf'. split.
  - rewrite E. rewrite (filter_middle _ a x b), (filter_middle _ (take _ _) x) by done.
    by rewrite take_drop.
  - rewrite E'. destruct pos.
    + exists a', b'. rewrite take_app_length, drop_app_length. done.
    + exists a', b'. rewrite (cons_middle y a' b'), app_assoc.
      assert (length (a' ++ [y]) = S (length a')) as <- by (rewrite length_app; simpl; lia).
      rewrite take_app_length, drop_app_length. by rewrite <- app_assoc.
Qed.

Lemma nextLocalId_nonempty now k : nextLocalId now k ≠ [].
Proof. unfold nextLocalId. intros [E _]%app_eq_nil. by vm_compute in E. Qed.

Lemma good_nonempty now n ops o : good now n ops → o ∈ ops → id o ≠ [].
Proof.
  intros ((_ & Hi) & _) Ho. destruct (Hi (id o)) as (k & _ & ->); [|apply nextLocalId_nonempty].
  eapply elem_of_sublist; [|apply ids_of_all_ids]. by apply list_elem_of_fmap_2.
Qed.

Lemma keep_selection_id d : selectedOperationId d ∈ map id (operations d) → keep_selection d = d.
Proof.
  intros Hs. unfold keep_selection. destruct (operations d) as [|o l] eqn:E; [by apply elem_of_nil in Hs|].
  rewrite (proj2 (existsb_exists _ (o :: l))); [done|].
  apply list_elem_of_fmap in Hs as (o' & Ho & Hin%list_elem_of_In). exists o'. split; [done|].
  by apply bool_decide_eq_true.
Qed.

Lemma drag_steps now d x y pos data :
  inv now d → x ∈ operations d → y ∈ operations d → id x ≠ id y →
  run now [DragStart (id x); DragOver (id y) pos; Drop data (id y)] d =
  Ok (set_drag no_drag (set_selected (id x)
        (set_operations (reorderOperations (operations d) (id x) (id y) pos) d))).
Proof.
  intros Hd Hx Hy Hne. pose proof (good_nonempty _ _ _ _ Hd Hx) as Hx0. pose proof (good_nonempty _ _ _ _ Hd Hy) as Hy0.
  assert (id x ∈ map id (operations d)) as Hin by (by apply list_elem_of_fmap_2).
  cbn [run]. unfold step at 1. cbn [res_map res_bind handle]. rewrite keep_selection_id by exact Hin.
  unfold step at 1. cbn [res_map res_bind handle]. unfold handleDragOver, handleDragStart. simpl draggedOperationId.
  rewrite bool_decide_eq_false_2 by done. destruct (id x) as [|c i] eqn:Ei; [done|]. rewrite <- Ei in *.
  replace (is_empty (id x)) with false by (by rewrite Ei). simpl orb. cbv iota.
  rewrite keep_selection_id by exact Hin.
  unfold step. cbn [res_map res_bind handle]. unfold handleDrop. simpl draggedOperationId. simpl dragOverOperationId.
  replace (is_empty (id x)) with false by (by rewrite Ei). cbv iota.
  rewrite decide_True by done. rewrite bool_decide_eq_false_2 by done.
  replace (is_empty (id x)) with false by (by rewrite Ei).
  replace (is_empty (id y)) with false by (by destruct (id y)). simpl andb. cbv iota.
  rewrite keep_selection_id; [done|].
  change (id x ∈ map id (reorderOperations (operations d) (id x) (id y) pos)). apply list_elem_of_fmap_2.
  by rewrite reorderOperations_perm.
Qed.

(** Drag and drop: in any dialog that can be reached, dragging a rule over
    the upper or lower half of another and dropping it there puts it directly
    before or after that rule, leaves the order of all the others as it was,
    loses and repeats none, and selects the moved rule. *)
Theorem drag_and_drop now n es d x y pos data :
  Forall allowed es → run now es (mounted now n) = Ok d →
  x ∈ operations d → y ∈ operations d → id x ≠ id y →
  ∃ d', run now [DragStart (id x); DragOver (id y) pos; Drop data (id y)] d = Ok d' ∧
    operations d' ≡ₚ operations d ∧
    base.filter (λ o, id o ≠ id x) (operations d') = base.filter (λ o, id o ≠ id x) (operations d) ∧
    (∃ a b, operations d' = a ++ match pos with Before => [x; y] | After => [y; x] end ++ b) ∧
    selectedOperationId d' = id x.
Proof.
  intros He H Hx Hy Hne. destruct (run_inv now es _ _ He (mounted_inv now n) H) as [Hd _].
  eexists. split; [by apply drag_steps|].
  destruct (reorder_exact (operations d) x y pos) as [Hf Hab];
    [by eapply good_ids|done|done|done|by eapply good_nonempty|by eapply good_nonempty|].
  split_and!; [apply reorderOperations_perm|done..].
Qed.

Lemma drag_and_drop_witness :
  let now := λ _ : nat, 7 in
  match run now [AddOperation; AddOperation] (mounted now 0) with
  | Ok d =>
      match operations d with
      | [a; b; c] =>
          ∃ d', run now [DragStart (id a); DragOver (id c) Before; Drop [] (id c)] d = Ok d' ∧
            base.filter (λ o, id o ≠ id a) (operations d') = [b; c]
      | _ => False
      end
  | Throw => False
  end.
Proof.
  intros now. destruct (run _ _ _) as [d|] eqn:E; [|vm_compute in E; discriminate].
  assert (∃ a b c, operations d = [a; b; c] ∧ id a ≠ id b ∧ id a ≠ id c) as (a & b & c & Ho & Hab & Hac).
  { vm_compute in E. injection E as <-. do 3 eexists. split; [reflexivity|]. split; discriminate. }
  rewrite Ho.
  destruct (drag_and_drop now 0 [AddOperation; AddOperation] d a c Before []) as (d' & Hd' & _ & Hf & _).
  - repeat constructor.
  - exact E.
  - rewrite Ho. repeat constructor.
  - rewrite Ho. do 2 apply list_elem_of_further. constructor.
  - exact Hac.
  - clear E. exists d'. split; [exact Hd'|]. rewrite Hf, Ho. rewrite filter_cons_False by (intros Hc; by apply Hc).
    rewrite !filter_cons_True by congruence. reflexivity.
Defined.

(** *** The rules of [prune_objects] *)

Lemma other_ids now lo hi l i k : ids_in now lo hi l → i ∈ l → (k < lo)%nat → i ≠ nextLocalId now k.
Proof. intros [_ Hi] (k' & ? & ->)%Hi ? E%nextLocalId_inj. lia. Qed.

Lemma map_ids_ext {A B} (f g : A → IdM B) (P : nat → Prop) l :
  (∀ x n, P n → f x n = g x n ∧ P (f x n).2) → ∀ n, P n → map_ids f l n = map_ids g l n ∧ P (map_ids f l n).2.
Proof.
  intros H. induction l as [|x l IH]; intros n Hn; simpl; [by split|].
  unfold bind. destruct (H x n Hn) as [<- Hx]. destruct (f x n) as [[y|] n']; [|by split].
  simpl in Hx. destruct (IH n' Hx) as [<- Hl]. split; [done|]. by destruct (map_ids f l n') as [[ys|] n''].
Qed.

(** An updater that leaves alone the rules with new identifiers does nothing. *)
Lemma prune_updater_idle now i k f d :
  (k < seed d)%nat →
  (∀ r, nextLocalId now k ∉ map c_id (p_rules r) → f r = r) →
  updatePruneObjectsDraft now i (λ r, ret (f r)) d = updatePruneObjectsDraft now i ret d.
Proof.
  intros Hk Hf. unfold updatePruneObjectsDraft, with_ids.
  destruct (map_ids_ext (λ o, if has_id i o then rewrite_prune now (λ r, ret (f r)) o else ret o)
              (λ o, if has_id i o then rewrite_prune now ret o else ret o) (λ n, (k < n)%nat) (operations d))
    with (n := seed d) as [-> _]; [|done|done].
  intros o n Hn. case_match; [|done]. unfold rewrite_prune, bind.
  destruct (parsePruneObjectsDraft_spec now (value_text o) n) as [Hle HP].
  destruct (parsePruneObjectsDraft now (value_text o) n) as [[r|] n'] eqn:E; simpl in *; [|by split; [|lia]].
  rewrite Hf; [by split; [|simpl; lia]|]. intros Hin. by eapply other_ids; [by apply HP|done|done|].
Qed.

(** The rules inside a [prune_objects] value cannot be edited: the editor
    shows rules with the identifiers of one reading of the text, and the handlers
    read the text again, with new identifiers, so changing or deleting any rule
    that is shown does exactly what rewriting the text unchanged does. *)
Theorem prune_rule_edits_lost now d i r text n0 shown n1 patch :
  parsePruneObjectsDraft now text n0 = (Ok shown, n1) → (n1 ≤ seed d)%nat → r ∈ p_rules shown →
  updatePruneRule now i (c_id r) patch d = updatePruneObjectsDraft now i ret d ∧
  removePruneRule now i (c_id r) d = updatePruneObjectsDraft now i ret d.
Proof.
  intros Hp Hs Hr. destruct (parsePruneObjectsDraft_spec now text n0) as [_ HP].
  rewrite Hp in HP. destruct (HP shown eq_refl) as [_ Hi].
  destruct (Hi (c_id r)) as (k & Hk & ->); [by apply list_elem_of_fmap_2|]. simpl in Hk.
  split; apply (prune_updater_idle now i k); try lia; intros [b t l rc rs] Hni; unfold set_rules; simpl in *; f_equal.
  - rewrite <- (map_id rs) at 2. apply map_ext_in. intros c Hc%list_elem_of_In.
    rewrite decide_False; [done|]. intros E. apply Hni. rewrite <- E. by apply list_elem_of_fmap_2.
  - apply list_filter_all, Forall_forall. intros c Hc E. apply Hni. rewrite <- E. by apply list_elem_of_fmap_2.
Qed.

Lemma prune_rule_edits_lost_witness :
  let now := λ _ : nat, 7 in
  let value := replace_char 39 34 (js "{'conditions':[{'path':'a','mode':'full'}]}") in
  let d := updateOperation (nextLocalId now 1) (PatchValueText value) (mounted now 1) in
  map value_text (operations d) = [value] ∧
  map value_text (operations (removePruneRule now (nextLocalId now 1) (nextLocalId now 0) d)) = [value].
Proof.
  intros now value d. split; [reflexivity|].
  destruct (prune_rule_edits_lost now d (nextLocalId now 1)
    (MkCondition (nextLocalId now 0) (js "a") (js "full") [] false false) value 0
    (MkPruneDraft false [] AND true [MkCondition (nextLocalId now 0) (js "a") (js "full") [] false false]) 1
    (PatchInvert true)) as [_ H].
  - vm_compute. reflexivity.
  - vm_compute. lia.
  - constructor.
  - simpl c_id in H. rewrite H. vm_compute. reflexivity.
Defined.

(** A space typed at the end of the message of [return_error] is gone at
    once: the rule is the one without it, so the words of a message cannot be
    typed one after the other. *)
Theorem typed_space_lost i m d :
  updateReturnErrorDraft i (PatchMessage (m ++ [32])) d = updateReturnErrorDraft i (PatchMessage m) d.
Proof.
  assert (trim (m ++ [32]) = trim m) as Ht by (by apply trim_snoc_ws).
  unfold updateReturnErrorDraft, map_operation. f_equal. apply map_ext. intros o. case_match; [|done].
  do 2 f_equal. destruct (parseReturnErrorDraft _). unfold buildReturnErrorValueText. simpl. by rewrite Ht.
Qed.

(** *** Complaints *)

Lemma validate_None line ops :
  validate_from line ops = Ok None ↔ Forall (λ o, check_operation o = Ok None) ops.
Proof.
  revert line. induction ops as [|o ops IH]; intros line; simpl; [split; [constructor|done]|].
  rewrite Forall_cons. destruct (check_operation o) as [[e|]|] eqn:E; simpl; [naive_solver| |naive_solver].
  rewrite IH. naive_solver.
Qed.

Lemma validate_Some line ops k e :
  validate_from line ops = Ok (Some (k, e)) ↔
  ∃ before o after, ops = before ++ o :: after ∧ k = (line + length before)%nat ∧
    Forall (λ o, check_operation o = Ok None) before ∧ check_operation o = Ok (Some e).
Proof.
  revert line. induction ops as [|o ops IH]; intros line; simpl.
  { split; [done|]. intros (b & o & a & E & _). by destruct b. }
  destruct (check_operation o) as [[e'|]|] eqn:Ho; simpl.
  - split.
    + intros H. simplify_eq. exists [], o, ops. split_and!; [done|simpl; lia|constructor|done].
    + intros ([|b bs] & o1 & a & E & -> & Hb & Hc); simplify_eq/=.
      * rewrite Ho in Hc. simplify_eq. do 3 f_equal. lia.
      * inversion Hb; congruence.
  - rewrite IH. split.
    + intros (b & o1 & a & -> & -> & Hb & Hc). exists (o :: b), o1, a. split_and!; [done|simpl; lia|by constructor|done].
    + intros ([|b bs] & o1 & a & E & -> & Hb & Hc); injection E as -> ->; [congruence|].
      inversion Hb; subst. exists bs, o1, a. split_and!; [done|simpl; lia|done..].
  - split; [done|]. intros ([|b bs] & o1 & a & E & -> & Hb & Hc); injection E as -> ->; [congruence|].
    inversion Hb; congruence.
Qed.

(** C36. Saving rules reports the first rule that breaks a requirement of its
    mode, and only that one: the message names the position of that rule among
    the rules that are not blank, every rule before it passes its checks, and
    nothing is handed to the form. *)
Theorem complaint_first d line e :
  s_editMode (editor d) = Visual → is_legacy d = false →
  let rules := base.filter (λ o, isOperationBlank o = false) (operations d) in
  save_result d = inr (RuleComplaint line e) ↔
  ∃ before o after, rules = before ++ o :: after ∧ line = S (length before) ∧
    Forall (λ o, check_operation o = Ok None) before ∧ check_operation o = Ok (Some e).
Proof.
  intros Hv Hl rules. unfold save_result, buildVisualJson. rewrite Hv, Hl. unfold buildOperationsJson. fold rules.
  rewrite <- (validate_Some 1). destruct (decide (rules = [])) as [->|Hne]; [done|].
  unfold validateOperations. destruct (validate_from 1 rules) as [[[k e']|]|]; simpl; naive_solver.
Qed.

Lemma complaint_first_witness :
  let now := λ _ : nat, 7 in
  let d := set_operations [MkOperation (js "a") [] [] (js "set") [] [] [] false OR [];
                           MkOperation (js "b") [] [] (js "delete") [] [] [] false OR []] (mounted now 0) in
  save_result d = inr (RuleComplaint 1 MissingTargetPath).
Proof.
  intros now d. apply (complaint_first d 1 MissingTargetPath); [reflexivity|reflexivity|].
  exists [], (MkOperation (js "b") [] [] (js "delete") [] [] [] false OR []), [].
  split_and!; [vm_compute; reflexivity|reflexivity|constructor|vm_compute; reflexivity].
Defined.

End ParamOverrideEditor.
