(* ===== verification/ParamOverrideSave.v ===== *)
(** * The parameter override editor: saving and opening again

    The rules written by [buildOperationsJson] and read by [parseInitialState]
    (features/channels/components/dialogs/param-override-editor-dialog.tsx): what
    a rule becomes when it is stored and read back, and that the dialog, opened
    on a text it saved, saves the same text. *)

From stdpp Require Import base list strings sets.
From Stdlib Require Import ZArith Lia SpecFloat.
From S2P Require Import Prelude JsString JsNumber JsValue JsJson ParamOverride ParamOverrideEditor.
Import ParamOverride ParamOverrideEditor.
#[local] Open Scope Z_scope.

Module ParamOverrideSave.

(** ** Values *)

(** A value text that is no quoted string: its value is a text only when it is
    the text itself. *)
Definition plain_text (t : jsstr) : bool :=
  match parseLooseValue t with JStr s => bool_decide (s = trim t) | _ => true end.

Lemma parseLooseValue_trim t : parseLooseValue (trim t) = parseLooseValue t.
Proof. unfold parseLooseValue. by rewrite trim_idemp. Qed.

Lemma JSON_parse_nil : JSON_parse [] = Throw.
Proof. reflexivity. Qed.

Lemma blank_value t : is_empty (trim t) = true → parseLooseValue t = JStr [].
Proof. unfold parseLooseValue. by intros ->. Qed.

(** What is shown for a stored value is read as that value, and is blank only
    when the text was. *)
Lemma value_stable t :
  plain_text t = true → json_ok (parseLooseValue t) = true →
  let t' := toValueText (parseLooseValue t) in
  parseLooseValue t' = parseLooseValue t ∧ is_empty (trim t') = is_empty (trim t).
Proof.
  intros Hp Hok. unfold plain_text in Hp. destruct (parseLooseValue t) as [| |b|x|s|l|o|f] eqn:E; try done.
  all: try (apply bool_decide_eq_true in Hp; subst s; simpl; rewrite parseLooseValue_trim, trim_idemp; done).
  all: rewrite <- E in *; destruct (json_roundtrip _ Hok) as (t' & Ht & Hparse).
  all: assert (toValueText (parseLooseValue t) = t') as -> by
    (rewrite E in Ht |- *; unfold toValueText; by rewrite Ht).
  all: pose proof (stringify_trimmed [] [] _ _ Hok Ht) as Htr%trim_trimmed_id.
  all: assert (is_empty t' = false) as Hne by (destruct t'; [by rewrite JSON_parse_nil in Hparse|done]).
  all: split; [unfold parseLooseValue at 1; by rewrite Htr, Hne, Hparse|].
  all: rewrite Htr, Hne; destruct (is_empty (trim t)) eqn:Hb; [|done].
  all: apply blank_value in Hb; congruence.
Qed.

(** ** Members of a written rule *)

Lemma put_if_get_ne b k k' v o : js k ≠ js k' → obj_get (js k) (put_if b k' v o) = obj_get (js k) o.
Proof. intros Hne. unfold put_if. destruct b; [|done]. rewrite obj_put_get. by rewrite decide_False. Qed.

Lemma put_if_get b k v o : obj_get (js k) (put_if b k v o) = if b then v else obj_get (js k) o.
Proof. unfold put_if. destruct b; [|done]. rewrite obj_put_get. by rewrite decide_True. Qed.

Ltac members := repeat (rewrite put_if_get || rewrite put_if_get_ne by js_differ).

(** A text member, empty when it is missing. *)
Definition str_of (v : jsval) : jsstr := match v with JStr s => s | _ => [] end.

Lemma filled_text (s : jsstr) (v : jsval) :
  str_of v = [] → str_of (if negb (is_empty s) then JStr s else v) = s.
Proof. intros Hv. by destruct s. Qed.

(** ** Conditions *)

Definition reread_condition (i : jsstr) (c : ParamOverrideCondition) : ParamOverrideCondition :=
  MkCondition i (trim (c_path c)) (c_mode c) (toValueText (parseLooseValue (c_value_text c))) (c_invert c)
    (c_pass_missing_key c).

Lemma condition_ok_mode c : condition_ok c → is_empty (c_mode c) = false.
Proof.
  unfold condition_ok. intros H. destruct (c_mode c) eqn:E; [|done]. exfalso. revert H.
  apply (bool_decide_unpack _). vm_compute. exact I.
Qed.

Lemma condition_payload_read now n c p :
  condition_ok c → buildConditionPayload c = Some p →
  normalizeCondition now p n = (Ok (reread_condition (nextLocalId now n) c), S n).
Proof.
  intros Hc Hp. unfold buildConditionPayload in Hp. rewrite (condition_ok_mode c Hc) in Hp.
  destruct (is_empty (trim (c_path c))); [done|]. apply (inj Some) in Hp. subst p.
  change (if c_invert c then obj_put (js "invert") (JBool true) ?o else ?o) with
    (put_if (c_invert c) "invert" (JBool true) o).
  change (if c_pass_missing_key c then obj_put (js "pass_missing_key") (JBool true) ?o else ?o) with
    (put_if (c_pass_missing_key c) "pass_missing_key" (JBool true) o).
  set (base := [(js "path", _); _; _]).
  unfold normalizeCondition, bind, fresh, lift. unfold str_field, mode_field, true_field. cbn [get_prop].
  members.
  replace (obj_get (js "path") base) with (JStr (trim (c_path c))) by reflexivity.
  replace (obj_get (js "mode") base) with (JStr (c_mode c)) by reflexivity.
  replace (obj_get (js "value") base) with (parseLooseValue (c_value_text c)) by reflexivity.
  replace (obj_get (js "invert") base) with JUndef by reflexivity.
  replace (obj_get (js "pass_missing_key") base) with JUndef by reflexivity.
  cbn [res_map res_bind]. rewrite decide_True by exact Hc. unfold reread_condition.
  by destruct (c_invert c), (c_pass_missing_key c).
Qed.

(** A condition whose value survives: the value is storable and is not written
    as a quoted string. *)
Definition settled (t : jsstr) : bool := plain_text t && json_ok (parseLooseValue t).

Lemma settled_value t :
  settled t = true →
  parseLooseValue (toValueText (parseLooseValue t)) = parseLooseValue t ∧
  is_empty (trim (toValueText (parseLooseValue t))) = is_empty (trim t).
Proof. intros [Hp Hok]%andb_true_iff. by apply value_stable. Qed.

Lemma condition_payload_same i c :
  settled (c_value_text c) = true → buildConditionPayload (reread_condition i c) = buildConditionPayload c.
Proof.
  intros [Hv _]%settled_value. unfold buildConditionPayload, reread_condition. cbn [c_path c_mode c_value_text c_invert
    c_pass_missing_key]. by rewrite trim_idemp, Hv.
Qed.

Definition same_condition (c c' : ParamOverrideCondition) : Prop := c' = reread_condition (c_id c') c.

Lemma same_conditions_ok l l' : Forall2 same_condition l l' → Forall condition_ok l → Forall condition_ok l'.
Proof.
  induction 1 as [|c c' l l' E _ IH]; intros Hall; [constructor|]. inversion Hall as [|?? Hc Hl]; subst.
  constructor; [|by apply IH]. rewrite E. exact Hc.
Qed.

Definition has_path (c : ParamOverrideCondition) : Prop := is_empty (trim (c_path c)) = false.

Lemma omap_cons {A B} (f : A → option B) x l :
  omap f (x :: l) = match f x with Some y => y :: omap f l | None => omap f l end.
Proof. reflexivity. Qed.

Lemma conditions_read now conds : ∀ n,
  Forall condition_ok conds →
  ∃ cs n', map_ids (normalizeCondition now) (omap buildConditionPayload conds) n = (Ok cs, n') ∧
    Forall2 same_condition (base.filter has_path conds) cs.
Proof.
  induction conds as [|c conds IH]; intros n Hall; [by exists [], n|]. inversion Hall as [|?? Hc Hcs]; subst.
  rewrite omap_cons, filter_cons. destruct (buildConditionPayload c) as [p|] eqn:Ep.
  - cbn [map_ids]. unfold bind at 1. rewrite (condition_payload_read now n c p Hc Ep).
    destruct (IH (S n) Hcs) as (cs & n' & E & Hr). unfold bind. rewrite E.
    exists (reread_condition (nextLocalId now n) c :: cs), n'. split; [done|].
    rewrite decide_True; [by constructor|]. unfold has_path. unfold buildConditionPayload in Ep.
    by destruct (is_empty (trim (c_path c))).
  - destruct (IH n Hcs) as (cs & n' & E & Hr). exists cs, n'. split; [done|].
    rewrite decide_False; [done|]. unfold has_path, buildConditionPayload in *.
    by destruct (is_empty (trim (c_path c))).
Qed.

Lemma conditions_same conds cs :
  Forall2 same_condition (base.filter has_path conds) cs →
  Forall (λ c, has_path c → settled (c_value_text c) = true) conds →
  omap buildConditionPayload cs = omap buildConditionPayload conds.
Proof.
  intros Hr Hs. assert (omap buildConditionPayload conds =
    omap buildConditionPayload (base.filter has_path conds)) as ->.
  { clear. induction conds as [|c conds IH]; [done|]. rewrite filter_cons, omap_cons.
    destruct (decide (has_path c)) as [H|H]; [by rewrite omap_cons, IH|].
    unfold has_path in H. apply not_false_iff_true in H. unfold buildConditionPayload at 1. by rewrite H. }
  assert (Forall (λ c, settled (c_value_text c) = true) (base.filter has_path conds)) as Hset.
  { rewrite Forall_forall in *. intros c [Hc Hin]%list_elem_of_filter. by apply Hs. }
  induction Hr as [|c c' l l' Hc _ IH]; [done|]. inversion Hset; subst. rewrite !omap_cons, Hc.
  rewrite condition_payload_same by done. by rewrite IH.
Qed.

(** ** Rules *)

(** The members [from] and [to] that are written: a header that is copied or
    moved falls back on the path. *)
Definition alias_path (o : ParamOverrideOperation) (s : jsstr) : jsstr :=
  if m_pathAlias (meta_of (mode o)) && is_empty s then trim (path o) else s.

Definition reread_operation (i : jsstr) (cs : list ParamOverrideCondition) (o : ParamOverrideOperation)
    : ParamOverrideOperation :=
  let meta := meta_of (mode o) in
  MkOperation i (trim (description o))
    (if m_path meta || m_pathOptional meta then trim (path o) else [])
    (mode o)
    (if m_from meta then alias_path o (trim (from o)) else [])
    (alias_path o (trim (to o)))
    (if m_value meta then toValueText (parseLooseValue (value_text o)) else [])
    (m_keepOrigin meta && keep_origin o)
    (if decide (omap buildConditionPayload (conditions o) = []) then OR
     else if decide (logic o = AND) then AND else OR)
    cs.

(** A mode that falls back on the path uses both members and no path. *)
Lemma meta_alias m : m_pathAlias (meta_of m) = true → meta_of m = meta_header_move.
Proof.
  unfold meta_of. destruct (assoc_get m MODE_META) as [meta|] eqn:E; [|done]. simpl.
  apply assoc_get_Some_elem, (list_elem_of_fmap_2 snd) in E. simpl in E.
  assert (Forall (λ meta, m_pathAlias meta = true → meta = meta_header_move) (map snd MODE_META)) as Hall
    by (repeat (constructor; [done|]); constructor).
  rewrite Forall_forall in Hall. by apply Hall.
Qed.

Lemma op_ok_mode o : op_ok o → mode_or_set o = mode o.
Proof.
  intros (Hm & _). unfold mode_or_set. destruct (mode o) eqn:E; [|done]. exfalso. revert Hm.
  apply (bool_decide_unpack _). vm_compute. exact I.
Qed.

Section written.
Context (o : ParamOverrideOperation) (Hok : op_ok o).
#[local] Notation meta := (meta_of (mode o)).
#[local] Notation written := (operation_payload o).
#[local] Notation cs := (omap buildConditionPayload (conditions o)).

Ltac open_payload := unfold operation_payload; rewrite (op_ok_mode o Hok); cbv zeta; members.

(** The member of a new object. *)
Lemma base_get k : js k ≠ js "mode" → js k ∉ object_prototype_keys → obj_get (js k) [(js "mode", JStr (mode o))] = JUndef.
Proof. intros Hne Hp. unfold obj_get. simpl. rewrite decide_False by done. by rewrite decide_False. Qed.

Ltac base := rewrite base_get by (js_differ || (apply (bool_decide_unpack _); vm_compute; exact I)).

Lemma get_mode : obj_get (js "mode") written = JStr (mode o).
Proof. open_payload. reflexivity. Qed.

Lemma get_description : str_of (obj_get (js "description") written) = trim (description o).
Proof. open_payload. base. by apply filled_text. Qed.

Lemma get_path :
  str_of (obj_get (js "path") written) = if m_path meta || m_pathOptional meta then trim (path o) else [].
Proof.
  open_payload. base. destruct (m_path meta), (m_pathOptional meta); cbn [orb andb]; try done.
  - by destruct (negb _).
  - by apply filled_text.
Qed.

Lemma written_value :
  obj_get (js "value") written = if m_value meta then parseLooseValue (value_text o) else JUndef.
Proof. open_payload. base. done. Qed.

Lemma get_keep : is_true (obj_get (js "keep_origin") written) = m_keepOrigin meta && keep_origin o.
Proof. open_payload. base. by destruct (_ && _). Qed.

Lemma get_from :
  str_of (obj_get (js "from") written) = if m_from meta then alias_path o (trim (from o)) else [].
Proof.
  open_payload. base. unfold alias_path. destruct (m_pathAlias meta) eqn:Ha; cbn [andb].
  - rewrite (meta_alias _ Ha). cbn [m_from meta_header_move]. cbn [truthy].
    by destruct (trim (from o)), (trim (path o)).
  - by destruct (m_from meta).
Qed.

Lemma get_to : str_of (obj_get (js "to") written) = alias_path o (trim (to o)).
Proof.
  open_payload. base. unfold alias_path. destruct (m_pathAlias meta) eqn:Ha; cbn [andb].
  - rewrite (meta_alias _ Ha). cbn [m_to meta_header_move negb andb truthy].
    by destruct (trim (to o)), (trim (path o)).
  - destruct (m_to meta); [done|]. cbn [negb andb]. by apply filled_text.
Qed.

Lemma get_conditions :
  obj_get (js "conditions") written = if decide (cs = []) then JUndef else JArr cs.
Proof.
  open_payload. base. destruct (decide (cs = [])).
  - by rewrite bool_decide_eq_true_2.
  - by rewrite bool_decide_eq_false_2.
Qed.

Lemma get_logic :
  obj_get (js "logic") written =
  if decide (cs = []) then JUndef else JStr (if decide (logic o = AND) then AND else OR).
Proof.
  open_payload. base. destruct (decide (cs = [])).
  - by rewrite bool_decide_eq_true_2.
  - by rewrite bool_decide_eq_false_2.
Qed.

Lemma read_logic :
  logic_field (JObj written) =
  Ok (if decide (cs = []) then OR else if decide (logic o = AND) then AND else OR).
Proof.
  unfold logic_field. cbn [get_prop res_bind]. rewrite get_logic.
  destruct (decide (cs = [])); [reflexivity|]. by destruct (decide (logic o = AND)).
Qed.

Lemma str_field_of k v : str_field k (JObj v) = Ok (str_of (obj_get (js k) v)).
Proof. reflexivity. Qed.

(** The object that is written, with the aliases resolved first. *)
Definition flat_payload (pathValue : jsstr) (value : jsval) (keep : bool) (fromValue toValue : jsstr)
    (conds : list jsval) (logicValue : jsstr) : list (jsstr * jsval) :=
  let filled s := negb (is_empty s) in
  let p := [(js "mode", JStr (mode o))] in
  let p := put_if (filled (trim (description o))) "description" (JStr (trim (description o))) p in
  let p := put_if (m_path meta) "path" (JStr pathValue) p in
  let p := put_if (m_pathOptional meta && filled pathValue) "path" (JStr pathValue) p in
  let p := put_if (m_value meta) "value" value p in
  let p := put_if (m_keepOrigin meta && keep) "keep_origin" (JBool true) p in
  let p := put_if (m_from meta) "from" (JStr fromValue) p in
  let p := put_if (negb (m_to meta) && filled toValue) "to" (JStr toValue) p in
  let p := put_if (m_to meta) "to" (JStr toValue) p in
  let p := put_if (negb (bool_decide (conds = []))) "conditions" (JArr conds) p in
  put_if (negb (bool_decide (conds = []))) "logic" (JStr (if decide (logicValue = AND) then AND else OR)) p.

Lemma put_over k k' v v' w p :
  js k ≠ js k' → array_index (js k) = None → array_index (js k') = None →
  obj_put (js k) v (obj_put (js k') w (obj_put (js k) v' p)) = obj_put (js k') w (obj_put (js k) v p).
Proof. intros Hne Hk Hk'. rewrite !obj_put_set by done. by apply assoc_set_over. Qed.

Lemma put_again k v v' p : array_index (js k) = None → obj_put (js k) v (obj_put (js k) v' p) = obj_put (js k) v p.
Proof. intros Hk. rewrite !obj_put_set by done. apply assoc_set_again. Qed.

Lemma payload_flat :
  written = flat_payload (trim (path o)) (parseLooseValue (value_text o)) (keep_origin o)
              (alias_path o (trim (from o))) (alias_path o (trim (to o))) cs (logic o).
Proof.
  unfold operation_payload, flat_payload. rewrite (op_ok_mode o Hok). cbv zeta. unfold alias_path.
  destruct (m_pathAlias meta) eqn:Ha; [|by cbn [andb put_if]]. rewrite (meta_alias _ Ha).
  cbn [m_path m_pathOptional m_value m_from m_to m_keepOrigin m_pathAlias meta_header_move negb andb].
  do 2 f_equal. members. cbn [truthy]. set (q := put_if (keep_origin o) _ _ _). unfold put_if.
  destruct (trim (from o)) as [|a f], (trim (to o)) as [|b t], (trim (path o)) as [|c p]; cbn [is_empty negb andb];
    rewrite ?put_over, ?put_again by (js_differ || reflexivity); try done.
Qed.

(** A rule that is written and read. *)
Lemma operation_read now n :
  ∃ cs' n', normalizeOperation now (JObj written) n = (Ok (reread_operation (nextLocalId now n) cs' o), n') ∧
    Forall2 same_condition (base.filter has_path (conditions o)) cs'.
Proof.
  destruct Hok as (Hm & _ & Hcs). destruct (conditions_read now (conditions o) (S n) Hcs) as (cs' & n' & E & Hr).
  exists cs', n'. split; [|done]. unfold normalizeOperation. unfold bind at 1, fresh. cbv beta iota.
  unfold bind at 1, lift. rewrite !str_field_of, get_description, get_path, get_from, get_to, read_logic.
  unfold mode_field, true_field. cbn [get_prop res_map res_bind].
  rewrite get_mode, written_value, get_keep, get_conditions. rewrite decide_True by exact Hm. cbv beta iota.
  unfold bind. cbn [fst snd].
  assert (toValueText (if m_value meta then parseLooseValue (value_text o) else JUndef) =
    if m_value meta then toValueText (parseLooseValue (value_text o)) else []) as -> by (by destruct (m_value meta)).
  unfold reread_operation. destruct (decide (cs = [])) as [Hnil|Hnil].
  - rewrite Hnil in E. injection E as <- <-. reflexivity.
  - rewrite E. reflexivity.
Qed.

End written.

(** A rule whose values survive. *)
Definition op_settled (o : ParamOverrideOperation) : bool :=
  (negb (m_value (meta_of (mode o))) || settled (value_text o)) &&
  forallb (λ c, is_empty (trim (c_path c)) || settled (c_value_text c)) (conditions o).

Section reread.
Context (o : ParamOverrideOperation) (Hok : op_ok o) (Hset : op_settled o = true).
Context (i : jsstr) (cs' : list ParamOverrideCondition).
Context (Hcs : Forall2 same_condition (base.filter has_path (conditions o)) cs').
#[local] Notation meta := (meta_of (mode o)).
#[local] Notation o' := (reread_operation i cs' o).

Lemma reread_ok : op_ok o'.
Proof.
  destruct Hok as (Hm & Hl & Hc). split_and!; [done| |]; cbn [logic conditions reread_operation].
  - repeat case_decide; set_solver.
  - assert (Forall condition_ok (base.filter has_path (conditions o))) as Hf
      by (eapply Forall_sub; [exact Hc|apply sublist_filter]).
    by apply (same_conditions_ok _ _ Hcs).
Qed.

Lemma reread_value :
  m_value meta = true →
  parseLooseValue (value_text o') = parseLooseValue (value_text o) ∧
  is_empty (trim (value_text o')) = is_empty (trim (value_text o)).
Proof.
  intros Hv. apply andb_true_iff in Hset as [Hs _]. rewrite Hv in Hs.
  cbn [value_text reread_operation]. rewrite Hv. by apply settled_value.
Qed.

Lemma reread_conditions : omap buildConditionPayload cs' = omap buildConditionPayload (conditions o).
Proof.
  apply conditions_same; [done|]. apply andb_true_iff in Hset as [_ Hs]. rewrite forallb_forall in Hs.
  apply Forall_forall. intros c Hc%list_elem_of_In Hp. apply Hs in Hc. unfold has_path in Hp. by rewrite Hp in Hc.
Qed.

Lemma alias_path_trimmed s : trim s = s → trim (alias_path o s) = alias_path o s.
Proof. intros Hs. unfold alias_path. case_match; [apply trim_idemp|done]. Qed.

(** Resolving an alias again changes nothing. *)
Lemma alias_path_again s : trim s = s → alias_path o' (trim (alias_path o s)) = alias_path o s.
Proof.
  intros Hs. rewrite alias_path_trimmed by done. unfold alias_path. cbn [mode path reread_operation].
  destruct (m_pathAlias meta) eqn:Ha; [|done]. rewrite (meta_alias _ Ha). cbn. by destruct s, (trim (path o)).
Qed.

Lemma payload_same : operation_payload o' = operation_payload o.
Proof.
  rewrite (payload_flat o Hok), (payload_flat o' reread_ok). unfold flat_payload.
  cbn [mode description path keep_origin logic conditions reread_operation]. rewrite reread_conditions.
  assert (alias_path o' (trim (to o')) = alias_path o (trim (to o))) as ->
    by (apply alias_path_again, trim_idemp).
  assert (m_from meta = true → alias_path o' (trim (from o')) = alias_path o (trim (from o))) as Hfrom.
  { intros Hf. cbn [from reread_operation]. rewrite Hf. apply alias_path_again, trim_idemp. }
  assert (m_value meta = true → parseLooseValue (value_text o') = parseLooseValue (value_text o)) as Hval
    by (intros Hv; by destruct (reread_value Hv)).
  rewrite trim_idemp. cbv zeta.
  assert (∀ b k v v' p, (b = true → v = v') → put_if b k v p = put_if b k v' p) as Hput.
  { intros b k v v' p Hv. unfold put_if. destruct b; [by rewrite Hv|done]. }
  rewrite (Hput (m_from meta) "from"%string _ (JStr (alias_path o (trim (from o))))) by (intros Hf; by rewrite Hfrom).
  rewrite (Hput (m_value meta) "value"%string _ (parseLooseValue (value_text o))) by done.
  destruct (m_path meta), (m_pathOptional meta), (m_keepOrigin meta); cbn [orb andb]; rewrite ?trim_idemp;
    destruct (decide (omap buildConditionPayload (conditions o) = [])) as [Hnil|Hnil];
    rewrite ?(bool_decide_eq_true_2 _ Hnil), ?(bool_decide_eq_false_2 _ Hnil); try done;
    destruct (decide (logic o = AND)); reflexivity.
Qed.

Lemma lacks_message_value raw :
  is_empty (trim raw) = false →
  lacks_message (trim raw) =
  match parseLooseValue raw with
  | JObj p => match to_str (js_or (obj_get (js "message") p) (JStr [])) with
              | Ok s => is_empty (trim s)
              | Throw => false
              end
  | _ => false
  end.
Proof.
  intros Hne. unfold lacks_message, parseLooseValue. rewrite Hne. by destruct (JSON_parse (trim raw)) as [[]|].
Qed.

(** The members a mode must have are members it writes. *)
Lemma required_members m :
  (m ∈ FROM_REQUIRED_MODES → m_from (meta_of m) = true) ∧
  (m ∈ VALUE_REQUIRED_MODES → m_value (meta_of m) = true).
Proof.
  split; intros Hm; repeat (apply elem_of_cons in Hm as [->|Hm]; [vm_compute; reflexivity|]);
    by apply elem_of_nil in Hm.
Qed.

Lemma alias_path_blank s : is_empty (trim s) = true →
  is_empty (trim (alias_path o (trim s))) = negb (m_pathAlias meta && negb (is_empty (trim (path o)))).
Proof.
  intros Hs. unfold alias_path. rewrite Hs. destruct (m_pathAlias meta); simpl.
  - rewrite trim_idemp. by rewrite negb_involutive.
  - by rewrite trim_idemp.
Qed.

Lemma alias_path_filled s : is_empty (trim s) = false → is_empty (trim (alias_path o (trim s))) = false.
Proof. intros Hs. unfold alias_path. rewrite Hs, andb_false_r. by rewrite trim_idemp. Qed.

(** A missing end is excused by a path, and then the path is what is read. *)
Lemma alias_required (b : bool) s :
  b && is_empty (trim s) && negb (m_pathAlias meta && negb (is_empty (trim (path o)))) = false →
  b && is_empty (trim (alias_path o (trim s))) = false.
Proof.
  destruct b; [|done]. cbn [andb]. intros H. destruct (is_empty (trim s)) eqn:Hs; [|by apply alias_path_filled].
  by rewrite alias_path_blank.
Qed.

Lemma check_same : check_operation o = Ok None → check_operation o' = Ok None.
Proof.
  unfold check_operation. rewrite (op_ok_mode o Hok), (op_ok_mode o' reread_ok).
  change (mode o') with (mode o). cbv zeta. destruct (required_members (mode o)) as [Hreq Hval].
  destruct (m_path meta && _) eqn:E1; [done|].
  destruct (bool_decide (mode o ∈ FROM_REQUIRED_MODES) && _ && _) eqn:E2; [done|].
  destruct (bool_decide (mode o ∈ TO_REQUIRED_MODES) && _ && _) eqn:E3; [done|].
  destruct (bool_decide (mode o ∈ VALUE_REQUIRED_MODES) && _) eqn:E4; [done|].
  assert (m_path meta && is_empty (trim (path o')) = false) as ->.
  { cbn [path reread_operation]. destruct (m_path meta); [|done]. cbn [orb andb] in *. by rewrite trim_idemp. }
  assert (bool_decide (mode o ∈ FROM_REQUIRED_MODES) && is_empty (trim (from o')) = false) as ->.
  { apply alias_required in E2. destruct (decide (mode o ∈ FROM_REQUIRED_MODES)) as [Hin|Hin];
      [|by rewrite bool_decide_eq_false_2]. cbn [from reread_operation]. by rewrite (Hreq Hin). }
  assert (bool_decide (mode o ∈ TO_REQUIRED_MODES) && is_empty (trim (to o')) = false) as ->
    by (by apply alias_required in E3).
  cbn [andb]. assert (bool_decide (mode o ∈ VALUE_REQUIRED_MODES) && is_empty (trim (value_text o')) = false) as ->.
  { destruct (decide (mode o ∈ VALUE_REQUIRED_MODES)) as [Hin|Hin]; [|by rewrite bool_decide_eq_false_2].
    by destruct (reread_value (Hval Hin)) as [_ ->]. }
  destruct (decide (mode o = js "return_error")) as [Hm|Hm]; [|destruct (decide (mode o = js "pass_headers")) as [Hm'|Hm'];
    [|done]].
  - assert (mode o ∈ VALUE_REQUIRED_MODES) as Hin
      by (rewrite Hm; apply (bool_decide_unpack _); vm_compute; exact I).
    rewrite bool_decide_eq_true_2 in E4 by done. cbn [andb] in E4. destruct (reread_value (Hval Hin)) as [Hv Hb].
    rewrite !lacks_message_value by (done || (by rewrite Hb)). by rewrite Hv.
  - assert (mode o ∈ VALUE_REQUIRED_MODES) as Hin
      by (rewrite Hm'; apply (bool_decide_unpack _); vm_compute; exact I).
    destruct (reread_value (Hval Hin)) as [Hv _]. by rewrite !parseLooseValue_trim, Hv.
Qed.

Lemma checked_not_blank p : op_ok p → check_operation p = Ok None → isOperationBlank p = false.
Proof.
  intros Hp Hc. unfold isOperationBlank. destruct (decide (mode p = js "set")) as [Hm|Hm];
    [|by rewrite bool_decide_eq_false_2].
  unfold check_operation in Hc. rewrite (op_ok_mode p Hp), Hm in Hc. cbv zeta in Hc.
  replace (m_path (meta_of (js "set"))) with true in Hc by (vm_compute; reflexivity). cbn [andb] in Hc.
  destruct (is_empty (trim (path p))); [done|]. by rewrite andb_false_r.
Qed.

End reread.

(** ** Lists of rules *)

Definition storable (o : ParamOverrideOperation) : bool :=
  json_ok (JObj (operation_payload o)) && op_settled o.

Definition payloads (ops : list ParamOverrideOperation) : list jsval := map (λ o, JObj (operation_payload o)) ops.

(** What is read writes the same object and passes the checks. *)
Definition same_rule (o o' : ParamOverrideOperation) : Prop :=
  operation_payload o' = operation_payload o ∧ check_operation o' = Ok None ∧ isOperationBlank o' = false.

Lemma rules_read now ops : ∀ n,
  Forall op_ok ops → Forall (λ o, storable o = true) ops → Forall (λ o, check_operation o = Ok None) ops →
  ∃ ops' n', map_ids (normalizeOperation now) (payloads ops) n = (Ok ops', n') ∧ Forall2 same_rule ops ops'.
Proof.
  induction ops as [|o ops IH]; intros n Hok Hst Hch; [by exists [], n|].
  inversion Hok as [|?? Ho Hok']; inversion Hst as [|?? Hs Hst']; inversion Hch as [|?? Hc Hch']; subst.
  apply andb_true_iff in Hs as [_ Hs].
  destruct (operation_read o Ho now n) as (cs & n1 & E & Hcs). destruct (IH n1 Hok' Hst' Hch') as (ops' & n' & E' & Hr).
  exists (reread_operation (nextLocalId now n) cs o :: ops'), n'. split.
  - unfold payloads. cbn [map map_ids]. unfold bind at 1. rewrite E. unfold bind. fold (payloads ops).
    rewrite E'. done.
  - pose proof (reread_ok o Ho Hs (nextLocalId now n) cs Hcs) as Ho'.
    pose proof (check_same o Ho Hs (nextLocalId now n) cs Hcs Hc) as Hc'.
    constructor; [|done]. split_and!; [by apply payload_same|done|by apply checked_not_blank].
Qed.

Lemma rules_again ops ops' :
  Forall2 same_rule ops ops' → ops ≠ [] → buildOperationsJson ops' true = BuiltText (operations_text ops).
Proof.
  intros Hr Hne. unfold buildOperationsJson.
  assert (base.filter (λ o, isOperationBlank o = false) ops' = ops') as ->.
  { apply list_filter_all. clear Hne. induction Hr as [|o o' l l' (_ & _ & ?) _ IH]; constructor; auto. }
  rewrite decide_False by (intros ->; by inversion Hr; subst).
  unfold validateOperations. rewrite (proj2 (validate_None 1 ops')).
  - unfold operations_text. do 3 f_equal. do 4 f_equal. clear Hne.
    induction Hr as [|o o' l l' (E & _) _ IH]; [done|]. simpl. by rewrite E, IH.
  - clear Hne. induction Hr as [|o o' l l' (_ & ? & _) _ IH]; constructor; auto.
Qed.

Lemma json_ok_operations l :
  forallb json_ok l = true → json_ok (JObj [(js "operations", JArr l)]) = true.
Proof. intros Hl. cbn [json_ok forallb snd]. rewrite Hl. vm_compute. reflexivity. Qed.

Lemma pretty_object o :
  json_ok (JObj o) = true →
  JSON_parse (pretty (JObj o)) = Ok (JObj o) ∧ trim (pretty (JObj o)) = pretty (JObj o) ∧
  is_empty (pretty (JObj o)) = false.
Proof.
  intros Hok. destruct (json_roundtrip_pretty _ Hok) as (t & Ht & Hp).
  pose proof (stringify_trimmed _ _ _ _ Hok Ht) as Htr%trim_trimmed_id.
  unfold pretty. rewrite Ht. cbn [default from_option]. unfold Datatypes.id. split_and!; [done..|].
  apply stringify_object_head in Ht as [t' ->]. done.
Qed.

(** Opening a text of rules. *)
Lemma open_rules now v l n :
  forallb json_ok (v :: l) = true →
  parseInitialState now (pretty (JObj [(js "operations", JArr (v :: l))])) n =
  bind (map_ids (normalizeOperation now) (v :: l)) (λ ops,
    ret (MkEditor Visual Operations [] ops (pretty (JObj [(js "operations", JArr (v :: l))])) NoError)) n.
Proof.
  intros Hok. destruct (pretty_object _ (json_ok_operations _ Hok)) as (Hp & Ht & He).
  unfold parseInitialState. rewrite Ht, He, Hp. done.
Qed.

Lemma operations_text_pretty ops : operations_text ops = pretty (JObj [(js "operations", JArr (payloads ops))]).
Proof. reflexivity. Qed.

(** Opening what the rules were saved as gives rules that are saved as the same
    text. *)
Lemma reopen_rules now ops n t :
  Forall op_ok ops → Forall (λ o, isOperationBlank o = false → storable o = true) ops →
  buildOperationsJson ops true = BuiltText t →
  ∃ e n', parseInitialState now t n = (Ok e, n') ∧ s_editMode e = Visual ∧ s_visualMode e = Operations ∧
    buildOperationsJson (s_operations e) true = BuiltText t.
Proof.
  intros Hok Hst H. unfold buildOperationsJson in H. set (fops := base.filter _ ops) in H.
  assert (Forall op_ok fops) as Hok' by (eapply Forall_sub; [exact Hok|apply sublist_filter]).
  assert (Forall (λ o, storable o = true) fops) as Hst'.
  { rewrite Forall_forall in *. intros o [??]%list_elem_of_filter. by apply Hst. }
  destruct (decide (fops = [])) as [Hnil|Hne].
  - injection H as <-. do 2 eexists. split; [reflexivity|]. by split_and!.
  - destruct (validateOperations fops) as [[[line e]|]|] eqn:Hv; try done. injection H as <-.
    apply validate_None in Hv. destruct (rules_read now fops n Hok' Hst' Hv) as (ops' & n' & E & Hr).
    rewrite operations_text_pretty. assert (forallb json_ok (payloads fops) = true) as Hj.
    { apply forallb_forall. intros v Hin. unfold payloads in Hin. apply in_map_iff in Hin as (o & <- & Ho).
      rewrite Forall_forall in Hst'. apply list_elem_of_In, Hst' in Ho. by apply andb_true_iff in Ho as [? _]. }
    pose proof (rules_again _ _ Hr Hne) as Hagain. destruct fops as [|o fops]; [done|].
    unfold payloads in *. cbn [map] in *. rewrite open_rules by exact Hj. unfold bind. rewrite E.
    do 2 eexists. split; [reflexivity|]. by split_and!.
Qed.

(** C6. Saving rules settles.  In every dialog that can be reached, when it is in
    visual editing of rules (neither in the JSON text nor in the old format),
    every non-blank rule has values that can be stored as JSON and none written
    as a quoted string, and saving gives a text, then opening the dialog on that
    text and saving it as it opens gives the same text and no error.  A text
    saved from the JSON editor need not have this property. *)
Theorem saved_text_stable now n es d t :
  Forall allowed es → run now es (mounted now n) = Ok d →
  s_editMode (editor d) = Visual → is_legacy d = false →
  Forall (λ o, isOperationBlank o = false → storable o = true) (operations d) →
  save_result d = inl t →
  ∃ d', run now [Save; Open t; Save] d = Ok d' ∧ saved d' = Some t ∧ toasts d' = toasts d.
Proof.
  intros He Hrun Hv Hl Hst Hs.
  destruct (run_inv now es _ _ He (mounted_inv now n) Hrun) as [(_ & Hok & _) Hsel].
  assert (buildOperationsJson (operations d) true = BuiltText t) as Hb.
  { unfold save_result, buildVisualJson in Hs. rewrite Hv, Hl in Hs. unfold built_result in Hs.
    by destruct (buildOperationsJson _ _); simplify_eq. }
  destruct (reopen_rules now _ (seed d) t Hok Hst Hb) as (e & n' & E & Hev & Hvv & Hb').
  cbn [run]. unfold step at 1. cbn [handle res_map res_bind]. unfold handleSave. rewrite Hs.
  rewrite keep_selection_id by exact Hsel.
  unfold step at 1. unfold open_effect. cbn [seed close_with]. rewrite E. cbn [res_map res_bind].
  set (d1 := MkDialog e _ _ _ _ _ _ _ _ _). unfold step. cbn [res_map handle].
  assert (save_result (keep_selection d1) = inl t) as Hs'.
  { assert (editor (keep_selection d1) = e) as He1 by (unfold keep_selection; by repeat case_match).
    unfold save_result, buildVisualJson, is_legacy, operations. rewrite He1, Hev, Hvv, Hb'. done. }
  unfold handleSave. rewrite Hs'. cbn [res_bind]. eexists. split; [done|].
  unfold keep_selection at 1 3. split; repeat case_match; try done; unfold keep_selection; by repeat case_match.
Qed.

Lemma saved_text_stable_witness :
  let now := λ _ : nat, 7 in
  match run now [FillTemplate false; AddOperation] (mounted now 0) with
  | Ok d =>
      match save_result d with
      | inl t => is_empty t = false ∧ ∃ d', run now [Save; Open t; Save] d = Ok d' ∧ saved d' = Some t
      | inr _ => False
      end
  | Throw => False
  end.
Proof.
  intros now. destruct (run _ _ _) as [d|] eqn:E; [|vm_compute in E; discriminate].
  destruct (save_result d) as [t|] eqn:Hs; [|vm_compute in E; injection E as <-; vm_compute in Hs; discriminate].
  split; [vm_compute in E; injection E as <-; vm_compute in Hs; injection Hs as <-; reflexivity|].
  destruct (saved_text_stable now 0 [FillTemplate false; AddOperation] d t) as (d' & ? & ? & _);
    [repeat constructor|exact E|..|exact Hs|by exists d'].
  - vm_compute in E. injection E as <-. reflexivity.
  - vm_compute in E. injection E as <-. reflexivity.
  - vm_compute in E. injection E as <-.
    constructor; [|constructor; [|constructor]]; [intros _; vm_compute; reflexivity|intros H; by vm_compute in H].
Defined.

(** A stored rule that sets a field to a text. *)
Definition set_rule (path : jsstr) (value : jsval) : jsval :=
  JObj [(js "mode", JStr (js "set")); (js "path", JStr path); (js "value", value)].

Definition rules_text (l : list jsval) : jsstr := pretty (JObj [(js "operations", JArr l)]).

(** Opening and saving without any change can change a value: a stored text
    that reads as JSON (the text 123, true or null, say) is shown without its
    quotes, and saving stores the number, truth value or object instead. *)
Theorem stored_text_retyped now d path s v :
  code_units path = true → trim path = path → path ≠ [] → code_units s = true →
  JSON_parse (trim s) = Ok v →
  ∃ d', run now [Open (rules_text [set_rule path (JStr s)]); Save] d = Ok d' ∧
    saved d' = Some (rules_text [set_rule path v]).
Proof.
  intros Hpc Hpt Hpn Hsc Hv.
  assert (is_empty (trim s) = false) as Hne by (destruct (trim s); [by rewrite JSON_parse_nil in Hv|done]).
  assert (forallb json_ok [set_rule path (JStr s)] = true) as Hj.
  { unfold set_rule. cbn [forallb json_ok snd]. rewrite Hpc, Hsc. vm_compute. reflexivity. }
  cbn [run]. unfold step at 1, open_effect. unfold rules_text at 1. rewrite open_rules by exact Hj.
  set (o := MkOperation (nextLocalId now (seed d)) [] path (js "set") [] [] s false OR []).
  assert (map_ids (normalizeOperation now) [set_rule path (JStr s)] (seed d) = (Ok [o], S (seed d))) as Hn
    by reflexivity.
  unfold bind. rewrite Hn. cbn [res_map res_bind ret].
  set (d1 := MkDialog _ _ _ _ _ _ _ _ _ _).
  assert (save_result (keep_selection d1) = inl (rules_text [set_rule path v])) as Hs.
  { rewrite keep_selection_id by (constructor).
    unfold save_result, buildVisualJson. cbn [editor s_editMode d1].
    replace (is_legacy d1) with false by reflexivity. change (operations d1) with [o].
    assert (is_empty (trim path) = false) as Hpe by (rewrite Hpt; by destruct path).
    unfold buildOperationsJson.
    assert (isOperationBlank o = false) as Hb.
    { unfold isOperationBlank. cbn [mode ParamOverride.path o]. by rewrite Hpe, andb_false_r. }
    rewrite filter_cons_True by exact Hb. rewrite decide_False by done.
    assert (validateOperations (o :: base.filter (λ o, isOperationBlank o = false) []) = Ok None) as ->.
    { apply validate_None. constructor; [|constructor]. unfold check_operation. cbv zeta.
      replace (mode_or_set o) with (js "set") by reflexivity. cbn [ParamOverride.path o]. rewrite Hpe.
      rewrite andb_false_r. cbv iota. vm_compute. reflexivity. }
    cbn [built_result]. f_equal. rewrite operations_text_pretty. unfold rules_text. do 3 f_equal.
    unfold payloads. cbn [map]. do 2 f_equal. unfold operation_payload, set_rule.
    assert (parseLooseValue s = v) as Hval by (unfold parseLooseValue; by rewrite Hne, Hv).
    replace (mode_or_set o) with (js "set") by reflexivity.
    replace (meta_of (js "set")) with meta_write by (vm_compute; reflexivity).
    cbn [ParamOverride.path value_text description from to keep_origin conditions logic o]. rewrite Hpt, Hval.
    reflexivity. }
  unfold step. cbn [handle]. unfold handleSave. rewrite Hs. eexists. split; [done|].
  unfold keep_selection at 1. by repeat case_match.
Qed.

Lemma stored_text_retyped_witness :
  let now := λ _ : nat, 7 in
  ∃ d', run now [Open (rules_text [set_rule (js "user") (JStr (js "123"))]); Save] (mounted now 0) = Ok d' ∧
    saved d' = Some (rules_text [set_rule (js "user") (JNum (num_of_Z 123))]).
Proof.
  intros now. apply (stored_text_retyped now (mounted now 0) (js "user") (js "123") (JNum (num_of_Z 123)));
    [reflexivity|reflexivity|discriminate|reflexivity|vm_compute; reflexivity].
Defined.

(** ** The draft of [return_error] *)

Definition status_prints_all : bool :=
  forallb (λ k, let x := num_of_Z (100 + Z.of_nat k) in num_prints x && bool_decide (status_or_400 x = x)) (seq 0 500).

Lemma status_prints k : 100 <= k <= 599 → num_prints (num_of_Z k) = true ∧ status_or_400 (num_of_Z k) = num_of_Z k.
Proof.
  intros Hk. assert (status_prints_all = true) as Hall by (vm_compute; reflexivity).
  unfold status_prints_all in Hall. rewrite forallb_forall in Hall.
  specialize (Hall (Z.to_nat (k - 100))). cbv beta zeta in Hall.
  replace (100 + Z.of_nat (Z.to_nat (k - 100))) with k in Hall by lia.
  apply andb_true_iff in Hall as [H1 H2%bool_decide_eq_true]; [done|]. apply in_seq. lia.
Qed.

Lemma code_units_trim s : code_units s = true → code_units (trim s) = true.
Proof.
  unfold code_units. rewrite !forallb_forall. intros H c Hc. apply H.
  apply list_elem_of_In. apply list_elem_of_In in Hc. by apply elem_of_trim.
Qed.

Section error_draft.
Context (msg code type : jsstr) (k : Z) (skip : bool).
Context (Hm : code_units msg = true) (Hc : code_units code = true) (Ht : code_units type = true).
Context (Hk : 100 <= k <= 599).

Definition error_payload : list (jsstr * jsval) :=
  put_if (negb skip) "skip_retry" (JBool false)
    (put_if (negb (is_empty (trim type))) "type" (JStr (trim type))
       (put_if (negb (is_empty (trim code))) "code" (JStr (trim code))
          [(js "message", JStr (trim msg)); (js "status_code", JNum (num_of_Z k))])).

Lemma error_payload_written :
  buildReturnErrorValueText (MkErrorDraft msg (num_of_Z k) code type skip false) = toValueText (JObj error_payload).
Proof.
  destruct (status_prints k Hk) as [_ Hs]. unfold buildReturnErrorValueText. cbn [e_simpleMode e_statusCode e_message
    e_code e_type e_skipRetry]. rewrite Hs. unfold error_payload, put_if.
  by destruct skip, (is_empty (trim type)), (is_empty (trim code)).
Qed.

Lemma json_ok_put_if b key v o :
  array_index (js key) = None → code_units (js key) = true → json_ok v = true → json_ok (JObj o) = true →
  json_ok (JObj (put_if b key v o)) = true.
Proof. intros ????. unfold put_if. destruct b; [by apply json_ok_put|done]. Qed.

Lemma error_payload_ok : json_ok (JObj error_payload) = true.
Proof.
  destruct (status_prints k Hk) as [Hp _].
  unfold error_payload. repeat (apply json_ok_put_if; [reflexivity..| |]); try by apply code_units_trim.
  - done.
  - cbn [json_ok forallb snd]. rewrite Hp, code_units_trim by done. vm_compute. reflexivity.
Qed.

Lemma read_error_payload :
  read_error_draft (JObj error_payload) = Ok (MkErrorDraft (trim msg) (num_of_Z k) (trim code) (trim type) skip false).
Proof.
  destruct (status_prints k Hk) as [_ Hs]. unfold read_error_draft, text_field, error_payload.
  cbn [get_prop res_bind]. members. set (base := [(js "message", _); _]).
  replace (obj_get (js "status_code") base) with (JNum (num_of_Z k)) by reflexivity.
  replace (obj_get (js "message") base) with (JStr (trim msg)) by reflexivity.
  replace (obj_get (js "msg") base) with JUndef by reflexivity.
  replace (obj_get (js "code") base) with JUndef by reflexivity.
  replace (obj_get (js "type") base) with JUndef by reflexivity.
  replace (obj_get (js "skip_retry") base) with JUndef by reflexivity.
  cbn [is_undef to_num res_bind]. rewrite Hs.
  assert (∀ s v, trim s = s → v = JUndef ∨ v = JStr [] →
    res_map trim (to_str (js_or (if negb (is_empty s) then JStr s else v) (JStr []))) = Ok s) as Htext.
  { intros s v E Hv. destruct s; [by destruct Hv as [->| ->]|]. cbn [is_empty negb js_or truthy to_str res_map]. by rewrite E. }
  rewrite !Htext by (apply trim_idemp || by left). cbn [res_bind].
  assert (to_str (js_or (js_or (JStr (trim msg)) JUndef) (JStr [])) = Ok (trim msg)) as ->
    by (by destruct (trim msg)).
  cbn [res_bind]. rewrite trim_idemp. by destruct skip.
Qed.

End error_draft.

(** The structured editor of [return_error]: what an advanced draft with a
    valid status code writes is read back as that draft, with the blanks around
    its texts removed; the code, the type and the retry flag are kept also where
    the text leaves them out. *)
Theorem error_draft_roundtrip msg code type k skip :
  code_units msg = true → code_units code = true → code_units type = true → 100 <= k <= 599 →
  parseReturnErrorDraft (buildReturnErrorValueText (MkErrorDraft msg (num_of_Z k) code type skip false)) =
  MkErrorDraft (trim msg) (num_of_Z k) (trim code) (trim type) skip false.
Proof.
  intros Hm Hc Ht Hk. rewrite error_payload_written by done.
  pose proof (error_payload_ok msg code type k skip Hm Hc Ht Hk) as Hok.
  pose proof (read_error_payload msg code type k skip Hk) as Hread.
  set (p := error_payload msg code type k skip) in *. clearbody p.
  destruct (json_roundtrip _ Hok) as (t & Hst & Hp).
  pose proof (stringify_trimmed [] [] _ _ Hok Hst) as Htr%trim_trimmed_id.
  pose proof (stringify_object_head _ _ _ _ Hst) as [t' E].
  unfold toValueText. rewrite Hst. cbn [default from_option]. unfold Datatypes.id.
  unfold parseReturnErrorDraft. rewrite Htr, Hp. rewrite E at 1. cbn [is_empty]. by rewrite Hread.
Qed.

Lemma error_draft_roundtrip_witness :
  parseReturnErrorDraft (buildReturnErrorValueText
    (MkErrorDraft (js " no access ") (num_of_Z 429) (js "rate_limited") [] false false)) =
  MkErrorDraft (js "no access") (num_of_Z 429) (js "rate_limited") [] false false.
Proof. rewrite error_draft_roundtrip; [reflexivity|reflexivity|reflexivity|reflexivity|lia]. Defined.

End ParamOverrideSave.
