(* ===== verification/JsAsync.v ===== *)
(** * Asynchronous handlers

    The runtime of the hooks that wait for replies.  A handler runs to its next
    [await] or to its end without interruption; there it is suspended as a
    [Phase], which names the point it waits at and holds the variables it
    captured.  Between two such runs anything may happen: other handlers start,
    and the pending phases are answered in any order.

    A hook is given by the task its events start (from the state of the render
    the handler belongs to) and the task a phase resumes with a reply. *)

From stdpp Require Import base list.
From Stdlib Require Import Lia.
From S2P Require Import Prelude.

Section tasks.
Context {St Phase : Type}.

Inductive task :=
| Stop
| Update (f : St → St) (k : task)  (** [setState], a ref, a message *)
| Read (k : St → task)  (** a ref that is read when it is reached *)
| Await (p : Phase).

(** Run up to the next [await]. *)
Fixpoint exec (t : task) (s : St) : St * option Phase :=
  match t with
  | Stop => (s, None)
  | Update f k => exec k (f s)
  | Read k => exec (k s) s
  | Await p => (s, Some p)
  end.

Record World := MkWorld { state : St; pending : list Phase }.

Definition settle (t : task) (w : World) : World :=
  let r := exec t (state w) in MkWorld r.1 (pending w ++ option_list r.2).

Context {Event Rep : Type} (handler : Event → St → task) (resume : Phase → Rep → task).

Inductive action :=
| Do (e : Event)
| Reply (i : nat) (r : Rep).  (** the [i]-th pending phase is answered *)

Definition step (w : World) (a : action) : World :=
  match a with
  | Do e => settle (handler e (state w)) w
  | Reply i r =>
      match pending w !! i with
      | Some p => settle (resume p r) (MkWorld (state w) (delete i (pending w)))
      | None => w
      end
  end.

Definition run (w : World) (l : list action) : World := foldl step w l.

(** ** Invariants

    [I] need not depend on the order of the pending phases. *)

Context (I : St → list Phase → Prop) (HI : ∀ s ps ps', ps ≡ₚ ps' → I s ps → I s ps').

(** One run of a task, with the other pending phases [ps]. *)
Definition keeps (t : task) (s : St) (ps : list Phase) : Prop :=
  let r := exec t s in I r.1 (option_list r.2 ++ ps).

Lemma settle_inv t w : keeps t (state w) (pending w) → I (state (settle t w)) (pending (settle t w)).
Proof. intros H. eapply HI; [|exact H]. apply Permutation_app_comm. Qed.

Lemma async_step_inv w a :
  (∀ e, I (state w) (pending w) → keeps (handler e (state w)) (state w) (pending w)) →
  (∀ p r ps, I (state w) (p :: ps) → keeps (resume p r) (state w) ps) →
  I (state w) (pending w) → I (state (step w a)) (pending (step w a)).
Proof.
  intros He Hr Hw. destruct a as [e|i r]; simpl; [by apply settle_inv, He|].
  destruct (pending w !! i) as [p|] eqn:E; [|done]. apply settle_inv, Hr. eapply HI; [|exact Hw].
  by apply delete_Permutation.
Qed.

Lemma async_run_inv l : ∀ w,
  (∀ e s ps, I s ps → keeps (handler e s) s ps) →
  (∀ p r s ps, I s (p :: ps) → keeps (resume p r) s ps) →
  I (state w) (pending w) → I (state (run w l)) (pending (run w l)).
Proof.
  induction l as [|a l IH]; intros w He Hr Hw; [done|]. apply IH; [done..|]. apply async_step_inv; eauto.
Qed.

(** ** Histories *)

(** The phases that were answered, with their answers. *)
Fixpoint answered (w : World) (l : list action) : list (Phase * Rep) :=
  match l with
  | [] => []
  | a :: l' =>
      match a with
      | Do _ => []
      | Reply i r => option_list ((λ p, (p, r)) <$> pending w !! i)
      end ++ answered (step w a) l'
  end.

(** What a history must hold for a phase to be pending: [J] is kept by longer
    histories. *)
Context (J : list (Phase * Rep) → Phase → Prop) (HJ : ∀ t t' p, J t p → J (t ++ t') p).

Lemma settle_history t w h h' :
  Forall (J h) (pending w) →
  (∀ p, (exec t (state w)).2 = Some p → J (h ++ h') p) →
  Forall (J (h ++ h')) (pending (settle t w)).
Proof.
  intros Hw Ht. unfold settle. simpl. apply Forall_app. split; [by eapply Forall_impl; eauto|].
  destruct (exec t (state w)).2 as [p|]; simpl; [|constructor]. constructor; auto.
Qed.

Lemma run_history l : ∀ w h,
  (∀ e s p h, (exec (handler e s) s).2 = Some p → J h p) →
  (∀ p r s p' h, J h p → (exec (resume p r) s).2 = Some p' → J (h ++ [(p, r)]) p') →
  Forall (J h) (pending w) → Forall (J (h ++ answered w l)) (pending (run w l)).
Proof.
  induction l as [|a l IH]; intros w h He Hr Hw; [simpl; by rewrite app_nil_r|].
  cbn [answered]. rewrite app_assoc. apply IH; [done..|]. destruct a as [e|i r]; cbn [step].
  - apply settle_history; [done|]. intros p Hp. eauto.
  - destruct (pending w !! i) as [p|] eqn:E; [|simpl; by rewrite app_nil_r].
    apply (settle_history _ (MkWorld (state w) (delete i (pending w))) h [(p, r)]).
    + simpl. by apply Forall_delete.
    + intros p' Hp. eapply Hr; [|exact Hp]. by eapply Forall_lookup_1 in E; [|exact Hw].
Qed.

End tasks.

Arguments task : clear implicits.
Arguments World : clear implicits.
Arguments action : clear implicits.
