(* ===== verification/UpstreamFlow.v ===== *)
(** * Applying and detecting upstream model updates

    [UpstreamFlow] models
    web/default/src/features/channels/hooks/use-channel-upstream-updates.ts, the
    hook behind the update buttons of the channel table, together with the
    dialog it drives (components/dialogs/upstream-update-dialog.tsx) and the
    places that open it (the badges of channels-columns.tsx, the menu item of
    data-table-row-actions.tsx).

    Four kinds of requests can be under way at once, each followed by a refresh
    of the table.  They are tasks of [JsAsync]: a pending phase is a request or a
    refresh that has not been answered, and the user may do anything in between.

    The hook and the dialog are mounted together when the page is shown
    (channels-dialogs.tsx), so the dialog's own state is one value for the whole
    life of the page. *)

From stdpp Require Import base list strings.
From Stdlib Require Import ZArith Lia.
From S2P Require Import Prelude JsString JsNumber JsValue JsJson ModelMapping JsAsync.
#[local] Open Scope Z_scope.

Module UpstreamFlow.
Import UpstreamUpdates.

(** [normalizeModelList] of an array of strings, see [normalize_names]. *)
Definition normalizeNames (models : list jsstr) : list jsstr := dedup (non_empty (map trim models)).

Definition getManualIgnoredModelCount (settings : jsval) : res Z :=
  let parsed :=
    if truthy settings && is_object_type settings then settings
    else match settings with JStr s => catch (JSON_parse s) JNull | _ => JNull end in
  if negb (truthy parsed) then Ok 0
  else
    let* ignored := get_prop (js "upstream_model_update_ignored_models") parsed in
    res_map (λ l, Z.of_nat (length l)) (normalizeModelList (js_or ignored (JArr []))).

(** ** State *)

Inductive Tab := AddTab | RemoveTab.

(** A translated text with its parameters, or a text of the server. *)
Inductive Message :=
| Translated (key : jsstr) (params : list (jsstr * jsval))
| Given (text : jsval).

Inductive Toast :=
| ToastInfo (m : Message)
| ToastSuccess (m : Message)
| ToastError (m : Message).

(** The hook's state and refs.  Of a channel only the id is read. *)
Record Hook := MkHook {
  showModal : bool;
  channel : option num;
  addModels : list jsstr;
  removeModels : list jsstr;
  preferredTab : Tab;
  applyLoading : bool;
  detectAllLoading : bool;
  applyAllLoading : bool;
  applyRef : bool;
  detectRef : bool;
  detectAllRef : bool;
  applyAllRef : bool
}.

(** The state of the dialog; the two sets are listed in insertion order. *)
Record Dialog := MkDialog {
  activeTab : Tab;
  searchAdd : jsstr;
  searchRemove : jsstr;
  selectedAdd : list jsstr;
  selectedRemove : list jsstr;
  partialConfirmOpen : bool
}.

Record Page := MkPage { hook : Hook; dialog : Dialog; toasts : list Toast }.

Definition set_hook (f : Hook → Hook) (p : Page) : Page := MkPage (f (hook p)) (dialog p) (toasts p).
Definition set_dialog (f : Dialog → Dialog) (p : Page) : Page :=
  MkPage (hook p) (f (dialog p)) (toasts p).
Definition toast (x : Toast) (p : Page) : Page := MkPage (hook p) (dialog p) (toasts p ++ [x]).

(** The initial values of [useState] and [useRef]; the dialog's initialisers
    read the lists of the hook at that moment. *)
Definition hook_mounted : Hook :=
  MkHook false None [] [] AddTab false false false false false false false.
Definition dialog_mounted (h : Hook) : Dialog :=
  MkDialog (preferredTab h) [] [] (dedup (addModels h)) (dedup (removeModels h)) false.
Definition page_mounted : Page := MkPage hook_mounted (dialog_mounted hook_mounted) [].

(** The four kinds of requests with their guarding ref. *)
Inductive Job := Apply | ApplyAll | Detect | DetectAll.
#[export] Instance Job_eq_dec : EqDecision Job.
Proof. solve_decision. Defined.

Definition ref_of (j : Job) (h : Hook) : bool :=
  match j with
  | Apply => applyRef h | ApplyAll => applyAllRef h
  | Detect => detectRef h | DetectAll => detectAllRef h
  end.

Definition set_ref (j : Job) (b : bool) : Page → Page :=
  set_hook (λ h,
    let 'MkHook s c a r t la lda laa ra rd rda raa := h in
    match j with
    | Apply => MkHook s c a r t la lda laa b rd rda raa
    | Detect => MkHook s c a r t la lda laa ra b rda raa
    | DetectAll => MkHook s c a r t la lda laa ra rd b raa
    | ApplyAll => MkHook s c a r t la lda laa ra rd rda b
    end).

(** Detecting the updates of one channel has no loading state. *)
Definition set_loading (j : Job) (b : bool) : Page → Page :=
  set_hook (λ h,
    let 'MkHook s c a r t la lda laa ra rd rda raa := h in
    match j with
    | Apply => MkHook s c a r t b lda laa ra rd rda raa
    | DetectAll => MkHook s c a r t la b laa ra rd rda raa
    | ApplyAll => MkHook s c a r t la lda b ra rd rda raa
    | Detect => h
    end).

Definition set_modal (show : bool) (c : option num) (adds removes : list jsstr) (tab : Tab)
    : Page → Page :=
  set_hook (λ h,
    MkHook show c adds removes tab (applyLoading h) (detectAllLoading h) (applyAllLoading h)
      (applyRef h) (detectRef h) (detectAllRef h) (applyAllRef h)).

(** ** The modal *)

(** [record?.id] is truthy *)
Definition has_id (record : option num) : bool :=
  match record with Some id => num_truthy id | None => false end.

Definition openModal (record : option num) (pendingAdd pendingRemove : list jsstr) (tab : Tab)
    (p : Page) : Page :=
  let normAdd := normalizeNames pendingAdd in
  let normRemove := normalizeNames pendingRemove in
  if negb (has_id record) || (length normAdd =? 0)%nat && (length normRemove =? 0)%nat
  then toast (ToastInfo (Translated
         (js "No processable upstream model updates for this channel") [])) p
  else set_modal true record normAdd normRemove tab p.

Definition closeModal : Page → Page := set_modal false None [] [] AddTab.

(** ** Requests *)

Inductive Phase :=
| ApplyPost (id : num) (add_models ignore_models remove_models : list jsstr)
| ApplyAllPost
| DetectPost (id : num)
| DetectAllPost
| Refresh (j : Job).

Definition job_of (ph : Phase) : Job :=
  match ph with
  | ApplyPost _ _ _ _ => Apply
  | ApplyAllPost => ApplyAll
  | DetectPost _ => Detect
  | DetectAllPost => DetectAll
  | Refresh j => j
  end.

(** The answer to a phase: [res.data] of a request, nothing of a refresh. *)
Inductive Answer :=
| Resolved (data : jsval)
| Rejected (e : jsval).

Definition failure_text (j : Job) : jsstr :=
  match j with
  | Apply => js "Operation failed"
  | ApplyAll => js "Batch processing failed"
  | Detect => js "Detection failed"
  | DetectAll => js "Batch detection failed"
  end.

(** [a || t(key)] *)
Definition or_translated (a : jsval) (key : jsstr) : Message :=
  if truthy a then Given a else Translated key [].

(** [err?.response?.data?.message || err?.message || t(key)] *)
Definition error_message (e : jsval) (key : jsstr) : Message :=
  or_translated
    (js_or (get_prop_opt (js "message") (get_prop_opt (js "data") (get_prop_opt (js "response") e)))
       (get_prop_opt (js "message") e)) key.

(** [v?.length || 0] and [v || 0] *)
Definition zero_num : jsval := JNum (num_of_Z 0).
Definition length_or_zero (v : jsval) : jsval := js_or (get_prop_opt (js "length") v) zero_num.
Definition or_zero (v : jsval) : jsval := js_or v zero_num.

(** [(v || []).length] *)
Definition array_length (v : jsval) : jsval := get_prop_opt (js "length") (js_or v (JArr [])).

Section flow.
(** The [message] of the exception thrown when a method is missing. *)
Context (type_error : jsstr).

(** [toLowerCase], on all of Unicode. *)
Context (toLowerCase : jsstr → jsstr).

Notation Task := (task Page Phase).

(** [finally] *)
Definition finish (j : Job) : Task := Update (set_ref j false) (Update (set_loading j false) Stop).

(** [catch], then [finally] *)
Definition report (e : jsval) (j : Job) : Task :=
  Update (toast (ToastError (error_message e (failure_text j)))) (finish j).

(** [const { success, message, data } = res.data || {}] and the early return. *)
Definition on_success (j : Job) (body : jsval) (k : jsval → Task) : Task :=
  let body := js_or body (JObj []) in
  if negb (truthy (get_prop_opt (js "success") body))
  then Update (toast (ToastError
         (or_translated (get_prop_opt (js "message") body) (failure_text j)))) (finish j)
  else k (get_prop_opt (js "data") body).

Definition applyUpdates (render : Page) (chosenAdd chosenRemove : list jsstr) : Task :=
  Read (λ p,
    if applyRef (hook p) then Stop
    else if negb (has_id (channel (hook render))) then Update closeModal Stop
    else
      let normSelectedAdd := normalizeNames chosenAdd in
      let ignoreModels := filter (λ m, m ∉ normSelectedAdd) (addModels (hook render)) in
      Update (set_ref Apply true) (Update (set_loading Apply true)
        (Await (ApplyPost (default num_zero (channel (hook render))) normSelectedAdd ignoreModels
                  (normalizeNames chosenRemove))))).

Definition apply_answered (ignoreModels : list jsstr) (body : jsval) : Task :=
  on_success Apply body (λ data,
    match getManualIgnoredModelCount (get_prop_opt (js "settings") data) with
    | Throw => report (JObj [(js "message", JStr type_error)]) Apply
    | Ok total =>
        Update (toast (ToastSuccess (Translated
          (js "Upstream model updates applied: {{added}} added, {{removed}} removed, {{ignored}} ignored this time, {{totalIgnored}} total ignored models")
          [(js "added", length_or_zero (get_prop_opt (js "added_models") data));
           (js "removed", length_or_zero (get_prop_opt (js "removed_models") data));
           (js "ignored", JNum (num_of_Z (Z.of_nat (length (normalizeNames ignoreModels)))));
           (js "totalIgnored", JNum (num_of_Z total))])))
        (Update closeModal (Await (Refresh Apply)))
    end).

Definition applyAllUpdates : Task :=
  Read (λ p,
    if applyAllRef (hook p) then Stop
    else Update (set_ref ApplyAll true) (Update (set_loading ApplyAll true) (Await ApplyAllPost))).

Definition apply_all_answered (body : jsval) : Task :=
  on_success ApplyAll body (λ data,
    Update (toast (ToastSuccess (Translated
      (js "Batch upstream model updates applied: {{channels}} channels, {{added}} added, {{removed}} removed, {{fails}} failed")
      [(js "channels", or_zero (get_prop_opt (js "processed_channels") data));
       (js "added", or_zero (get_prop_opt (js "added_models") data));
       (js "removed", or_zero (get_prop_opt (js "removed_models") data));
       (js "fails", array_length (get_prop_opt (js "failed_channel_ids") data))])))
    (Await (Refresh ApplyAll))).

Definition detectChannelUpdates (ch : option num) : Task :=
  Read (λ p,
    if detectRef (hook p) || negb (has_id ch) then Stop
    else Update (set_ref Detect true) (Await (DetectPost (default num_zero ch)))).

Definition detect_answered (body : jsval) : Task :=
  on_success Detect body (λ data,
    Update (toast (ToastSuccess (Translated
      (js "Detection complete: {{add}} to add, {{remove}} to remove")
      [(js "add", length_or_zero (get_prop_opt (js "add_models") data));
       (js "remove", length_or_zero (get_prop_opt (js "remove_models") data))])))
    (Await (Refresh Detect))).

Definition detectAllUpdates : Task :=
  Read (λ p,
    if detectAllRef (hook p) then Stop
    else Update (set_ref DetectAll true)
           (Update (set_loading DetectAll true) (Await DetectAllPost))).

Definition detect_all_answered (body : jsval) : Task :=
  on_success DetectAll body (λ data,
    Update (toast (ToastSuccess (Translated
      (js "Batch detection complete: {{channels}} channels, {{add}} to add, {{remove}} to remove, {{fails}} failed")
      [(js "channels", or_zero (get_prop_opt (js "processed_channels") data));
       (js "add", or_zero (get_prop_opt (js "detected_add_models") data));
       (js "remove", or_zero (get_prop_opt (js "detected_remove_models") data));
       (js "fails", array_length (get_prop_opt (js "failed_channel_ids") data))])))
    (Await (Refresh DetectAll))).

(** A phase is answered. *)
Definition resume (ph : Phase) (a : Answer) : Task :=
  match ph, a with
  | ApplyPost _ _ ignoreModels _, Resolved body => apply_answered ignoreModels body
  | ApplyAllPost, Resolved body => apply_all_answered body
  | DetectPost _, Resolved body => detect_answered body
  | DetectAllPost, Resolved body => detect_all_answered body
  | Refresh j, Resolved _ => finish j
  | _, Rejected e => report e (job_of ph)
  end.

(** ** The dialog *)

Definition filtered (search : jsstr) (models : list jsstr) : list jsstr :=
  filter (λ m, includes (toLowerCase search) (toLowerCase m) = true) models.
Definition filteredAdd (p : Page) : list jsstr :=
  filtered (searchAdd (dialog p)) (addModels (hook p)).
Definition filteredRemove (p : Page) : list jsstr :=
  filtered (searchRemove (dialog p)) (removeModels (hook p)).

Definition set_add (l : list jsstr) (m : jsstr) : list jsstr :=
  if decide (m ∈ l) then l else l ++ [m].
Definition set_delete (l : list jsstr) (m : jsstr) : list jsstr := filter (λ x, x ≠ m) l.

Definition toggleModel (model : jsstr) (set : list jsstr) : list jsstr :=
  if decide (model ∈ set) then set_delete set model else set_add set model.

Definition toggleAllVisible (models set : list jsstr) : list jsstr :=
  if forallb (λ m, bool_decide (m ∈ set)) models then fold_left set_delete models set
  else fold_left set_add models set.

Definition setSelectedAdd (l : list jsstr) (p : Page) : Page :=
  set_dialog (λ d, MkDialog (activeTab d) (searchAdd d) (searchRemove d) l (selectedRemove d)
                     (partialConfirmOpen d)) p.
Definition setSelectedRemove (l : list jsstr) (p : Page) : Page :=
  set_dialog (λ d, MkDialog (activeTab d) (searchAdd d) (searchRemove d) (selectedAdd d) l
                     (partialConfirmOpen d)) p.
Definition setPartialConfirmOpen (b : bool) (p : Page) : Page :=
  set_dialog (λ d, MkDialog (activeTab d) (searchAdd d) (searchRemove d) (selectedAdd d)
                     (selectedRemove d) b) p.
Definition setSearch (tab : Tab) (text : jsstr) (p : Page) : Page :=
  set_dialog (λ d,
    match tab with
    | AddTab => MkDialog (activeTab d) text (searchRemove d) (selectedAdd d) (selectedRemove d)
                  (partialConfirmOpen d)
    | RemoveTab => MkDialog (activeTab d) (searchAdd d) text (selectedAdd d) (selectedRemove d)
                     (partialConfirmOpen d)
    end) p.
Definition setActiveTab (tab : Tab) (p : Page) : Page :=
  set_dialog (λ d, MkDialog tab (searchAdd d) (searchRemove d) (selectedAdd d) (selectedRemove d)
                     (partialConfirmOpen d)) p.

Definition confirm_selection (p : Page) : Task :=
  applyUpdates p (selectedAdd (dialog p)) (selectedRemove (dialog p)).

Definition handleConfirm (p : Page) : Task :=
  let hasAdd := negb (length (addModels (hook p)) =? 0)%nat in
  let hasRemove := negb (length (removeModels (hook p)) =? 0)%nat in
  let anyAdd := negb (length (selectedAdd (dialog p)) =? 0)%nat in
  let anyRemove := negb (length (selectedRemove (dialog p)) =? 0)%nat in
  if hasAdd && hasRemove && negb (Bool.eqb anyAdd anyRemove)
  then Update (setPartialConfirmOpen true) Stop
  else confirm_selection p.

(** The Confirm button is disabled *)
Definition confirm_disabled (p : Page) : bool :=
  applyLoading (hook p) ||
  ((length (addModels (hook p)) =? 0)%nat && (length (removeModels (hook p)) =? 0)%nat).

(** ** The page

    The controls of the dialog exist while it is open. *)

Inductive Event :=
| Badge (tab : Tab) (id : num) (settings : jsval)
| MenuItem (id : num) (settings : jsval)
| ApplyAllButton
| DetectAllButton
| Search (tab : Tab) (text : jsstr)
| Toggle (tab : Tab) (model : jsstr)
| ToggleAll (tab : Tab)
| SwitchTab (tab : Tab)
| ConfirmButton
| CancelButton
| PartialConfirm
| PartialCancel.

(** The badges show the pending changes of a channel whose check is enabled. *)
Definition badge (tab : Tab) (id : num) (settings : jsval) : Task :=
  match parseUpstreamUpdateMeta settings with
  | Throw => Stop
  | Ok meta =>
      let count := length (match tab with AddTab => pendingAddModels meta
                                        | RemoveTab => pendingRemoveModels meta end) in
      if enabled meta && negb (count =? 0)%nat
      then Update (openModal (Some id) (pendingAddModels meta) (pendingRemoveModels meta) tab) Stop
      else Stop
  end.

(** The item Upstream Updates of the row's menu. *)
Definition menu_item (id : num) (settings : jsval) : Task :=
  match parseUpstreamUpdateMeta settings with
  | Throw => Stop
  | Ok meta =>
      if negb (length (pendingAddModels meta) =? 0)%nat ||
         negb (length (pendingRemoveModels meta) =? 0)%nat
      then Update (openModal (Some id) (pendingAddModels meta) (pendingRemoveModels meta)
             (if (length (pendingAddModels meta) =? 0)%nat then RemoveTab else AddTab)) Stop
      else detectChannelUpdates (Some id)
  end.

Definition in_dialog (p : Page) (t : Task) : Task := if showModal (hook p) then t else Stop.

Definition handle (e : Event) (p : Page) : Task :=
  match e with
  | Badge tab id settings => badge tab id settings
  | MenuItem id settings => menu_item id settings
  | ApplyAllButton => if applyAllLoading (hook p) then Stop else applyAllUpdates
  | DetectAllButton => if detectAllLoading (hook p) then Stop else detectAllUpdates
  | Search tab text => in_dialog p (Update (setSearch tab text) Stop)
  | Toggle AddTab model =>
      in_dialog p (if decide (model ∈ filteredAdd p)
        then Update (setSelectedAdd (toggleModel model (selectedAdd (dialog p)))) Stop else Stop)
  | Toggle RemoveTab model =>
      in_dialog p (if decide (model ∈ filteredRemove p)
        then Update (setSelectedRemove (toggleModel model (selectedRemove (dialog p)))) Stop else Stop)
  | ToggleAll AddTab =>
      in_dialog p
        (Update (setSelectedAdd (toggleAllVisible (filteredAdd p) (selectedAdd (dialog p)))) Stop)
  | ToggleAll RemoveTab =>
      in_dialog p (Update
        (setSelectedRemove (toggleAllVisible (filteredRemove p) (selectedRemove (dialog p)))) Stop)
  | SwitchTab tab => in_dialog p (Update (setActiveTab tab) Stop)
  | ConfirmButton => in_dialog p (if confirm_disabled p then Stop else handleConfirm p)
  | CancelButton => in_dialog p (Update closeModal Stop)
  | PartialConfirm =>
      if partialConfirmOpen (dialog p)
      then Update (setPartialConfirmOpen false) (confirm_selection p) else Stop
  | PartialCancel => Update (setPartialConfirmOpen false) Stop
  end.

Definition play : World Page Phase → list (action Event Answer) → World Page Phase :=
  run handle resume.

Definition mounted : World Page Phase := MkWorld page_mounted [].


(** ** What the page keeps up

    [wf] speaks of the hook alone: toasts and the dialog's state do not matter. *)

(** Names as [normalizeModelList] leaves them. *)
Definition clean (l : list jsstr) : Prop :=
  NoDup l ∧ ∀ w, w ∈ l → trimmed w ∧ is_empty w = false.

Definition modal_ok (h : Hook) : Prop :=
  if showModal h
  then has_id (channel h) = true ∧ clean (addModels h) ∧ clean (removeModels h) ∧
       addModels h ++ removeModels h ≠ []
  else channel h = None ∧ addModels h = [] ∧ removeModels h = [].

(** What a request that is under way asks for. *)
Definition request_ok (ph : Phase) : Prop :=
  match ph with
  | ApplyPost id adds ignores removes =>
      num_truthy id = true ∧ clean adds ∧ clean ignores ∧ clean removes ∧
      ∀ m, m ∈ adds → m ∉ ignores
  | DetectPost id => num_truthy id = true
  | _ => True
  end.

Definition under_way (j : Job) (ps : list Phase) : nat := length (filter (λ ph, job_of ph = j) ps).

Definition loading_shown (h : Hook) : Prop :=
  applyLoading h = applyRef h ∧ applyAllLoading h = applyAllRef h ∧
  detectAllLoading h = detectAllRef h.

Definition wf (h : Hook) (ps : list Phase) : Prop :=
  (∀ j, under_way j ps = Nat.b2n (ref_of j h)) ∧ loading_shown h ∧ modal_ok h ∧ Forall request_ok ps.

Lemma under_way_perm j ps ps' : ps ≡ₚ ps' → under_way j ps = under_way j ps'.
Proof. intros H. unfold under_way. by rewrite H. Qed.

Lemma under_way_cons j ph ps :
  under_way j (ph :: ps) = ((if decide (job_of ph = j) then 1 else 0) + under_way j ps)%nat.
Proof. unfold under_way. rewrite filter_cons. by destruct (decide (job_of ph = j)). Qed.

Lemma wf_perm h ps ps' : ps ≡ₚ ps' → wf h ps → wf h ps'.
Proof.
  intros Hp (Hj & Hl & Hm & Hr). split_and!; [|done..|by rewrite <-Hp].
  intros j. by rewrite <-(under_way_perm j _ _ Hp).
Qed.

Lemma wf_same h h' ps :
  (∀ j, ref_of j h' = ref_of j h) → loading_shown h' → modal_ok h' → wf h ps → wf h' ps.
Proof. intros Hr Hl Hm (Hj & _ & _ & Hq). split_and!; [|done..]. intros j. by rewrite Hr. Qed.

(** The three things a handler does to the refs. *)
Definition started (j : Job) (p : Page) : Page := set_loading j true (set_ref j true p).
Definition finished (j : Job) (p : Page) : Page := set_loading j false (set_ref j false p).

Lemma ref_set_ref j j' b p :
  ref_of j' (hook (set_loading j b (set_ref j b p))) = if decide (j = j') then b else ref_of j' (hook p).
Proof. destruct p as [[] ??], j, j'; reflexivity. Qed.

Lemma loading_set_ref j b p :
  loading_shown (hook p) → loading_shown (hook (set_loading j b (set_ref j b p))).
Proof. destruct p as [[] ??], j; unfold loading_shown; simpl; tauto. Qed.

Lemma modal_set_ref j b p :
  modal_ok (hook p) → modal_ok (hook (set_loading j b (set_ref j b p))).
Proof. by destruct p as [[] ??], j. Qed.

Lemma wf_started j p ph ps :
  job_of ph = j → request_ok ph → ref_of j (hook p) = false →
  wf (hook p) ps → wf (hook (started j p)) (ph :: ps).
Proof.
  intros <- Hph Hf (Hj & Hl & Hm & Hr).
  split; [|split; [by apply loading_set_ref|split; [by apply modal_set_ref|by try constructor]]].
  intros j. unfold started. rewrite ref_set_ref, under_way_cons, Hj.
  destruct (decide (job_of ph = j)) as [<-|]; [by rewrite Hf|done].
Qed.

Lemma wf_finished p ph ps :
  wf (hook p) (ph :: ps) → wf (hook (finished (job_of ph) p)) ps.
Proof.
  intros (Hj & Hl & Hm & Hr). apply Forall_cons in Hr as [_ Hr].
  split; [|split; [by apply loading_set_ref|split; [by apply modal_set_ref|by try constructor]]].
  intros j. specialize (Hj j). unfold finished. rewrite ref_set_ref. rewrite under_way_cons in Hj.
  destruct (decide (job_of ph = j)) as [|]; [|done]. simpl. destruct (ref_of j _); simpl in Hj; lia.
Qed.

Lemma wf_refreshing h ph ps : wf h (ph :: ps) → wf h (Refresh (job_of ph) :: ps).
Proof.
  intros (Hj & Hl & Hm & Hr). apply Forall_cons in Hr as [_ Hr]. split; [|by split_and!; [..|constructor]].
  intros j. rewrite <-Hj, !under_way_cons. done.
Qed.

(** ** The modal *)

Lemma normalize_names models : normalizeModelList (JArr (map JStr models)) = Ok (normalizeNames models).
Proof.
  unfold normalizeModelList, normalizeNames. simpl.
  enough (res_mapM model_text (map JStr models) = Ok (map trim models)) as -> by done.
  induction models as [|m models IH]; simpl; [done|]. rewrite IH.
  unfold model_text, js_or. simpl. by destruct m.
Qed.

Lemma clean_normalized models : clean (normalizeNames models).
Proof. apply (normalizeModelList_clean _ _ (normalize_names models)). Qed.

Lemma clean_filter P `{!∀ m, Decision (P m)} l : clean l → clean (filter P l).
Proof.
  intros [Hd Hw]. split; [by apply NoDup_filter|]. intros w [_ ?]%list_elem_of_filter. auto.
Qed.

Lemma wf_set_modal show c adds removes tab p ps :
  modal_ok (hook (set_modal show c adds removes tab p)) →
  wf (hook p) ps → wf (hook (set_modal show c adds removes tab p)) ps.
Proof.
  intros Hm Hw. eapply wf_same; [| |done|exact Hw]; [by intros []|]. by destruct Hw as (_ & Hl & _).
Qed.

Lemma wf_close p ps : wf (hook p) ps → wf (hook (closeModal p)) ps.
Proof. by apply wf_set_modal. Qed.

Lemma wf_open record adds removes tab p ps :
  wf (hook p) ps → wf (hook (openModal record adds removes tab p)) ps.
Proof.
  intros Hw. unfold openModal. destruct (has_id record) eqn:Hid; simpl; [|done].
  destruct (_ && _) eqn:E; [done|]. apply wf_set_modal; [|done].
  unfold modal_ok. cbn [set_modal set_hook hook showModal channel addModels removeModels].
  split; [done|]. split; [apply clean_normalized|]. split; [apply clean_normalized|].
  intros [Ha Hr]%app_eq_nil. by rewrite Ha, Hr in E.
Qed.

(** ** One run of a handler *)

Notation page_keeps := (keeps (λ p ps, wf (hook p) ps)).

Lemma keeps_finish ph p ps : wf (hook p) (ph :: ps) → page_keeps (finish (job_of ph)) p ps.
Proof. apply wf_finished. Qed.

Lemma keeps_report e ph p ps : wf (hook p) (ph :: ps) → page_keeps (report e (job_of ph)) p ps.
Proof. intros H. by apply (keeps_finish ph (toast _ p)). Qed.

Lemma keeps_refresh m ph p ps :
  wf (hook p) (ph :: ps) → page_keeps (Update (toast m) (Await (Refresh (job_of ph)))) p ps.
Proof. apply wf_refreshing. Qed.

Lemma keeps_on_success ph body k p ps :
  wf (hook p) (ph :: ps) → (∀ data, page_keeps (k data) p ps) →
  page_keeps (on_success (job_of ph) body k) p ps.
Proof.
  intros Hw Hk. unfold on_success. destruct (negb _); [|apply Hk]. by apply (keeps_finish ph (toast _ p)).
Qed.

Lemma keeps_resume ph a p ps : wf (hook p) (ph :: ps) → page_keeps (resume ph a) p ps.
Proof.
  intros Hw. destruct a as [body|e]; [|by destruct ph; apply (keeps_report e _ p ps Hw)].
  destruct ph as [id adds ignores removes| |id| |j]; cbn [resume].
  - apply (keeps_on_success _ _ _ _ _ Hw). intros data.
    destruct (getManualIgnoredModelCount _); [|by apply (keeps_report _ _ p ps Hw)].
    apply wf_refreshing in Hw. by apply wf_close.
  - apply (keeps_on_success _ _ _ _ _ Hw). intros data. by apply (keeps_refresh _ _ p ps Hw).
  - apply (keeps_on_success _ _ _ _ _ Hw). intros data. by apply (keeps_refresh _ _ p ps Hw).
  - apply (keeps_on_success _ _ _ _ _ Hw). intros data. by apply (keeps_refresh _ _ p ps Hw).
  - by apply (keeps_finish _ p ps Hw).
Qed.

Lemma keeps_apply render adds removes p ps :
  wf (hook render) ps → wf (hook p) ps → page_keeps (applyUpdates render adds removes) p ps.
Proof.
  intros Hr Hw. unfold keeps, applyUpdates. cbn [exec]. destruct (applyRef (hook p)) eqn:Hf; [done|].
  destruct (channel (hook render)) as [id|] eqn:Hc; simpl; [|by apply wf_close].
  destruct (num_truthy id) eqn:Hid; simpl; [|by apply wf_close].
  apply (wf_started Apply); [done| |done|done]. simpl. split_and!; auto using clean_normalized.
  - apply clean_filter. destruct Hr as (_ & _ & Hm & _). unfold modal_ok in Hm.
    destruct (showModal _); [by destruct Hm as (_ & ? & _)|]. destruct Hm as (_ & -> & _).
    split; [constructor|]. by intros w ?%not_elem_of_nil.
  - intros m Hm. rewrite list_elem_of_filter. tauto.
Qed.

Lemma keeps_detect ch p ps : wf (hook p) ps → page_keeps (detectChannelUpdates ch) p ps.
Proof.
  intros Hw. unfold keeps, detectChannelUpdates. cbn [exec].
  destruct (detectRef (hook p)) eqn:Hf; [done|]. destruct ch as [id|]; [|done]. simpl.
  destruct (num_truthy id) eqn:Hid; [|done]. change (wf (hook (set_ref Detect true p)) (DetectPost id :: ps)).
  replace (hook (set_ref Detect true p)) with (hook (started Detect p)) by by destruct p as [[] ??].
  by apply wf_started.
Qed.

Lemma keeps_handle e p ps : wf (hook p) ps → page_keeps (handle e p) p ps.
Proof.
  intros Hw. destruct e as [tab id settings|id settings| | |tab text|tab m|tab|tab| | | |];
    cbn [handle]; unfold in_dialog; try destruct tab; try (by repeat case_match).
  - unfold badge. repeat case_match; try done; by apply wf_open.
  - unfold badge. repeat case_match; try done; by apply wf_open.
  - unfold menu_item. repeat case_match; try done; [by apply wf_open..|by apply keeps_detect].
  - destruct (applyAllLoading _); [done|]. unfold keeps, applyAllUpdates. cbn [exec].
    destruct (applyAllRef (hook p)) eqn:Hf; [done|]. by apply (wf_started ApplyAll).
  - destruct (detectAllLoading _); [done|]. unfold keeps, detectAllUpdates. cbn [exec].
    destruct (detectAllRef (hook p)) eqn:Hf; [done|]. by apply (wf_started DetectAll).
  - destruct (showModal _); [|done]. destruct (confirm_disabled p); [done|]. unfold handleConfirm.
    destruct (_ && _); [done|]. by apply keeps_apply.
  - destruct (showModal _); [|done]. by apply wf_close.
  - destruct (partialConfirmOpen _); [|done].
    by apply (keeps_apply p _ _ (setPartialConfirmOpen false p)).
Qed.

Lemma play_wf w l : wf (hook (state w)) (pending w) → wf (hook (state (play w l))) (pending (play w l)).
Proof.
  apply (async_run_inv handle resume (λ p ps, wf (hook p) ps)).
  - intros p. apply wf_perm.
  - intros e p ps. apply keeps_handle.
  - intros ph a p ps. apply keeps_resume.
Qed.

Lemma mounted_wf : wf (hook (state mounted)) (pending mounted).
Proof. split_and!; try done. by intros []. Qed.

(** ** Theorems *)

(** C14. Whatever the user does on the page and in whatever order the server
    answers, each of the four guards is set exactly while one request of its
    kind (or the refresh after it) is under way, so no two of a kind ever are; the
    loading states equal the guards; the dialog is open only on a channel with
    an id and clean, duplicate-free, not all empty lists; and every apply
    request under way names a channel and never asks to add and ignore the same
    model. *)
Theorem requests_exclusive (l : list (action Event Answer)) :
  let w := play mounted l in
  let h := hook (state w) in
  (∀ j, length (filter (λ ph, job_of ph = j) (pending w)) = if ref_of j h then 1%nat else 0%nat) ∧
  (applyLoading h = applyRef h ∧ applyAllLoading h = applyAllRef h ∧
   detectAllLoading h = detectAllRef h) ∧
  (if showModal h
   then has_id (channel h) = true ∧ clean (addModels h) ∧ clean (removeModels h) ∧
        addModels h ++ removeModels h ≠ []
   else channel h = None ∧ addModels h = [] ∧ removeModels h = []) ∧
  (∀ id adds ignores removes, ApplyPost id adds ignores removes ∈ pending w →
     num_truthy id = true ∧ clean adds ∧ clean ignores ∧ clean removes ∧
     ∀ m, m ∈ adds → m ∉ ignores).
Proof.
  intros w h. destruct (play_wf mounted l mounted_wf) as (Hj & Hl & Hm & Hr).
  split; [|split; [done|split; [done|]]].
  - intros j. fold (under_way j (pending w)). unfold w, h. rewrite Hj. by destruct (ref_of j _).
  - intros id adds ignores removes Hin. by apply (proj1 (Forall_forall _ _) Hr) in Hin.
Qed.

(** *** Every request is answered *)

(** The answers a phase still needs, at most. *)
Definition answers_left (ph : Phase) : nat := match ph with Refresh _ => 1 | _ => 2 end.
Definition all_answers_left (ps : list Phase) : nat := sum_list (map answers_left ps).

Lemma all_answers_left_app ps ps' :
  all_answers_left (ps ++ ps') = (all_answers_left ps + all_answers_left ps')%nat.
Proof. unfold all_answers_left. rewrite map_app. apply sum_list_with_app. Qed.

Lemma all_answers_left_bound ps : (length ps ≤ all_answers_left ps ≤ 2 * length ps)%nat.
Proof. induction ps as [|[] ps IH]; unfold all_answers_left in *; simpl in *; lia. Qed.

(** An answer ends the task or leaves its refresh. *)
Definition left_by (t : Task) (p : Page) : nat := all_answers_left (option_list (exec t p).2).

Lemma left_by_on_success j body k p :
  (∀ data, (left_by (k data) p ≤ 1)%nat) → (left_by (on_success j body k) p ≤ 1)%nat.
Proof. intros Hk. unfold on_success. destruct (negb _); [|apply Hk]. apply Nat.le_0_l. Qed.

Lemma resume_left ph a p : (left_by (resume ph a) p < answers_left ph)%nat.
Proof.
  destruct a as [body|e]; [|destruct ph; apply Nat.lt_0_succ].
  destruct ph as [id adds ignores removes| |id| |j]; [..|apply Nat.lt_0_succ];
    apply Nat.lt_succ_r, left_by_on_success; intros data; [|apply le_n..].
  destruct (getManualIgnoredModelCount _); [apply le_n|apply Nat.le_0_l].
Qed.

Lemma play_answers w answers :
  (all_answers_left (pending w) ≤ length answers)%nat →
  pending (play w (map (Reply 0) answers)) = [].
Proof.
  revert w. induction answers as [|a answers IH]; intros w Hn.
  { pose proof (all_answers_left_bound (pending w)). apply nil_length_inv. simpl in *. lia. }
  apply IH. destruct w as [p [|ph ps]]; [cbn; lia|].
  change (all_answers_left (ps ++ option_list (exec (resume ph a) p).2) ≤ length answers)%nat.
  rewrite all_answers_left_app. pose proof (resume_left ph a p). unfold left_by in *.
  change (answers_left ph + all_answers_left ps ≤ S (length answers))%nat in Hn. lia.
Qed.

(** C32. Nothing blocks the buttons for good: from any state the page can
    reach, two answers per request under way, successes or failures, leave no
    request and release every guard and loading state. *)
Theorem requests_settle (l : list (action Event Answer)) (answers : list Answer) :
  let w := play mounted l in
  (2 * length (pending w) ≤ length answers)%nat →
  let w' := play w (map (Reply 0) answers) in
  pending w' = [] ∧ (∀ j, ref_of j (hook (state w')) = false) ∧
  applyLoading (hook (state w')) = false ∧ applyAllLoading (hook (state w')) = false ∧
  detectAllLoading (hook (state w')) = false.
Proof.
  intros w Hn w'. assert (Hp : pending w' = []).
  { apply play_answers. etrans; [|exact Hn]. apply all_answers_left_bound. }
  destruct (play_wf w (map (Reply 0) answers) (play_wf mounted l mounted_wf))
    as (Hj & Hl & _). fold w' in Hj, Hl. destruct Hl as (-> & -> & ->). rewrite Hp in Hj.
  assert (Hf : ∀ j, ref_of j (hook (state w')) = false).
  { intros j. specialize (Hj j). by destruct (ref_of j _). }
  split_and!; [done|done|apply (Hf Apply)|apply (Hf ApplyAll)|apply (Hf DetectAll)].
Qed.

(** *** What a confirmation sends *)

Lemma normalize_clean l : clean l → normalizeNames l = l.
Proof.
  intros [Hd Hw]. unfold normalizeNames.
  assert (map trim l = l) as ->.
  { clear Hd. induction l as [|m l IH]; [done|]. simpl. f_equal.
    - apply trim_trimmed_id. apply Hw. constructor.
    - apply IH. intros w ?. apply Hw. by constructor. }
  assert (non_empty l = l) as ->.
  { unfold non_empty. clear Hd. induction l as [|m l IH]; [done|]. rewrite filter_cons_True.
    - f_equal. apply IH. intros w ?. apply Hw. by constructor.
    - apply Hw. constructor. }
  by apply dedup_NoDup.
Qed.

Lemma meta_clean settings meta :
  parseUpstreamUpdateMeta settings = Ok meta →
  clean (pendingAddModels meta) ∧ clean (pendingRemoveModels meta).
Proof.
  unfold parseUpstreamUpdateMeta. case_match.
  - intros [= <-]. split; (split; [constructor|]); by intros w ?%not_elem_of_nil.
  - intros (adds & Ea & (removes & Er & [= <-])%res_bind_Ok)%res_bind_Ok.
    split; by eapply normalizeModelList_clean.
Qed.

Lemma play_app w l l' : play w (l ++ l') = play (play w l) l'.
Proof. apply foldl_app. Qed.

Lemma badge_opens p ps id settings meta :
  num_truthy id = true → parseUpstreamUpdateMeta settings = Ok meta →
  enabled meta = true → pendingAddModels meta ≠ [] →
  play (MkWorld p ps) [Do (Badge AddTab id settings)] =
  MkWorld (set_modal true (Some id) (pendingAddModels meta) (pendingRemoveModels meta) AddTab p) ps.
Proof.
  intros Hid Hm He Ha. destruct (meta_clean _ _ Hm) as [Hca Hcr].
  unfold play. cbn [run foldl step handle state pending]. unfold badge, settle. rewrite Hm, He.
  destruct (pendingAddModels meta) as [|m adds] eqn:E; [done|]. cbn [length Nat.eqb negb andb exec].
  unfold openModal, has_id. rewrite Hid, (normalize_clean _ Hca), (normalize_clean _ Hcr).
  cbn [state fst snd pending option_list negb orb length Nat.eqb andb]. by rewrite app_nil_r.
Qed.

(** The request a confirmation on page [p] sends. *)
Definition selection_request (id : num) (p : Page) : Phase :=
  let chosen := normalizeNames (selectedAdd (dialog p)) in
  ApplyPost id chosen (filter (λ m, m ∉ chosen) (addModels (hook p)))
    (normalizeNames (selectedRemove (dialog p))).

Lemma exec_confirm p q id :
  applyRef (hook q) = false → channel (hook p) = Some id → num_truthy id = true →
  exec (confirm_selection p) q = (started Apply q, Some (selection_request id p)).
Proof.
  intros Hf Hc Hid. unfold confirm_selection, applyUpdates. cbn [exec]. rewrite Hf, Hc. simpl.
  by rewrite Hid.
Qed.

Lemma exec_confirm_busy p q : applyRef (hook q) = true → exec (confirm_selection p) q = (q, None).
Proof. intros Hf. unfold confirm_selection, applyUpdates. cbn [exec]. by rewrite Hf. Qed.

Lemma confirm_sends p ps id :
  showModal (hook p) = true → confirm_disabled p = false → applyRef (hook p) = false →
  channel (hook p) = Some id → num_truthy id = true →
  pending (play (MkWorld p ps) [Do ConfirmButton; Do PartialConfirm]) =
  ps ++ [selection_request id p].
Proof.
  intros Hs Hd Hf Hc Hid. unfold play. cbn [run foldl step handle state pending].
  unfold in_dialog, settle. rewrite Hs, Hd. cbn [state pending]. unfold handleConfirm. destruct (_ && _).
  - cbn [exec fst snd option_list state dialog setPartialConfirmOpen set_dialog partialConfirmOpen hook].
    rewrite app_nil_r. by rewrite (exec_confirm _ _ id).
  - rewrite (exec_confirm _ _ id) by done. cbn [fst snd option_list].
    assert (Hr : applyRef (hook (started Apply p)) = true) by by destruct p as [[] ??].
    destruct (partialConfirmOpen _); cbn [exec].
    + rewrite exec_confirm_busy by done. apply app_nil_r.
    + apply app_nil_r.
Qed.

Lemma open_and_confirm w id settings meta :
  loading_shown (hook (state w)) → applyRef (hook (state w)) = false → num_truthy id = true →
  parseUpstreamUpdateMeta settings = Ok meta → enabled meta = true → pendingAddModels meta ≠ [] →
  let chosen := normalizeNames (selectedAdd (dialog (state w))) in
  pending (play w [Do (Badge AddTab id settings); Do ConfirmButton; Do PartialConfirm]) =
  pending w ++ [ApplyPost id chosen (filter (λ m, m ∉ chosen) (pendingAddModels meta))
                  (normalizeNames (selectedRemove (dialog (state w))))].
Proof.
  intros Hl Hf Hid Hm He Ha chosen. destruct w as [p ps].
  change [Do (Badge AddTab id settings); Do ConfirmButton; Do PartialConfirm]
    with ([@Do Event Answer (Badge AddTab id settings)] ++ [Do ConfirmButton; Do PartialConfirm]).
  rewrite play_app, (badge_opens p ps id settings meta) by done.
  rewrite (confirm_sends _ _ id); [done|done| |done|done|done].
  unfold confirm_disabled. simpl in *. destruct Hl as [-> _]. rewrite Hf. simpl.
  by destruct (pendingAddModels meta).
Qed.

(** C15. The dialog's selection belongs to the page and not to the channel it
    is open on.  Whatever was done before (with no apply request under way),
    opening the pending updates of a channel and confirming at once sends the
    selection left from earlier, be it of other channels: its names are added
    to and removed from this channel, and the models this channel offers that
    are not among them are ignored. *)
Theorem selection_carried_over (l : list (action Event Answer)) (id : num) (settings : jsval)
    (meta : UpdateMeta) :
  let w := play mounted l in
  applyRef (hook (state w)) = false → num_truthy id = true →
  parseUpstreamUpdateMeta settings = Ok meta → enabled meta = true → pendingAddModels meta ≠ [] →
  let w' := play w [Do (Badge AddTab id settings); Do ConfirmButton; Do PartialConfirm] in
  let chosen := normalizeNames (selectedAdd (dialog (state w))) in
  pending w' = pending w ++
    [ApplyPost id chosen (filter (λ m, m ∉ chosen) (pendingAddModels meta))
       (normalizeNames (selectedRemove (dialog (state w))))].
Proof.
  intros w Hf Hid Hm He Ha. apply open_and_confirm; try done.
  by destruct (play_wf mounted l mounted_wf) as (_ & ? & _).
Qed.

(** The first confirmation on a page where nothing was ticked ignores every new
    model, although the dialog's initialisers select all that are offered. *)
Lemma first_confirmation_ignores_all id settings meta :
  num_truthy id = true → parseUpstreamUpdateMeta settings = Ok meta → enabled meta = true →
  pendingAddModels meta ≠ [] →
  pending (play mounted [Do (Badge AddTab id settings); Do ConfirmButton; Do PartialConfirm]) =
  [ApplyPost id [] (pendingAddModels meta) []].
Proof.
  intros Hid Hm He Ha. rewrite (open_and_confirm mounted id settings meta) by done.
  change (normalizeNames (selectedAdd (dialog (state mounted)))) with (@nil jsstr).
  change (normalizeNames (selectedRemove (dialog (state mounted)))) with (@nil jsstr). simpl.
  do 2 f_equal. clear Ha. induction (pendingAddModels meta) as [|m adds IH]; [done|].
  rewrite filter_cons_True by apply not_elem_of_nil. by rewrite IH.
Qed.

(** A successful answer closes the dialog, whichever channel it shows by then. *)
Lemma success_closes w i id adds ignores removes body total :
  pending w !! i = Some (ApplyPost id adds ignores removes) →
  truthy (get_prop_opt (js "success") (js_or body (JObj []))) = true →
  getManualIgnoredModelCount (get_prop_opt (js "settings")
    (get_prop_opt (js "data") (js_or body (JObj [])))) = Ok total →
  let h := hook (state (play w [Reply i (Resolved body)])) in
  showModal h = false ∧ channel h = None ∧ addModels h = [] ∧ removeModels h = [].
Proof.
  intros Hi Hs Hc. unfold play. cbn [run foldl step]. rewrite Hi. cbn [resume].
  unfold settle, apply_answered, on_success. by rewrite Hs, Hc.
Qed.

End flow.

(** *** Examples *)

(** [{ upstream_model_update_check_enabled: true,
       upstream_model_update_last_detected_models: [name] }] *)
Definition offers (name : jsstr) : jsval :=
  JObj [(js "upstream_model_update_check_enabled", JBool true);
        (js "upstream_model_update_last_detected_models", JArr [JStr name])].

(** The model ticked for channel 1 is added to channel 2. *)
Lemma selection_carried_over_witness :
  pending (play [] to_lower mounted
    [Do (Badge AddTab (num_of_Z 1) (offers (js "a"))); Do (Toggle AddTab (js "a")); Do CancelButton;
     Do (Badge AddTab (num_of_Z 2) (offers (js "b"))); Do ConfirmButton; Do PartialConfirm]) =
  [ApplyPost (num_of_Z 2) [js "a"] [js "b"] []].
Proof.
  apply (selection_carried_over [] to_lower
    [Do (Badge AddTab (num_of_Z 1) (offers (js "a"))); Do (Toggle AddTab (js "a")); Do CancelButton]
    (num_of_Z 2) (offers (js "b")) (Meta true [js "b"] [])); try (vm_compute; reflexivity).
  discriminate.
Defined.

(** Two requests of different kinds under way, answered by failures. *)
Lemma requests_settle_witness :
  let w := play [] to_lower mounted [Do ApplyAllButton; Do DetectAllButton] in
  length (pending w) = 2%nat ∧
  pending (play [] to_lower w (map (Reply 0) (replicate 4 (Rejected JUndef)))) = [].
Proof.
  split; [vm_compute; reflexivity|].
  apply (requests_settle [] to_lower [Do ApplyAllButton; Do DetectAllButton]
           (replicate 4 (Rejected JUndef))). vm_compute. lia.
Defined.

End UpstreamFlow.
