(* ===== verification/SecureVerification.v ===== *)
(** * Secure verification

    [SecureVerification] models the second verification the console asks for
    before a sensitive action:
    web/default/src/features/auth/secure-verification (the hook
    hooks/use-secure-verification.ts, its requests api.ts and the controls of
    components/secure-verification-dialog.tsx) and lib/secure-verification.ts,
    which recognises the server's demand for it.

    Verifying, the action itself and the questions to the server are tasks of
    [JsAsync]; the messages of the browser's authenticator are encoded and
    decoded by [Passkey].  The actions are an arbitrary type [Call] of names for
    the functions the pages pass in.  The callbacks of the pages are recorded and
    do not throw. *)

From stdpp Require Import base list strings.
From Stdlib Require Import ZArith Lia.
From S2P Require Import Prelude JsString JsNumber JsValue Passkey JsAsync.
#[local] Open Scope Z_scope.

Module SecureVerification.
Import Passkey.

(** ** Types *)

Inductive VerificationMethod := TwoFA | ByPasskey.
#[export] Instance VerificationMethod_eq_dec : EqDecision VerificationMethod.
Proof. solve_decision. Defined.

Record VerificationMethods := MkMethods { has2FA : bool; hasPasskey : bool; passkeySupported : bool }.

Definition defaultMethods : VerificationMethods := MkMethods false false false.

Record StartVerificationOptions := MkStart {
  preferredMethod : option VerificationMethod;
  start_title : option jsstr;
  start_description : option jsstr
}.

(** A thrown value: whether it is an [Error] or a [DOMException], and its
    members. *)
Record Thrown := MkThrown { is_error : bool; is_dom : bool; members : jsval }.

Definition new_error (message : jsval) : Thrown := MkThrown true false (JObj [(js "message", message)]).

(** [error.name === name] of a [DOMException] *)
Definition dom_named (name : string) (e : Thrown) : bool :=
  is_dom e && strict_eq (get_prop_opt (js "name") (members e)) (JStr (js name)).

(** ** The server's demand (lib/secure-verification.ts) *)

Definition verificationCodes : list jsstr :=
  map js ["VERIFICATION_REQUIRED"; "VERIFICATION_EXPIRED"; "VERIFICATION_INVALID"]%string.

Definition error_response (e : Thrown) : jsval := get_prop_opt (js "response") (members e).
Definition error_data (e : Thrown) : jsval := get_prop_opt (js "data") (error_response e).

Definition isVerificationRequiredError (e : Thrown) : bool :=
  if negb (truthy (members e)) || negb (is_object_type (members e)) then false
  else if negb (strict_eq (get_prop_opt (js "status") (error_response e)) (JNum (num_of_Z 403)))
  then false
  else match get_prop_opt (js "code") (error_data e) with
       | JStr code => negb (is_empty code) && bool_decide (code ∈ verificationCodes)
       | _ => false
       end.

(** The message of [extractVerificationInfo]; its other members are not used. *)
Definition extractVerificationInfo (e : Thrown) : jsval :=
  js_coalesce (get_prop_opt (js "message") (error_data e))
    (JStr (js "Secure verification is required")).

(** ** State of the hook *)

Section flow.
Context {Call : Type}.

Record InternalState := MkState {
  method : option VerificationMethod;
  loading : bool;
  code : jsstr;
  title : option jsstr;
  description : option jsstr;
  apiCall : option Call
}.

Definition initialState : InternalState := MkState None false [] None None None.

Inductive Text := Translated (key : jsstr) | Given (text : jsval).

(** What the user and the page are told. *)
Inductive Note :=
| ToastInfo (m : Text)
| ToastSuccess (m : jsstr)
| ToastError (m : Text)
| OnSuccess (result : jsval) (m : VerificationMethod)
| OnError (e : Thrown)
| Returned (result : jsval)
| Rethrown (e : Thrown).

Record Hook := MkHook {
  methods : VerificationMethods;
  state : InternalState;
  open : bool;
  notes : list Note
}.

Definition setMethods (m : VerificationMethods) (h : Hook) : Hook :=
  MkHook m (state h) (open h) (notes h).
Definition setState (f : InternalState → InternalState) (h : Hook) : Hook :=
  MkHook (methods h) (f (state h)) (open h) (notes h).
Definition setOpen (b : bool) (h : Hook) : Hook := MkHook (methods h) (state h) b (notes h).
Definition note (n : Note) (h : Hook) : Hook :=
  MkHook (methods h) (state h) (open h) (notes h ++ [n]).

Definition set_loading (b : bool) : Hook → Hook :=
  setState (λ s, MkState (method s) b (code s) (title s) (description s) (apiCall s)).

Definition hook_mounted : Hook := MkHook defaultMethods initialState false [].

Definition reset (h : Hook) : Hook := setOpen false (setState (λ _, initialState) h).

Definition setCode (c : jsstr) : Hook → Hook :=
  setState (λ s, MkState (method s) (loading s) c (title s) (description s) (apiCall s)).

Definition switchMethod (m : VerificationMethod) : Hook → Hook :=
  setState (λ s, MkState (Some m) (loading s) [] (title s) (description s) (apiCall s)).

Definition cancel : Hook → Hook := reset.

Definition canUseMethod (m : VerificationMethod) (ms : VerificationMethods) : bool :=
  match m with TwoFA => has2FA ms | ByPasskey => hasPasskey ms && passkeySupported ms end.

Definition recommendedMethod (ms : VerificationMethods) : option VerificationMethod :=
  if hasPasskey ms && passkeySupported ms then Some ByPasskey
  else if has2FA ms then Some TwoFA else None.

(** ** Requests *)

(** The action a verification is for, and how it is done. *)
Record Verification := MkVerification { v_call : Call; v_method : VerificationMethod }.

(** [beginResponse], whose data are the options or hold them. *)
Record OptionsData := MkOptionsData { d_options : option Payload; d_self : Payload }.
Record BeginResponse := MkBegin { b_success : bool; b_message : jsval; b_data : option OptionsData }.

Notation AssertionResult := (Result (jsstr * jsstr * option jsstr)).

Inductive Phase :=
| Methods (next : option (Call * StartVerificationOptions))  (** [checkVerificationMethods] *)
| DirectCall (c : Call) (config : StartVerificationOptions)  (** [withVerification] *)
| Verify2FA (v : Verification) (c : jsstr)
| PasskeyBegin (v : Verification)
| PasskeyGet (v : Verification) (publicKey : RequestOptions)
| PasskeyFinish (v : Verification) (assertion : AssertionResult)
| PasskeyVerify (v : Verification)
| ProtectedCall (v : Verification).

(** An answer has the form its phase waits for: the two responses and the
    detection of [checkVerificationMethods], the options, a credential or none,
    or a response or result. *)
Inductive Answer :=
| MethodsAnswer (twoFA passkey : jsval) (supported : bool)
| Began (r : BeginResponse)
| GotCredential (c : option (PublicKeyCredential Assertion))
| Resolved (body : jsval)
| Rejected (e : Thrown).

(** [Boolean(r?.success) && Boolean(r?.data?.enabled)] *)
Definition status_enabled (r : jsval) : bool :=
  truthy (get_prop_opt (js "success") r) &&
  truthy (get_prop_opt (js "enabled") (get_prop_opt (js "data") r)).

Definition checkVerificationMethods (a : Answer) : VerificationMethods :=
  match a with
  | MethodsAnswer twoFA passkey supported =>
      MkMethods (status_enabled twoFA) (status_enabled passkey) supported
  | _ => defaultMethods
  end.

(** [r?.success] *)
Definition succeeded (body : jsval) : bool := truthy (get_prop_opt (js "success") body).

(** [new Error(r?.message || fallback)] *)
Definition failed_response (message : jsval) (fallback : string) : Thrown :=
  new_error (js_or message (JStr (js fallback))).

Record Options := MkOpts { successMessage : option jsstr; autoReset : bool }.

Context (g : Globals) (credentials : bool)  (** [navigator.credentials] exists *)
  (conversion_error : Thrown)  (** thrown by decoding malformed options *)
  (options : Options).

Notation Task := (task Hook Phase).

(** ** [executeVerification] *)

(** The rest of [executeVerification] after [e] is thrown. *)
Definition verification_failed (e : Thrown) : Task :=
  Update (note (ToastError (if is_error e then Given (get_prop_opt (js "message") (members e))
                            else Translated (js "Verification failed"))))
  (Update (note (OnError e))
  (Update (note (Rethrown e))
  (Update (set_loading false) Stop))).

(** [catch] of [verifyPasskey] *)
Definition passkey_failed (e : Thrown) : Task :=
  verification_failed
    (if dom_named "NotAllowedError" e
     then new_error (JStr (js "Passkey verification was cancelled or timed out"))
     else if dom_named "InvalidStateError" e
     then new_error (JStr (js "Passkey verification is not available in the current state"))
     else e).

Definition verifyTwoFA (v : Verification) (c : jsstr) : Task :=
  let trimmed := trim c in
  if is_empty trimmed
  then verification_failed
         (new_error (JStr (js "Please enter the verification code or backup code")))
  else Await (Verify2FA v trimmed).

Definition verifyPasskey (v : Verification) : Task :=
  if negb credentials
  then verification_failed
         (new_error (JStr (js "Passkey verification is not supported in this environment")))
  else Await (PasskeyBegin v).

Definition verify (v : Verification) (c : jsstr) : Task :=
  match v_method v with TwoFA => verifyTwoFA v c | ByPasskey => verifyPasskey v end.

Definition executeVerification (render : Hook) (m : option VerificationMethod) (c : option jsstr)
    : Task :=
  match apiCall (state render) with
  | None => Update (note (ToastError (Translated (js "Verification is not configured properly")))) Stop
  | Some call =>
      match or_else m (method (state render)) with
      | None => Update (note (ToastError (Translated (js "Select a verification method first")))) Stop
      | Some actualMethod =>
          Update (set_loading true)
            (verify (MkVerification call actualMethod) (default (code (state render)) c))
      end
  end.

(** The verification is complete: the protected call is made. *)
Definition two_fa_answered (v : Verification) (body : jsval) : Task :=
  if negb (succeeded body)
  then verification_failed (failed_response (get_prop_opt (js "message") body) "Verification failed")
  else Await (ProtectedCall v).

Definition begin_answered (v : Verification) (r : BeginResponse) : Task :=
  if negb (b_success r)
  then passkey_failed (failed_response (b_message r) "Failed to start verification")
  else match prepareCredentialRequestOptions g
               (d ← b_data r; or_else (d_options d) (Some (d_self d))) with
       | Throw => passkey_failed conversion_error
       | Ok publicKey => Await (PasskeyGet v publicKey)
       end.

Definition get_answered (v : Verification) (credential : option (PublicKeyCredential Assertion)) : Task :=
  match credential with
  | None => passkey_failed (new_error (JStr (js "Passkey verification was cancelled")))
  | Some _ =>
      match buildAssertionResult g credential with
      | Throw => passkey_failed conversion_error
      | Ok None => passkey_failed (new_error (JStr (js "Unable to build Passkey assertion")))
      | Ok (Some assertion) => Await (PasskeyFinish v assertion)
      end
  end.

Definition finish_answered (v : Verification) (body : jsval) : Task :=
  if negb (succeeded body)
  then passkey_failed (failed_response (get_prop_opt (js "message") body) "Passkey verification failed")
  else Await (PasskeyVerify v).

Definition passkey_verified (v : Verification) (body : jsval) : Task :=
  if negb (succeeded body)
  then passkey_failed
         (failed_response (get_prop_opt (js "message") body) "Failed to complete verification")
  else Await (ProtectedCall v).

Definition call_answered (v : Verification) (result : jsval) : Task :=
  let rest :=
    Update (note (OnSuccess result (v_method v)))
    (Update (if autoReset options then reset else λ h, h)
    (Update (note (Returned result))
    (Update (set_loading false) Stop))) in
  match successMessage options with
  | Some m => if is_empty m then rest else Update (note (ToastSuccess m)) rest
  | None => rest
  end.

(** ** [startVerification] and [withVerification] *)

Definition startVerification (c : Call) (config : StartVerificationOptions) : Task :=
  Await (Methods (Some (c, config))).

Definition default_method (config : StartVerificationOptions) (available : VerificationMethods)
    : option VerificationMethod :=
  match preferredMethod config with
  | Some m => Some m
  | None => if hasPasskey available && passkeySupported available then Some ByPasskey
            else if has2FA available then Some TwoFA else None
  end.

Definition methods_answered (next : option (Call * StartVerificationOptions)) (a : Answer) : Task :=
  let available := checkVerificationMethods a in
  Update (setMethods available)
    match next with
    | None => Stop
    | Some (c, config) =>
        if negb (has2FA available) && negb (hasPasskey available)
        then
          Update (note (ToastError (Translated
            (js "Please enable Two-factor Authentication or Passkey before proceeding"))))
          (Update (note (OnError (new_error (JStr
            (js "No verification methods available. Enable 2FA or Passkey to continue.")))))
          (Update (note (Returned (JBool false))) Stop))
        else
          Update (setState (λ s, MkState (default_method config available) (loading s) (code s)
                                   (start_title config) (start_description config) (Some c)))
          (Update (setOpen true)
          (Update (note (Returned (JBool true))) Stop))
    end.

Definition withVerification (c : Call) (config : StartVerificationOptions) : Task :=
  Await (DirectCall c config).

Definition direct_call_failed (c : Call) (config : StartVerificationOptions) (e : Thrown) : Task :=
  if isVerificationRequiredError e
  then Update (note (ToastInfo (Given (extractVerificationInfo e)))) (startVerification c config)
  else Update (note (Rethrown e)) Stop.

(** A phase is answered; an answer of another form cannot arrive. *)
Definition resume (ph : Phase) (a : Answer) : Task :=
  match ph, a with
  | Methods next, _ => methods_answered next a
  | DirectCall _ _, Resolved result => Update (note (Returned result)) Stop
  | DirectCall c config, Rejected e => direct_call_failed c config e
  | Verify2FA v _, Resolved body => two_fa_answered v body
  | PasskeyBegin v, Began r => begin_answered v r
  | PasskeyGet v _, GotCredential c => get_answered v c
  | PasskeyFinish v _, Resolved body => finish_answered v body
  | PasskeyVerify v, Resolved body => passkey_verified v body
  | ProtectedCall v, Resolved result => call_answered v result
  | Verify2FA _ _, Rejected e | ProtectedCall _, Rejected e => verification_failed e
  | PasskeyBegin _, Rejected e | PasskeyGet _ _, Rejected e | PasskeyFinish _ _, Rejected e
  | PasskeyVerify _, Rejected e => passkey_failed e
  | _, _ => Await ph
  end.

(** ** The dialog *)

Definition availableTabs (ms : VerificationMethods) : list VerificationMethod :=
  (if has2FA ms then [TwoFA] else []) ++
  (if hasPasskey ms && passkeySupported ms then [ByPasskey] else []).

Definition activeMethod (ms : VerificationMethods) (s : InternalState) : option VerificationMethod :=
  or_else (method s) (head (availableTabs ms)).

Definition verifyDisabled (ms : VerificationMethods) (s : InternalState) : bool :=
  loading s ||
  (bool_decide (activeMethod ms s = Some TwoFA) &&
   (is_empty (trim (code s)) || (length (code s) <? 6)%nat)).

Definition handleVerify (h : Hook) : Task :=
  match activeMethod (methods h) (state h) with
  | None => Stop
  | Some m =>
      executeVerification h (Some m) (match m with TwoFA => Some (code (state h)) | ByPasskey => None end)
  end.

(** The page's calls and the dialog's controls.  The Cancel button is disabled
    while a verification is under way; closing the dialog otherwise (with the
    keyboard or outside it) is not.  Closing it so calls [cancel] in the channel
    drawer ([Dismiss]) and only [setOpen(false)], which keeps the state, in the
    passkey card ([Close]).  The card's narrowing of the offered methods to the
    one a passkey is removed with is not modelled. *)
Inductive Event :=
| Mount
| Start (c : Call) (config : StartVerificationOptions)
| With (c : Call) (config : StartVerificationOptions)
| CodeChange (c : jsstr)
| MethodChange (m : VerificationMethod)
| VerifyButton
| CancelButton
| Dismiss
| Close.

Definition handle (e : Event) (h : Hook) : Task :=
  match e with
  | Mount => Await (Methods None)
  | Start c config => startVerification c config
  | With c config => withVerification c config
  | CodeChange c => if open h && negb (loading (state h)) then Update (setCode c) Stop else Stop
  | MethodChange m =>
      if open h && bool_decide (m ∈ availableTabs (methods h)) then Update (switchMethod m) Stop else Stop
  | VerifyButton =>
      if open h && negb (bool_decide (availableTabs (methods h) = [])) &&
         negb (verifyDisabled (methods h) (state h))
      then handleVerify h else Stop
  | CancelButton => if open h && negb (loading (state h)) then Update cancel Stop else Stop
  | Dismiss => if open h then Update cancel Stop else Stop
  | Close => if open h then Update (setOpen false) Stop else Stop
  end.

Definition play : World Hook Phase → list (action Event Answer) → World Hook Phase :=
  run handle resume.

Definition mounted : World Hook Phase := MkWorld hook_mounted [].

(** ** The protected call comes after the verification *)

(** The answers that complete a verification, as the history holds them. *)
Definition begun (v : Verification) (h : Phase * Answer) : Prop :=
  ∃ r, h = (PasskeyBegin v, Began r) ∧ b_success r = true.
Definition credential_got (v : Verification) (h : Phase * Answer) : Prop :=
  ∃ publicKey c, h = (PasskeyGet v publicKey, GotCredential (Some c)).
Definition finish_accepted (v : Verification) (h : Phase * Answer) : Prop :=
  ∃ assertion body, h = (PasskeyFinish v assertion, Resolved body) ∧ succeeded body = true.
Definition verify_accepted (v : Verification) (h : Phase * Answer) : Prop :=
  ∃ body, h = (PasskeyVerify v, Resolved body) ∧ succeeded body = true.
Definition code_accepted (v : Verification) (h : Phase * Answer) : Prop :=
  ∃ c body, h = (Verify2FA v c, Resolved body) ∧ succeeded body = true ∧ is_empty c = false.

(** Entries of the history that satisfy the predicates, in this order. *)
Fixpoint in_order (ps : list (Phase * Answer → Prop)) (t : list (Phase * Answer)) : Prop :=
  match ps with
  | [] => True
  | P :: ps' => ∃ t1 x t2, t = t1 ++ x :: t2 ∧ P x ∧ in_order ps' t2
  end.

Lemma in_order_app ps t t' : in_order ps t → in_order ps (t ++ t').
Proof.
  revert t. induction ps as [|P ps IH]; intros t; [done|]. intros (t1 & x & t2 & -> & Hx & Hp).
  exists t1, x, (t2 ++ t'). split; [by rewrite <-app_assoc|]. eauto.
Qed.

Lemma in_order_snoc ps P t x : in_order ps t → P x → in_order (ps ++ [P]) (t ++ [x]).
Proof.
  revert t. induction ps as [|Q ps IH]; intros t.
  - intros _ Hx. simpl. exists t, x, []. done.
  - intros (t1 & y & t2 & -> & Hy & Hp) Hx. exists t1, y, (t2 ++ [x]).
    split; [by rewrite <-app_assoc|]. eauto.
Qed.

Definition verified (v : Verification) (t : list (Phase * Answer)) : Prop :=
  match v_method v with
  | TwoFA => in_order [code_accepted v] t
  | ByPasskey => in_order [begun v; credential_got v; finish_accepted v; verify_accepted v] t
  end.

(** What the history holds when a phase is pending. *)
Definition evidence (t : list (Phase * Answer)) (ph : Phase) : Prop :=
  match ph with
  | Methods _ | DirectCall _ _ => True
  | Verify2FA v c => v_method v = TwoFA ∧ is_empty c = false
  | PasskeyBegin v => v_method v = ByPasskey
  | PasskeyGet v _ => v_method v = ByPasskey ∧ in_order [begun v] t
  | PasskeyFinish v _ => v_method v = ByPasskey ∧ in_order [begun v; credential_got v] t
  | PasskeyVerify v =>
      v_method v = ByPasskey ∧ in_order [begun v; credential_got v; finish_accepted v] t
  | ProtectedCall v => verified v t
  end.

Lemma evidence_app t t' ph : evidence t ph → evidence (t ++ t') ph.
Proof.
  destruct ph; cbn [evidence]; try done;
    try (intros [Hv Ho]; split; [exact Hv|]; by apply in_order_app).
  unfold verified. destruct (v_method v); apply in_order_app.
Qed.

Lemma verify_evidence v c h ph t : (exec (verify v c) h).2 = Some ph → evidence t ph.
Proof.
  unfold verify, verifyTwoFA, verifyPasskey. destruct (v_method v) eqn:Hv.
  - destruct (is_empty (trim c)) eqn:Hc; [done|]. by intros [= <-].
  - destruct credentials; simpl; [|done]. by intros [= <-].
Qed.

Lemma execute_evidence render m c h ph t :
  (exec (executeVerification render m c) h).2 = Some ph → evidence t ph.
Proof. unfold executeVerification. repeat case_match; try done. apply verify_evidence. Qed.

Lemma handle_evidence e h ph t : (exec (handle e h) h).2 = Some ph → evidence t ph.
Proof.
  destruct e; cbn [handle]; try (by intros [= <-]); try (by case_match).
  destruct (_ && _); [|done]. unfold handleVerify. case_match; [|done]. apply execute_evidence.
Qed.

Lemma resume_evidence ph a h ph' t :
  evidence t ph → (exec (resume ph a) h).2 = Some ph' → evidence (t ++ [(ph, a)]) ph'.
Proof.
  assert (Hsame : evidence t ph → Some ph = Some ph' → evidence (t ++ [(ph, a)]) ph').
  { intros He [= <-]. by apply evidence_app. }
  destruct ph as [next|c config|v c|v|v o|v r|v|v]; intros He; cbn [resume].
  - unfold methods_answered. destruct next as [[c config]|]; cbn [exec]; [|done].
    by destruct (_ && _).
  - destruct a; try done; try by apply Hsame. unfold direct_call_failed. case_match; [|done].
    by intros [= <-].
  - destruct a as [| | |body|]; try done; try by apply Hsame. destruct He as [Hv Hc]. unfold two_fa_answered.
    destruct (succeeded body) eqn:Hs; [|done]. intros [= <-]. simpl. unfold verified. rewrite Hv.
    apply (in_order_snoc []); [done|]. by exists c, body.
  - destruct a as [|r| | |]; try done; try by apply Hsame. simpl in He. unfold begin_answered.
    destruct (b_success r) eqn:Hs; [|done]. simpl. case_match; [|done]. intros [= <-]. split; [done|].
    apply (in_order_snoc []); [done|]. by exists r.
  - destruct a as [| |c| |]; try done; try by apply Hsame. destruct He as [Hv Ho]. unfold get_answered.
    destruct c as [c|]; [|done]. repeat case_match; try done. intros [= <-]. split; [done|].
    apply (in_order_snoc [_]); [done|]. by exists o, c.
  - destruct a as [| | |body|]; try done; try by apply Hsame. destruct He as [Hv Ho]. unfold finish_answered.
    destruct (succeeded body) eqn:Hs; [|done]. intros [= <-]. split; [done|].
    apply (in_order_snoc [_; _]); [done|]. by exists r, body.
  - destruct a as [| | |body|]; try done; try by apply Hsame. destruct He as [Hv Ho]. unfold passkey_verified.
    destruct (succeeded body) eqn:Hs; [|done]. intros [= <-]. simpl. unfold verified. rewrite Hv.
    apply (in_order_snoc [_; _; _]); [done|]. by exists body.
  - destruct a; try done; try by apply Hsame. unfold call_answered. by destruct (successMessage options) as [m|]; [destruct (is_empty m)|].
Qed.


(** ** What the hook keeps up *)

Definition verifying (ph : Phase) : bool :=
  match ph with Methods _ | DirectCall _ _ => false | _ => true end.

Definition wf (h : Hook) (ps : list Phase) : Prop :=
  (open h = true → apiCall (state h) ≠ None) ∧
  (loading (state h) = true → ∃ ph, ph ∈ ps ∧ verifying ph = true).

Notation hook_keeps := (keeps wf).

Lemma sv_wf_perm h ps ps' : ps ≡ₚ ps' → wf h ps → wf h ps'.
Proof.
  intros Hp [Ho Hl]. split; [done|]. intros (ph & Hin & Hph)%Hl. exists ph. by rewrite <-Hp.
Qed.

Lemma wf_more h ph ps : wf h ps → wf h (ph :: ps).
Proof. intros [Ho Hl]. split; [done|]. intros (ph' & ? & ?)%Hl. exists ph'. split; [by right|done]. Qed.

(** A phase that is not a verification does not matter. *)
Lemma wf_less h ph ps : verifying ph = false → wf h (ph :: ps) → wf h ps.
Proof.
  intros Hph [Ho Hl]. split; [done|]. intros (ph' & [->|?]%elem_of_cons & ?)%Hl; [congruence|eauto].
Qed.

(** A verification goes on: its next phase replaces the last. *)
Lemma wf_next h ph ph' ps : verifying ph' = true → wf h (ph :: ps) → wf h (ph' :: ps).
Proof. intros Hph [Ho Hl]. split; [done|]. intros _. exists ph'. split; [by left|done]. Qed.

(** Only whether the dialog is open matters once loading is over. *)
Definition opened (h : Hook) : Prop := open h = true → apiCall (state h) ≠ None.

Lemma keeps_failed e h ps : opened h → hook_keeps (verification_failed e) h ps.
Proof. intros Ho. split; [exact Ho|done]. Qed.

Lemma keeps_verify v c h ps : opened h → hook_keeps (verify v c) h ps.
Proof.
  intros Ho. unfold verify, verifyTwoFA, verifyPasskey.
  destruct (v_method v); [destruct (is_empty (trim c))|destruct (negb credentials)];
    try (by apply keeps_failed); (split; [exact Ho|]); intros _; eexists; (split; [by left|done]).
Qed.

Lemma sv_keeps_handle e h ps : wf h ps → hook_keeps (handle e h) h ps.
Proof.
  intros Hw. destruct e as [|c config|c config|c|m| | | |]; cbn [handle]; try (by apply wf_more).
  - by destruct (_ && _).
  - by destruct (_ && _).
  - destruct (_ && _); [|done]. unfold handleVerify, executeVerification.
    repeat case_match; try exact Hw; apply keeps_verify; by destruct Hw.
  - destruct (_ && _); [|done]. by split.
  - destruct (open h); [|done]. by split.
  - destruct (open h); [|done]. by destruct Hw.
Qed.

Lemma sv_keeps_resume ph a h ps : wf h (ph :: ps) → hook_keeps (resume ph a) h ps.
Proof.
  intros Hw. assert (Ho : opened h) by by destruct Hw.
  assert (Hf : ∀ e, hook_keeps (verification_failed e) h ps) by (intros; by apply keeps_failed).
  assert (Hn : ∀ ph', verifying ph = true → verifying ph' = true → hook_keeps (Await ph') h ps).
  { intros ph' _ H. by apply (wf_next h ph ph' ps). }
  destruct ph as [next|c config|v c|v|v o|v r|v|v]; cbn [resume].
  - apply wf_less in Hw; [|done]. destruct Hw as [_ Hl]. unfold methods_answered.
    destruct next as [[c config]|]; [destruct (_ && _)|]; (split; [|exact Hl]); done.
  - destruct a; try exact Hw; apply wf_less in Hw; try done. unfold direct_call_failed.
    destruct (isVerificationRequiredError e); [|done]. by apply (wf_more h _ ps).
  - destruct a as [| | |body|e]; try exact Hw; [|apply Hf]. unfold two_fa_answered.
    destruct (negb (succeeded body)); [apply Hf|by apply Hn].
  - destruct a as [|r| | |e]; try exact Hw; [|apply Hf]. unfold begin_answered.
    destruct (negb (b_success r)); [apply Hf|]. case_match; [by apply Hn|apply Hf].
  - destruct a as [| |c| |e]; try exact Hw; [|apply Hf]. unfold get_answered.
    destruct c as [c|]; [|apply Hf]. case_match; [|apply Hf]. case_match; [by apply Hn|apply Hf].
  - destruct a as [| | |body|e]; try exact Hw; [|apply Hf]. unfold finish_answered.
    destruct (negb (succeeded body)); [apply Hf|by apply Hn].
  - destruct a as [| | |body|e]; try exact Hw; [|apply Hf]. unfold passkey_verified.
    destruct (negb (succeeded body)); [apply Hf|by apply Hn].
  - destruct a as [| | |result|e]; try exact Hw; [|apply Hf]. unfold call_answered.
    destruct (successMessage options) as [m|]; [destruct (is_empty m)|];
      destruct (autoReset options); (split; [|done]); done.
Qed.

(** C35. Whatever is done and answered, an open dialog always has an action to
    run, and the loading state, which disables its buttons, is on only while
    some verification is under way. *)
Theorem dialog_never_stuck (l : list (action Event Answer)) :
  let w := play mounted l in
  (open (JsAsync.state w) = true → apiCall (state (JsAsync.state w)) ≠ None) ∧
  (loading (state (JsAsync.state w)) = true → ∃ ph, ph ∈ pending w ∧ verifying ph = true).
Proof.
  apply (async_run_inv handle resume wf sv_wf_perm l mounted sv_keeps_handle); [|by split].
  intros ph a h ps. apply sv_keeps_resume.
Qed.

(** Closing the dialog does not withdraw what was asked for: when it is
    dismissed while a code is being checked, the acceptance that arrives later
    runs the action all the same, with the dialog closed and its state
    cleared. *)
Theorem dismissed_call_runs (w : World Hook Phase) (i : nat) (v : Verification) (c : jsstr)
    (body : jsval) :
  pending w !! i = Some (Verify2FA v c) → succeeded body = true → open (JsAsync.state w) = true →
  let w' := play w [Do Dismiss; Reply i (Resolved body)] in
  open (JsAsync.state w') = false ∧ apiCall (state (JsAsync.state w')) = None ∧
  ProtectedCall v ∈ pending w'.
Proof.
  intros Hi Hs Ho. destruct w as [h ps]. simpl in Hi, Ho.
  assert (H1 : step handle resume (MkWorld h ps) (Do Dismiss) = MkWorld (cancel h) ps).
  { cbn [step handle JsAsync.state]. rewrite Ho. unfold settle. simpl. by rewrite app_nil_r. }
  unfold play. cbn [run foldl]. rewrite H1. cbn [step pending JsAsync.state]. rewrite Hi.
  cbn [resume]. unfold two_fa_answered. rewrite Hs. unfold settle. simpl.
  split; [done|]. split; [done|]. apply elem_of_app. right. by left.
Qed.

(** The result of an action resets whatever dialog is open when it arrives, also
    that of an action started since. *)
Lemma late_result_resets (w : World Hook Phase) (i : nat) (v : Verification) (result : jsval) :
  autoReset options = true → pending w !! i = Some (ProtectedCall v) →
  let h := JsAsync.state (play w [Reply i (Resolved result)]) in
  open h = false ∧ state h = initialState.
Proof.
  intros Hr Hi. unfold play. cbn [run foldl step]. rewrite Hi. cbn [resume]. unfold call_answered, settle.
  rewrite Hr. by destruct (successMessage options) as [m|]; [destruct (is_empty m)|].
Qed.

(** Running an action that the server may refuse: a verification is
    started exactly when the refusal has status 403 and names one of the three
    verification codes; any other error goes back to the page unchanged, with
    nothing shown. *)
Theorem verification_asked_iff (h : Hook) (c : Call) (config : StartVerificationOptions) (e : Thrown) :
  let r := exec (resume (DirectCall c config) (Rejected e)) h in
  let required :=
    truthy (members e) = true ∧ is_object_type (members e) = true ∧
    strict_eq (get_prop_opt (js "status") (error_response e)) (JNum (num_of_Z 403)) = true ∧
    ∃ k, get_prop_opt (js "code") (error_data e) = JStr k ∧ k ∈ verificationCodes in
  (required → r = (note (ToastInfo (Given (extractVerificationInfo e))) h,
                   Some (Methods (Some (c, config))))) ∧
  ((required → False) → r = (note (Rethrown e) h, None)).
Proof.
  intros r required. assert (isVerificationRequiredError e = true ↔ required) as Hr.
  { unfold isVerificationRequiredError, required.
    destruct (truthy (members e)); simpl; [|naive_solver].
    destruct (is_object_type (members e)); simpl; [|naive_solver].
    destruct (strict_eq _ _); simpl; [|naive_solver].
    destruct (get_prop_opt (js "code") (error_data e)) as [| | | |k| | |] eqn:Hk; try naive_solver.
    rewrite andb_true_iff, bool_decide_eq_true. split; [naive_solver|].
    intros (_ & _ & _ & k' & [= <-] & Hin). split; [|done]. unfold verificationCodes in Hin.
    repeat (apply elem_of_cons in Hin as [->|Hin]; [done|]). by apply not_elem_of_nil in Hin. }
  unfold r. cbn [resume]. unfold direct_call_failed.
  destruct (isVerificationRequiredError e).
  - split; [done|]. intros []. by apply Hr.
  - split; [|done]. by intros ?%Hr.
Qed.

End flow.

(** *** Examples *)

Definition enabled_status : jsval :=
  JObj [(js "success", JBool true); (js "data", JObj [(js "enabled", JBool true)])].
Definition accepted : jsval := JObj [(js "success", JBool true)].
Definition no_preference : StartVerificationOptions := MkStart None None None.
Definition no_options : Options := MkOpts None true.

(** An action is started, the code typed and sent. *)
Definition code_sent : list (action Event Answer) :=
  [Do (Start tt no_preference); Reply 0 (MethodsAnswer enabled_status JUndef false);
   Do (CodeChange (js "123456")); Do VerifyButton].

Notation example_play := (play browser true (new_error JUndef) no_options).


(** Dismissed while the code is checked. *)
Lemma dismissed_call_runs_witness :
  ProtectedCall (MkVerification tt TwoFA)
    ∈ pending (example_play (example_play mounted code_sent) [Do Dismiss; Reply 0 (Resolved accepted)]).
Proof.
  apply (dismissed_call_runs browser true (new_error JUndef) no_options (example_play mounted code_sent)
    0 (MkVerification tt TwoFA) (js "123456") accepted); vm_compute; reflexivity.
Defined.

(** The server demands a verification. *)
Definition demand : Thrown :=
  MkThrown true false (JObj [(js "response",
    JObj [(js "status", JNum (num_of_Z 403));
          (js "data", JObj [(js "code", JStr (js "VERIFICATION_REQUIRED"))])])]).

Lemma verification_asked_iff_witness :
  exec (resume browser demand no_options (DirectCall tt no_preference) (Rejected demand)) hook_mounted =
  (note (ToastInfo (Given (extractVerificationInfo demand))) hook_mounted,
   Some (Methods (Some (tt, no_preference)))).
Proof.
  apply (verification_asked_iff browser demand no_options hook_mounted tt no_preference demand).
  split; [reflexivity|]. split; [reflexivity|]. split; [vm_compute; reflexivity|].
  exists (js "VERIFICATION_REQUIRED"). split; [vm_compute; reflexivity|]. left.
Defined.

End SecureVerification.
