(* ===== verification/SettingsForm.v ===== *)
(** * Forms of the system settings

    [SettingsForm] models
    web/default/src/features/system-settings/hooks/use-settings-form.ts: the form
    behind the sections of the system settings, which turns options with dotted
    names into nested values, tracks what was changed and submits only that.

    The form library (react-hook-form) is outside the sources: which fields it
    marks as changed, given the defaults and the values, is the parameter
    [dirtyFields], and validation is the parameter [resolver].  The section's own
    [onSubmit] is a phase of [JsAsync] that succeeds or fails. *)

From stdpp Require Import base list strings sets.
From Stdlib Require Import ZArith Lia SpecFloat.
From S2P Require Import Prelude JsString JsNumber JsValue JsJson JsUri JsAsync.
#[local] Open Scope Z_scope.

Module SettingsForm.

Notation object := (list (jsstr * jsval)).

Definition isPlainObject (value : jsval) : bool := match value with JObj _ => true | _ => false end.

(** [parentKey ? `${parentKey}.${key}` : key] *)
Definition child_key (parentKey : option jsstr) (key : jsstr) : jsstr :=
  match parentKey with
  | Some p => if is_empty p then key else p ++ 46 :: key
  | None => key
  end.

Fixpoint flattenValues (values : jsval) (parentKey : option jsstr) (result : object) : object :=
  match values with
  | JObj o =>
      (fix go (o : object) (result : object) : object :=
         match o with
         | [] => result
         | (key, value) :: o' =>
             let nextKey := child_key parentKey key in
             go o' (if isPlainObject value then flattenValues value (Some nextKey) result
                    else assign_prop nextKey value result)
         end) o result
  | _ => match parentKey with Some k => assign_prop k values result | None => result end
  end.

(** [values && (isPlainObject(values) || Array.isArray(values)) ? values[key] : undefined] *)
Definition source_of (key : jsstr) (values : jsval) : jsval :=
  match values with JObj _ | JArr _ => get_prop_opt key values | _ => JUndef end.

Fixpoint collectDirtyValues (dirty : jsval) (values : jsval) (parentKey : option jsstr)
    (result : object) : object :=
  let visit key (value : jsval) (acc : object) :=
    let nextKey := child_key parentKey key in
    match value with
    | JBool true => assign_prop nextKey (source_of key values) acc
    | JArr _ | JObj _ => collectDirtyValues value (source_of key values) (Some nextKey) acc
    | _ => acc
    end in
  match dirty with
  | JBool true => match parentKey with Some k => assign_prop k values result | None => result end
  | JObj o =>
      (fix go (o : object) (result : object) : object :=
         match o with [] => result | (key, value) :: o' => go o' (visit key value result) end) o result
  | JArr l =>
      (fix go (l : list jsval) (i : nat) (result : object) : object :=
         match l with
         | [] => result
         | value :: l' => go l' (S i) (visit (Z_to_str (Z.of_nat i)) value result)
         end) l 0%nat result
  | _ => result
  end.

(** [target] after walking down the segments and assigning at the last. *)
Fixpoint set_deep (target : object) (segments : list jsstr) (value : jsval) : object :=
  match segments with
  | [] => target
  | [segment] => assign_prop segment value target
  | segment :: rest =>
      let next := match obj_get segment target with JObj o => o | _ => [] end in
      assign_prop segment (JObj (set_deep next rest value)) target
  end.

Definition setDeepValue (target : object) (path : jsstr) (value : jsval) : object :=
  set_deep target (split_char 46 path) value.

Fixpoint expandDotPaths (values : jsval) : jsval :=
  match values with
  | JObj o =>
      JObj ((fix go (o : object) (result : object) : object :=
         match o with
         | [] => result
         | (key, value) :: o' =>
             go o' (if includes [46] key then setDeepValue result key value
                    else if isPlainObject value then assign_prop key (expandDotPaths value) result
                    else assign_prop key value result)
         end) o [])
  | _ => values
  end.

Inductive Typeof := TUndefined | TObject | TBoolean | TNumber | TString | TFunction.
#[export] Instance Typeof_eq_dec : EqDecision Typeof.
Proof. solve_decision. Defined.

Definition typeof (v : jsval) : Typeof :=
  match v with
  | JUndef => TUndefined
  | JNull | JArr _ | JObj _ => TObject
  | JBool _ => TBoolean
  | JNum _ => TNumber
  | JStr _ => TString
  | JFun _ => TFunction
  end.

Definition defaultCompare (a b : jsval) : bool :=
  if strict_eq a b then true
  else if is_array a && is_array b then bool_decide (JSON_stringify a = JSON_stringify b)
  else if negb (bool_decide (typeof a = typeof b)) then false
  else if truthy a && truthy b && is_object_type a && is_object_type b
  then bool_decide (JSON_stringify a = JSON_stringify b)
  else false.

(** ** The hook *)

Inductive Toast := NoChanges | FormReset.

(** The form (its values and the defaults it compares with) and the refs. *)
Record Form := MkForm {
  values : jsval;
  form_defaults : jsval;
  defaultValuesRef : jsval;
  baselineRef : object;
  serializedDefaultsRef : option jsstr;
  toasts : list Toast
}.

Definition or_empty (v : jsval) : jsval := js_coalesce v (JObj []).
Definition flat (v : jsval) : object := flattenValues v None [].

(** The first render. *)
Definition initial_form (defaultValues : jsval) : Form :=
  let expanded := expandDotPaths defaultValues in
  let baseline := flat (or_empty expanded) in
  MkForm expanded expanded (or_empty expanded) baseline (JSON_stringify (JObj baseline)) [].

(** [form.reset(v)] *)
Definition form_reset (v : jsval) (f : Form) : Form :=
  MkForm v v (defaultValuesRef f) (baselineRef f) (serializedDefaultsRef f) (toasts f).
Definition set_values (v : jsval) (f : Form) : Form :=
  MkForm v (form_defaults f) (defaultValuesRef f) (baselineRef f) (serializedDefaultsRef f) (toasts f).
Definition toast (t : Toast) (f : Form) : Form :=
  MkForm (values f) (form_defaults f) (defaultValuesRef f) (baselineRef f) (serializedDefaultsRef f)
    (toasts f ++ [t]).

(** The values become the saved ones. *)
Definition set_saved (v : jsval) (f : Form) : Form :=
  MkForm (values f) (form_defaults f) v (flat v) (JSON_stringify (JObj (flat v))) (toasts f).

(** The effect on [expandedDefaults]. *)
Definition defaults_effect (defaultValues : jsval) (f : Form) : Form :=
  let expanded := expandDotPaths defaultValues in
  if negb (truthy expanded) then f
  else if bool_decide (JSON_stringify (JObj (flat expanded)) = serializedDefaultsRef f) then f
  else form_reset expanded (set_saved expanded f).

Inductive Phase := Saving (data : jsval) (changedFields : object).
Inductive Answer := Saved | Failed.

Section form.
Context (dirtyFields : jsval → jsval → jsval) (resolver : jsval → option jsval)
  (compareValues : option (jsval → jsval → bool)).

Notation Task := (task Form Phase).

Definition compare : jsval → jsval → bool := default defaultCompare compareValues.

Definition changed_entries (data : jsval) (f : Form) : object :=
  filter (λ kv, compare kv.2 (obj_get kv.1 (baselineRef f)) = false)
    (collectDirtyValues (dirtyFields (form_defaults f) (values f)) data None []).

Definition handleSubmit (data : jsval) (f : Form) : Task :=
  let changedEntries := changed_entries data f in
  if (length changedEntries =? 0)%nat then Update (toast NoChanges) Stop
  else
    let changedFields := fold_left (λ acc kv, assign_prop kv.1 kv.2 acc) changedEntries [] in
    Await (Saving data changedFields).

Definition resume (ph : Phase) (a : Answer) : Task :=
  match ph, a with
  | Saving data _, Saved => Update (set_saved data) (Update (form_reset data) Stop)
  | Saving _ _, Failed => Stop
  end.

Definition handleReset (f : Form) : Task :=
  Update (form_reset (defaultValuesRef f)) (Update (toast FormReset) Stop).

Inductive Event :=
| Edit (v : jsval)
| Submit
| ResetButton
| Defaults (v : jsval).

Definition handle (e : Event) (f : Form) : Task :=
  match e with
  | Edit v => Update (set_values v) Stop
  | Submit => match resolver (values f) with Some data => handleSubmit data f | None => Stop end
  | ResetButton => handleReset f
  | Defaults v => Update (defaults_effect v) Stop
  end.

Definition play : World Form Phase → list (action Event Answer) → World Form Phase :=
  run handle resume.

End form.

(** ** Nested values as maps from paths to leaves *)

Definition proto : jsstr := js "__proto__".

Fixpoint leaf_at (p : list jsstr) (v : jsval) : option jsval :=
  match p, v with
  | [], JObj _ => None
  | [], _ => Some v
  | s :: p', JObj o => assoc_get s o ≫= leaf_at p'
  | _ :: _, _ => None
  end.

(** The leaves in the order of the properties. *)
Fixpoint leaves (v : jsval) : list (list jsstr * jsval) :=
  match v with
  | JObj o =>
      (fix go (o : object) : list (list jsstr * jsval) :=
         match o with
         | [] => []
         | (k, x) :: o' => map (λ px, (k :: px.1, px.2)) (leaves x) ++ go o'
         end) o
  | _ => [([], v)]
  end.

Lemma leaves_obj o :
  leaves (JObj o) = o ≫= (λ kx, map (λ px, (kx.1 :: px.1, px.2)) (leaves kx.2)).
Proof. induction o as [|[k x] o IH]; [done|]. simpl. simpl in IH. by rewrite IH. Qed.

(** Objects whose keys are distinct, hold no dot and are not [__proto__]. *)
Fixpoint tree_ok (v : jsval) : Prop :=
  match v with
  | JObj o =>
      NoDup (o.*1) ∧
      (fix go (o : object) : Prop :=
         match o with
         | [] => True
         | (k, x) :: o' => (46 ∉ k ∧ k ≠ proto) ∧ tree_ok x ∧ go o'
         end) o
  | _ => True
  end.

Lemma tree_ok_obj o :
  tree_ok (JObj o) ↔
  NoDup (o.*1) ∧ Forall (λ kx, (46 ∉ kx.1 ∧ kx.1 ≠ proto) ∧ tree_ok kx.2) o.
Proof.
  simpl. apply and_iff_compat_l. induction o as [|[k x] o IH]; [by split; constructor|].
  rewrite Forall_cons, IH. simpl. tauto.
Qed.

Lemma leaf_at_leaves v : tree_ok v → ∀ p x, (p, x) ∈ leaves v ↔ leaf_at p v = Some x.
Proof.
  induction v as [| |b|n|s|l|o IH|n] using jsval_nested_ind; intros Hok p x;
    try (simpl; rewrite list_elem_of_singleton; destruct p; simpl; naive_solver).
  apply tree_ok_obj in Hok as [Hnd Hok]. rewrite leaves_obj, list_elem_of_bind.
  split.
  - intros ([k y] & Hp & Hk). simpl in Hp. apply list_elem_of_fmap in Hp as ([q z] & [= -> ->] & Hq).
    simpl. rewrite (assoc_get_elem k y) by done. simpl. rewrite Forall_forall in IH, Hok.
    by apply (IH _ Hk), Hq; apply (Hok _ Hk).
  - destruct p as [|k p]; [done|]. simpl. destruct (assoc_get k o) as [y|] eqn:Hk; [|done].
    apply assoc_get_Some_elem in Hk. intros Hp. exists (k, y). split; [|done]. simpl.
    apply list_elem_of_fmap. exists (p, x). split; [done|]. rewrite Forall_forall in IH, Hok.
    by apply (IH _ Hk); [apply (Hok _ Hk)|].
Qed.

(** ** [setDeepValue] *)

Lemma leaf_at_empty p : leaf_at p (JObj []) = None.
Proof. by destruct p. Qed.

Lemma assign_prop_put k v o : k ≠ proto → assign_prop k v o = obj_put k v o.
Proof. intros Hk. unfold assign_prop. by rewrite decide_False. Qed.

(** The object a path goes down into. *)
Lemma next_leaf s o p :
  p ≠ [] →
  leaf_at p (JObj (match obj_get s o with JObj o' => o' | _ => [] end)) = leaf_at (s :: p) (JObj o).
Proof.
  intros Hp. simpl. unfold obj_get. destruct (assoc_get s o) as [v|]; simpl.
  - destruct v; try done; rewrite leaf_at_empty; by destruct p.
  - destruct (decide _); apply leaf_at_empty.
Qed.

Definition comparable (p q : list jsstr) : Prop := p `prefix_of` q ∨ q `prefix_of` p.
#[export] Instance comparable_dec p q : Decision (comparable p q).
Proof. unfold comparable. apply _. Defined.

Lemma comparable_cons s p q : comparable (s :: p) (s :: q) ↔ comparable p q.
Proof.
  unfold comparable. split; intros [H|H]; [left|right|left|right];
    try (by eapply prefix_cons_inv_2); by apply prefix_cons.
Qed.

Lemma leaf_set_deep q : ∀ o p x,
  q ≠ [] → proto ∉ q → isPlainObject x = false →
  leaf_at p (JObj (set_deep o q x)) =
  if decide (p = q) then Some x
  else if decide (comparable p q) then None else leaf_at p (JObj o).
Proof.
  induction q as [|s q IH]; intros o p x Hq Hproto Hx; [done|].
  apply not_elem_of_cons in Hproto as [Hs Hproto]. destruct p as [|t p].
  { rewrite decide_False by done. rewrite decide_True; [|left; apply prefix_nil]. done. }
  assert (Hne : t ≠ s → ¬ comparable (t :: p) (s :: q)).
  { intros Ht [H|H]; apply prefix_cons_inv_1 in H; congruence. }
  destruct q as [|s' q].
  - cbn [set_deep]. rewrite assign_prop_put by done. cbn [leaf_at]. rewrite obj_put_assoc.
    destruct (decide (t = s)) as [->|Ht].
    + simpl. destruct p as [|t p].
      * rewrite decide_True by done. by destruct x.
      * rewrite decide_False by done. rewrite decide_True; [by destruct x|].
        right. apply prefix_cons, prefix_nil.
    + rewrite decide_False by congruence. rewrite decide_False by auto. done.
  - change (set_deep o (s :: s' :: q) x) with
      (assign_prop s (JObj (set_deep (match obj_get s o with JObj o' => o' | _ => [] end)
         (s' :: q) x)) o).
    rewrite assign_prop_put by done. cbn [leaf_at]. rewrite obj_put_assoc.
    destruct (decide (t = s)) as [->|Ht].
    + cbn [mbind option_bind]. rewrite IH by done. clear IH.
      destruct (decide (p = s' :: q)) as [->|Hp]; [by rewrite decide_True|].
      rewrite (decide_False (P := s :: p = _)) by congruence.
      destruct (decide (comparable p (s' :: q))) as [Hc|Hc].
      * rewrite decide_True; [done|]. by apply comparable_cons.
      * rewrite decide_False; [|by rewrite comparable_cons]. apply next_leaf.
        intros ->. apply Hc. left. apply prefix_nil.
    + rewrite decide_False by congruence. rewrite decide_False by auto. done.
Qed.

Lemma tree_ok_put k v o :
  46 ∉ k → k ≠ proto → tree_ok v → tree_ok (JObj o) → tree_ok (JObj (obj_put k v o)).
Proof.
  intros Hk Hp Hv [Hnd Ho]%tree_ok_obj. apply tree_ok_obj. split; [by apply obj_put_NoDup|].
  rewrite Forall_forall in Ho |- *. intros [k' v'] Hin.
  apply assoc_get_elem in Hin; [|by apply obj_put_NoDup]. rewrite obj_put_assoc in Hin.
  destruct (decide (k' = k)) as [->|]; [by simplify_eq|].
  by apply assoc_get_Some_elem, Ho in Hin.
Qed.

Lemma tree_ok_set_deep q : ∀ o x,
  Forall (λ s, 46 ∉ s) q → proto ∉ q → isPlainObject x = false →
  tree_ok (JObj o) → tree_ok (JObj (set_deep o q x)).
Proof.
  induction q as [|s q IH]; intros o x Hd Hp Hx Ho; [done|].
  apply Forall_cons in Hd as [Hs Hd]. apply not_elem_of_cons in Hp as [Hsp Hp].
  destruct q as [|s' q].
  - cbn [set_deep]. rewrite assign_prop_put by done. apply tree_ok_put; try done. by destruct x.
  - change (set_deep o (s :: s' :: q) x) with
      (assign_prop s (JObj (set_deep (match obj_get s o with JObj o' => o' | _ => [] end)
         (s' :: q) x)) o).
    rewrite assign_prop_put by done. apply tree_ok_put; try done. apply IH; try done.
    unfold obj_get. destruct (assoc_get s o) as [v|] eqn:E.
    + apply tree_ok_obj in Ho as [_ Ho]. apply assoc_get_Some_elem in E.
      rewrite Forall_forall in Ho. destruct (Ho _ E) as [_ Hv]. simpl in Hv.
      destruct v; try exact Hv; split; done || constructor.
    + destruct (decide _); split; done || constructor.
Qed.

Lemma keys_set_deep q o x s :
  proto ∉ q → s ∈ (set_deep o q x).*1 → s ∈ o.*1 ∨ head q = Some s.
Proof.
  destruct q as [|s' q]; [by left|]. intros [Hp _]%not_elem_of_cons.
  assert (∃ v, set_deep o (s' :: q) x = obj_put s' v o) as [v ->].
  { destruct q; eexists; simpl; by apply assign_prop_put. }
  intros Hs. destruct (decide (s = s')) as [->|Hne]; [by right|]. left.
  destruct (assoc_get s o) as [y|] eqn:E.
  - apply assoc_get_Some_elem in E. apply list_elem_of_fmap. by exists (s, y).
  - exfalso. assert (assoc_get s (obj_put s' v o) = None) as Hn.
    { rewrite obj_put_assoc. by rewrite decide_False. }
    by apply assoc_get_None in Hn.
Qed.

(** ** [flattenValues] *)

Definition put_all (es result : object) : object :=
  fold_left (λ acc kv, assign_prop kv.1 kv.2 acc) es result.

(** The key of a leaf below [parentKey]. *)
Definition leaf_key (parentKey : option jsstr) (p : list jsstr) : jsstr :=
  match parentKey with
  | None => join [46] p
  | Some k => join [46] (k :: p)
  end.

Lemma leaf_key_child parentKey k p :
  parentKey ≠ Some [] → leaf_key (Some (child_key parentKey k)) p = leaf_key parentKey (k :: p).
Proof.
  intros Hp. destruct parentKey as [[|c q]|]; [done| |done]. cbn [child_key is_empty leaf_key].
  destruct p as [|s p]; [done|]. simpl. f_equal. by rewrite <-app_assoc.
Qed.

Lemma flattenValues_obj o parentKey result :
  flattenValues (JObj o) parentKey result =
  fold_left (λ acc kx, flattenValues kx.2 (Some (child_key parentKey kx.1)) acc) o result.
Proof.
  revert result. induction o as [|[k x] o IH]; intros result; [done|]. simpl. simpl in IH.
  rewrite IH. f_equal. by destruct x.
Qed.

Lemma flatten_leaves v : ∀ parentKey result,
  (∀ k, parentKey = Some k → k ≠ []) →
  (isPlainObject v = true ∨ parentKey ≠ None) →
  (parentKey = None → ∀ o k, v = JObj o → k ∈ o.*1 → k ≠ []) →
  flattenValues v parentKey result =
  put_all (map (λ px, (leaf_key parentKey px.1, px.2)) (leaves v)) result.
Proof.
  induction v as [| |b|n|s|l|o IH|n] using jsval_nested_ind; intros parentKey result Hk Hv Htop;
    try (destruct parentKey; [done|]; by destruct Hv).
  clear Hv. rewrite flattenValues_obj, leaves_obj.
  assert (Hc : ∀ kx, kx ∈ o → child_key parentKey kx.1 ≠ []).
  { intros [k x] Hin. destruct parentKey as [q|]; simpl.
    - specialize (Hk q eq_refl). destruct q; [done|]. by simpl.
    - apply (Htop eq_refl o); [done|]. apply list_elem_of_fmap. by exists (k, x). }
  assert (Hpk : parentKey ≠ Some []) by (intros ->; by destruct (Hk [])).
  clear Htop Hk. revert result. induction o as [|[k x] o IHo]; intros result; [done|].
  apply Forall_cons in IH as [Hx IH]. cbn [fold_left fst snd]. rewrite Hx.
  - rewrite IHo; [|done|intros kx ?; apply Hc; by right]. cbn [mbind list_bind fst snd].
    rewrite map_app. unfold put_all. rewrite fold_left_app. f_equal. f_equal.
    rewrite map_map. apply map_ext. intros [p y]. simpl fst. simpl snd. by rewrite leaf_key_child.
  - intros k' [= <-]. apply (Hc (k, x)). left.
  - by right.
  - done.
Qed.

Lemma leaf_path_ok p : ∀ v x, tree_ok v → leaf_at p v = Some x → Forall (λ s, 46 ∉ s ∧ s ≠ proto) p.
Proof.
  induction p as [|s p IH]; intros v x Hv Hp; [constructor|]. destruct v as [| | | | | |o|]; try done.
  simpl in Hp. destruct (assoc_get s o) as [y|] eqn:E; [|done]. apply assoc_get_Some_elem in E.
  apply tree_ok_obj in Hv as [_ Ho]. rewrite Forall_forall in Ho. destruct (Ho _ E) as [Hs Hy].
  constructor; [done|]. by apply (IH y x).
Qed.

Lemma split_path p :
  p ≠ [] → Forall (λ s, 46 ∉ s ∧ s ≠ proto) p → split_char 46 (join [46] p) = p.
Proof.
  intros Hp H. apply split_join; [done|]. eapply Forall_impl; [exact H|]. by intros ? [? _].
Qed.

Lemma path_not_proto p :
  p ≠ [] → Forall (λ s, 46 ∉ s ∧ s ≠ proto) p → join [46] p ≠ proto.
Proof.
  intros Hp H E. pose proof (split_path p Hp H) as Hs. rewrite E in Hs.
  assert (split_char 46 proto = [proto]) as Hsp by (vm_compute; reflexivity). rewrite Hsp in Hs.
  subst p. apply Forall_cons in H as [[_ ?] _]. done.
Qed.

(** Assigning values that agree on every key. *)
Lemma put_all_get es r k :
  Forall (λ kv, kv.1 ≠ proto) es →
  assoc_get k (put_all es r) = assoc_get k r ∧ k ∉ es.*1 ∨
  ∃ v, (k, v) ∈ es ∧ assoc_get k (put_all es r) = Some v.
Proof.
  revert r. induction es as [|[k1 v1] es IH]; intros r Hp; simpl.
  { left. split; [done|]. apply not_elem_of_nil. }
  apply Forall_cons in Hp as [Hk1 Hp]. simpl in Hk1.
  destruct (IH (assign_prop k1 v1 r) Hp) as [[E Hk]|(v & Hin & E)].
  - unfold put_all in E |- *. simpl. rewrite E, assign_prop_put, obj_put_assoc by done.
    destruct (decide (k = k1)) as [->|Hne].
    + right. exists v1. split; [left|done].
    + left. split; [done|]. by apply not_elem_of_cons.
  - right. exists v. split; [by right|done].
Qed.

Definition top_ok (o : object) : Prop := ∀ k, k ∈ o.*1 → k ≠ [].

(** Flattening lists the leaves under their dotted paths. *)
Lemma flat_get o k :
  tree_ok (JObj o) → top_ok o → assoc_get k (flat (JObj o)) = leaf_at (split_char 46 k) (JObj o).
Proof.
  intros Ho Htop. unfold flat. rewrite flatten_leaves; [|done|by left|].
  2:{ intros _ o' k' [= <-]. apply Htop. }
  set (es := map _ _).
  assert (Hes : ∀ k x, (k, x) ∈ es ↔
            ∃ p, p ≠ [] ∧ Forall (λ s, 46 ∉ s ∧ s ≠ proto) p ∧ k = join [46] p ∧
                 leaf_at p (JObj o) = Some x).
  { intros k' x. unfold es. rewrite list_elem_of_fmap. split.
    - intros ([p y] & [= -> ->] & Hp%leaf_at_leaves); [|done]. exists p.
      split; [by intros ->|]. split; [by eapply leaf_path_ok|done].
    - intros (p & _ & _ & -> & Hp%leaf_at_leaves); [|done]. by exists (p, x). }
  assert (Hval : ∀ k x, (k, x) ∈ es → leaf_at (split_char 46 k) (JObj o) = Some x).
  { intros k' x (p & Hp & Hf & -> & Hl)%Hes. by rewrite split_path. }
  destruct (put_all_get es [] k) as [[-> Hk]|(v & Hin & ->)].
  - apply Forall_forall. intros [k' x] (p & Hp & Hf & -> & _)%Hes. by apply path_not_proto.
  - simpl. destruct (leaf_at (split_char 46 k) (JObj o)) as [x|] eqn:E; [|done].
    destruct Hk. apply list_elem_of_fmap. exists (k, x). split; [done|]. apply Hes.
    exists (split_char 46 k). split; [apply split_char_nonempty|].
    split; [by eapply leaf_path_ok|]. split; [by rewrite join_split_char|done].
  - symmetry. by apply Hval.
Qed.

(** ** The options of a section

    Distinct dotted names that do not start with a dot, none of which names a
    group that another one is in; the values are not objects. *)
Definition options_ok (o : object) : Prop :=
  NoDup (o.*1) ∧
  Forall (λ kv, isPlainObject kv.2 = false ∧ head (split_char 46 kv.1) ≠ Some [] ∧
                proto ∉ split_char 46 kv.1) o ∧
  Forall (λ k, Forall (λ k', comparable (split_char 46 k) (split_char 46 k') → k = k') (o.*1)) (o.*1).

#[export] Instance options_ok_dec o : Decision (options_ok o).
Proof. unfold options_ok. apply _. Defined.

Definition expand_all (o r : object) : object :=
  fold_left (λ acc kv, setDeepValue acc kv.1 kv.2) o r.

Lemma expand_options o :
  Forall (λ kv, isPlainObject kv.2 = false) o → expandDotPaths (JObj o) = JObj (expand_all o []).
Proof.
  intros Ho. cbn [expandDotPaths]. f_equal. generalize (@nil (jsstr * jsval)) as r.
  induction o as [|[k v] o IH]; intros r; [done|]. apply Forall_cons in Ho as [Hv Ho].
  cbn [expand_all fold_left fst snd] in *. rewrite IH by done. unfold expand_all. f_equal. rewrite Hv.
  destruct (includes [46] k) eqn:E; [done|]. unfold setDeepValue. rewrite split_char_single; [done|].
  intros Hin. by rewrite includes_char_true in E.
Qed.

Lemma expand_all_ok o : ∀ r done_ : object,
  options_ok (done_ ++ o) → tree_ok (JObj r) → top_ok r →
  (∀ p x, leaf_at p (JObj r) = Some x ↔ ∃ k, p = split_char 46 k ∧ (k, x) ∈ done_) →
  let r' := expand_all o r in
  tree_ok (JObj r') ∧ top_ok r' ∧
  ∀ p x, leaf_at p (JObj r') = Some x ↔ ∃ k, p = split_char 46 k ∧ (k, x) ∈ done_ ++ o.
Proof.
  induction o as [|[k v] o IH]; intros r dn Hok Hr Htop Hl; [by rewrite app_nil_r|].
  replace (dn ++ (k, v) :: o) with ((dn ++ [(k, v)]) ++ o) in * by by rewrite <-app_assoc.
  pose proof Hok as (Hnd & Hf & Hc). rewrite Forall_forall in Hf. rewrite Forall_forall in Hc.
  destruct (Hf (k, v)) as (Hv & Hh & Hp); [rewrite !elem_of_app; left; right; left|].
  simpl in Hv, Hh, Hp. apply (IH (setDeepValue r k v) (dn ++ [(k, v)]) Hok); clear IH.
  - apply tree_ok_set_deep; try done. apply Forall_forall. intros s. apply split_char_no_sep.
  - intros s Hs. apply keys_set_deep in Hs as [Hs|Hs]; [by apply Htop| |done]. congruence.
  - intros p x. unfold setDeepValue.
    rewrite leaf_set_deep by (done || apply split_char_nonempty).
    assert (Hinj : ∀ k k', split_char 46 k = split_char 46 k' → k = k').
    { intros a b H. rewrite <-(join_split_char 46 a), H. apply join_split_char. }
    assert (Hk : ∀ y k', (k', y) ∈ dn → comparable (split_char 46 k') (split_char 46 k) → False).
    { intros y k' Hin Hcomp. assert (k' = k) as ->.
      { rewrite !fmap_app in Hc. setoid_rewrite elem_of_app in Hc. setoid_rewrite elem_of_app in Hc.
        assert (Hin' : k' ∈ dn.*1) by (apply list_elem_of_fmap; by exists (k', y)).
        pose proof (Hc k' (or_introl (or_introl Hin'))) as Hall. rewrite Forall_forall in Hall.
        apply Hall; [|done]. rewrite !elem_of_app. left. right. left. }
      rewrite !fmap_app in Hnd. apply NoDup_app in Hnd as [Hnd _]. apply NoDup_app in Hnd as (_ & Hnd & _).
      apply (Hnd k); [apply list_elem_of_fmap; by exists (k, y)|]. left. }
    setoid_rewrite elem_of_app. setoid_rewrite list_elem_of_singleton.
    destruct (decide (p = split_char 46 k)) as [->|Hne].
    + split; [intros [= ->]; by exists k; eauto|].
      intros (k' & ->%Hinj & [Hin|[= ->]]); [|done]. destruct (Hk x k' Hin). by left.
    + destruct (decide (comparable p (split_char 46 k))) as [Hcomp|Hcomp].
      * split; [done|]. intros (k' & -> & [Hin|[= -> ->]]); [by destruct (Hk x k' Hin)|done].
      * rewrite Hl. split; [naive_solver|]. intros (k' & -> & [Hin|[= -> ->]]); [eauto|done].
Qed.

(** C22. The nested values a form works on lose nothing of the options they
    come from: flattening the expanded options gives back, under every dotted
    name, exactly the option of that name. *)
Theorem options_roundtrip (o : object) (k : jsstr) :
  options_ok o → ∃ tree, expandDotPaths (JObj o) = JObj tree ∧ assoc_get k (flat (JObj tree)) = assoc_get k o.
Proof.
  intros Hok. exists (expand_all o []). split.
  { apply expand_options. destruct Hok as (_ & Hf & _). eapply Forall_impl; [exact Hf|]. by intros ? [? _]. }
  destruct (expand_all_ok o [] [] Hok) as (Ht & Htop & Hl).
  - split; done || constructor.
  - by intros k' ?%not_elem_of_nil.
  - intros p x. rewrite leaf_at_empty. split; [done|]. by intros (? & _ & ?%not_elem_of_nil).
  - rewrite flat_get by done. simpl app in Hl. destruct Hok as (Hnd & _).
    destruct (leaf_at _ _) as [x|] eqn:E.
    + apply Hl in E as (k' & Hk & Hin). symmetry. apply assoc_get_elem; [done|].
      rewrite <-(join_split_char 46 k), Hk, join_split_char. done.
    + symmetry. apply assoc_get_None. intros ([k' x] & -> & Hin)%list_elem_of_fmap. simpl in E.
      assert (leaf_at (split_char 46 k') (JObj (expand_all o [])) = Some x); [|congruence].
      apply Hl. eauto.
Qed.

(** ** [collectDirtyValues] *)

(** The paths marked as changed. *)
Fixpoint marks (dirty : jsval) : list (list jsstr) :=
  match dirty with
  | JBool true => [[]]
  | JObj o =>
      (fix go (o : object) : list (list jsstr) :=
         match o with [] => [] | (k, x) :: o' => map (cons k) (marks x) ++ go o' end) o
  | JArr l =>
      (fix go (l : list jsval) (i : nat) : list (list jsstr) :=
         match l with
         | [] => []
         | x :: l' => map (cons (Z_to_str (Z.of_nat i))) (marks x) ++ go l' (S i)
         end) l 0%nat
  | _ => []
  end.

Definition get_path (p : list jsstr) (v : jsval) : jsval := fold_left (λ v k, source_of k v) p v.

Definition dirty_entries (parentKey : option jsstr) (ps : list (list jsstr)) (values : jsval) : object :=
  map (λ p, (leaf_key parentKey p, get_path p values)) ps.

(** The entries below one key. *)
Lemma dirty_entries_below parentKey k ps values :
  parentKey ≠ Some [] →
  dirty_entries (Some (child_key parentKey k)) ps (source_of k values) =
  dirty_entries parentKey (map (cons k) ps) values.
Proof.
  intros Hp. unfold dirty_entries. rewrite map_map. apply map_ext. intros p. by rewrite leaf_key_child.
Qed.

Lemma put_all_app es es' r : put_all (es ++ es') r = put_all es' (put_all es r).
Proof. apply fold_left_app. Qed.

Lemma collect_marks d : ∀ q values result,
  q ≠ [] →
  collectDirtyValues d values (Some q) result =
  put_all (dirty_entries (Some q) (marks d) values) result.
Proof.
  assert (Hchild : ∀ q k, q ≠ [] → child_key (Some q) k ≠ []) by (by intros [] k).
  assert (Hvisit : ∀ (x : jsval) values q result,
    match x with
    | JBool true => assign_prop q values result
    | JArr _ | JObj _ => collectDirtyValues x values (Some q) result
    | _ => result
    end = collectDirtyValues x values (Some q) result) by (by intros [| |[]| | | | |]).
  induction d as [| |b|n|s|l IH|o IH|n] using jsval_nested_ind; intros q values result Hq; try done.
  - by destruct b.
  - cbn [collectDirtyValues marks]. revert result. generalize 0%nat as i.
    induction l as [|x l IHl]; intros i result; [done|]. apply Forall_cons in IH as [Hx IH].
    rewrite (IHl IH), Hvisit, Hx by auto. unfold dirty_entries at 3. rewrite map_app, put_all_app.
    by rewrite dirty_entries_below by congruence.
  - cbn [collectDirtyValues marks]. revert result.
    induction o as [|[k x] o IHo]; intros result; [done|]. apply Forall_cons in IH as [Hx IH].
    rewrite (IHo IH), Hvisit, Hx by auto. unfold dirty_entries at 3. rewrite map_app, put_all_app.
    by rewrite dirty_entries_below by congruence.
Qed.

Lemma collect_top o values result :
  top_ok o →
  collectDirtyValues (JObj o) values None result =
  put_all (dirty_entries None (marks (JObj o)) values) result.
Proof.
  cbn [collectDirtyValues marks]. revert result.
  induction o as [|[k x] o IH]; intros result Htop; [done|].
  rewrite IH by (intros k' ?; apply Htop; by right).
  unfold dirty_entries at 2. rewrite map_app, put_all_app. f_equal.
  assert (Hk : k ≠ []) by (apply Htop; left). fold (dirty_entries None (map (cons k) (marks x)) values).
  rewrite <-(dirty_entries_below None k) by done. rewrite <-collect_marks by done.
  by destruct x as [| |[]| | | | |].
Qed.

(** Marks on fields whose names hold no dot. *)
Definition marks_ok (o : object) : Prop :=
  top_ok o ∧ Forall (Forall (λ s, 46 ∉ s ∧ s ≠ proto)) (marks (JObj o)).

Lemma marks_cons o p : p ∈ marks (JObj o) → p ≠ [].
Proof.
  cbn [marks]. induction o as [|[k x] o IH]; [by intros ?%not_elem_of_nil|].
  rewrite elem_of_app. intros [(q & -> & _)%list_elem_of_fmap|?]; [done|by apply IH].
Qed.

Lemma put_all_NoDup es r : NoDup (r.*1) → NoDup ((put_all es r).*1).
Proof.
  revert r. induction es as [|[k v] es IH]; intros r Hr; [done|]. apply IH. simpl.
  unfold assign_prop. case_decide; [done|]. by apply obj_put_NoDup.
Qed.

(** What is collected: the values of the marked fields under dotted names. *)
Lemma collected_get o values k x :
  marks_ok o →
  assoc_get k (collectDirtyValues (JObj o) values None []) = Some x ↔
  ∃ p, p ∈ marks (JObj o) ∧ k = join [46] p ∧ x = get_path p values.
Proof.
  intros [Htop Hm]. rewrite collect_top by done. rewrite Forall_forall in Hm.
  set (es := dirty_entries None _ _).
  assert (Hes : ∀ k x, (k, x) ∈ es ↔
            ∃ p, p ∈ marks (JObj o) ∧ k = join [46] p ∧ x = get_path p values).
  { intros k' y. unfold es, dirty_entries. rewrite list_elem_of_fmap. naive_solver. }
  assert (Hfun : ∀ y, (k, x) ∈ es → (k, y) ∈ es → x = y).
  { intros y (p & Hp & -> & ->)%Hes (q & Hq & E & ->)%Hes.
    rewrite <-(split_path p), E, split_path; eauto using marks_cons. }
  assert (Hnp : Forall (λ kv, kv.1 ≠ proto) es).
  { apply Forall_forall. intros [k' y] (p & Hp & -> & _)%Hes. apply path_not_proto; eauto using marks_cons. }
  rewrite <-Hes. destruct (put_all_get es [] k Hnp) as [[-> Hk]|(v & Hin & ->)].
  - split; [done|]. intros Hin. destruct Hk. apply list_elem_of_fmap. by exists (k, x).
  - split; [by intros [= ->]|]. intros Hx. by rewrite (Hfun v).
Qed.

(** ** Submitting *)

(** Copying entries with distinct keys into an object. *)
Lemma put_all_copy es k :
  NoDup (es.*1) → Forall (λ kv, kv.1 ≠ proto) es → assoc_get k (put_all es []) = assoc_get k es.
Proof.
  intros Hnd Hp. destruct (put_all_get es [] k Hp) as [[-> Hk]|(v & Hin & ->)].
  - simpl. symmetry. by apply assoc_get_None.
  - symmetry. by apply assoc_get_elem.
Qed.

Section submit.
Context (dirtyFields : jsval → jsval → jsval) (resolver : jsval → option jsval)
  (compareValues : option (jsval → jsval → bool)).

(** A field that differs from its saved value. *)
Definition changed (dirty : object) (data : jsval) (f : Form) (k : jsstr) (x : jsval) : Prop :=
  ∃ p, p ∈ marks (JObj dirty) ∧ k = join [46] p ∧ x = get_path p data ∧
       compare compareValues x (obj_get k (baselineRef f)) = false.

Lemma changed_entries_get dirty data f k x :
  dirtyFields (form_defaults f) (values f) = JObj dirty → marks_ok dirty →
  (k, x) ∈ changed_entries dirtyFields compareValues data f ↔ changed dirty data f k x.
Proof.
  intros Hd Hm. unfold changed_entries. rewrite Hd, list_elem_of_filter. cbn [fst snd].
  set (es := collectDirtyValues (JObj dirty) data None []).
  assert (Hin : (k, x) ∈ es ↔ assoc_get k es = Some x).
  { split; [|apply assoc_get_Some_elem]. apply assoc_get_elem. unfold es.
    rewrite collect_top by apply Hm. apply put_all_NoDup. constructor. }
  rewrite Hin. unfold es. rewrite collected_get by done. unfold changed. naive_solver.
Qed.

Lemma changed_entries_ok dirty data f :
  dirtyFields (form_defaults f) (values f) = JObj dirty → marks_ok dirty →
  let es := changed_entries dirtyFields compareValues data f in
  NoDup (es.*1) ∧ Forall (λ kv, kv.1 ≠ proto) es.
Proof.
  intros Hd Hm es. split.
  - unfold es, changed_entries. rewrite Hd, collect_top by apply Hm.
    assert (H : NoDup ((put_all (dirty_entries None (marks (JObj dirty)) data) []).*1))
      by (apply put_all_NoDup; constructor).
    eapply sublist_NoDup; [exact H|].
    apply fmap_sublist, sublist_filter.
  - apply Forall_forall. intros [k x] (p & Hp & -> & _)%(changed_entries_get dirty); [|done|done].
    destruct Hm as [_ Hm]. rewrite Forall_forall in Hm. apply path_not_proto; eauto using marks_cons.
Qed.

Lemma submit_unchanged dirty data f :
  resolver (values f) = Some data →
  dirtyFields (form_defaults f) (values f) = JObj dirty → marks_ok dirty →
  (∀ k x, ¬ changed dirty data f k x) →
  exec (handle dirtyFields resolver compareValues Submit f) f = (toast NoChanges f, None).
Proof.
  intros Hr Hd Hm Hn. cbn [handle]. rewrite Hr. unfold handleSubmit.
  destruct (changed_entries _ _ _ _) as [|[k x] es] eqn:E; [done|]. destruct (Hn k x).
  apply changed_entries_get; [done..|]. rewrite E. left.
Qed.

(** C23. Submitting sends exactly what was changed.  When validation passes, the
    request holds, under dotted names, the value of every field that the form
    marks and that differs from its saved value, and nothing else; without such
    a field nothing is sent and the user is told. *)
Theorem submit_sends_exactly (f : Form) (data : jsval) (dirty : object) :
  resolver (values f) = Some data →
  dirtyFields (form_defaults f) (values f) = JObj dirty → marks_ok dirty →
  match exec (handle dirtyFields resolver compareValues Submit f) f with
  | (f', Some (Saving data' fields)) =>
      f' = f ∧ data' = data ∧ (∃ k x, changed dirty data f k x) ∧
      ∀ k x, assoc_get k fields = Some x ↔ changed dirty data f k x
  | (f', None) => f' = toast NoChanges f ∧ ∀ k x, ¬ changed dirty data f k x
  end.
Proof.
  intros Hr Hd Hm. cbn [handle]. rewrite Hr. unfold handleSubmit.
  pose proof (λ k x, changed_entries_get dirty data f k x Hd Hm) as Hin.
  destruct (changed_entries_ok dirty data f Hd Hm) as [Hnd Hp].
  set (es := changed_entries _ _ _ _) in *. fold (put_all es []).
  destruct es as [|[k x] es'] eqn:E; cbn [length Nat.eqb exec].
  - split; [done|]. intros k x H. apply Hin in H. by apply not_elem_of_nil in H.
  - split; [done|]. split; [done|]. split; [exists k, x; apply Hin; left|].
    intros k' x'. rewrite put_all_copy by done. rewrite <-Hin.
    split; [apply assoc_get_Some_elem|by apply assoc_get_elem].
Qed.

(** ** After saving *)

Lemma get_path_leaf p : ∀ v x, leaf_at p v = Some x → get_path p v = x.
Proof.
  induction p as [|s p IH]; intros v x; simpl.
  - destruct v; try done; by intros [= <-].
  - destruct v as [| | | | | |o|]; try done. destruct (assoc_get s o) as [y|] eqn:E; [|done].
    intros Hx. unfold get_path. cbn [fold_left source_of]. unfold get_prop_opt. simpl.
    unfold obj_get. rewrite E. by apply IH.
Qed.

Definition is_nan (v : jsval) : bool := match v with JNum S754_nan => true | _ => false end.

Lemma defaultCompare_refl v : is_nan v = false → defaultCompare v v = true.
Proof.
  intros Hn. unfold defaultCompare. destruct (strict_eq v v) eqn:E; [done|].
  destruct v as [| |[]|x|t|l|o|t]; try done; simpl in *.
  - exfalso. unfold num_eqb, SFeqb in E. destruct x as [[]|[]| |[] m e]; simpl in E; try done;
      by rewrite Z.compare_refl, Pos.compare_cont_refl in E.
  - by rewrite bool_decide_eq_true_2 in E.
  - by rewrite bool_decide_eq_true_2.
  - by rewrite !bool_decide_eq_true_2.
  - by rewrite bool_decide_eq_true_2 in E.
Qed.

(** What was saved is not sent again.  After a save with the default
    comparison, the form holds what was saved, and submitting it at once sends
    nothing, whatever fields the form library marks, as long as they are fields
    of the saved values and not NaN. *)
Theorem resubmit_sends_nothing (w : World Form Phase) (i : nat) (tree dirty : object) (fields : object) :
  compareValues = None →
  pending w !! i = Some (Saving (JObj tree) fields) →
  tree_ok (JObj tree) → top_ok tree → resolver (JObj tree) = Some (JObj tree) →
  dirtyFields (JObj tree) (JObj tree) = JObj dirty → marks_ok dirty →
  (∀ p, p ∈ marks (JObj dirty) → ∃ x, leaf_at p (JObj tree) = Some x ∧ is_nan x = false) →
  let w1 := play dirtyFields resolver compareValues w [Reply i Saved] in
  let w2 := play dirtyFields resolver compareValues w1 [Do Submit] in
  values (state w1) = JObj tree ∧ pending w2 = pending w1 ∧ state w2 = toast NoChanges (state w1).
Proof.
  intros Hc Hi Ht Htop Hr Hd Hm Hleaf w1 w2.
  assert (Hw1 : state w1 = form_reset (JObj tree) (set_saved (JObj tree) (state w))).
  { unfold w1, play. cbn [run foldl step]. by rewrite Hi. }
  split; [by rewrite Hw1|].
  assert (He : exec (handle dirtyFields resolver compareValues Submit (state w1)) (state w1) =
               (toast NoChanges (state w1), None)).
  { rewrite Hw1. apply (submit_unchanged dirty (JObj tree)); [done..|].
    intros k x (p & Hp & -> & -> & Hx).
    destruct (Hleaf p Hp) as (y & Hy & Hnan). rewrite (get_path_leaf _ _ _ Hy) in Hx.
    unfold compare in Hx. rewrite Hc in Hx. simpl in Hx. unfold obj_get in Hx.
    rewrite flat_get in Hx by done. destruct Hm as [_ Hm]. rewrite Forall_forall in Hm.
    rewrite split_path, Hy in Hx by eauto using marks_cons.
    by rewrite defaultCompare_refl in Hx. }
  unfold w2, play. cbn [run foldl step]. unfold settle. rewrite He. simpl. by rewrite app_nil_r.
Qed.

(** An edit made while a save is under way is overwritten by what was saved. *)
Lemma edits_while_saving_lost (w : World Form Phase) (i : nat) (data v : jsval) (fields : object) :
  pending w !! i = Some (Saving data fields) →
  values (state (play dirtyFields resolver compareValues w [Do (Edit v); Reply i Saved])) = data.
Proof.
  intros Hi. unfold play. cbn [run foldl step]. unfold settle at 1. cbn [exec handle pending].
  simpl pending. rewrite app_nil_r. rewrite Hi. done.
Qed.

(** The refs stay consistent: the baseline is the flattened form of the saved
    values, which are also the defaults the form compares with. *)
Definition consistent (f : Form) (_ : list Phase) : Prop :=
  baselineRef f = flat (defaultValuesRef f) ∧
  serializedDefaultsRef f = JSON_stringify (JObj (baselineRef f)) ∧
  form_defaults f = defaultValuesRef f.

Lemma refs_consistent (o : object) (l : list (action Event Answer)) :
  let w := play dirtyFields resolver compareValues (MkWorld (initial_form (JObj o)) []) l in
  consistent (state w) (pending w).
Proof.
  apply (async_run_inv _ resume consistent); [done|..|done].
  - intros e f ps (Hb & Hs & Hf). destruct e as [v| | |v]; cbn [handle]; try done.
    + destruct (resolver (values f)); [|done]. unfold handleSubmit. by destruct (_ =? _)%nat.
    + unfold keeps. cbn [exec fst snd]. unfold defaults_effect.
      destruct (negb _); [done|]. by case_bool_decide.
  - intros [data fields] a f ps (Hb & Hs & Hf). by destruct a.
Qed.

End submit.

(** *** Examples *)

Definition sample_options : object :=
  [(js "a.b", JBool true); (js "c", JStr (js "x")); (js "a.d", JNum (num_of_Z 7))].

Lemma options_roundtrip_witness :
  ∃ tree, expandDotPaths (JObj sample_options) = JObj tree ∧
    assoc_get (js "a.d") (flat (JObj tree)) = assoc_get (js "a.d") sample_options.
Proof.
  apply (options_roundtrip sample_options (js "a.d")). apply (bool_decide_unpack _). vm_compute. exact I.
Defined.

Definition sample_tree : object :=
  [(js "a", JObj [(js "b", JBool true); (js "d", JNum (num_of_Z 7))]); (js "c", JStr (js "x"))].
Definition sample_marks : object := [(js "a", JObj [(js "b", JBool true)])].

Lemma sample_marks_ok : marks_ok sample_marks.
Proof.
  split.
  - intros k [->|[]%not_elem_of_nil]%elem_of_cons. done.
  - apply (bool_decide_unpack _). vm_compute. exact I.
Qed.

(** A form whose saved values differ from the submitted ones in one field. *)
Definition sample_form : Form := initial_form (JObj [(js "a.b", JBool false); (js "c", JStr (js "x"))]).

Lemma submit_sends_exactly_witness :
  ∃ fields, exec (handle (λ _ _, JObj sample_marks) (λ _, Some (JObj sample_tree)) None Submit sample_form)
              sample_form = (sample_form, Some (Saving (JObj sample_tree) fields)) ∧
    (assoc_get (js "a.b") fields = Some (JBool true) ↔
     changed None sample_marks (JObj sample_tree) sample_form (js "a.b") (JBool true)).
Proof.
  pose proof (submit_sends_exactly (λ _ _, JObj sample_marks) (λ _, Some (JObj sample_tree)) None
    sample_form (JObj sample_tree) sample_marks eq_refl eq_refl sample_marks_ok) as H.
  assert (E : exec (handle (λ _ _, JObj sample_marks) (λ _, Some (JObj sample_tree)) None Submit sample_form)
                sample_form =
              (sample_form, Some (Saving (JObj sample_tree) [(js "a.b", JBool true)])))
    by (vm_compute; reflexivity).
  rewrite E in H. exists [(js "a.b", JBool true)]. split; [exact E|].
  destruct H as (_ & _ & _ & H). exact (H (js "a.b") (JBool true)).
Defined.

Lemma resubmit_sends_nothing_witness :
  let w := MkWorld sample_form [Saving (JObj sample_tree) []] in
  let w1 := play (λ _ _, JObj sample_marks) Some None w [Reply 0 Saved] in
  pending (play (λ _ _, JObj sample_marks) Some None w1 [Do Submit]) = pending w1.
Proof.
  apply (resubmit_sends_nothing (λ _ _, JObj sample_marks) Some None
    (MkWorld sample_form [Saving (JObj sample_tree) []]) 0 sample_tree sample_marks []);
    try reflexivity; try exact sample_marks_ok.
  - apply tree_ok_obj. split; [apply (bool_decide_unpack _); vm_compute; exact I|].
    repeat constructor; try (apply (bool_decide_unpack _); vm_compute; exact I).
  - intros k [->|[->|[]%not_elem_of_nil]%elem_of_cons]%elem_of_cons; done.
  - intros p [->|[]%not_elem_of_nil]%elem_of_cons. exists (JBool true). done.
Defined.

End SettingsForm.
