(* ===== verification/PlaygroundInput.v ===== *)
(** * Attachments and the input of the playground

    [Attachments] models web/default/src/features/playground/lib/attachments.ts
    (which files may be attached, and how texts are put into the prompt), and
    [Input] the input box, components/playground-input.tsx: files are read one
    after the other while the user goes on typing, attaching and sending.

    Reading a file is a phase of [JsAsync]; the browser answers with its content
    or fails.  Lower-casing is the parameter [toLowerCase]. *)

From stdpp Require Import base list strings.
From Stdlib Require Import ZArith Lia.
From S2P Require Import Prelude JsString JsAsync.
#[local] Open Scope Z_scope.

Module Attachments.

Record File := MkFile { name : jsstr; type : jsstr; size : Z }.

Definition TEXT_FILE_EXTENSIONS : list jsstr :=
  map js [".txt"; ".md"; ".markdown"; ".csv"; ".json"; ".log"]%string.

Definition MAX_TEXT_FILE_BYTES : Z := 2 * 1024 * 1024.
Definition MAX_IMAGE_FILE_BYTES : Z := 5 * 1024 * 1024.

Definition ALLOWED_IMAGE_MIMES : list jsstr :=
  map js ["image/png"; "image/jpeg"; "image/jpg"; "image/webp"; "image/gif"; "image/bmp"]%string.

Definition ALLOWED_TEXT_MIMES : list jsstr :=
  map js ["text/plain"; "text/markdown"; "text/x-markdown"; "text/csv"; "application/json";
          "text/json"; "application/octet-stream"; ""]%string.

(** [name.lastIndexOf('.')] with the text from there on. *)
Fixpoint last_dot (i : nat) (s : jsstr) : option (nat * jsstr) :=
  match s with
  | [] => None
  | c :: s' =>
      match last_dot (S i) s' with
      | Some r => Some r
      | None => if c =? 46 then Some (i, s) else None
      end
  end.

(** [x.toFixed(digits)] of [n / 2 ^ shift]: the nearest decimal, the larger of
    two; such a quotient is an exact double. *)
Definition to_fixed (digits : nat) (n shift : Z) : jsstr :=
  let scale := 10 ^ Z.of_nat digits in
  let r := (2 * n * scale + 2 ^ shift) / 2 ^ (shift + 1) in
  let frac := Z_to_str (r mod scale) in
  Z_to_str (r / scale) ++ 46 :: repeat 48 (digits - length frac) ++ frac.

Definition formatFileSize (bytes : Z) : jsstr :=
  if bytes <=? 0 then js "0 B"
  else if bytes <? 1024 then Z_to_str bytes ++ js " B"
  else if bytes <? 1024 * 1024 then to_fixed 1 bytes 10 ++ js " KB"
  else to_fixed 2 bytes 20 ++ js " MB".

Section files.
Context (toLowerCase : jsstr → jsstr).

Definition getExtension (fileName : jsstr) : jsstr :=
  match last_dot 0 fileName with
  | Some (i, ext) => if (i <=? 0)%nat then [] else toLowerCase ext
  | None => []
  end.

Definition isAllowedTextFile (file : File) : bool :=
  bool_decide (getExtension (name file) ∈ TEXT_FILE_EXTENSIONS) &&
  bool_decide (toLowerCase (type file) ∈ ALLOWED_TEXT_MIMES).

Definition isAllowedImageFile (file : File) : bool :=
  let mime := toLowerCase (type file) in
  starts_with (js "image/") mime && bool_decide (mime ∈ ALLOWED_IMAGE_MIMES).
End files.

Record TextAttachment := MkText { t_id : jsstr; t_name : jsstr; t_size : Z; t_text : jsstr }.

Definition attachment_block (item : TextAttachment) : jsstr :=
  js "--- " ++ [38468; 20214] ++ js ": " ++ t_name item ++ js " (" ++ formatFileSize (t_size item) ++
  js ") ---" ++ 10 :: t_text item ++ 10 :: js "--- " ++ [38468; 20214; 32467; 26463] ++ js ": " ++
  t_name item ++ js " ---".

Definition buildAttachmentTextBlock (attachments : list TextAttachment) : jsstr :=
  join [10; 10] (map attachment_block attachments).

End Attachments.

Module Input.
Import Attachments.

Inductive Warning := TooLarge (file : jsstr) | NotText (file : jsstr) | NotImage (file : jsstr)
  | ImagesOff.

(** [onSubmit(text, images)] *)
Record Submission := MkSubmission { s_text : jsstr; s_images : option (list jsstr) }.

Record Box := MkBox {
  text : jsstr;
  attachments : list TextAttachment;
  parsingAttachment : bool;
  pendingImages : list jsstr;
  warnings : list Warning;
  submitted : list Submission
}.

(** The box starts with the non-blank ones of the given images. *)
Definition box_mounted (imageUrls : list jsstr) : Box :=
  MkBox [] [] false (filter (λ url, trim url ≠ []) imageUrls) [] [].

Definition setText (t : jsstr) (b : Box) : Box :=
  MkBox t (attachments b) (parsingAttachment b) (pendingImages b) (warnings b) (submitted b).
Definition setAttachments (f : list TextAttachment → list TextAttachment) (b : Box) : Box :=
  MkBox (text b) (f (attachments b)) (parsingAttachment b) (pendingImages b) (warnings b) (submitted b).
Definition setParsingAttachment (p : bool) (b : Box) : Box :=
  MkBox (text b) (attachments b) p (pendingImages b) (warnings b) (submitted b).
Definition setPendingImages (l : list jsstr) (b : Box) : Box :=
  MkBox (text b) (attachments b) (parsingAttachment b) l (warnings b) (submitted b).
Definition warn (w : Warning) (b : Box) : Box :=
  MkBox (text b) (attachments b) (parsingAttachment b) (pendingImages b) (warnings b ++ [w]) (submitted b).
Definition onSubmit (s : Submission) (b : Box) : Box :=
  MkBox (text b) (attachments b) (parsingAttachment b) (pendingImages b) (warnings b) (submitted b ++ [s]).

(** A file that is being read, with those that follow it; for images also the
    list collected so far and the length of the list it started from. *)
Inductive Phase :=
| ReadText (file : File) (rest : list File)
| ReadImage (file : File) (rest : list File) (nextUrls : list jsstr) (had : nat).

(** The content that was read and the time; or the failure. *)
Inductive Answer := Read (content : jsstr) (now : Z) | ReadFailed.

Section input.
Context (toLowerCase : jsstr → jsstr).

Notation Task := (task Box Phase).

(** The loop over the chosen text files; only reading one suspends it. *)
Fixpoint read_texts (files : list File) : Task :=
  match files with
  | [] => Update (setParsingAttachment false) Stop
  | file :: rest =>
      if MAX_TEXT_FILE_BYTES <? size file then Update (warn (TooLarge (name file))) (read_texts rest)
      else if negb (isAllowedTextFile toLowerCase file)
      then Update (warn (NotText (name file))) (read_texts rest)
      else Await (ReadText file rest)
  end.

Definition handleTextFilesSelected (files : list File) : Task :=
  match files with
  | [] => Stop
  | _ => Update (setParsingAttachment true) (read_texts files)
  end.

Definition text_read (file : File) (rest : list File) (a : Answer) : Task :=
  match a with
  | Read content now =>
      Update (setAttachments (λ prev, prev ++
        [MkText (Z_to_str now ++ 45 :: name file) (name file) (size file) content])) (read_texts rest)
  | ReadFailed => Update (warn (NotText (name file))) (read_texts rest)
  end.

Fixpoint read_images (files : list File) (nextUrls : list jsstr) (had : nat) : Task :=
  match files with
  | [] =>
      let done := Update (setParsingAttachment false) Stop in
      if (had <? length nextUrls)%nat then Update (setPendingImages nextUrls) done else done
  | file :: rest =>
      if MAX_IMAGE_FILE_BYTES <? size file
      then Update (warn (TooLarge (name file))) (read_images rest nextUrls had)
      else if negb (isAllowedImageFile toLowerCase file)
      then Update (warn (NotImage (name file))) (read_images rest nextUrls had)
      else Await (ReadImage file rest nextUrls had)
  end.

Definition handleImageFilesSelected (imageEnabled : bool) (files : list File) (render : Box) : Task :=
  match files with
  | [] => Stop
  | _ =>
      if negb imageEnabled then Update (warn ImagesOff) Stop
      else Update (setParsingAttachment true)
             (read_images files (pendingImages render) (length (pendingImages render)))
  end.

Definition image_read (file : File) (rest : list File) (nextUrls : list jsstr) (had : nat) (a : Answer)
    : Task :=
  match a with
  | Read dataUrl _ =>
      if starts_with (js "data:image/") dataUrl then read_images rest (nextUrls ++ [dataUrl]) had
      else Update (warn (NotImage (name file))) (read_images rest nextUrls had)
  | ReadFailed => Update (warn (NotImage (name file))) (read_images rest nextUrls had)
  end.

Definition resume (ph : Phase) (a : Answer) : Task :=
  match ph with
  | ReadText file rest => text_read file rest a
  | ReadImage file rest nextUrls had => image_read file rest nextUrls had a
  end.

(** [[attachmentText, message.text.trim()].filter(Boolean).join('\n\n')] *)
Definition combined_text (attachments : list TextAttachment) (message : jsstr) : jsstr :=
  join [10; 10] (filter (λ s, is_empty s = false)
    [buildAttachmentTextBlock attachments; trim message]).

Definition handleSubmit (disabled : bool) (message : jsstr) (render : Box) : Task :=
  let combined := combined_text (attachments render) message in
  if is_empty combined || disabled then Stop
  else
    Update (onSubmit (MkSubmission combined
      (if (0 <? length (pendingImages render))%nat then Some (pendingImages render) else None)))
    (Update (setText []) (Update (setAttachments (λ _, [])) (Update (setPendingImages []) Stop))).

Definition handleSuggestionClick (suggestion : jsstr) : Task :=
  Update (onSubmit (MkSubmission suggestion None)) Stop.

(** [disabled] and [imageEnabled] are properties of the render. *)
Inductive Event :=
| Type_ (t : jsstr)
| Submit (disabled : bool) (message : jsstr)
| ChooseTexts (files : list File)
| ChooseImages (imageEnabled : bool) (files : list File)
| Remove (disabled : bool) (id : jsstr)
| Suggestion (suggestion : jsstr).

Definition handle (e : Event) (b : Box) : Task :=
  match e with
  | Type_ t => Update (setText t) Stop
  | Submit disabled message => handleSubmit disabled message b
  | ChooseTexts files => handleTextFilesSelected files
  | ChooseImages imageEnabled files => handleImageFilesSelected imageEnabled files b
  | Remove disabled id =>
      if disabled then Stop else Update (setAttachments (filter (λ x, t_id x ≠ id))) Stop
  | Suggestion s => handleSuggestionClick s
  end.

Definition play : World Box Phase → list (action Event Answer) → World Box Phase :=
  run handle resume.

(** The playground, the only page with this box, gives it no images. *)
Definition mounted : World Box Phase := MkWorld (box_mounted []) [].

(** ** What may be attached *)

Definition text_ok (t : TextAttachment) : Prop :=
  t_size t <= MAX_TEXT_FILE_BYTES ∧ getExtension toLowerCase (t_name t) ∈ TEXT_FILE_EXTENSIONS.
Definition image_ok (url : jsstr) : Prop := starts_with (js "data:image/") url = true.

Definition phase_ok (ph : Phase) : Prop :=
  match ph with
  | ReadText file _ =>
      size file <= MAX_TEXT_FILE_BYTES ∧ getExtension toLowerCase (name file) ∈ TEXT_FILE_EXTENSIONS
  | ReadImage _ _ nextUrls _ => Forall image_ok nextUrls
  end.

Definition images_of (s : Submission) : list jsstr := default [] (s_images s).

Definition wf (b : Box) (ps : list Phase) : Prop :=
  Forall text_ok (attachments b) ∧ Forall image_ok (pendingImages b) ∧
  Forall (λ s, Forall image_ok (images_of s)) (submitted b) ∧ Forall phase_ok ps.

Notation box_keeps := (keeps wf).

Lemma box_perm b ps ps' : ps ≡ₚ ps' → wf b ps → wf b ps'.
Proof. intros Hp (Ht & Hi & Hs & Hps). split_and!; try done. by rewrite <-Hp. Qed.

Lemma keeps_update f k b ps : wf (f b) ps → (wf (f b) ps → box_keeps k (f b) ps) → box_keeps (Update f k) b ps.
Proof. auto. Qed.

Lemma keeps_read_texts files : ∀ b ps, wf b ps → box_keeps (read_texts files) b ps.
Proof.
  induction files as [|file files IH]; intros b ps Hw; [done|]. cbn [read_texts].
  destruct (Z.ltb_spec MAX_TEXT_FILE_BYTES (size file)) as [|Hs]; [by apply keeps_update; [|apply IH]|].
  destruct (isAllowedTextFile toLowerCase file) eqn:Ha; [|by apply keeps_update; [|apply IH]].
  destruct Hw as (Ht & Hi & Hsub & Hps). split_and!; try done. constructor; [|done].
  apply andb_true_iff in Ha as [Ha%bool_decide_eq_true _]. done.
Qed.

Lemma keeps_read_images files : ∀ urls had b ps,
  Forall image_ok urls → wf b ps → box_keeps (read_images files urls had) b ps.
Proof.
  induction files as [|file files IH]; intros urls had b ps Hu Hw; cbn [read_images].
  { destruct (had <? length urls)%nat; [|done]. by destruct Hw as (? & _ & ? & ?). }
  destruct (MAX_IMAGE_FILE_BYTES <? size file); [by apply keeps_update; [|apply IH]|].
  destruct (isAllowedImageFile toLowerCase file); [|by apply keeps_update; [|apply IH]].
  destruct Hw as (Ht & Hi & Hsub & Hps). split_and!; try done. by constructor.
Qed.

Lemma input_keeps_handle e b ps : wf b ps → box_keeps (handle e b) b ps.
Proof.
  intros Hw. pose proof Hw as (Ht & Hi & Hs & Hps).
  destruct e as [t|disabled message|files|enabled files|disabled id|sg]; cbn [handle]; try done.
  - unfold handleSubmit. destruct (_ || _); [done|]. split_and!; try done.
    cbn [exec fst setPendingImages setAttachments setText onSubmit submitted].
    apply Forall_app. split; [done|]. constructor; [|done]. unfold images_of. cbn [s_images].
    by destruct (0 <? _)%nat.
  - destruct files; [done|]. by apply keeps_update; [|apply keeps_read_texts].
  - destruct files; [done|]. cbn [handleImageFilesSelected]. destruct (negb enabled); [done|].
    apply keeps_update; [done|]. by apply keeps_read_images.
  - destruct disabled; [done|]. split_and!; try done. eapply Forall_sub; [exact Ht|apply sublist_filter].
  - split_and!; try done. apply Forall_app. split; [done|]. by repeat constructor.
Qed.

Lemma input_keeps_resume ph a b ps : wf b (ph :: ps) → box_keeps (resume ph a) b ps.
Proof.
  intros (Ht & Hi & Hs & [Hph Hps]%Forall_cons). assert (Hw : wf b ps) by done.
  destruct ph as [file rest|file rest urls had]; cbn [resume].
  - unfold text_read. destruct a as [content now|]; apply keeps_update; try apply keeps_read_texts; try done.
    split_and!; try done. apply Forall_app. split; [done|]. by constructor.
  - unfold image_read. destruct a as [url now|].
    + destruct (starts_with _ url) eqn:E.
      * apply keeps_read_images; [|done]. apply Forall_app. split; [done|]. by constructor.
      * apply keeps_update; [done|]. by apply keeps_read_images.
    + apply keeps_update; [done|]. by apply keeps_read_images.
Qed.

(** C17. Nothing but what the limits allow gets into the prompt: however
    choosing, reading, removing and sending interleave, every attached text is
    within the size limit and has one of the text extensions, and every image
    that waits or was sent is an inline image. *)
Theorem only_allowed_attached (l : list (action Event Answer)) :
  let b := state (play mounted l) in
  (∀ t, t ∈ attachments b →
     t_size t <= MAX_TEXT_FILE_BYTES ∧ getExtension toLowerCase (t_name t) ∈ TEXT_FILE_EXTENSIONS) ∧
  (∀ url, url ∈ pendingImages b → starts_with (js "data:image/") url = true) ∧
  (∀ s url, s ∈ submitted b → url ∈ images_of s → starts_with (js "data:image/") url = true).
Proof.
  intros b. destruct (async_run_inv handle resume wf box_perm l mounted) as (Ht & Hi & Hs & _).
  - intros e b' ps. apply input_keeps_handle.
  - intros ph a b' ps. apply input_keeps_resume.
  - split_and!; constructor.
  - rewrite Forall_forall in Ht. rewrite Forall_forall in Hi. rewrite Forall_forall in Hs.
    split; [exact Ht|]. split; [exact Hi|]. intros s url Hin. apply Hs in Hin.
    rewrite Forall_forall in Hin. apply Hin.
Qed.

(** ** Texts are kept *)

Lemma read_texts_attachments files : ∀ b, attachments (exec (read_texts files) b).1 = attachments b.
Proof.
  induction files as [|file files IH]; intros b; [done|]. cbn [read_texts].
  destruct (_ <? _); [cbn [exec]; by rewrite IH|].
  destruct (negb _); [cbn [exec]; by rewrite IH|done].
Qed.

Lemma read_images_attachments files : ∀ urls had b,
  attachments (exec (read_images files urls had) b).1 = attachments b.
Proof.
  induction files as [|file files IH]; intros urls had b; cbn [read_images].
  { by destruct (had <? length urls)%nat. }
  destruct (_ <? _); [cbn [exec]; by rewrite IH|].
  destruct (negb _); [cbn [exec]; by rewrite IH|done].
Qed.

(** No attached text is lost or duplicated.  In every state, sending empties
    the list, removing takes out exactly the entries of that identifier, and a
    text that has been read is added at the end; nothing else, be it another
    selection or the reading of images, changes the list. *)
Theorem attached_texts_exact (w : World Box Phase) (a : action Event Answer) :
  attachments (state (step handle resume w a)) =
  match a with
  | Do (Submit disabled message) =>
      if is_empty (combined_text (attachments (state w)) message) || disabled
      then attachments (state w) else []
  | Do (Remove disabled id) =>
      if disabled then attachments (state w) else filter (λ x, t_id x ≠ id) (attachments (state w))
  | Do _ => attachments (state w)
  | Reply i r =>
      match pending w !! i, r with
      | Some (ReadText file _), Read content now =>
          attachments (state w) ++
            [MkText (Z_to_str now ++ 45 :: name file) (name file) (size file) content]
      | _, _ => attachments (state w)
      end
  end.
Proof.
  destruct a as [e|i r]; cbn [step].
  - unfold settle. cbn [state].
    destruct e as [t|disabled message|files|enabled files|disabled id|sg]; cbn [handle]; try done.
    + unfold handleSubmit. by destruct (_ || _).
    + destruct files; [done|]. cbn [handleTextFilesSelected]. cbn [exec]. by rewrite read_texts_attachments.
    + destruct files; [done|]. cbn [handleImageFilesSelected]. destruct (negb enabled); [done|].
      cbn [exec]. by rewrite read_images_attachments.
    + by destruct disabled.
  - destruct (pending w !! i) as [[file rest|file rest urls had]|]; [..|done]; unfold settle; cbn [state resume].
    + unfold text_read. destruct r; cbn [exec]; by rewrite read_texts_attachments.
    + unfold image_read. destruct r; [destruct (starts_with _ _)|]; cbn [exec];
        by rewrite read_images_attachments.
Qed.

(** ** Images are not *)

Lemma choose_image b ps file :
  size file <= MAX_IMAGE_FILE_BYTES → isAllowedImageFile toLowerCase file = true →
  step handle resume (MkWorld b ps) (Do (ChooseImages true [file])) =
  MkWorld (setParsingAttachment true b)
    (ps ++ [ReadImage file [] (pendingImages b) (length (pendingImages b))]).
Proof.
  intros Hs Ha. cbn [step handle handleImageFilesSelected negb state]. unfold settle. cbn [exec read_images state].
  destruct (Z.ltb_spec MAX_IMAGE_FILE_BYTES (size file)); [lia|]. by rewrite Ha.
Qed.

Lemma image_arrives b ps file urls url now :
  image_ok url →
  step handle resume (MkWorld b (ReadImage file [] urls (length urls) :: ps)) (Reply 0 (Read url now)) =
  MkWorld (setParsingAttachment false (setPendingImages (urls ++ [url]) b)) ps.
Proof.
  intros Hu. cbn [step pending lookup list_lookup resume]. unfold image_read, settle. rewrite Hu.
  cbn [read_images]. rewrite length_app.
  destruct (Nat.ltb_spec (length urls) (length urls + length [url])) as [|H]; [|simpl in H; lia].
  simpl. by rewrite app_nil_r.
Qed.

(** Images that were sent come back.  When a message is sent while another
    image is still being read, the images it carried are pending again as soon
    as the reading ends, and go out with the next message too. *)
Theorem sent_images_return (b : Box) (file : File) (message url : jsstr) (now : Z) :
  pendingImages b ≠ [] →
  size file <= MAX_IMAGE_FILE_BYTES → isAllowedImageFile toLowerCase file = true →
  starts_with (js "data:image/") url = true → is_empty (combined_text (attachments b) message) = false →
  let w := play (MkWorld b [])
    [Do (ChooseImages true [file]); Do (Submit false message); Reply 0 (Read url now)] in
  submitted (state w) =
    submitted b ++ [MkSubmission (combined_text (attachments b) message) (Some (pendingImages b))] ∧
  pendingImages (state w) = pendingImages b ++ [url].
Proof.
  intros Hne Hs Ha Hu Hm. unfold play. cbn [run foldl]. rewrite choose_image by done. simpl app.
  assert (Hsub : step handle resume
    (MkWorld (setParsingAttachment true b) [ReadImage file [] (pendingImages b) (length (pendingImages b))])
    (Do (Submit false message)) =
    MkWorld (setPendingImages [] (setAttachments (λ _, []) (setText [] (onSubmit (MkSubmission
       (combined_text (attachments b) message) (Some (pendingImages b))) (setParsingAttachment true b)))))
      [ReadImage file [] (pendingImages b) (length (pendingImages b))]).
  { cbn [step handle]. unfold handleSubmit, settle. cbn [state setParsingAttachment attachments pendingImages].
    rewrite Hm. cbn [orb]. by destruct (pendingImages b). }
  rewrite Hsub, image_arrives by done. done.
Qed.

(** Two selections that are read at the same time: the images of the first are
    overwritten by those of the second. *)
Lemma concurrent_images_lost b file1 file2 url1 url2 now1 now2 :
  size file1 <= MAX_IMAGE_FILE_BYTES → isAllowedImageFile toLowerCase file1 = true →
  size file2 <= MAX_IMAGE_FILE_BYTES → isAllowedImageFile toLowerCase file2 = true →
  image_ok url1 → image_ok url2 →
  pendingImages (state (play (MkWorld b [])
    [Do (ChooseImages true [file1]); Do (ChooseImages true [file2]);
     Reply 0 (Read url1 now1); Reply 0 (Read url2 now2)])) = pendingImages b ++ [url2].
Proof.
  intros Hs1 Ha1 Hs2 Ha2 Hu1 Hu2. unfold play. cbn [run foldl].
  rewrite choose_image by done. simpl app. rewrite choose_image by done.
  cbn [app pendingImages setParsingAttachment]. rewrite !image_arrives by done. done.
Qed.

End input.

(** *** Examples *)

Definition sample_image : File := MkFile (js "b.png") (js "image/png") 10.
Definition sample_box : Box := MkBox [] [] false [js "data:image/png;base64,AA=="] [] [].

Lemma sent_images_return_witness :
  pendingImages (state (play to_lower (MkWorld sample_box [])
    [Do (ChooseImages true [sample_image]); Do (Submit false (js "hello"));
     Reply 0 (Read (js "data:image/png;base64,BB==") 0)])) =
  [js "data:image/png;base64,AA=="; js "data:image/png;base64,BB=="].
Proof.
  apply (sent_images_return to_lower sample_box sample_image (js "hello") (js "data:image/png;base64,BB==") 0);
    try (vm_compute; reflexivity); vm_compute; discriminate.
Defined.

End Input.
