(* ===== verification/TierSplit.v ===== *)
(** * Tier expressions between request rules

    The expression of a well-formed list of tiers survives being combined with
    request rules into one text and split from them again
    ([combineBillingExpr], [splitBillingExprAndRequestRules]). *)

From stdpp Require Import base list strings.
From Stdlib Require Import ZArith Lia.
From S2P Require Import Prelude JsString JsNumber JsValue JsRegex BillingExpr BillingPatterns BillingRules TierExpr TierRules.
#[local] Open Scope Z_scope.
Import RequestRules VisualTiers.

(** ** Texts without a product outside parentheses *)

(** The parentheses are balanced and no asterisk stands outside them; [d] are
    open before the text. *)
Fixpoint closed (d : Z) (s : jsstr) : bool :=
  match s with
  | [] => d =? 0
  | c :: t =>
      let d := if c =? 40 then d + 1 else d in
      let d := if c =? 41 then d - 1 else d in
      (0 <=? d) && negb ((d =? 0) && (c =? 42)) && closed d t
  end.

Lemma closed_nested d s : closed d s = true → nested d s = true.
Proof.
  revert d. induction s as [|c s IH]; intros d; [done|]. cbn [closed nested].
  intros [[-> _]%andb_prop H]%andb_prop. by apply IH.
Qed.

Lemma closed_app d a b : closed d a = true → closed 0 b = true → closed d (a ++ b) = true.
Proof.
  intros Ha Hb. revert d Ha. induction a as [|c a IH]; intros d; cbn [closed app].
  - by intros ->%Z.eqb_eq.
  - intros [-> H]%andb_prop. by apply IH.
Qed.

Lemma closed_parens k s : 0 <= k → nested k s = true → closed (k + 1) (s ++ [41]) = true.
Proof.
  revert k. induction s as [|c s IH]; intros k Hk H; cbn [nested app closed] in *.
  - apply Z.eqb_eq in H as ->. done.
  - apply andb_prop in H as [H0 H]. apply IH in H; [|lia].
    destruct (c =? 40), (c =? 41);
      match goal with |- context [?x =? 0] => replace (x =? 0) with false by lia end; cbn [andb negb];
      (apply andb_true_iff; split; [apply andb_true_iff; split; [lia|done]|]);
      match goal with |- closed ?x _ = _ => match type of H with closed ?y _ = _ =>
        by replace x with y by lia end end.
Qed.

Lemma closed_call w : nested 0 w = true → closed 0 (js "(" ++ w ++ js ")") = true.
Proof. intros H. by apply (closed_parens 0). Qed.

Lemma closed_plain w : Forall (λ c, is_paren c || (c =? 42) = false) w → closed 0 w = true.
Proof.
  induction 1 as [|c w Hc _ IH]; [done|]. cbn [closed]. unfold is_paren in Hc.
  apply orb_false_iff in Hc as [[-> ->]%orb_false_iff ->]. by rewrite IH.
Qed.

Lemma closed_unsplit cur s : closed 0 s = true → split_mul 0 cur s = [trim (reverse cur ++ s)].
Proof.
  cut (∀ d, closed d s = true → split_mul d cur s = [trim (reverse cur ++ s)]); [auto|].
  revert cur. induction s as [|c s IH]; intros cur d; cbn [closed split_mul].
  - by rewrite app_nil_r.
  - intros [[_ _]%andb_prop H]%andb_prop.
    destruct (_ && starts_with (js " * ") (c :: s)) eqn:E.
    + exfalso. apply andb_prop in E as [Hd E]. change (js " * ") with [32; 42; 32] in E.
      destruct s as [|c' s]; cbn [starts_with] in E; [by apply andb_prop in E as [_ ?]|].
      apply andb_prop in E as [Ec E]. apply andb_prop in E as [Ec' _].
      apply Z.eqb_eq in Ec, Ec'. subst c c'. cbn [Z.eqb Pos.eqb closed] in H, Hd. rewrite Hd in H. cbn [andb negb] in H.
      by rewrite andb_false_r in H.
    + rewrite IH by done. by rewrite reverse_cons, <-app_assoc.
Qed.

(** Closed pieces make a closed text. *)
Ltac closed_pieces := repeat first [assumption|reflexivity|apply closed_app].

Lemma vars_closed v : v ∈ VARS → closed 0 v = true.
Proof. unfold VARS. rewrite !elem_of_cons. by intros [->|[->|[->|?%elem_of_nil]]]. Qed.

Lemma ops_closed v : v ∈ OPS → closed 0 v = true.
Proof. unfold OPS. rewrite !elem_of_cons. by intros [->|[->|[->|[->|?%elem_of_nil]]]]. Qed.

Lemma unsigned_plain c : unsigned_char c = true → is_paren c || (c =? 42) = false.
Proof. rewrite unsigned_char_spec. unfold is_paren, is_digit. lia. Qed.

Lemma name_nested v : name_like v → nested 0 v = true.
Proof.
  intros [H _]. apply nested_plain. eapply Forall_impl; [exact H|]. intros c. unfold is_paren.
  destruct (Z.eqb_spec c 40) as [->|_]; [done|]. by destruct (Z.eqb_spec c 41) as [->|_].
Qed.

Lemma closed_cond q : wf_cond q → closed 0 (cond_text q) = true.
Proof.
  intros (Hv & Ho & _ & Hn). unfold cond_text. pose proof (vars_closed _ Hv). pose proof (ops_closed _ Ho).
  assert (closed 0 q.2 = true) by (apply closed_plain; eapply Forall_impl; [exact Hn|]; apply unsigned_plain).
  closed_pieces.
Qed.

Lemma closed_guard g : wf_guard g → closed 0 (guard_text g) = true.
Proof.
  destruct g as [[q qs]|]; [|done]. intros [Hq Hqs]. cbn [guard_text]. unfold conds_text.
  apply closed_app; [|done]. apply closed_app; [by apply closed_cond|].
  induction Hqs as [|q' qs Hq' _ IH]; [done|]. cbn [map concat]. pose proof (closed_cond q' Hq'). closed_pieces.
Qed.

Lemma nested_term v w : nested 0 v = true → numeric w → nested 0 (term_string v w) = true.
Proof. intros Hv Hw%nested_numeric. unfold term_string. nested_pieces. Qed.

Lemma nested_extra l :
  Forall (λ p, name_like p.1 ∧ match p.2 with Some w => numeric w | None => True end) l →
  nested 0 (opt_text l) = true.
Proof.
  induction 1 as [|[v [w|]] l [Hv Hw] _ IH]; [done| |done]. unfold opt_text in *. cbn [map concat fst snd].
  pose proof (nested_term v w (name_nested v Hv) Hw). nested_pieces.
Qed.

Lemma nested_tokens k : wf_tokens k → nested 0 (tokens_text k) = true.
Proof.
  intros (Hi & Ho & Hk & Hx). unfold tokens_text.
  pose proof (nested_term (js "p") _ eq_refl Hi). pose proof (nested_term (js "c") _ eq_refl Ho).
  assert (nested 0 (opt_text (t_extra k)) = true).
  { apply nested_extra. apply Forall_forall. intros p Hp. rewrite Forall_forall in Hx. split; [|by apply Hx].
    pose proof extra_keys_names as Hn. rewrite Forall_forall in Hn. apply Hn. rewrite <-Hk. by apply list_elem_of_fmap_2. }
  nested_pieces.
Qed.

Lemma nested_call_part call more :
  match call with Some w => numeric w | None => True end → nested 0 (call_part call more) = true.
Proof.
  destruct call as [w|]; [|done]. intros Hw%nested_numeric. cbn [call_part]. unfold call_string.
  apply nested_cat; [|by destruct more]. change (js "call(") with (js "call" ++ js "("). rewrite <-app_assoc.
  apply nested_cat; [done|]. by apply nested_parens.
Qed.

Lemma closed_texts x : wf_texts x → nested 0 (x_label x) = true → closed 0 (texts_text x) = true.
Proof.
  intros (_ & Hc & Ht) Hl.
  pose proof (nested_call_part _ (negb (is_none (x_tokens x))) Hc) as Hcall.
  assert (nested 0 (match x_tokens x with Some k => tokens_text k | None => [] end) = true) as Hk
    by (destruct (x_tokens x); [by apply nested_tokens|done]).
  assert (texts_text x = js "tier" ++ js "(" ++
    ([34] ++ x_label x ++ [34] ++ js ", " ++ call_part (x_call x) (negb (is_none (x_tokens x))) ++
     match x_tokens x with Some k => tokens_text k | None => [] end) ++ js ")") as ->
    by (unfold texts_text; by rewrite <-!app_assoc).
  apply closed_app; [done|]. apply closed_call. nested_pieces.
Qed.

(** ** The expression of a list of tiers *)

(** Well-formed tiers, the last one without conditions, whose labels have
    balanced parentheses. *)
Definition priced (cfg : VisualConfig) : Prop :=
  Forall wf_tier cfg ∧ guarded cfg ∧ Forall (λ t, nested 0 (label t) = true) cfg.

Lemma priced_wf cfg : priced cfg → cfg ≠ [] ∧ wf_config cfg.
Proof. intros (Hw & Hg & _). split; [by destruct cfg|]. split; [done|]. by destruct cfg as [|t [|??]]. Qed.

Lemma priced_text t ts :
  priced (t :: ts) →
  generateExprFromVisualConfig (Some (t :: ts)) = part_text (part_of t) ++ later_text (map part_of ts) [].
Proof.
  intros (Hw & Hg & _). destruct ts as [|t' ts]; [|by apply tier_parts_text].
  apply Forall_cons in Hw as [Ht _]. cbn [guarded] in Hg. cbn [generateExprFromVisualConfig map later_text].
  rewrite app_nil_r, part_text_of, Hg by done. cbn [app]. rewrite or_str_id; [done|apply Ht].
Qed.

Lemma closed_part t : wf_tier t → nested 0 (label t) = true → closed 0 (part_text (part_of t)) = true.
Proof.
  intros [Hg Hx]%wf_part_of Hl. unfold part_text. apply closed_app; [by apply closed_guard|].
  by apply closed_texts.
Qed.

Lemma closed_later ts :
  Forall wf_tier ts → Forall (λ t, nested 0 (label t) = true) ts → closed 0 (later_text (map part_of ts) []) = true.
Proof.
  intros Hw. induction Hw as [|t ts Ht _ IH]; [done|]. intros [Hl Hls]%Forall_cons. cbn [map later_text].
  pose proof (closed_part t Ht Hl). pose proof (IH Hls). closed_pieces.
Qed.

Lemma part_last t : ∃ u, part_text (part_of t) = u ++ [41].
Proof.
  unfold part_text, texts_text. change (js ")") with [41]. rewrite !app_assoc. by eexists.
Qed.

Lemma later_last u ts : ∃ v, (u ++ [41]) ++ later_text (map part_of ts) [] = v ++ [41].
Proof.
  revert u. induction ts as [|t ts IH]; intros u; cbn [map later_text]; [rewrite app_nil_r; eauto|].
  destruct (part_last t) as [w ->]. rewrite !app_assoc. apply IH.
Qed.

(** What splitting needs of the expression: it ends with a closing parenthesis
    and has no product outside parentheses. *)
Definition standing (base : jsstr) : Prop :=
  closed 0 base = true ∧ solid base ∧ hasFullOuterParens base = false ∧ ∃ u, base = u ++ [41].

Lemma priced_standing cfg : priced cfg → standing (generateExprFromVisualConfig (Some cfg)).
Proof.
  intros H. destruct cfg as [|t ts]; [by destruct H as (_ & [] & _)|]. unfold standing.
  rewrite priced_text by done. destruct H as (Hw & _ & Hl).
  apply Forall_cons in Hw as [Ht Hts], Hl as [Hl Hls].
  destruct (part_first t (later_text (map part_of ts) []) Ht) as (x & r & E & Hx).
  destruct (part_last t) as [w Ew]. destruct (later_last w ts) as [v Ev].
  assert (closed 0 (part_text (part_of t) ++ later_text (map part_of ts) []) = true) as Hcl
    by (apply closed_app; [by apply closed_part|by apply closed_later]).
  rewrite <-Ew in Ev. split_and!; [done| | |by exists v].
  - split_and!; [by rewrite E| |by rewrite Ev, reverse_snoc]. rewrite E. unfold starter in Hx.
    cbn. by destruct Hx as [->|[->|[->| ->]]].
  - unfold hasFullOuterParens. rewrite E. unfold starter in Hx. by destruct Hx as [->|[->|[->| ->]]].
Qed.

(** No rule ends with the parenthesis of a tier before its own. *)
Lemma tier_no_rule u : nested 0 (u ++ [41]) = true → is_rule (js "(" ++ (u ++ [41]) ++ js ")") = Ok false.
Proof.
  intros Hn. set (w := js "(" ++ (u ++ [41]) ++ js ")").
  assert (factor_like w) as Hf by by exists (u ++ [41]).
  assert (solid w) as Hs by by apply solid_around.
  unfold is_rule, tryParseRequestRuleExpr. rewrite (solid_trim w Hs). destruct (is_empty w) eqn:Ew; [done|].
  assert (splitTopLevelMultiply w = [w]) as ->.
  { unfold splitTopLevelMultiply. change w with (join (js " * ") [w]) at 1.
    rewrite split_mul_join by (done || by apply Forall_singleton). apply list_filter_all. by apply Forall_singleton. }
  cbn [parse_factors]. unfold tryParseRuleGroupFactor.
  rewrite match_full_none; [done|]. intros c (e & n & E & _)%parses_factor. unfold w in E.
  apply (f_equal reverse) in E. rewrite !reverse_app in E. by cbn in E.
Qed.

Lemma split_closed base :
  closed 0 base = true → solid base → splitBillingExprAndRequestRules base = Ok (base, []).
Proof.
  intros Hc Hs. unfold splitBillingExprAndRequestRules, splitTopLevelMultiply. rewrite (solid_trim _ Hs).
  rewrite closed_unsplit by done. cbn [reverse app]. change (reverse [] ++ base) with base.
  rewrite (solid_trim _ Hs). destruct Hs as [Hne _]. rewrite list_filter_all by by apply Forall_singleton.
  by destruct base.
Qed.

(** Combining with rules and splitting keep both. *)
Lemma split_standing base gs :
  standing base → Forall wf_group gs →
  splitBillingExprAndRequestRules (combineBillingExpr base (buildRequestRuleExpr gs))
  = Ok (base, buildRequestRuleExpr gs).
Proof.
  intros (Hc & Hs & Hp & u & Eu) Hgs. assert (base ≠ []) by (by destruct Hs). destruct gs as [|g gs].
  - assert (combineBillingExpr base (buildRequestRuleExpr []) = base) as ->
      by (unfold combineBillingExpr; rewrite (solid_trim _ Hs); by destruct base).
    by apply split_closed.
  - apply split_combine; [|done|done]. apply closed_nested in Hc.
    split_and!; [done|by apply solid_trim|done|done|]. rewrite Eu. apply tier_no_rule. by rewrite <-Eu.
Qed.
