(* ===== verification/TieredEditor.v ===== *)
(** * The tiered pricing editor

    [TieredEditor] models
    web/default/src/features/system-settings/models/tiered-pricing-editor.tsx: the
    editor of a model's billing expression, by tiers ([VisualTiers]) and request
    rules ([RequestRules]) or as one text, inside the panel that holds the two
    expressions (model-pricing-sheet.tsx).  [DraftNumber] is its number field.

    An event runs its handler, which changes the editor's state and hands new
    expressions to the panel; the panel passes them back as properties, and the
    effects that depend on what changed run then ([step]).  Reading rules may
    throw: inside an effect or while rendering this takes the page down ([Throw]).
    The cost estimator compiles the expression as code and is not modelled. *)

From stdpp Require Import base list strings.
From Stdlib Require Import ZArith Lia SpecFloat.
From S2P Require Import Prelude JsString JsNumber JsValue JsJson JsRegex BillingExpr BillingPatterns BillingRules TierExpr TierRules TierSplit.
#[local] Open Scope Z_scope.

(** ** Number fields *)

Module DraftNumber.

(** [number | string] *)
Inductive FieldValue := FNum (x : num) | FStr (s : jsstr).

Definition formatNumberDraft (value : FieldValue) : jsstr :=
  match value with
  | FNum x => if is_finite x then num_to_str x else js "0"
  | FStr s => s
  end.

Definition parseNumberDraft (value : jsstr) : num :=
  if is_empty (trim value) then num_zero
  else let next := str_to_num value in if is_finite next then next else num_zero.

Definition isZeroDraft (value : jsstr) : bool :=
  negb (is_empty (trim value)) && num_eqb (parseNumberDraft value) num_zero.

(** The field's state and the numbers it reported. *)
Record Field := MkField { draft : jsstr; focused : bool; reported : list num }.

Definition field_mounted (value : FieldValue) : Field := MkField (formatNumberDraft value) false [].

Definition sync_effect (value : FieldValue) (f : Field) : Field :=
  if focused f then f else MkField (formatNumberDraft value) (focused f) (reported f).

Definition handleChange (nextDraft : jsstr) (f : Field) : Field :=
  MkField nextDraft (focused f) (reported f ++ [parseNumberDraft nextDraft]).

(** The text is selected when it shows a zero. *)
Definition handleFocus (selectZeroOnFocus : bool) (f : Field) : Field * bool :=
  (MkField (draft f) true (reported f), selectZeroOnFocus && isZeroDraft (draft f)).

Definition handleBlur (f : Field) : Field :=
  let normalized := parseNumberDraft (draft f) in
  MkField (num_to_str normalized) false (reported f ++ [normalized]).

(** A field never reports anything but finite numbers, and leaving it shows the
    number it reported last. *)
Lemma parse_finite value : is_finite (parseNumberDraft value) = true.
Proof. unfold parseNumberDraft. repeat case_match; done. Qed.

Inductive FieldEvent := Change (draft : jsstr) | Focus (selectZero : bool) | Blur | Sync (value : FieldValue).

Definition field_step (f : Field) (e : FieldEvent) : Field :=
  match e with
  | Change d => handleChange d f
  | Focus z => (handleFocus z f).1
  | Blur => handleBlur f
  | Sync v => sync_effect v f
  end.

Theorem reported_numbers_finite (value : FieldValue) (evs : list FieldEvent) :
  let f := foldl field_step (field_mounted value) evs in
  Forall (λ x, is_finite x = true) (reported f) ∧
  let g := handleBlur f in draft g = num_to_str (default num_zero (last (reported g))) ∧ focused g = false.
Proof.
  cbn zeta. split.
  - cut (∀ f, Forall (λ x, is_finite x = true) (reported f) →
              Forall (λ x, is_finite x = true) (reported (foldl field_step f evs))); [auto using Forall_nil_2|].
    induction evs as [|e evs IH]; [done|]. intros f Hf. apply IH.
    destruct e; cbn [field_step handleChange handleBlur reported]; try done.
    + apply Forall_app. auto using Forall_nil_2, Forall_cons_2, parse_finite.
    + apply Forall_app. auto using Forall_nil_2, Forall_cons_2, parse_finite.
    + unfold sync_effect. by case_match.
  - unfold handleBlur. cbn [draft reported focused]. by rewrite last_snoc.
Qed.

End DraftNumber.

Module TieredEditor.
Import RequestRules VisualTiers.

(** ** Tiers *)

Definition OPS : list jsstr := map js ["<"; "<="; ">"; ">="]%string.

Definition CONDITION_INPUT_OPTIONS : list (jsstr * jsstr) :=
  [(js "len", js "Full input length"); (js "p", js "Billable input tokens");
   (js "c", js "Billable output tokens")].

(** [priceToUnitCost] and [unitCostToPrice] of a number *)
Definition priceToUnitCost (price : num) : num := or_zero price.
Definition unitCostToPrice (uc : num) : num := or_zero uc.

(** The fields of a tier that hold a price. *)
Inductive PriceKey := PerCall | InputCost | OutputCost | CacheRead | CacheCreate | CacheCreate1h
  | Image | ImageOutput | AudioInput | AudioOutput.

Definition set_price (k : PriceKey) (x : num) (t : VisualTier) : VisualTier :=
  let 'MkVisual l cs i o pc m cr cc c1 im io ai ao := t in
  match k with
  | PerCall => MkVisual l cs i o x m cr cc c1 im io ai ao
  | InputCost => MkVisual l cs x o pc m cr cc c1 im io ai ao
  | OutputCost => MkVisual l cs i x pc m cr cc c1 im io ai ao
  | CacheRead => MkVisual l cs i o pc m x cc c1 im io ai ao
  | CacheCreate => MkVisual l cs i o pc m cr x c1 im io ai ao
  | CacheCreate1h => MkVisual l cs i o pc m cr cc x im io ai ao
  | Image => MkVisual l cs i o pc m cr cc c1 x io ai ao
  | ImageOutput => MkVisual l cs i o pc m cr cc c1 im x ai ao
  | AudioInput => MkVisual l cs i o pc m cr cc c1 im io x ao
  | AudioOutput => MkVisual l cs i o pc m cr cc c1 im io ai x
  end.

Definition set_conditions (cs : list TierConditionInput) (t : VisualTier) : VisualTier :=
  let 'MkVisual l _ i o pc m cr cc c1 im io ai ao := t in MkVisual l cs i o pc m cr cc c1 im io ai ao.
Definition set_label (l : jsstr) (t : VisualTier) : VisualTier :=
  let 'MkVisual _ cs i o pc m cr cc c1 im io ai ao := t in MkVisual l cs i o pc m cr cc c1 im io ai ao.
Definition set_cache_mode (m : CacheMode) (t : VisualTier) : VisualTier :=
  let 'MkVisual l cs i o pc _ cr cc c1 im io ai ao := t in MkVisual l cs i o pc m cr cc c1 im io ai ao.

(** [tiers.filter((_, i) => i !== index)] *)
Definition remove_at {A} (index : nat) (l : list A) : list A := take index l ++ drop (S index) l.

(** What a tier card hands to [onChange]. *)
Inductive TierEdit :=
| ConditionChange (i : nat) (next : TierConditionInput)
| ConditionRemove (i : nat)
| PriceChange (k : PriceKey) (value : num)
| CacheModeChange (m : CacheMode)
| LabelChange (l : jsstr).

Definition handleCacheModeChange (m : CacheMode) (t : VisualTier) : VisualTier :=
  set_price CacheCreate1h
    match m with CACHE_MODE_TIMED => cache_create_1h_unit_cost t | CACHE_MODE_GENERIC => num_zero end
    (set_cache_mode m t).

Definition card_edit (e : TierEdit) (t : VisualTier) : VisualTier :=
  match e with
  | ConditionChange i next => set_conditions (<[i:=next]> (VisualTiers.conditions t)) t
  | ConditionRemove i => set_conditions (remove_at i (VisualTiers.conditions t)) t
  | PriceChange PerCall value => set_price PerCall value t
  | PriceChange k value => set_price k (priceToUnitCost value) t
  | CacheModeChange m => handleCacheModeChange m t
  | LabelChange l => set_label l t
  end.

Definition normalize (t : VisualTier) : VisualTier := normalizeVisualTier (VisualTiers.as_partial t).

(** [{ var, op: '<', value: 200000 }] *)
Definition default_condition (v : jsstr) : TierConditionInput :=
  MkInput v (js "<") (VNum (num_of_Z 200000)).

Definition handleTierChange (index : nat) (next : VisualTier) (tiers : VisualConfig) : VisualConfig :=
  <[index:=normalize next]> tiers.

Definition bound_last (tiers : VisualConfig) : VisualConfig :=
  match last tiers with
  | Some t =>
      if (length (VisualTiers.conditions t) =? 0)%nat
      then <[(length tiers - 1)%nat := normalize (set_conditions [default_condition (js "len")] t)]> tiers
      else tiers
  | None => tiers
  end.

Definition new_tier (n : nat) : VisualTier :=
  normalizeVisualTier
    (MkPartialTier (Some (js "tier_" ++ Z_to_str (Z.of_nat n))) (Some []) (Some num_zero)
       (Some num_zero) (Some num_zero) None []).

Definition handleAddTier (tiers : VisualConfig) : VisualConfig :=
  bound_last tiers ++ [new_tier (length tiers + 1)].

Definition handleRemoveTier (index : nat) (tiers : VisualConfig) : VisualConfig :=
  let rest := remove_at index tiers in
  if (0 <? length rest)%nat then rest else tiers.

(** [None]: nothing is handed on. *)
Definition handleAddCondition (index : nat) (tiers : VisualConfig) : option VisualConfig :=
  match tiers !! index with
  | None => None
  | Some tier =>
      let cs := VisualTiers.conditions tier in
      if (2 <=? length cs)%nat then None
      else
        let nextVar := if decide (js "len" ∈ map VisualTiers.var cs) then js "c" else js "len" in
        Some (<[index:=set_conditions (cs ++ [default_condition nextVar]) tier]> tiers)
  end.

(** The controls of the tier list; removing is disabled for a single tier. *)
Inductive VisualEvent :=
| TierChange (index : nat) (e : TierEdit)
| AddTier
| RemoveTier (index : nat)
| AddCondition (index : nat).

Definition visual_edit (e : VisualEvent) (tiers : VisualConfig) : option VisualConfig :=
  match e with
  | TierChange i e =>
      match tiers !! i with
      | Some t => Some (handleTierChange i (card_edit e t) tiers)
      | None => None
      end
  | AddTier => Some (handleAddTier tiers)
  | RemoveTier i => if (length tiers <=? 1)%nat then None else Some (handleRemoveTier i tiers)
  | AddCondition i => handleAddCondition i tiers
  end.

(** ** Request rules *)

(** What a condition row hands to [onChange]. *)
Inductive ConditionEdit :=
| SourceChange (source : jsstr)
| ModeChange (mode : jsstr)
| FuncChange (f : TimeFunc)
| ZoneChange (tz : jsstr)
| RangeStartChange (x : num)
| RangeEndChange (x : num)
| TimeValueChange (x : num)
| PathChange (path : jsstr)
| ValueChange (value : jsstr).

Definition handleSourceChange (source : jsstr) (c : RequestCondition) : RequestCondition :=
  if decide (source = js "time") then Time createEmptyTimeCondition
  else if decide (source = js "header") then PH (MkPH Header [] MATCH_EQ [])
  else if decide (source = js "param") then PH createEmptyCondition
  else c.

Definition row_edit (e : ConditionEdit) (c : RequestCondition) : RequestCondition :=
  match e, c with
  | SourceChange source, _ => handleSourceChange source c
  | ModeChange m, Time (MkTime f tz _ v a b) => Time (MkTime f tz m v a b)
  | ModeChange m, PH (MkPH s p _ v) => PH (MkPH s p m v)
  | FuncChange f, Time (MkTime _ tz m v a b) => Time (MkTime f tz m v a b)
  | ZoneChange tz, Time (MkTime f _ m v a b) => Time (MkTime f tz m v a b)
  | RangeStartChange x, Time (MkTime f tz m v _ b) => Time (MkTime f tz m v (num_to_str x) b)
  | RangeEndChange x, Time (MkTime f tz m v a _) => Time (MkTime f tz m v a (num_to_str x))
  | TimeValueChange x, Time (MkTime f tz m _ a b) => Time (MkTime f tz m (num_to_str x) a b)
  | PathChange p, PH (MkPH s _ m v) => PH (MkPH s p m v)
  | ValueChange v, PH (MkPH s p m _) => PH (MkPH s p m v)
  | _, _ => c
  end.

Inductive GroupEdit :=
| RuleConditionChange (i : nat) (e : ConditionEdit)
| RuleConditionRemove (i : nat)
| RuleConditionAdd (timeMode : bool)
| MultiplierChange (x : num).

Definition group_edit (e : GroupEdit) (g : RequestRuleGroup) : RequestRuleGroup :=
  let cs := RequestRules.conditions g in
  match e with
  | RuleConditionChange i e => MkGroup (alter (row_edit e) i cs) (multiplier g)
  | RuleConditionRemove i => MkGroup (remove_at i cs) (multiplier g)
  | RuleConditionAdd timeMode =>
      MkGroup (cs ++ [if timeMode then Time createEmptyTimeCondition else PH createEmptyCondition])
        (multiplier g)
  | MultiplierChange x => MkGroup cs (num_to_str x)
  end.

Inductive RuleEvent :=
| GroupChange (i : nat) (e : GroupEdit)
| GroupRemove (i : nat)
| GroupAdd.

Definition rules_edit (e : RuleEvent) (gs : list RequestRuleGroup) : list RequestRuleGroup :=
  match e with
  | GroupChange i e => alter (group_edit e) i gs
  | GroupRemove i => remove_at i gs
  | GroupAdd => gs ++ [createEmptyRuleGroup]
  end.

(** ** Presets *)

Record Preset := MkPreset { key : jsstr; expr : jsstr; requestRules : list RequestRuleGroup }.

(** A text of the source with its quotation marks written as apostrophes. *)
Definition quoted (s : string) : jsstr := replace_char 39 34 (js s).

Definition preset (k : string) (e : string) (rules : list RequestRuleGroup) : Preset :=
  MkPreset (js k) (quoted e) rules.

Definition on_weekday (d : string) : RequestRuleGroup :=
  MkGroup [Time (MkTime weekday (js "Asia/Shanghai") MATCH_EQ (js d) [] [])] (js "0.8").

Definition service_tier (v m : string) : RequestRuleGroup :=
  MkGroup [PH (MkPH Param (js "service_tier") MATCH_EQ (js v))] (js m).

Definition PRESETS : list Preset :=
  [preset "flat" "tier('base', p * 2 + c * 4)" [];
   preset "claude-opus" "tier('base', p * 5 + c * 25 + cr * 0.5 + cc * 6.25 + cc1h * 10)" [];
   preset "gpt-5.4" "len <= 272000 ? tier('standard', p * 2.5 + c * 15 + cr * 0.25) : tier('long_context', p * 5 + c * 22.5 + cr * 0.5)" [];
   preset "percall-flat" "tier('base', call(5))" [];
   preset "percall-tiered" "len <= 128000 ? tier('short', call(3)) : tier('long', call(5))" [];
   preset "percall-plus-usage" "tier('base', call(3) + p * 2 + c * 6)" [];
   preset "claude-sonnet" "len <= 200000 ? tier('standard', p * 3 + c * 15 + cr * 0.3 + cc * 3.75 + cc1h * 6) : tier('long_context', p * 6 + c * 22.5 + cr * 0.6 + cc * 7.5 + cc1h * 12)" [];
   preset "qwen3-max" "len <= 32000 ? tier('short', p * 1.2 + c * 6 + cr * 0.24 + cc * 1.5) : len <= 128000 ? tier('mid', p * 2.4 + c * 12 + cr * 0.48 + cc * 3) : tier('long', p * 3 + c * 15 + cr * 0.6 + cc * 3.75)" [];
   preset "glm-4.5-air" "len < 32000 && c < 200 ? tier('short_output', p * 0.8 + c * 2 + cr * 0.16) : len < 32000 && c >= 200 ? tier('long_output', p * 0.8 + c * 6 + cr * 0.16) : tier('mid_context', p * 1.2 + c * 8 + cr * 0.24)" [];
   preset "doubao-seed-1.8" "len <= 32000 && c <= 200 ? tier('discount', p * 0.8 + c * 2 + cr * 0.16 + cc * 0.17) : len <= 32000 ? tier('short', p * 0.8 + c * 8 + cr * 0.16 + cc * 0.17) : len <= 128000 ? tier('mid', p * 1.2 + c * 16 + cr * 0.16 + cc * 0.17) : tier('long', p * 2.4 + c * 24 + cr * 0.16 + cc * 0.17)" [];
   preset "gpt-image-1-mini" "tier('base', p * 2 + c * 8 + img * 2.5)" [];
   preset "gemini-2.5-flash" "tier('base', p * 0.3 + c * 2.5 + cr * 0.03 + ai * 1.0)" [];
   preset "gemini-3-pro-image" "tier('base', p * 2 + c * 12 + img_o * 120)" [];
   preset "qwen3-omni-flash" "tier('base', p * 0.43 + c * 3.06 + img * 0.78 + ai * 3.81 + ao * 15.11)" [];
   preset "claude-opus-fast" "tier('base', p * 5 + c * 25 + cr * 0.5 + cc * 6.25 + cc1h * 10)"
     [MkGroup [PH (MkPH Header (js "anthropic-beta") MATCH_CONTAINS (js "fast-mode-2026-02-01"))] (js "6")];
   preset "gpt-5.4-tiers" "len <= 272000 ? tier('standard', p * 2.5 + c * 15 + cr * 0.25) : tier('long_context', p * 5 + c * 22.5 + cr * 0.5)"
     [service_tier "priority" "2"; service_tier "flex" "0.5"];
   preset "night-discount" "tier('base', p * 3 + c * 15)"
     [MkGroup [Time (MkTime hour (js "Asia/Shanghai") MATCH_RANGE [] (js "21") (js "6"))] (js "0.5")];
   preset "weekend-discount" "tier('base', p * 3 + c * 15)" [on_weekday "0"; on_weekday "6"]].

(** ** The editor *)

(** What the panel passes down. *)
Record Props := MkProps { modelName : jsstr; billingExpr : jsstr; requestRuleExpr : jsstr }.

Inductive EditorMode := Visual | Raw.

#[export] Instance EditorMode_eq_dec : EqDecision EditorMode.
Proof. solve_decision. Defined.

(** [warnings] counts the messages of refused changes of mode. *)
Record Editor := MkEditor {
  editorMode : EditorMode;
  visualConfig : option VisualConfig;
  rawExpr : jsstr;
  requestRuleGroups : list RequestRuleGroup;
  initRef : bool;
  warnings : nat;
}.

Record Page := MkPage { props : Props; editor : Editor }.

Definition publish_expr (next : jsstr) (p : Props) : Props := MkProps (modelName p) next (requestRuleExpr p).
Definition publish_rules (next : jsstr) (p : Props) : Props := MkProps (modelName p) (billingExpr p) next.

Definition set_initRef (b : bool) (e : Editor) : Editor :=
  MkEditor (editorMode e) (visualConfig e) (rawExpr e) (requestRuleGroups e) b (warnings e).

(** [tryParseRequestRuleExpr(currentRequestRuleExpr) || []] *)
Definition read_groups (rules : jsstr) : res (list RequestRuleGroup) :=
  let* parsed := tryParseRequestRuleExpr rules in Ok (default [] parsed).

(** The initial state. *)
Definition initial (p : Props) : res Editor :=
  let mode :=
    if negb (is_empty (billingExpr p)) && is_none (tryParseVisualConfig (billingExpr p)) then Raw else Visual in
  let* groups := read_groups (requestRuleExpr p) in
  Ok (MkEditor mode (tryParseVisualConfig (billingExpr p))
        (combineBillingExpr (billingExpr p) (requestRuleExpr p)) groups false 0).

(** The effect on the two expressions. *)
Definition init_effect (p : Props) (e : Editor) : res Editor :=
  if initRef e then Ok e
  else
    let '(mode, config) :=
      match tryParseVisualConfig (billingExpr p) with
      | Some parsedConfig => (Visual, Some parsedConfig)
      | None =>
          if is_empty (billingExpr p) then (editorMode e, Some createDefaultVisualConfig) else (Raw, None)
      end in
    let* groups := read_groups (requestRuleExpr p) in
    Ok (MkEditor mode config (combineBillingExpr (billingExpr p) (requestRuleExpr p)) groups true (warnings e)).

(** The effects after a change of the properties, in their order. *)
Definition effects (before after : Props) (e : Editor) : res Editor :=
  let* e :=
    if decide (billingExpr before = billingExpr after ∧ requestRuleExpr before = requestRuleExpr after)
    then Ok e else init_effect after e in
  Ok (if decide (modelName before = modelName after) then e else set_initRef false e).

Definition canUseVisualRules (p : Props) : res bool :=
  if is_empty (requestRuleExpr p) then Ok true
  else let* parsed := tryParseRequestRuleExpr (requestRuleExpr p) in Ok (negb (is_none parsed)).

Definition effectiveExpr (e : Editor) : res jsstr :=
  match editorMode e with
  | Visual => Ok (generateExprFromVisualConfig (visualConfig e))
  | Raw => let* parts := splitBillingExprAndRequestRules (rawExpr e) in Ok parts.1
  end.

(** What a rendering computes; the page is lost when it throws. *)
Definition render (p : Props) (e : Editor) : res (bool * jsstr) :=
  let* rules := canUseVisualRules p in
  let* expr := effectiveExpr e in
  Ok (rules, expr).

(** The first rendering and the effects after it. *)
Definition mount (p : Props) : res Page :=
  let* e := initial p in
  let* _ := render p e in
  let* e := init_effect p e in
  let e := set_initRef false e in
  let* _ := render p e in
  Ok (MkPage p e).

(** Handlers: the new state and the expressions the panel now holds.  A handler
    that throws keeps what it had set before. *)
Definition handleVisualChange (next : VisualConfig) (pg : Page) : Page :=
  let e := editor pg in
  MkPage (publish_expr (generateExprFromVisualConfig (Some next)) (props pg))
    (MkEditor (editorMode e) (Some next) (rawExpr e) (requestRuleGroups e) (initRef e) (warnings e)).

Definition handleRawChange (value : jsstr) (pg : Page) : Page :=
  let e := editor pg in
  MkPage
    match splitBillingExprAndRequestRules value with
    | Ok (billing, ruleStr) => publish_rules ruleStr (publish_expr billing (props pg))
    | Throw => props pg
    end
    (MkEditor (editorMode e) (visualConfig e) value (requestRuleGroups e) (initRef e) (warnings e)).

Definition warned (e : Editor) : Editor :=
  MkEditor (editorMode e) (visualConfig e) (rawExpr e) (requestRuleGroups e) (initRef e) (S (warnings e)).

Definition handleModeChange (next : EditorMode) (pg : Page) : Page :=
  let e := editor pg in
  match next with
  | Visual =>
      let attempt :=
        let* parts := splitBillingExprAndRequestRules (rawExpr e) in
        let parsed := tryParseVisualConfig parts.1 in
        let* parsedGroups := tryParseRequestRuleExpr parts.2 in
        Ok (parts, parsed, parsedGroups) in
      match attempt with
      | Throw => pg
      | Ok (_, _, None) => MkPage (props pg) (warned e)
      | Ok (parts, parsed, Some parsedGroups) =>
          if is_none parsed && negb (is_empty parts.1) then MkPage (props pg) (warned e)
          else
            MkPage (publish_rules parts.2 (publish_expr parts.1 (props pg)))
              (MkEditor Visual (Some (default createDefaultVisualConfig parsed)) (rawExpr e) parsedGroups
                 (initRef e) (warnings e))
      end
  | Raw =>
      MkPage (props pg)
        (MkEditor Raw (visualConfig e) (combineBillingExpr (billingExpr (props pg)) (requestRuleExpr (props pg)))
           (requestRuleGroups e) (initRef e) (warnings e))
  end.

Definition applyPreset (preset : Preset) (pg : Page) : Page :=
  let e := editor pg in
  let presetGroups := requestRules preset in
  let ruleExpr := buildRequestRuleExpr presetGroups in
  let combined := or_str (combineBillingExpr (expr preset) ruleExpr) (expr preset) in
  let parsed := tryParseVisualConfig (expr preset) in
  MkPage (publish_rules ruleExpr (publish_expr (expr preset) (props pg)))
    (MkEditor (if parsed then Visual else Raw) parsed combined presetGroups (initRef e) (warnings e)).

Definition handleRuleGroupsChange (next : list RequestRuleGroup) (pg : Page) : Page :=
  let e := editor pg in
  MkPage (publish_rules (buildRequestRuleExpr next) (props pg))
    (MkEditor (editorMode e) (visualConfig e) (rawExpr e) next (initRef e) (warnings e)).

(** What happens to the page; [PanelChange] is the panel passing other values. *)
Inductive Event :=
| VisualEdit (e : VisualEvent)
| RawEdit (value : jsstr)
| SwitchMode (m : EditorMode)
| ApplyPreset (p : Preset)
| RuleEdit (e : RuleEvent)
| PanelChange (p : Props).

(** The handler of an event, where its control is shown; the mode is reported
    when another one is selected. *)
Definition handle (ev : Event) (pg : Page) : Page :=
  match ev, editorMode (editor pg) with
  | VisualEdit ve, Visual =>
      match visual_edit ve (normalizeVisualConfig (visualConfig (editor pg))) with
      | Some next => handleVisualChange next pg
      | None => pg
      end
  | RawEdit value, Raw => handleRawChange value pg
  | SwitchMode m, mode => if decide (m = mode) then pg else handleModeChange m pg
  | ApplyPreset p, _ => applyPreset p pg
  | RuleEdit re, Visual =>
      match canUseVisualRules (props pg) with
      | Ok true => handleRuleGroupsChange (rules_edit re (requestRuleGroups (editor pg))) pg
      | _ => pg
      end
  | PanelChange p, _ => MkPage p (editor pg)
  | _, _ => pg
  end.

Definition step (ev : Event) (pg : Page) : res Page :=
  let next := handle ev pg in
  let* _ := render (props next) (editor next) in
  let* e := effects (props pg) (props next) (editor next) in
  let* _ := render (props next) e in
  Ok (MkPage (props next) e).

Fixpoint run (evs : list Event) (pg : Page) : res Page :=
  match evs with
  | [] => Ok pg
  | ev :: evs => let* pg := step ev pg in run evs pg
  end.

(** ** What the editor edits *)

(** The groups that have a factor in the text of the rules; the others are still
    being filled in. *)
Definition complete (gs : list RequestRuleGroup) : list RequestRuleGroup :=
  filter (λ g, buildRuleGroupFactor g ≠ []) gs.

(** Tiers and rules, as the administrator sees them, with the expression the
    panel has for the tiers; [stored] says whether an edit reached the panel
    since the editor was opened. *)
Record Prices := MkPrices {
  shown : EditorMode; tiers : VisualConfig; rules : list RequestRuleGroup;
  expression : jsstr; stored : bool;
}.

(** An edit hands over tiers, their expression and rules.  The first one that
    changes a text takes the unfinished groups away. *)
Definition handed (ts : VisualConfig) (text : jsstr) (gs : list RequestRuleGroup) (a : Prices) : Prices :=
  let same := bool_decide (text = expression a ∧ buildRequestRuleExpr gs = buildRequestRuleExpr (rules a)) in
  MkPrices Visual ts (if stored a || same then gs else complete gs) text (stored a || negb same).

Definition edited (ev : Event) (a : Prices) : Prices :=
  match ev, shown a with
  | VisualEdit ve, Visual =>
      match visual_edit ve (tiers a) with
      | Some next => handed next (generateExprFromVisualConfig (Some next)) (rules a) a
      | None => a
      end
  | RuleEdit re, Visual => handed (tiers a) (expression a) (rules_edit re (rules a)) a
  | SwitchMode Raw, Visual => MkPrices Raw (tiers a) (rules a) (expression a) (stored a)
  | SwitchMode Visual, Raw => MkPrices Visual (tiers a) (complete (rules a)) (expression a) (stored a)
  | ApplyPreset p, _ =>
      handed (default createDefaultVisualConfig (tryParseVisualConfig (expr p))) (expr p) (requestRules p) a
  | _, _ => a
  end.

Definition edit_all (evs : list Event) (a : Prices) : Prices := foldl (λ a ev, edited ev a) a evs.

Definition tidy (a : Prices) : Prop := priced (tiers a) ∧ Forall wf_group (complete (rules a)).

(** Edits of the tiers and rules, changes of mode and presets. *)
Definition editing (ev : Event) : Prop :=
  match ev with PanelChange _ | RawEdit _ => False | ApplyPreset p => p ∈ PRESETS | _ => True end.

Fixpoint tidy_run (evs : list Event) (a : Prices) : Prop :=
  match evs with
  | [] => True
  | ev :: evs => editing ev ∧ tidy (edited ev a) ∧ tidy_run evs (edited ev a)
  end.

(** The panel holds the texts of these prices. *)
Record holds (a : Prices) (p : Props) : Prop := {
  holds_tiers : tryParseVisualConfig (billingExpr p) = Some (tiers a);
  holds_expression : billingExpr p = expression a;
  holds_standing : standing (billingExpr p);
  holds_rules : requestRuleExpr p = buildRequestRuleExpr (rules a);
  holds_tidy : tidy a;
}.

(** The page shows these prices. *)
Definition shows (a : Prices) (pg : Page) : Prop :=
  holds a (props pg) ∧ editorMode (editor pg) = shown a ∧ initRef (editor pg) = stored a ∧
  match shown a with
  | Visual => visualConfig (editor pg) = Some (tiers a) ∧ requestRuleGroups (editor pg) = rules a
  | Raw => rawExpr (editor pg) = combineBillingExpr (billingExpr (props pg)) (requestRuleExpr (props pg))
  end.

(** The prices an editor opened on these tiers, rules and expression shows. *)
Definition opening (ts : VisualConfig) (gs : list RequestRuleGroup) (text : jsstr) : Prices :=
  MkPrices Visual ts gs text false.

Lemma wf_complete gs : Forall wf_group gs → complete gs = gs.
Proof.
  intros H. apply list_filter_all. eapply Forall_impl; [exact H|].
  intros g Hg. destruct (factor_shape g Hg) as (body & -> & _). done.
Qed.

Lemma complete_idem gs : complete (complete gs) = complete gs.
Proof. apply list_filter_all, Forall_forall. by intros g [Hg _]%list_elem_of_filter. Qed.

Lemma build_complete gs : buildRequestRuleExpr (complete gs) = buildRequestRuleExpr gs.
Proof.
  unfold buildRequestRuleExpr. f_equal. induction gs as [|g gs IH]; [done|]. unfold complete in *.
  cbn [map]. rewrite !filter_cons. destruct (decide (buildRuleGroupFactor g ≠ [])) as [H|H].
  - cbn [map]. rewrite filter_cons, decide_True by done. by rewrite IH.
  - done.
Qed.

Lemma complete_read gs :
  Forall wf_group (complete gs) → tryParseRequestRuleExpr (buildRequestRuleExpr gs) = Ok (Some (complete gs)).
Proof. intros H. rewrite <-build_complete. by apply rules_read_back. Qed.

Lemma holds_read_rules a p :
  holds a p → tryParseRequestRuleExpr (requestRuleExpr p) = Ok (Some (complete (rules a))).
Proof. intros [_ _ _ -> [_ Hr]]. by apply complete_read. Qed.

Lemma holds_split a p :
  holds a p →
  splitBillingExprAndRequestRules (combineBillingExpr (billingExpr p) (requestRuleExpr p))
  = Ok (billingExpr p, requestRuleExpr p).
Proof. intros [_ _ Hs -> [_ Hr]]. rewrite <-build_complete. by apply split_standing. Qed.

Lemma canUse_holds a p : holds a p → canUseVisualRules p = Ok true.
Proof. intros H. unfold canUseVisualRules. rewrite (holds_read_rules a) by done. by case_match. Qed.

Lemma shows_renders a pg : shows a pg → ∃ v, render (props pg) (editor pg) = Ok v.
Proof.
  intros (Hh & Hm & _ & Hv). unfold render, effectiveExpr. rewrite (canUse_holds a) by done. rewrite Hm.
  destruct (shown a); [by eexists|]. rewrite Hv, (holds_split a) by done. by eexists.
Qed.

(** Loading texts shows their tiers and the complete groups. *)
Lemma init_shows ts gs text b p e :
  holds (MkPrices Visual ts gs text b) p → initRef e = false →
  ∃ e', init_effect p e = Ok e' ∧ shows (MkPrices Visual ts (complete gs) text true) (MkPage p e').
Proof.
  intros H Hi. unfold init_effect, read_groups.
  rewrite Hi, (holds_tiers _ _ H), (holds_read_rules _ _ H). cbn [res_bind default from_option].
  eexists. split; [reflexivity|]. split; [|done]. destruct H as [H1 H2 H3 H4 H5]. cbn [tiers rules expression] in *.
  split; cbn [tiers rules expression props]; [done..| |].
  - by rewrite build_complete.
  - destruct H5. split; cbn [tiers rules]; [done|]. by rewrite complete_idem.
Qed.

(** The effects after a handler that leaves the model name. *)
Lemma effects_hand before ts gs text a p e :
  modelName before = modelName p → billingExpr before = expression a →
  requestRuleExpr before = buildRequestRuleExpr (rules a) →
  shows (MkPrices Visual ts gs text (stored a)) (MkPage p e) →
  ∃ e', effects before p e = Ok e' ∧ shows (handed ts text gs a) (MkPage p e').
Proof.
  intros Hn Hb Hr H. pose proof H as (Hh & _ & Hi & _). cbn in Hh, Hi.
  pose proof (holds_expression _ _ Hh) as Ht. pose proof (holds_rules _ _ Hh) as Hg. cbn in Ht, Hg.
  unfold effects, handed. rewrite Hb, Hr, Ht, Hg.
  case_decide as Hd.
  - cbn [res_bind]. rewrite decide_True by done. rewrite bool_decide_true by (by destruct Hd).
    rewrite orb_true_r, orb_false_r. eauto.
  - rewrite bool_decide_false by (intros [-> ?]; by apply Hd). rewrite orb_false_r, orb_true_r.
    destruct (stored a) eqn:Es.
    + unfold init_effect. rewrite Hi. cbn [res_bind]. rewrite decide_True by done. eauto.
    + destruct (init_shows _ _ _ _ _ _ Hh Hi) as (e' & -> & H'). cbn [res_bind]. rewrite decide_True by done. eauto.
Qed.

Lemma step_renders ev pg a e' :
  (∃ v, render (props (handle ev pg)) (editor (handle ev pg)) = Ok v) →
  effects (props pg) (props (handle ev pg)) (editor (handle ev pg)) = Ok e' →
  shows a (MkPage (props (handle ev pg)) e') →
  ∃ pg', step ev pg = Ok pg' ∧ shows a pg'.
Proof.
  intros [v Hv] He H. unfold step. rewrite Hv, He. cbn [res_bind]. destruct (shows_renders _ _ H) as [v' Hr].
  cbn [props editor] in Hr. rewrite Hr. cbn [res_bind]. eauto.
Qed.

(** A handler that hands over prices. *)
Lemma step_hand ev pg ts gs text a :
  holds a (props pg) → modelName (props pg) = modelName (props (handle ev pg)) →
  shows (MkPrices Visual ts gs text (stored a)) (handle ev pg) →
  ∃ pg', step ev pg = Ok pg' ∧ shows (handed ts text gs a) pg'.
Proof.
  intros [_ Hb _ Hr _] Hn H.
  destruct (effects_hand (props pg) ts gs text a (props (handle ev pg)) (editor (handle ev pg)))
    as (e' & He & H'); [done|done|done|by destruct (handle ev pg)|].
  eapply step_renders; [by eapply shows_renders|done|done].
Qed.

(** A handler that leaves the texts. *)
Lemma step_keeps ev pg a :
  shows a (handle ev pg) → props (handle ev pg) = props pg → ∃ pg', step ev pg = Ok pg' ∧ shows a pg'.
Proof.
  intros H Hp. apply (step_renders ev pg a (editor (handle ev pg))).
  - by eapply shows_renders.
  - unfold effects. rewrite Hp, decide_True by done. cbn [res_bind]. by rewrite decide_True by done.
  - by destruct (handle ev pg).
Qed.

(** ** Each event *)

Lemma tidy_normal a : tidy a → normalizeVisualConfig (Some (tiers a)) = tiers a.
Proof. intros [Hp _]. destruct (priced_wf _ Hp) as [Hne _]. by apply normalize_config_id; [|apply Hp]. Qed.

Lemma handed_tidy ts text gs a : tidy (handed ts text gs a) → priced ts ∧ Forall wf_group (complete gs).
Proof. intros [H1 H2]. cbn in *. destruct (stored a || _); [done|]. by rewrite complete_idem in H2. Qed.

Lemma visual_event_shows a ve pg :
  shows a pg → tidy (edited (VisualEdit ve) a) →
  ∃ pg', step (VisualEdit ve) pg = Ok pg' ∧ shows (edited (VisualEdit ve) a) pg'.
Proof.
  intros H Ht. pose proof H as (Hh & Hm & Hi & Hv). cbn [edited] in *.
  destruct (shown a) eqn:Es; [|by apply step_keeps; cbn [handle]; rewrite Hm].
  destruct Hv as [Hc Hg].
  assert (handle (VisualEdit ve) pg
    = match visual_edit ve (tiers a) with Some next => handleVisualChange next pg | None => pg end) as Hhandle
    by (cbn [handle]; by rewrite Hm, Hc, tidy_normal by apply Hh).
  destruct (visual_edit ve (tiers a)) as [next|]; [|by apply step_keeps; rewrite Hhandle].
  apply handed_tidy in Ht as [Hp Hr]. apply step_hand; [done|by rewrite Hhandle|]. rewrite Hhandle.
  split; [|done]. split; cbn; [|done| |apply Hh|done].
  - apply config_read_back; by apply priced_wf.
  - by apply priced_standing.
Qed.

Lemma rule_event_shows a re pg :
  shows a pg → tidy (edited (RuleEdit re) a) →
  ∃ pg', step (RuleEdit re) pg = Ok pg' ∧ shows (edited (RuleEdit re) a) pg'.
Proof.
  intros H Ht. pose proof H as (Hh & Hm & Hi & Hv). cbn [edited] in *.
  destruct (shown a) eqn:Es; [|by apply step_keeps; cbn [handle]; rewrite Hm].
  destruct Hv as [Hc Hg].
  assert (handle (RuleEdit re) pg = handleRuleGroupsChange (rules_edit re (rules a)) pg) as Hhandle
    by (cbn [handle]; by rewrite Hm, (canUse_holds a), Hg by done).
  apply handed_tidy in Ht as Ht'. apply step_hand; [done|by rewrite Hhandle|]. rewrite Hhandle.
  destruct Hh as [H1 H2 H3 H4 H5]. split; [by split|]. cbn. by rewrite Hm.
Qed.

Lemma mode_event_shows a m pg :
  shows a pg → ∃ pg', step (SwitchMode m) pg = Ok pg' ∧ shows (edited (SwitchMode m) a) pg'.
Proof.
  intros H. pose proof H as (Hh & Hm & Hi & Hv).
  destruct (decide (m = shown a)) as [->|Hne].
  { assert (edited (SwitchMode (shown a)) a = a) as -> by (by destruct a as [[]]).
    apply step_keeps; cbn [handle]; by rewrite Hm, decide_True by done. }
  assert (handle (SwitchMode m) pg = handleModeChange m pg) as Hhandle
    by (cbn [handle]; by rewrite Hm, decide_False by done).
  apply step_keeps; rewrite Hhandle; destruct Hh as [H1 H2 H3 H4 H5] eqn:E; clear E;
    destruct m, (shown a) eqn:Es; try done; unfold handleModeChange; cbn [edited]; rewrite ?Es.
  1, 3: rewrite Hv, (holds_split a) by done; cbn [res_bind fst snd];
        rewrite (holds_tiers a), (holds_read_rules a) by done; cbn [res_bind is_none andb default from_option].
  - destruct pg as [[n b r] e]. split; [|done]. split; cbn [tiers rules expression props billingExpr requestRuleExpr publish_rules publish_expr] in *; [done..| |].
    + by rewrite build_complete.
    + destruct H5. split; cbn [tiers rules]; [done|]. by rewrite complete_idem.
  - destruct pg as [[n b r] e]. done.
  - split; [by split|done].
Qed.


(** ** Presets *)

Definition ends_tier (base : jsstr) : bool := match last base with Some c => c =? 41 | None => false end.
Definition standing_check (base : jsstr) : bool :=
  closed 0 base && match base with x :: _ => negb (is_ws x) | [] => false end &&
  negb (hasFullOuterParens base) && ends_tier base.

Lemma standing_check_ok base : standing_check base = true → standing base.
Proof.
  unfold standing_check, ends_tier, standing. intros [[[Hc Hw]%andb_prop Hp]%andb_prop Hl]%andb_prop.
  destruct (last base) as [x|] eqn:El; [|done]. apply Z.eqb_eq in Hl as ->.
  apply last_Some in El as [u ->]. split_and!; [done| |by apply negb_true_iff|by exists u].
  split_and!; [by destruct u| |by rewrite reverse_snoc]. destruct u as [|y u]; [done|].
  by apply negb_true_iff in Hw.
Qed.

Fixpoint guarded_check (ts : list VisualTier) : bool :=
  match ts with
  | [] => false
  | [t] => (length (VisualTiers.conditions t) =? 0)%nat
  | t :: ts => (0 <? length (VisualTiers.conditions t))%nat && guarded_check ts
  end.

Lemma guarded_check_ok ts : guarded_check ts = true → guarded ts.
Proof.
  induction ts as [|t [|t' ts] IH]; [done| |].
  - cbn. by destruct (VisualTiers.conditions t).
  - intros [Ht Hts]%andb_prop. split; [|by apply IH]. by destruct (VisualTiers.conditions t).
Qed.

Definition priced_check (cfg : VisualConfig) : bool :=
  forallb tier_check cfg && guarded_check cfg && forallb (λ t, nested 0 (VisualTiers.label t)) cfg.

Lemma priced_check_ok cfg : priced_check cfg = true → priced cfg.
Proof.
  intros [[Ht Hg]%andb_prop Hl]%andb_prop.
  split_and!; [by eapply forallb_Forall, Ht; apply tier_check_ok|by apply guarded_check_ok|].
  by eapply forallb_Forall, Hl.
Qed.

Definition preset_check (p : Preset) : bool :=
  match tryParseVisualConfig (expr p) with Some c => priced_check c | None => false end &&
  standing_check (expr p).

Lemma preset_reads p :
  p ∈ PRESETS → standing (expr p) ∧ ∃ c, tryParseVisualConfig (expr p) = Some c ∧ priced c.
Proof.
  assert (forallb preset_check PRESETS = true) as H by (vm_compute; reflexivity).
  intros Hp. eapply forallb_forall in H; [|by apply list_elem_of_In].
  apply andb_prop in H as [H Hs%standing_check_ok]. split; [done|].
  destruct (tryParseVisualConfig (expr p)) as [c|]; [|done]. exists c. split; [done|by apply priced_check_ok].
Qed.


Lemma single_group c m : wf_condition c → balanced c → is_number m = true → wf_group (MkGroup [c] m).
Proof.
  intros Hc Hb Hm. split_and!; [|by apply Forall_singleton|done]. cbn [RequestRules.conditions].
  split_and!; [done|by apply Forall_singleton|cbn; lia|done].
Qed.

Ltac plain_text := apply plain_check; [lit_neq|vm_compute; reflexivity].

Lemma header_rule p v m :
  plain (js p) → trim (js p) = js p → trim (js v) = js v → code_units (js v) = true →
  nested 0 (js v) = true → is_number (js m) = true →
  wf_group (MkGroup [PH (MkPH Header (js p) MATCH_CONTAINS (js v))] (js m)).
Proof. intros. apply single_group; [|done..]. split_and!; [done..|]. right. split_and!; [done..|by left]. Qed.

Lemma service_rule v m :
  trim (js v) = js v → code_units (js v) = true → nested 0 (js v) = true → no_separator (js v) →
  is_number (js m) = true → wf_group (service_tier v m).
Proof.
  intros. apply single_group; [|done..]. split_and!; [plain_text|vm_compute; reflexivity|]. right.
  split_and!; [done..|by right].
Qed.

Lemma weekday_rule d : isTimeValueInRange weekday (js d) = true → wf_group (on_weekday d).
Proof.
  intros Hd. apply single_group; [|done|vm_compute; reflexivity]. split; [plain_text|]. right.
  split_and!; [by left|done..].
Qed.

Lemma preset_rules_wf p : p ∈ PRESETS → Forall wf_group (requestRules p).
Proof.
  assert (Forall (λ p, Forall wf_group (requestRules p)) PRESETS) as H; [|by rewrite Forall_forall in H; apply H].
  do 14 (apply Forall_cons_2; [apply Forall_nil_2|]).
  repeat apply Forall_cons_2; try apply Forall_nil_2; cbn [preset requestRules]; repeat apply Forall_cons_2; try apply Forall_nil_2.
  - apply header_rule; [plain_text|vm_compute; reflexivity..].
  - apply service_rule; [vm_compute; reflexivity..| |vm_compute; reflexivity]. by repeat constructor.
  - apply service_rule; [vm_compute; reflexivity..| |vm_compute; reflexivity]. by repeat constructor.
  - apply single_group; [|done|vm_compute; reflexivity]. split; [plain_text|]. left.
    split_and!; vm_compute; reflexivity.
  - apply weekday_rule. vm_compute. reflexivity.
  - apply weekday_rule. vm_compute. reflexivity.
Qed.

Lemma preset_event_shows a p pg :
  p ∈ PRESETS → shows a pg → tidy (edited (ApplyPreset p) a) →
  ∃ pg', step (ApplyPreset p) pg = Ok pg' ∧ shows (edited (ApplyPreset p) a) pg'.
Proof.
  intros [Hs (c & Hc & _)]%preset_reads (Hh & _ & Hi & _) Ht. cbn [edited] in *.
  apply handed_tidy in Ht as Ht'. apply step_hand; [done|done|]. cbn [handle].
  unfold applyPreset. rewrite Hc in *. cbn [default from_option] in *. by split; [split|].
Qed.

Lemma event_shows a ev pg :
  editing ev → shows a pg → tidy (edited ev a) → ∃ pg', step ev pg = Ok pg' ∧ shows (edited ev a) pg'.
Proof.
  intros He H Ht. destruct ev as [ve|v|m|p|re|p]; try done.
  - by apply visual_event_shows.
  - by apply mode_event_shows.
  - by apply preset_event_shows.
  - by apply rule_event_shows.
Qed.

Lemma run_shows evs a pg :
  shows a pg → tidy_run evs a → ∃ pg', run evs pg = Ok pg' ∧ shows (edit_all evs a) pg'.
Proof.
  revert a pg. induction evs as [|ev evs IH]; intros a pg H; [by exists pg|]. intros (He & Ht & Hr).
  destruct (event_shows a ev pg He H Ht) as (pg' & Hs & H'). cbn [run]. rewrite Hs. by apply IH.
Qed.

Lemma mount_shows ts gs p (a := opening ts gs (billingExpr p)) :
  holds a p → Forall wf_group gs → ∃ pg, mount p = Ok pg ∧ shows a pg.
Proof.
  intros H Hgs%wf_complete. unfold mount, initial, read_groups.
  rewrite (holds_read_rules _ _ H), (holds_tiers _ _ H). cbn [res_bind default from_option is_none]. rewrite andb_false_r.
  change (complete (rules a)) with (complete gs). change (tiers a) with ts. rewrite Hgs.
  set (e0 := MkEditor _ _ _ _ _ _).
  assert (shows a (MkPage p e0)) as H0 by (by split).
  destruct (shows_renders _ _ H0) as [v Hv]. cbn [props editor] in Hv. rewrite Hv. cbn [res_bind].
  destruct (init_shows ts gs (billingExpr p) false p e0) as (e1 & -> & H1); [done..|]. cbn [res_bind].
  assert (shows a (MkPage p (set_initRef false e1))) as H2
    by (rewrite Hgs in H1; destruct H1 as ([] & ? & _ & ?); by split).
  destruct (shows_renders _ _ H2) as [v1 Hv1]. cbn [props editor] in Hv1. rewrite Hv1. cbn [res_bind]. eauto.
Qed.

(** The texts of an editor, opened in another one. *)
Lemma reload_shows a p :
  holds a p →
  ∃ pg, mount p = Ok pg ∧ shows (opening (tiers a) (complete (rules a)) (expression a)) pg.
Proof.
  intros H. rewrite <-(holds_expression _ _ H). apply mount_shows; [|apply H].
  destruct H as [H1 H2 H3 H4 [H5 H6]]. split; cbn [opening tiers rules expression]; [done..| |].
  - by rewrite build_complete.
  - split; cbn [opening tiers rules]; [done|]. by rewrite complete_idem.
Qed.

Lemma tidy_run_app evs evs' a : tidy_run (evs ++ evs') a → tidy_run evs a.
Proof.
  revert a. induction evs as [|ev evs IH]; intros a; [done|]. cbn. intros (He & Ht & Hr). eauto.
Qed.


(** ** Properties *)

(** C9. The editor keeps the panel's texts and what it shows together.  It is
    opened on an expression that reads as well-formed tiers and on the text of
    well-formed rules, and then the tiers and rules are edited in the visual
    editor, modes are changed and presets of the list applied (no text is typed
    in the expression editor and the panel keeps its model), so that after each
    event the tiers are well formed and so is every rule group that has a text,
    the other groups being still filled in.  Then it does not crash, and the
    panel's texts and the page are those of the prices the same edits make of
    the tiers and rules: a change of mode leaves the texts, and rule groups
    without a text disappear with the first edit that changes a text and when
    the expression editor is left, besides the groups an edit or a preset itself
    removes. *)
Theorem editor_refines_prices (p : Props) (ts : VisualConfig) (gs : list RequestRuleGroup) (evs : list Event)
  (a := opening ts gs (billingExpr p)) (Hp : holds a p) (Hgs : Forall wf_group gs) (Hevs : tidy_run evs a) :
  ∃ pg pg', mount p = Ok pg ∧ shows a pg ∧ run evs pg = Ok pg' ∧ shows (edit_all evs a) pg'.
Proof.
  destruct (mount_shows ts gs p Hp Hgs) as (pg & Hm & H). destruct (run_shows evs a pg H Hevs) as (pg' & Hr & H').
  by exists pg, pg'.
Qed.

Definition sample_expr : jsstr := generateExprFromVisualConfig (Some sample_config).
Definition sample_props : Props := MkProps (js "model-a") sample_expr (buildRequestRuleExpr sample_rules).

(** A rule group filled in, field by field. *)
Definition header_edit (e : ConditionEdit) : Event := RuleEdit (GroupChange 2 (RuleConditionChange 0 e)).
Definition sample_group : RequestRuleGroup :=
  MkGroup [PH (MkPH Header (js "x-beta") MATCH_CONTAINS (js "1m"))] (js "2").

(** An unfinished group, lost with the first stored edit; a group filled in
    after it; changes of mode, a removed group and a preset. *)
Definition sample_edits : list Event :=
  [RuleEdit GroupAdd; VisualEdit (TierChange 0 (PriceChange InputCost (str_to_num (js "0.75"))));
   RuleEdit GroupAdd; header_edit (SourceChange (js "header")); header_edit (PathChange (js "x-beta"));
   header_edit (ModeChange MATCH_CONTAINS); header_edit (ValueChange (js "1m"));
   RuleEdit (GroupChange 2 (MultiplierChange (str_to_num (js "2")))); RuleEdit GroupAdd;
   SwitchMode Raw; SwitchMode Visual; RuleEdit (GroupRemove 0); VisualEdit AddTier].

Definition flat_preset : Preset := preset "flat" "tier('base', p * 2 + c * 4)" [].

Lemma sample_priced : priced sample_config.
Proof. apply priced_check_ok. vm_compute. reflexivity. Qed.

Lemma sample_held : holds (opening sample_config sample_rules sample_expr) sample_props.
Proof.
  split; cbn [sample_props billingExpr requestRuleExpr opening tiers rules].
  - apply config_read_back; apply priced_wf, sample_priced.
  - reflexivity.
  - apply priced_standing, sample_priced.
  - reflexivity.
  - split; [apply sample_priced|]. cbn [opening rules]. rewrite wf_complete; apply sample_rules_wf.
Qed.

Lemma tidy_check gs a : Forall wf_group gs → priced_check (tiers a) = true → complete (rules a) = gs → tidy a.
Proof. intros H Hp <-. by split; [apply priced_check_ok|]. Qed.

Lemma sample_group_wf : Forall wf_group (sample_rules ++ [sample_group]).
Proof.
  apply Forall_app. split; [apply sample_rules_wf|]. apply Forall_singleton.
  apply header_rule; [plain_text|vm_compute; reflexivity..].
Qed.

Lemma sample_run (a := opening sample_config sample_rules sample_expr) :
  tidy_run (sample_edits ++ [SwitchMode Raw; ApplyPreset flat_preset]) a.
Proof.
  pose proof sample_group_wf as H. pose proof sample_rules_wf as H1.
  assert (Forall wf_group (drop 1 (sample_rules ++ [sample_group]))) as H2 by (by apply Forall_drop).
  do 7 (split; [done|]; split; [apply (tidy_check _ _ H1); vm_compute; reflexivity|]).
  do 4 (split; [done|]; split; [apply (tidy_check _ _ H); vm_compute; reflexivity|]).
  do 3 (split; [done|]; split; [apply (tidy_check _ _ H2); vm_compute; reflexivity|]).
  split; [by left|]. split; [|done]. apply (tidy_check []); [constructor|vm_compute; reflexivity..].
Qed.

Lemma editor_refines_prices_witness (a := opening sample_config sample_rules sample_expr)
  (evs := sample_edits ++ [SwitchMode Raw; ApplyPreset flat_preset]) :
  ∃ pg pg', mount sample_props = Ok pg ∧ run evs pg = Ok pg' ∧ shows (edit_all evs a) pg'.
Proof.
  destruct (editor_refines_prices sample_props sample_config sample_rules evs) as (pg & pg' & H1 & _ & H2 & H3);
    [exact sample_held|exact sample_rules_wf|exact sample_run|].
  exists pg, pg'. exact (conj H1 (conj H2 H3)).
Defined.

(** The unfinished group is gone, the one added later is kept. *)
Lemma sample_edits_rules :
  rules (edit_all (take 1 sample_edits) (opening sample_config sample_rules sample_expr))
  = sample_rules ++ [createEmptyRuleGroup] ∧
  rules (edit_all (take 2 sample_edits) (opening sample_config sample_rules sample_expr)) = sample_rules ∧
  rules (edit_all (take 9 sample_edits) (opening sample_config sample_rules sample_expr))
  = sample_rules ++ [sample_group; createEmptyRuleGroup] ∧
  rules (edit_all (take 11 sample_edits) (opening sample_config sample_rules sample_expr))
  = sample_rules ++ [sample_group].
Proof. vm_compute. by split_and!. Qed.


(** Every preset opens in the tier editor: its expression parses into
    well-formed tiers, and the text of the whole preset splits into its
    expression and its rules, which read back. *)
Theorem presets_open (p : Preset) (Hp : p ∈ PRESETS) (rules := buildRequestRuleExpr (requestRules p)) :
  (∃ c, tryParseVisualConfig (expr p) = Some c ∧ priced c) ∧
  splitBillingExprAndRequestRules (combineBillingExpr (expr p) rules) = Ok (expr p, rules) ∧
  tryParseRequestRuleExpr rules = Ok (Some (requestRules p)).
Proof.
  destruct (preset_reads p Hp) as [Hs Hc]. pose proof (preset_rules_wf p Hp). split_and!; [done| |].
  - by apply split_standing.
  - by apply rules_read_back.
Qed.

Lemma presets_open_witness :
  let p := preset "weekend-discount" "tier('base', p * 3 + c * 15)" [on_weekday "0"; on_weekday "6"] in
  tryParseRequestRuleExpr (buildRequestRuleExpr (requestRules p)) = Ok (Some (requestRules p)).
Proof.
  apply (presets_open (preset "weekend-discount" "tier('base', p * 3 + c * 15)" [on_weekday "0"; on_weekday "6"])).
  unfold PRESETS. do 17 right. left.
Defined.

Lemma readable_renders p e :
  editorMode e = Visual → (∃ gs, tryParseRequestRuleExpr (requestRuleExpr p) = Ok gs) → ∃ v, render p e = Ok v.
Proof.
  intros Hm [gs Hr]. unfold render, canUseVisualRules, effectiveExpr. rewrite Hm, Hr. case_match; by eexists.
Qed.

(** C34. Where the model in the panel changes after an edit, the editor keeps
    the tiers of the model before: it shows them, and the next edit stores them,
    edited, as the prices of the model now in the panel. *)
Theorem model_switch_keeps_tiers (a : Prices) (pg : Page) (p : Props) (ve : VisualEvent) (next : VisualConfig)
  (H : shows a pg) (Hv : shown a = Visual) (Hinit : initRef (editor pg) = true)
  (Hname : modelName (props pg) ≠ modelName p)
  (Hrules : ∃ gs, tryParseRequestRuleExpr (requestRuleExpr p) = Ok gs)
  (Hnext : visual_edit ve (tiers a) = Some next) (Hpriced : priced next) :
  ∃ pg1 pg2,
    step (PanelChange p) pg = Ok pg1 ∧ props pg1 = p ∧ visualConfig (editor pg1) = Some (tiers a) ∧
    step (VisualEdit ve) pg1 = Ok pg2 ∧
    props pg2 = MkProps (modelName p) (generateExprFromVisualConfig (Some next)) (requestRuleExpr p).
Proof.
  destruct H as (Hh & Hm & _ & Hs). rewrite Hv in Hm, Hs. destruct Hs as [Hc Hg].
  set (e1 := set_initRef false (editor pg)). exists (MkPage p e1).
  assert (step (PanelChange p) pg = Ok (MkPage p e1)) as Hstep.
  { unfold step. cbn [handle props editor]. destruct (readable_renders p (editor pg) Hm Hrules) as [v ->].
    cbn [res_bind]. assert (effects (props pg) p (editor pg) = Ok e1) as ->.
    { unfold effects, init_effect. rewrite Hinit. case_decide; cbn [res_bind]; by rewrite decide_False. }
    cbn [res_bind]. by destruct (readable_renders p e1 Hm Hrules) as [v' ->]. }
  set (p2 := MkProps (modelName p) (generateExprFromVisualConfig (Some next)) (requestRuleExpr p)).
  destruct (priced_wf _ Hpriced) as [Hne Hwf]. destruct Hrules as [gs Hgs].
  assert (∃ e2, step (VisualEdit ve) (MkPage p e1) = Ok (MkPage p2 e2)) as [e2 He2].
  { unfold step. cbn [handle]. change (editorMode (editor (MkPage p e1))) with (editorMode (editor pg)).
    rewrite Hm. change (visualConfig (editor (MkPage p e1))) with (visualConfig (editor pg)).
    rewrite Hc, tidy_normal by apply Hh. rewrite Hnext. cbn [handleVisualChange props editor].
    change (publish_expr _ p) with p2.
    edestruct (readable_renders p2) as [v ->]; [exact Hm|by exists gs|]. cbn [res_bind].
    unfold effects. case_decide; cbn [res_bind].
    - rewrite decide_True by done. edestruct (readable_renders p2) as [v' ->]; [exact Hm|by exists gs|]. by eexists.
    - unfold init_effect, read_groups. cbn [e1 initRef set_initRef billingExpr requestRuleExpr p2].
      rewrite config_read_back, Hgs by done. cbn [res_bind]. rewrite decide_True by done.
      edestruct (readable_renders p2) as [v' ->]; [reflexivity|by exists gs|]. by eexists. }
  exists (MkPage p2 e2). by split_and!.
Qed.


(** The page opened on the sample, after an edit of a price. *)
Definition sample_edit : VisualEvent := TierChange 0 (PriceChange InputCost (str_to_num (js "0.75"))).
Definition sample_next : VisualConfig := default [] (visual_edit sample_edit sample_config).
Definition sample_page : Page :=
  let expr := generateExprFromVisualConfig (Some sample_next) in
  let rules := buildRequestRuleExpr sample_rules in
  MkPage (MkProps (js "model-a") expr rules)
    (MkEditor Visual (Some sample_next) (combineBillingExpr expr rules) sample_rules true 0).

Lemma sample_page_reached : (let* pg := mount sample_props in step (VisualEdit sample_edit) pg) = Ok sample_page.
Proof. vm_compute. reflexivity. Qed.

Lemma sample_next_priced : priced sample_next.
Proof. apply priced_check_ok. vm_compute. reflexivity. Qed.

Definition sample_prices : Prices :=
  MkPrices Visual sample_next sample_rules (generateExprFromVisualConfig (Some sample_next)) true.

Lemma sample_page_shows : shows sample_prices sample_page.
Proof.
  split; [|done]. split; cbn [sample_page props billingExpr requestRuleExpr sample_prices tiers rules].
  - apply config_read_back; apply priced_wf, sample_next_priced.
  - reflexivity.
  - apply priced_standing, sample_next_priced.
  - reflexivity.
  - split; [apply sample_next_priced|]. cbn [sample_prices rules]. rewrite wf_complete; apply sample_rules_wf.
Qed.

Definition other_model : Props := MkProps (js "model-b") (quoted "tier('base', p * 3 + c * 15)") [].

Lemma model_switch_keeps_tiers_witness :
  ∃ pg1 pg2, step (PanelChange other_model) sample_page = Ok pg1 ∧ step (VisualEdit (RemoveTier 0)) pg1 = Ok pg2 ∧
    props pg2 = MkProps (js "model-b") (generateExprFromVisualConfig (Some (drop 1 sample_next))) [].
Proof.
  destruct (model_switch_keeps_tiers sample_prices sample_page other_model
    (RemoveTier 0) (drop 1 sample_next)) as (pg1 & pg2 & H1 & _ & _ & H2 & H3).
  - exact sample_page_shows.
  - reflexivity.
  - reflexivity.
  - lit_neq.
  - by exists (Some []).
  - vm_compute. reflexivity.
  - apply priced_check_ok. vm_compute. reflexivity.
  - by exists pg1, pg2.
Defined.

(** The first edit of the text can leave the expression editor: while no
    edit was stored since the editor opened, a text whose expression is one the
    tier editor reads turns the page to the tier editor. *)
Theorem first_text_edit_turns_visual (pg : Page) (text expr rules : jsstr) (c : VisualConfig)
  (gs : option (list RequestRuleGroup))
  (Hm : editorMode (editor pg) = Raw) (Hi : initRef (editor pg) = false)
  (Hsplit : splitBillingExprAndRequestRules text = Ok (expr, rules))
  (Hc : tryParseVisualConfig expr = Some c) (Hr : tryParseRequestRuleExpr rules = Ok gs)
  (Hnew : expr ≠ billingExpr (props pg)) :
  ∃ pg', step (RawEdit text) pg = Ok pg' ∧ editorMode (editor pg') = Visual ∧
         billingExpr (props pg') = expr ∧ requestRuleExpr (props pg') = rules.
Proof.
  set (p := MkProps (modelName (props pg)) expr rules).
  assert (canUseVisualRules p = Ok (if decide (rules = []) then true else negb (is_none gs))) as Hcan.
  { unfold canUseVisualRules. cbn [p requestRuleExpr]. rewrite Hr. by destruct rules. }
  set (e := MkEditor Raw (visualConfig (editor pg)) text (requestRuleGroups (editor pg)) false (warnings (editor pg))).
  assert (handle (RawEdit text) pg = MkPage p e) as Hh.
  { cbn [handle]. rewrite Hm. unfold handleRawChange. by rewrite Hsplit, Hm, Hi. }
  unfold step. rewrite Hh. cbn [props editor]. unfold render at 1. rewrite Hcan. unfold effectiveExpr at 1.
  cbn [e editorMode rawExpr res_bind]. rewrite Hsplit. cbn [res_bind]. unfold effects.
  rewrite decide_False by (intros [E _]; by apply Hnew). unfold init_effect, read_groups.
  cbn [p e initRef billingExpr requestRuleExpr modelName]. rewrite Hc, Hr. cbn [res_bind].
  rewrite decide_True by done. fold p. unfold render. rewrite Hcan. unfold effectiveExpr.
  cbn [editorMode res_bind]. by eexists.
Qed.

Lemma first_text_edit_turns_visual_witness :
  ∃ pg, mount (MkProps (js "m") (js "p * 2 + c * 4 +") []) = Ok pg ∧
  ∃ pg', step (RawEdit (quoted "tier('base', p * 2 + c * 4)")) pg = Ok pg' ∧ editorMode (editor pg') = Visual.
Proof.
  eexists. split; [vm_compute; reflexivity|].
  edestruct (first_text_edit_turns_visual
    (MkPage (MkProps (js "m") (js "p * 2 + c * 4 +") []) (MkEditor Raw None (js "p * 2 + c * 4 +") [] false 0))
    (quoted "tier('base', p * 2 + c * 4)")) as (pg' & H1 & H2 & _).
  - reflexivity.
  - reflexivity.
  - vm_compute. reflexivity.
  - vm_compute. reflexivity.
  - vm_compute. reflexivity.
  - cbn. lit_neq.
  - exists pg'. split; [exact H1|exact H2].
Defined.

(** ** What the tier editor drops *)

Lemma tier_parts_last i ts t : tier_parts i (ts ++ [t]) = tier_parts i (ts ++ [set_conditions [] t]).
Proof.
  revert i. induction ts as [|t' ts IH]; intros i.
  - destruct t. reflexivity.
  - cbn [app tier_parts]. by rewrite IH, !length_app.
Qed.

(** The conditions of the last of several tiers are dropped: the tier's
    card offers them, the expression is the one of the tiers without them. *)
Theorem last_conditions_dropped (ts : list VisualTier) (t : VisualTier) (Hts : ts ≠ []) :
  generateExprFromVisualConfig (Some (ts ++ [t])) = generateExprFromVisualConfig (Some (ts ++ [set_conditions [] t])).
Proof.
  destruct ts as [|t1 [|t2 ts]]; [done| |]; unfold generateExprFromVisualConfig; cbn [app]; f_equal.
  - by apply (tier_parts_last 0 [t1]).
  - by apply (tier_parts_last 0 (t1 :: t2 :: ts)).
Qed.


Lemma last_conditions_dropped_witness :
  generateExprFromVisualConfig (Some (take 2 sample_config))
  = quoted "len < 32000 && c <= 4096 ? tier('short', p * 1.25 + c * 10 + cr * 0.125) : tier('long', call(0.01) + p * 2.5 + c * 15 + cr * 0.25 + cc1h * 5e-7)".
Proof.
  change (take 2 sample_config) with (take 1 sample_config ++ take 1 (drop 1 sample_config)).
  etransitivity; [exact (last_conditions_dropped (take 1 sample_config) _ ltac:(done))|]. vm_compute. reflexivity.
Defined.

(** A tier in the middle that lost its conditions breaks the expression: its
    text has no question mark before the colon that follows. *)
Lemma unguarded_middle_breaks :
  let t := sample_tier "t" [] "0" "1" "2" "0" "0" in
  let u := set_conditions [default_condition (js "len")] t in
  visual_edit (TierChange 1 (ConditionRemove 0)) [u; u; t] = Some [u; t; t] ∧
  generateExprFromVisualConfig (Some [u; t; t])
  = quoted "len < 200000 ? tier('t', p * 1 + c * 2) : tier('t', p * 1 + c * 2) : tier('t', p * 1 + c * 2)".
Proof. vm_compute. by split. Qed.

(** A text whose rules hold a malformed string takes the page down: typing
    it in the expression editor makes the rendering that follows throw. *)
Theorem malformed_rule_crashes (pg : Page) (text : jsstr)
  (Hm : editorMode (editor pg) = Raw) (Hs : splitBillingExprAndRequestRules text = Throw) :
  step (RawEdit text) pg = Throw.
Proof.
  unfold step. cbn [handle]. rewrite Hm. unfold handleRawChange. rewrite Hs. cbn [props editor].
  unfold render at 1, effectiveExpr at 1. cbn [editorMode rawExpr]. rewrite Hm, Hs. by destruct (canUseVisualRules _).
Qed.

Lemma malformed_rule_crashes_witness :
  ∃ pg, mount (MkProps (js "m") (js "max(p, c)") []) = Ok pg ∧
        step (RawEdit (quoted "(p * 1) * (has(header('x'), '\x') ? 2 : 1)")) pg = Throw.
Proof.
  eexists. split; [vm_compute; reflexivity|]. apply malformed_rule_crashes; [reflexivity|vm_compute; reflexivity].
Defined.

(** ** The list of tiers *)

Definition few_conditions (t : VisualTier) : Prop := (length (VisualTiers.conditions t) <= 2)%nat.

Lemma normalize_conditions t : VisualTiers.conditions (normalize t) = VisualTiers.conditions t.
Proof. by destruct t. Qed.
Lemma conditions_set cs t : VisualTiers.conditions (set_conditions cs t) = cs.
Proof. by destruct t. Qed.
Lemma conditions_price k x t : VisualTiers.conditions (set_price k x t) = VisualTiers.conditions t.
Proof. by destruct t, k. Qed.

Lemma remove_at_length {A} i (l : list A) : (length (remove_at i l) <= length l)%nat.
Proof. unfold remove_at. rewrite length_app, length_take, length_drop. lia. Qed.

Lemma remove_at_Forall {A} (P : A → Prop) i l : Forall P l → Forall P (remove_at i l).
Proof. intros H. apply Forall_app. split; [by apply Forall_take|by apply Forall_drop]. Qed.

Lemma card_few e t : few_conditions t → few_conditions (card_edit e t).
Proof.
  unfold few_conditions. intros H. destruct e as [i c|i|k x|m|l]; cbn [card_edit].
  - by rewrite conditions_set, length_insert.
  - rewrite conditions_set. pose proof (remove_at_length i (VisualTiers.conditions t)). lia.
  - destruct k; by rewrite conditions_price.
  - unfold handleCacheModeChange. rewrite conditions_price. by destruct t.
  - by destruct t.
Qed.

(** The tier list is never empty and no tier gets more than two conditions. *)
Theorem tier_list_bounded (e : VisualEvent) (ts next : VisualConfig)
  (Hts : ts ≠ [] ∧ Forall few_conditions ts) (He : visual_edit e ts = Some next) :
  next ≠ [] ∧ Forall few_conditions next.
Proof.
  destruct Hts as [Hne Hf].
  destruct e as [i e| |i|i]; cbn [visual_edit] in He.
  - destruct (ts !! i) as [t|] eqn:Et; [|done]. injection He as <-. unfold handleTierChange. split.
    + by destruct ts, i.
    + apply Forall_insert; [done|]. unfold few_conditions. rewrite normalize_conditions. apply card_few.
      by eapply Forall_lookup_1.
  - injection He as <-. unfold handleAddTier. split; [by destruct (bound_last ts)|]. apply Forall_app.
    split; [|by repeat constructor]. unfold bound_last. destruct (last ts) as [t|]; [|done]. case_match; [|done].
    apply Forall_insert; [done|]. unfold few_conditions. rewrite normalize_conditions, conditions_set. cbn. lia.
  - destruct (length ts <=? 1)%nat; [done|]. injection He as <-. unfold handleRemoveTier.
    destruct (Nat.ltb_spec 0 (length (remove_at i ts))); [|done].
    split; [by destruct (remove_at i ts); [simpl in *; lia|]|by apply remove_at_Forall].
  - unfold handleAddCondition in He. destruct (ts !! i) as [t|] eqn:Et; [|done].
    destruct (Nat.leb_spec 2 (length (VisualTiers.conditions t))); [done|]. injection He as <-. split.
    + by destruct ts, i.
    + apply Forall_insert; [done|]. unfold few_conditions. rewrite conditions_set, length_app. cbn. lia.
Qed.


(** Rules stored without an expression are lost by looking at the text. *)
Lemma rules_without_expression_lost :
  let p := MkProps (js "m") [] (buildRequestRuleExpr [on_weekday "0"]) in
  ∃ pg pg', mount p = Ok pg ∧ run [SwitchMode Raw; SwitchMode Visual] pg = Ok pg' ∧
            requestRuleExpr p ≠ [] ∧ requestRuleExpr (props pg') = [].
Proof.
  eexists _, _. split; [vm_compute; reflexivity|]. split; [vm_compute; reflexivity|]. split; [|reflexivity].
  vm_compute. discriminate.
Qed.

End TieredEditor.
