(* ===== verification/ModelPricing.v ===== *)
(** * The panel of a model's prices

    [PricingFormat] models
    web/default/src/features/system-settings/models/pricing-format.ts, the printing
    of prices and ratios with the noise of binary fractions removed.
    [ModelPricing] models model-pricing-sheet.tsx: the panel that shows a model's
    ratios as prices, derives the ratios again from edited prices, and submits.

    The six dependent prices (lanes) and their ratios are records over the lanes;
    [ratioFieldByLane] is the identity of the lanes.  The form library keeps the
    values and validates the name; the tier editor inside the panel is
    [TieredEditor], which hands its two texts to the panel. *)

From stdpp Require Import base list strings sets.
From Stdlib Require Import ZArith Lia SpecFloat.
From S2P Require Import Prelude JsString JsNumber JsValue JsRegex BillingExpr.
#[local] Open Scope Z_scope.

Module PricingFormat.

(** ** Numbers *)

Definition num_abs (x : num) : num :=
  match x with
  | S754_zero _ => S754_zero false
  | S754_infinity _ => S754_infinity false
  | S754_finite _ m e => S754_finite false m e
  | S754_nan => S754_nan
  end.

(** [Math.max(x, y)] of numbers that are not [NaN] *)
Definition num_max (x y : num) : num := if num_ltb x y then y else x.

(** The nearest integer to [x * 10 ^ digits] for [x >= 0], the larger of two. *)
Definition fixed_digits (digits : nat) (m : positive) (e : Z) : Z :=
  let scaled := Zpos m * 10 ^ Z.of_nat digits in
  if 0 <=? e then scaled * 2 ^ e else (2 * scaled + 2 ^ (- e)) / 2 ^ (1 - e).

Definition fixed_text (digits : nat) (n : Z) : jsstr :=
  let scale := 10 ^ Z.of_nat digits in
  let frac := Z_to_str (n mod scale) in
  if (digits =? 0)%nat then Z_to_str n
  else Z_to_str (n / scale) ++ 46 :: repeat 48 (digits - length frac) ++ frac.

(** [x.toFixed(digits)] *)
Definition to_fixed (digits : nat) (x : num) : jsstr :=
  match x with
  | S754_finite s m e =>
      if num_leb (num_of_Z (10 ^ 21)) (num_abs x) then num_to_str x
      else (if s then [45] else []) ++ fixed_text digits (fixed_digits digits m e)
  | S754_zero _ => fixed_text digits 0
  | _ => num_to_str x
  end.

(** [parseFloat(s)]: the longest decimal at the start, [NaN] without one. *)
Definition parseFloat (s : jsstr) : num :=
  let s := drop_ws s in
  let '(neg, r) :=
    match eat 45 s with
    | Some r => (true, r)
    | None => (false, match eat 43 s with Some r => r | None => s end)
    end in
  if starts_with (js "Infinity") r then S754_infinity neg
  else match read_decimal neg r with Some (x, _) => x | None => S754_nan end.

(** ** pricing-format.ts *)

Definition DISPLAY_DECIMALS : nat := 12.
Definition SNAP_DECIMALS : nat := 8.
Definition SNAP_EPSILON : num := str_to_num (js "1e-12").

(** [toNumberOrNull] of a number *)
Definition toNumberOrNull (value : num) : option num := if is_finite value then Some value else None.

Definition roundToDecimals (value : num) (decimals : nat) : num :=
  let factor := num_of_Z (10 ^ Z.of_nat decimals) in
  num_div (num_round (num_mul value factor)) factor.

(** [Number.EPSILON] *)
Definition EPSILON : num := num_div (num_of_Z 1) (num_of_Z (2 ^ 52)).

Definition tolerance (value : num) : num :=
  num_max SNAP_EPSILON (num_mul (num_mul (num_abs value) EPSILON) (num_of_Z 8)).

(** The loop from [decimals] on, with [n] rounds left. *)
Fixpoint snap_from (n : nat) (decimals : nat) (value : num) : num :=
  match n with
  | O => value
  | S n =>
      let rounded := roundToDecimals value decimals in
      if num_leb (num_abs (num_sub value rounded)) (tolerance value) then rounded
      else snap_from n (S decimals) value
  end.

Definition snapFloatDrift (value : num) : num := snap_from (S SNAP_DECIMALS) 0 value.

Definition formatPricingNumber (value : num) : jsstr :=
  match toNumberOrNull value with
  | None => []
  | Some num => num_to_str (parseFloat (to_fixed DISPLAY_DECIMALS (snapFloatDrift num)))
  end.

End PricingFormat.

Module ModelPricing.
Import PricingFormat.

(** ** Data *)

Inductive PricingMode := per_token | per_request | tiered_expr.

#[export] Instance PricingMode_eq_dec : EqDecision PricingMode.
Proof. solve_decision. Defined.

Inductive LaneKey := completion | cache | createCache | image | audioInput | audioOutput.

#[export] Instance LaneKey_eq_dec : EqDecision LaneKey.
Proof. solve_decision. Defined.

(** The keys of [laneConfigs] *)
Definition laneConfigs : list LaneKey := [completion; cache; createCache; image; audioInput; audioOutput].

(** [Record<LaneKey, A>] *)
Record Lanes (A : Type) := MkLanes {
  l_completion : A;
  l_cache : A;
  l_createCache : A;
  l_image : A;
  l_audioInput : A;
  l_audioOutput : A;
}.
#[global] Arguments MkLanes {A}.
#[global] Arguments l_completion {A}.
#[global] Arguments l_cache {A}.
#[global] Arguments l_createCache {A}.
#[global] Arguments l_image {A}.
#[global] Arguments l_audioInput {A}.
#[global] Arguments l_audioOutput {A}.

Definition lane {A} (k : LaneKey) (r : Lanes A) : A :=
  match k with
  | completion => l_completion r
  | cache => l_cache r
  | createCache => l_createCache r
  | image => l_image r
  | audioInput => l_audioInput r
  | audioOutput => l_audioOutput r
  end.

Definition set_lane {A} (k : LaneKey) (x : A) (r : Lanes A) : Lanes A :=
  let 'MkLanes a b c d e f := r in
  match k with
  | completion => MkLanes x b c d e f
  | cache => MkLanes a x c d e f
  | createCache => MkLanes a b x d e f
  | image => MkLanes a b c x e f
  | audioInput => MkLanes a b c d x f
  | audioOutput => MkLanes a b c d e x
  end.

(** A record from a function of the lane. *)
Definition lanes_of {A} (f : LaneKey → A) : Lanes A :=
  MkLanes (f completion) (f cache) (f createCache) (f image) (f audioInput) (f audioOutput).

Definition EMPTY_LANE_PRICES : Lanes jsstr := lanes_of (λ _, []).
Definition EMPTY_LANE_ENABLED : Lanes bool := lanes_of (λ _, false).

(** The values of the form: name, fixed price, base ratio, and the ratios of
    the lanes ([completionRatio], [cacheRatio], [createCacheRatio], [imageRatio],
    [audioRatio], [audioCompletionRatio]). *)
Record Values := MkValues { name : jsstr; price : jsstr; ratio : jsstr; ratios : Lanes jsstr }.

(** [None]: a property that is absent *)
Record ModelRatioData := MkData {
  d_name : jsstr;
  d_price : option jsstr;
  d_ratio : option jsstr;
  d_ratios : Lanes (option jsstr);
  d_billingMode : option PricingMode;
  d_billingExpr : option jsstr;
  d_requestRuleExpr : option jsstr;
}.

(** Digits with or without a fraction, a fraction alone, or nothing. *)
Definition numericDraftRegex : regex :=
  Opt ((Plus dig · Opt (lit "." · Star dig)) ∥ (lit "." · Star dig)).
Definition is_draft (value : jsstr) : bool := test_re (full numericDraftRegex) value.

(** ** Prices and ratios *)

Definition hasValue (value : option jsstr) : bool := negb (is_empty (default [] value)).

(** [toNumberOrNull] of an optional text *)
Definition text_number (value : option jsstr) : option num :=
  if hasValue value then toNumberOrNull (str_to_num (default [] value)) else None.

Definition ratioToBasePrice (ratio : option jsstr) : jsstr :=
  match text_number ratio with
  | None => []
  | Some x => formatPricingNumber (num_mul x (num_of_Z 2))
  end.

Definition deriveLanePrice (ratio : option jsstr) (denominator : jsstr) : jsstr :=
  match text_number ratio, text_number (Some denominator) with
  | Some r, Some d => formatPricingNumber (num_mul r d)
  | _, _ => []
  end.

(** The shown prices: of input, of the lanes, and which lanes are on. *)
Record LaneState := MkLaneState { s_prompt : jsstr; s_prices : Lanes jsstr; s_enabled : Lanes bool }.

Definition createInitialLaneState (data : option ModelRatioData) : LaneState :=
  match data with
  | None => MkLaneState [] EMPTY_LANE_PRICES EMPTY_LANE_ENABLED
  | Some d =>
      let promptPrice := ratioToBasePrice (d_ratio d) in
      let r k := lane k (d_ratios d) in
      let audioInputPrice := deriveLanePrice (r audioInput) promptPrice in
      let prices :=
        set_lane audioOutput (deriveLanePrice (r audioOutput) audioInputPrice)
          (set_lane audioInput audioInputPrice (lanes_of (λ k, deriveLanePrice (r k) promptPrice))) in
      MkLaneState promptPrice prices (lanes_of (λ k, hasValue (r k)))
  end.

Definition deriveLaneRatio (k : LaneKey) (price promptPrice : jsstr) (prices : Lanes jsstr) : jsstr :=
  match text_number (Some price) with
  | None => []
  | Some priceNumber =>
      let base := match k with audioOutput => lane audioInput prices | _ => promptPrice end in
      match text_number (Some base) with
      | None => []
      | Some b => if num_eqb b num_zero then [] else formatPricingNumber (num_div priceNumber b)
      end
  end.

(** ** The panel *)

(** The message of a field error, and the field it is set on. *)
Inductive FieldError := InputPriceRequired | AudioInputRequired | NameRequired.

Record Panel := MkPanel {
  editData : option ModelRatioData;
  pricingMode : PricingMode;
  promptPrice : jsstr;
  lanePrices : Lanes jsstr;
  laneEnabled : Lanes bool;
  billingExpr : jsstr;
  requestRuleExpr : jsstr;
  values : Values;
  defaults : Values;
  errors : list FieldError;
}.

(** [value || ''] *)
Definition or_empty (v : option jsstr) : jsstr := default [] v.

Definition empty_values : Values := MkValues [] [] [] (lanes_of (λ _, [])).

Definition data_values (d : ModelRatioData) : Values :=
  MkValues (d_name d) (or_empty (d_price d)) (or_empty (d_ratio d))
    (lanes_of (λ k, or_empty (lane k (d_ratios d)))).

(** The effect on [editData]: everything is set from the data. *)
Definition opened (data : option ModelRatioData) : Panel :=
  let next := createInitialLaneState data in
  let vs := match data with Some d => data_values d | None => empty_values end in
  let mode :=
    match data with
    | Some d =>
        if decide (d_billingMode d = Some tiered_expr) then tiered_expr
        else if hasValue (d_price d) then per_request else per_token
    | None => per_token
    end in
  MkPanel data mode (s_prompt next) (s_prices next) (s_enabled next)
    (or_empty (data ≫= d_billingExpr)) (or_empty (data ≫= d_requestRuleExpr)) vs vs [].

Definition setFormValue (k : LaneKey) (value : jsstr) (v : Values) : Values :=
  MkValues (name v) (price v) (ratio v) (set_lane k value (ratios v)).
Definition set_ratio (value : jsstr) (v : Values) : Values := MkValues (name v) (price v) value (ratios v).

Definition with_values (v : Values) (p : Panel) : Panel :=
  MkPanel (editData p) (pricingMode p) (promptPrice p) (lanePrices p) (laneEnabled p) (billingExpr p)
    (requestRuleExpr p) v (defaults p) (errors p).
Definition with_lanes (prompt : jsstr) (prices : Lanes jsstr) (enabled : Lanes bool) (p : Panel) : Panel :=
  MkPanel (editData p) (pricingMode p) prompt prices enabled (billingExpr p) (requestRuleExpr p)
    (values p) (defaults p) (errors p).

(** The base ratio of an input price. *)
Definition base_ratio (promptPrice : jsstr) : jsstr :=
  match text_number (Some promptPrice) with
  | Some x => formatPricingNumber (num_div x (num_of_Z 2))
  | None => []
  end.

Definition lane_ratio (k : LaneKey) (prompt : jsstr) (prices : Lanes jsstr) (enabled : Lanes bool) : jsstr :=
  if lane k enabled then deriveLaneRatio k (lane k prices) prompt prices else [].

Definition syncLaneRatios (prompt : jsstr) (prices : Lanes jsstr) (enabled : Lanes bool) (v : Values) : Values :=
  foldl (λ v k, setFormValue k (lane_ratio k prompt prices enabled) v) (set_ratio (base_ratio prompt) v) laneConfigs.

Definition handlePromptPriceChange (value : jsstr) (p : Panel) : Panel :=
  if is_draft value then
    with_values (syncLaneRatios value (lanePrices p) (laneEnabled p) (values p))
      (with_lanes value (lanePrices p) (laneEnabled p) p)
  else p.

Definition handleLanePriceChange (k : LaneKey) (value : jsstr) (p : Panel) : Panel :=
  if is_draft value then
    let next := set_lane k value (lanePrices p) in
    let derive k' price v := setFormValue k' (deriveLaneRatio k' price (promptPrice p) next) v in
    let v := if lane k (laneEnabled p) then derive k value (values p) else values p in
    let v :=
      if bool_decide (k = audioInput) && lane audioOutput (laneEnabled p)
      then derive audioOutput (lane audioOutput next) v else v in
    with_values v (with_lanes (promptPrice p) next (laneEnabled p) p)
  else p.

Definition handleLaneToggle (k : LaneKey) (checked : bool) (p : Panel) : Panel :=
  let nextEnabled := set_lane k checked (laneEnabled p) in
  if checked then
    with_values
      (setFormValue k (deriveLaneRatio k (lane k (lanePrices p)) (promptPrice p) (lanePrices p)) (values p))
      (with_lanes (promptPrice p) (lanePrices p) nextEnabled p)
  else
    let nextPrices := set_lane k [] (lanePrices p) in
    let v := setFormValue k [] (values p) in
    if decide (k = audioInput) then
      with_values (setFormValue audioOutput [] v)
        (with_lanes (promptPrice p) (set_lane audioOutput [] nextPrices) (set_lane audioOutput false nextEnabled) p)
    else with_values v (with_lanes (promptPrice p) nextPrices nextEnabled p).

(** A text of the source with its quotation marks written as apostrophes. *)
Definition DEFAULT_EXPR : jsstr := replace_char 39 34 (js "tier('base', p * 0 + c * 0)").

Definition handleModeChange (mode : PricingMode) (p : Panel) : Panel :=
  MkPanel (editData p) mode (promptPrice p) (lanePrices p) (laneEnabled p)
    (if decide (mode = tiered_expr) then if is_empty (billingExpr p) then DEFAULT_EXPR else billingExpr p
     else billingExpr p)
    (requestRuleExpr p) (values p) (defaults p) (errors p).

(** ** Warnings and submission *)

(** Dependent prices without an input price. *)
Definition prompt_missing (p : Panel) : bool :=
  bool_decide (pricingMode p = per_token) && is_none (text_number (Some (promptPrice p))) &&
  existsb (λ k, lane k (laneEnabled p) && hasValue (Some (lane k (lanePrices p)))) laneConfigs.

(** An audio output price without an audio input price. *)
Definition audio_missing (p : Panel) : bool :=
  bool_decide (pricingMode p = per_token) && lane audioOutput (laneEnabled p) &&
  negb (hasValue (Some (lane audioInput (lanePrices p)))).

Inductive Warning := Conflict | InputPrice | AudioInput.

Definition hasConflict (data : option ModelRatioData) : bool :=
  match data with
  | Some d =>
      hasValue (d_price d) &&
      (hasValue (d_ratio d) || existsb (λ k, hasValue (lane k (d_ratios d))) laneConfigs)
  | None => false
  end.

Definition warnings (p : Panel) : list Warning :=
  (if hasConflict (editData p) then [Conflict] else []) ++
  (if prompt_missing p then [InputPrice] else []) ++
  (if audio_missing p then [AudioInput] else []).

Definition submitted (p : Panel) : ModelRatioData :=
  let v := values p in
  let tiered x := if decide (pricingMode p = tiered_expr) then Some x else None in
  MkData (trim (name v)) (Some (price v)) (Some (ratio v)) (lanes_of (λ k, Some (lane k (ratios v))))
    (Some (pricingMode p)) (tiered (billingExpr p)) (tiered (requestRuleExpr p)).

Definition with_errors (es : list FieldError) (p : Panel) : Panel :=
  MkPanel (editData p) (pricingMode p) (promptPrice p) (lanePrices p) (laneEnabled p) (billingExpr p)
    (requestRuleExpr p) (values p) (defaults p) es.

(** The schema asks for a name; then the handler runs.  [Some]: what is saved,
    after which the form is reset. *)
Definition handleSubmit (p : Panel) : Panel * option ModelRatioData :=
  if is_empty (name (values p)) then (with_errors [NameRequired] p, None)
  else if prompt_missing p then (with_errors [InputPriceRequired] p, None)
  else if audio_missing p then (with_errors [AudioInputRequired] p, None)
  else (with_errors [] (with_values (defaults p) p), Some (submitted p)).

(** What the administrator does in the panel, in whichever tab; controls that
    are disabled do nothing. *)
Inductive Event :=
| NameTyped (s : jsstr)
| PromptTyped (s : jsstr)
| LaneTyped (k : LaneKey) (s : jsstr)
| LaneToggled (k : LaneKey) (on : bool)
| PriceTyped (s : jsstr)
| ModeChosen (m : PricingMode)
| ExprPublished (s : jsstr)
| RulesPublished (s : jsstr).

Definition lane_disabled (k : LaneKey) (p : Panel) : bool :=
  bool_decide (k = audioOutput) &&
  (negb (lane audioInput (laneEnabled p)) || negb (hasValue (Some (lane audioInput (lanePrices p))))).

Definition set_name (s : jsstr) (v : Values) : Values := MkValues s (price v) (ratio v) (ratios v).
Definition set_fixed_price (s : jsstr) (v : Values) : Values := MkValues (name v) s (ratio v) (ratios v).

Definition with_exprs (expr rules : jsstr) (p : Panel) : Panel :=
  MkPanel (editData p) (pricingMode p) (promptPrice p) (lanePrices p) (laneEnabled p) expr rules
    (values p) (defaults p) (errors p).

Definition step (p : Panel) (ev : Event) : Panel :=
  match ev with
  | NameTyped s => if editData p then p else with_values (set_name s (values p)) p
  | PromptTyped s => handlePromptPriceChange s p
  | LaneTyped k s =>
      if lane_disabled k p || negb (lane k (laneEnabled p)) then p else handleLanePriceChange k s p
  | LaneToggled k on => if lane_disabled k p then p else handleLaneToggle k on p
  | PriceTyped s => if is_draft s then with_values (set_fixed_price s (values p)) p else p
  | ModeChosen m => handleModeChange m p
  | ExprPublished s => with_exprs s (requestRuleExpr p) p
  | RulesPublished s => with_exprs (billingExpr p) s p
  end.

Definition run (evs : list Event) (p : Panel) : Panel := foldl step p evs.

(** ** Records over the lanes *)

Lemma lane_set {A} (k k' : LaneKey) (x : A) r : lane k (set_lane k' x r) = if decide (k = k') then x else lane k r.
Proof. by destruct r, k, k'. Qed.

Lemma lane_of {A} (f : LaneKey → A) k : lane k (lanes_of f) = f k.
Proof. by destruct k. Qed.

Lemma lanes_ext {A} (r r' : Lanes A) : (∀ k, lane k r = lane k r') → r = r'.
Proof.
  intros H. destruct r, r'. pose proof (H completion). pose proof (H cache). pose proof (H createCache).
  pose proof (H image). pose proof (H audioInput). pose proof (H audioOutput). cbn in *. by subst.
Qed.

Lemma lane_key_in k : k ∈ laneConfigs.
Proof. by apply (bool_decide_unpack _); destruct k. Qed.

(** ** The ratios follow the prices *)

(** The ratios of the form are the ones the shown prices give. *)
Definition synced (p : Panel) : Prop :=
  ratio (values p) = base_ratio (promptPrice p) ∧
  ∀ k, lane k (ratios (values p)) = lane_ratio k (promptPrice p) (lanePrices p) (laneEnabled p).

Lemma sync_ratios prompt prices enabled v :
  syncLaneRatios prompt prices enabled v =
    MkValues (name v) (price v) (base_ratio prompt) (lanes_of (λ k, lane_ratio k prompt prices enabled)).
Proof.
  unfold syncLaneRatios, laneConfigs. cbn [foldl]. unfold setFormValue, set_ratio. cbn [name price ratio ratios].
  f_equal. apply lanes_ext. intros k. rewrite lane_of. by destruct k, (ratios v).
Qed.

Lemma prompt_syncs value p : is_draft value = true → synced (handlePromptPriceChange value p).
Proof.
  intros Hd. unfold handlePromptPriceChange. rewrite Hd, sync_ratios. split; [done|]. intros k. by destruct k.
Qed.

(** Case analysis on a panel with its records opened. *)
Ltac open_panel p :=
  destruct p as [ed md pr lp le be rr [nm px rt rs] df er]; destruct lp, le, rs; cbn in *.

Lemma lane_price_syncs k value p :
  lane k (laneEnabled p) = true → synced p → synced (handleLanePriceChange k value p).
Proof.
  intros Hon [Hr Hl]. unfold handleLanePriceChange. destruct (is_draft value); [|done].
  rewrite Hon. split; [by destruct (_ && _)|]. intros k1. specialize (Hl k1). unfold lane_ratio in *.
  open_panel p. destruct k, k1; cbn in *; subst; try done; by destruct l_audioOutput1.
Qed.

Lemma lane_toggle_syncs k on p : synced p → synced (handleLaneToggle k on p).
Proof.
  intros [Hr Hl]. unfold handleLaneToggle. split; [by destruct on; [|case_decide]|].
  intros k1. specialize (Hl k1). unfold lane_ratio in *.
  open_panel p. destruct on, k, k1; cbn in *; done.
Qed.

Lemma step_syncs p ev : synced p → synced (step p ev).
Proof.
  intros H. destruct ev as [s|s|k s|k on|s|m|s|s]; cbn [step]; try done.
  - by destruct (editData p).
  - destruct (is_draft s) eqn:E; [by apply prompt_syncs|]. unfold handlePromptPriceChange. by rewrite E.
  - destruct (lane_disabled k p); [done|]. destruct (lane k (laneEnabled p)) eqn:E; [|done].
    by apply lane_price_syncs.
  - destruct (lane_disabled k p); [done|]. by apply lane_toggle_syncs.
  - by destruct (is_draft s).
Qed.

Lemma run_syncs evs p : synced p → synced (run evs p).
Proof. revert p. induction evs as [|ev evs IH]; [done|]. intros p H. apply IH. by apply step_syncs. Qed.

(** C12. The saved ratios follow the shown prices: once the input price was
    typed, whatever is typed, switched on or off and chosen afterwards, the
    ratio of every lane is the one its shown price gives, and empty for a lane
    that is off. *)
Theorem ratios_follow_prices (p : Panel) (s : jsstr) (evs : list Event) (Hs : is_draft s = true) :
  synced (run evs (step p (PromptTyped s))).
Proof. apply run_syncs, prompt_syncs, Hs. Qed.


Definition sample_data : ModelRatioData :=
  MkData (js "m") None (Some (js "1.5")) (set_lane completion (Some (js "5")) (lanes_of (λ _, None))) (Some per_token)
    None None.

Lemma ratios_follow_prices_witness :
  let p := run [LaneToggled audioInput true; LaneTyped audioInput (js "6"); LaneToggled audioOutput true;
                LaneTyped audioOutput (js "12"); LaneTyped audioInput (js "24")]
             (step (opened (Some sample_data)) (PromptTyped (js "12"))) in
  synced p ∧ lane audioOutput (ratios (values p)) = js "0.5" ∧ lane completion (ratios (values p)) = js "1.25".
Proof.
  split; [apply (ratios_follow_prices (opened (Some sample_data)) (js "12")); reflexivity|].
  vm_compute. by split.
Defined.

(** ** Submitting *)

(** A submission is refused exactly when the name is empty or the panel
    shows a warning about a missing price; otherwise exactly the values of the
    form are saved, with the name trimmed, and the form goes back to the values
    it was opened with. *)
Theorem submit_refused_iff (p : Panel) :
  ((handleSubmit p).2 = None ↔
   name (values p) = [] ∨ InputPrice ∈ warnings p ∨ AudioInput ∈ warnings p) ∧
  (∀ d, (handleSubmit p).2 = Some d → d = submitted p ∧ values (handleSubmit p).1 = defaults p).
Proof.
  assert (InputPrice ∈ warnings p ↔ prompt_missing p = true) as ->.
  { unfold warnings. destruct (hasConflict _), (prompt_missing p), (audio_missing p);
      cbn [app]; set_solver. }
  assert (AudioInput ∈ warnings p ↔ audio_missing p = true) as ->.
  { unfold warnings. destruct (hasConflict _), (prompt_missing p), (audio_missing p);
      cbn [app]; set_solver. }
  unfold handleSubmit. destruct (name (values p)) eqn:En; cbn [is_empty]; [naive_solver|].
  destruct (prompt_missing p); [naive_solver|]. destruct (audio_missing p); [naive_solver|].
  split; [naive_solver|]. by intros d [= <-].
Qed.

Lemma submit_saves p d : (handleSubmit p).2 = Some d → d = submitted p.
Proof. unfold handleSubmit. repeat case_match; cbn [snd]; congruence. Qed.

(** Opening a model and saving it at once saves what was there. *)
Theorem unchanged_save (d d' : ModelRatioData) (H : (handleSubmit (opened (Some d))).2 = Some d') :
  d_name d' = trim (d_name d) ∧ or_empty (d_price d') = or_empty (d_price d) ∧
  or_empty (d_ratio d') = or_empty (d_ratio d) ∧
  (∀ k, or_empty (lane k (d_ratios d')) = or_empty (lane k (d_ratios d))) ∧
  (d_billingMode d = Some tiered_expr →
   d_billingMode d' = Some tiered_expr ∧ or_empty (d_billingExpr d') = or_empty (d_billingExpr d) ∧
   or_empty (d_requestRuleExpr d') = or_empty (d_requestRuleExpr d)).
Proof.
  apply submit_saves in H as ->. unfold submitted. cbn [values opened data_values name price ratio ratios].
  split_and!; [done|done|done|intros k; by destruct k|].
  intros Ht. cbn [opened pricingMode]. by rewrite decide_True.
Qed.

(** With an input price of zero the other prices are dropped without a
    word: their ratios are empty, no warning is shown, and the submission is
    accepted. *)
Theorem zero_price_drops_lanes (p : Panel) (s : jsstr) (z : num)
  (Hs : is_draft s = true) (Hz : text_number (Some s) = Some z) (Hzero : num_eqb z num_zero = true)
  (Hmode : pricingMode p = per_token) (Hname : name (values p) ≠ [])
  (Haudio : lane audioOutput (laneEnabled p) = false) :
  ∃ q d, handleSubmit (step p (PromptTyped s)) = (q, Some d) ∧
         (∀ k, lane k (lanePrices (step p (PromptTyped s))) = lane k (lanePrices p)) ∧
         (∀ k, lane k (d_ratios d) = Some []).
Proof.
  cbn [step]. destruct (prompt_syncs s p Hs) as [_ Hl].
  unfold handlePromptPriceChange in *. rewrite Hs in *.
  set (v := syncLaneRatios s (lanePrices p) (laneEnabled p) (values p)) in *.
  set (p1 := with_values v (with_lanes s (lanePrices p) (laneEnabled p) p)) in *.
  assert (prompt_missing p1 = false) as Hpm.
  { unfold prompt_missing. cbn [p1 promptPrice with_values with_lanes]. rewrite Hz. by rewrite andb_false_r. }
  assert (audio_missing p1 = false) as Ham.
  { unfold audio_missing. cbn [p1 laneEnabled with_values with_lanes]. rewrite Haudio. by rewrite andb_false_r. }
  assert (name (values p1) = name (values p)) as Hn 
    by (cbn [p1 values with_values]; unfold v; by rewrite sync_ratios).
  unfold handleSubmit. rewrite Hpm, Ham, Hn. destruct (name (values p)) eqn:En; [done|]. cbn [is_empty].
  eexists _, _. split_and!; [reflexivity|done|]. intros k. cbn [submitted d_ratios]. rewrite lane_of, Hl. f_equal.
  unfold lane_ratio. cbn [p1 promptPrice laneEnabled lanePrices with_values with_lanes].
  destruct (lane k (laneEnabled p)) eqn:Ek; [|done]. unfold deriveLaneRatio. case_match; [|done].
  assert (k ≠ audioOutput) as Hk by (intros ->; congruence).
  destruct k; try done; by rewrite Hz, Hzero.
Qed.


Lemma zero_price_drops_lanes_witness :
  ∃ q d, handleSubmit (step (opened (Some sample_data)) (PromptTyped (js "0"))) = (q, Some d) ∧
         lane completion (lanePrices (step (opened (Some sample_data)) (PromptTyped (js "0")))) = js "15" ∧
         lane completion (d_ratios d) = Some [].
Proof.
  destruct (zero_price_drops_lanes (opened (Some sample_data)) (js "0") num_zero) as (q & d & H1 & H2 & H3);
    [reflexivity|vm_compute; reflexivity|reflexivity|reflexivity|vm_compute; discriminate|reflexivity|].
  exists q, d. split_and!; [exact H1|rewrite H2; vm_compute; reflexivity|apply H3].
Defined.

End ModelPricing.
