(* ===== verification/ModelRatios.v ===== *)
(** * The table of model prices

    [ModelRatios] models
    web/default/src/features/system-settings/models/model-ratio-visual-editor.tsx:
    the rows of the table, read from the ten JSON options that hold prices, ratios,
    billing modes and billing expressions by model, and saving, copying and
    deleting the prices of models in them.  The panel that edits one model is
    [ModelPricing], the tier editor in it [TieredEditor].

    The options are JSON objects ([Record<string, number>]); a text of another
    kind of value is outside these types and read as [None].  The order of
    [localeCompare] is a parameter.  Selecting, paging and showing columns belong
    to the table library. *)

From stdpp Require Import base list strings sets.
From Stdlib Require Import ZArith Lia SpecFloat.
From S2P Require Import Prelude JsString JsNumber JsValue JsJson JsonParser BillingExpr BillingPatterns BillingRules.
From S2P Require Import TierExpr TierRules TierSplit TieredEditor ModelPricing.
#[local] Open Scope Z_scope.

Module ModelRatios.
Import RequestRules PricingFormat ModelPricing JsonParser.

(** ** Options *)

Notation obj := (list (jsstr * jsval)).

(** The ten options, as texts or as the objects they hold; the ratios of the
    lanes in the order of the panel. *)
Record Options (A : Type) := MkOptions {
  modelPrice : A;
  modelRatio : A;
  laneRatios : Lanes A;
  billingModes : A;
  billingExprs : A;
}.
#[global] Arguments MkOptions {A}.
#[global] Arguments modelPrice {A}.
#[global] Arguments modelRatio {A}.
#[global] Arguments laneRatios {A}.
#[global] Arguments billingModes {A}.
#[global] Arguments billingExprs {A}.

Definition map_lanes {A B} (f : A → B) (r : Lanes A) : Lanes B := lanes_of (λ k, f (lane k r)).
Definition map_options {A B} (f : A → B) (o : Options A) : Options B :=
  MkOptions (f (modelPrice o)) (f (modelRatio o)) (map_lanes f (laneRatios o)) (f (billingModes o)) (f (billingExprs o)).

(** [safeJsonParse(text, { fallback: {} })] *)
Definition parse_map (text : jsstr) : option obj :=
  match safeJsonParse (Some text) (JObj []) with JObj o => Some o | _ => None end.

(** The ten objects, when every text holds one. *)
Definition parse_maps (o : Options jsstr) : option (Options obj) :=
  a ← parse_map (modelPrice o); b ← parse_map (modelRatio o);
  let l k := parse_map (lane k (laneRatios o)) in
  l1 ← l completion; l2 ← l cache; l3 ← l createCache; l4 ← l image; l5 ← l audioInput; l6 ← l audioOutput;
  c ← parse_map (billingModes o); d ← parse_map (billingExprs o);
  Some (MkOptions a b (MkLanes l1 l2 l3 l4 l5 l6) c d).

(** [JSON.stringify(map, null, 2)] of each *)
Definition write_map (o : obj) : jsstr := default [] (JSON_stringify_pretty (JObj o)).
Definition write_maps (m : Options obj) : Options jsstr := map_options write_map m.

(** ** Rows *)

Record ModelRow := MkRow {
  r_name : jsstr;
  r_price : jsstr;
  r_ratio : jsstr;
  r_ratios : Lanes jsstr;
  r_billingMode : PricingMode;
  r_billingExpr : option jsstr;
  r_requestRuleExpr : option jsstr;
  r_hasConflict : bool;
}.

(** [map[name]?.toString() || ''] *)
Definition cell (name : jsstr) (o : obj) : res jsstr :=
  let v := obj_get name o in if nullish v then Ok [] else to_str v.

Definition lane_cells (name : jsstr) (m : Lanes obj) : res (Lanes jsstr) :=
  let c k := cell name (lane k m) in
  let* a := c cache in
  let* b := c createCache in
  let* d := c completion in
  let* e := c image in
  let* f := c audioInput in
  let* g := c audioOutput in
  Ok (MkLanes d a b e f g).

(** [splitBillingExprAndRequestRules(billingExprMap[name] || '')] *)
Definition split_expr (v : jsval) : res (jsstr * jsstr) :=
  match js_or v (JStr []) with JStr s => splitBillingExprAndRequestRules s | _ => Throw end.

Definition model_row (m : Options obj) (name : jsstr) : res ModelRow :=
  let* price := cell name (modelPrice m) in
  let* ratio := cell name (modelRatio m) in
  let* ratios := lane_cells name (laneRatios m) in
  if is_str (js "tiered_expr") (obj_get name (billingModes m)) then
    let* parts := split_expr (obj_get name (billingExprs m)) in
    Ok (MkRow name price ratio ratios tiered_expr (Some parts.1) (Some parts.2) false)
  else
    Ok (MkRow name price ratio ratios (if is_empty price then per_token else per_request) None None
          (negb (is_empty price) &&
           (negb (is_empty ratio) || existsb (λ k, negb (is_empty (lane k ratios))) laneConfigs))).

(** The keys of the maps in the order of the source. *)
Definition configuredModelNames (m : Options obj) : list jsstr :=
  let l k := (lane k (laneRatios m)).*1 in
  dedup ((modelPrice m).*1 ++ (modelRatio m).*1 ++ l cache ++ l createCache ++ l completion ++ l image ++
         l audioInput ++ l audioOutput ++ (billingModes m).*1 ++ (billingExprs m).*1).

Section table.
Context (localeCompare : jsstr → jsstr → bool).

(** [unset]: the names to show when only models without a price are listed. *)
Definition models (unset : option (list jsstr)) (m : Options obj) : res (list ModelRow) :=
  let names := match unset with Some candidates => dedup candidates | None => configuredModelNames m end in
  let* rows := res_mapM (model_row m) names in
  Ok (sort_by (λ a b, localeCompare (r_name a) (r_name b))
        (filter (λ row, is_none unset || negb (bool_decide (r_billingMode row = tiered_expr)) &&
                        is_empty (r_price row) && is_empty (r_ratio row) = true) rows)).

End table.

(** ** Editing, saving, copying and deleting *)

(** [handleEdit]: what the panel opens with. *)
Definition row_data (r : ModelRow) : ModelRatioData :=
  MkData (r_name r) (Some (r_price r)) (Some (r_ratio r)) (map_lanes Some (r_ratios r))
    (Some (if decide (r_billingMode r = tiered_expr) then tiered_expr
           else if is_empty (r_price r) then per_token else per_request))
    (r_billingExpr r) (r_requestRuleExpr r).

(** The number a field stores. *)
Definition present (value : option jsstr) : option num :=
  if hasValue value then let x := parseFloat (or_empty value) in if is_finite x then Some x else None else None.

Definition setIfPresent (name : jsstr) (value : option jsstr) (o : obj) : obj :=
  match present value with Some x => assign_prop name (JNum x) o | None => o end.

Definition drop_model (name : jsstr) (m : Options obj) : Options obj := map_options (assoc_del name) m.

Definition set_ratios (name : jsstr) (data : ModelRatioData) (m : Options obj) : Options obj :=
  MkOptions (modelPrice m) (setIfPresent name (d_ratio data) (modelRatio m))
    (lanes_of (λ k, setIfPresent name (lane k (d_ratios data)) (lane k (laneRatios m))))
    (billingModes m) (billingExprs m).

Definition set_model_price (name : jsstr) (data : ModelRatioData) (m : Options obj) : Options obj :=
  MkOptions (setIfPresent name (d_price data) (modelPrice m)) (modelRatio m) (laneRatios m)
    (billingModes m) (billingExprs m).

Definition set_expression (name : jsstr) (data : ModelRatioData) (m : Options obj) : Options obj :=
  let combined := combineBillingExpr (or_empty (d_billingExpr data)) (or_empty (d_requestRuleExpr data)) in
  if is_empty combined then m
  else MkOptions (modelPrice m) (modelRatio m) (laneRatios m)
         (assign_prop name (JStr (js "tiered_expr")) (billingModes m)) (assign_prop name (JStr combined) (billingExprs m)).

(** The body of the loop over the names. *)
Definition persist_one (data : ModelRatioData) (m : Options obj) (name : jsstr) : Options obj :=
  let m := drop_model name m in
  if decide (d_billingMode data = Some tiered_expr) then
    set_ratios name data (set_model_price name data (set_expression name data m))
  else if hasValue (d_price data) then set_model_price name data m
  else set_ratios name data m.

Definition persist (data : ModelRatioData) (names : list jsstr) (m : Options obj) : Options obj :=
  foldl (persist_one data) m names.

(** The page: the options of the settings draft and the panel. *)
Record Page := MkPage {
  options : Options jsstr;
  page_editData : option ModelRatioData;
  editorOpen : bool;
  sheetOpen : bool;
}.

Definition with_maps (f : Options obj → Options obj) (o : Options jsstr) : option (Options jsstr) :=
  (λ m, write_maps (f m)) <$> parse_maps o.

Definition persistPricingData (data : ModelRatioData) (names : list jsstr) (pg : Page) : option Page :=
  (λ o, MkPage o (page_editData pg) (editorOpen pg) (sheetOpen pg)) <$> with_maps (persist data names) (options pg).

Definition show_editor (isMobile : bool) (data : option ModelRatioData) (pg : Page) : Page :=
  MkPage (options pg) data true (isMobile || sheetOpen pg).

Definition handleEdit (isMobile : bool) (r : ModelRow) (pg : Page) : Page := show_editor isMobile (Some (row_data r)) pg.
Definition handleAdd (isMobile : bool) (pg : Page) : Page := show_editor isMobile None pg.
Definition handleCancel (pg : Page) : Page := MkPage (options pg) None false false.

(** The filter closes the panel when it changes. *)
Definition handleGlobalFilterChange (previous next : jsstr) (pg : Page) : Page :=
  if decide (next = previous) then pg else handleCancel pg.

Definition handleDelete (name : jsstr) (pg : Page) : option Page :=
  (λ o, let pg' := MkPage o (page_editData pg) (editorOpen pg) (sheetOpen pg) in
        if decide (d_name <$> page_editData pg = Some name) then handleCancel pg' else pg')
    <$> with_maps (drop_model name) (options pg).

Definition handleSave (data : ModelRatioData) (pg : Page) : option Page :=
  (λ pg, MkPage (options pg) (Some data) true (sheetOpen pg)) <$> persistPricingData data [d_name data] pg.

(** Without a source or a target a message is shown and nothing is saved. *)
Definition handleBatchCopy (targetNames : list jsstr) (pg : Page) : option Page :=
  match page_editData pg with
  | None => Some pg
  | Some data => match targetNames with [] => Some pg | _ => persistPricingData data targetNames pg end
  end.

(** The submission of the panel: what it saves, and closing it. *)
Definition submit_panel (p : Panel) (pg : Page) : option Page :=
  match (handleSubmit p).2 with
  | Some data => handleCancel <$> handleSave data pg
  | None => Some pg
  end.

(** ** What is stored *)

(** The value a model has in each option. *)
Definition stored {A} (name : jsstr) (o : list (jsstr * A)) : option A := assoc_get name o.

Lemma stored_assign n k v o :
  n ≠ js "__proto__" → stored n (assign_prop k v o) = if decide (n = k) then Some v else stored n o.
Proof.
  intros Hn. unfold stored, assign_prop. destruct (decide (k = js "__proto__")) as [->|Hk].
  - by rewrite decide_False.
  - apply obj_put_assoc.
Qed.

Lemma stored_present n k value o :
  n ≠ js "__proto__" →
  stored n (setIfPresent k value o) =
    if decide (n = k) then match present value with Some x => Some (JNum x) | None => stored n o end else stored n o.
Proof. intros Hn. unfold setIfPresent. destruct (present value); [|by case_decide]. by apply stored_assign. Qed.

Lemma stored_del {A} n k (o : list (jsstr * A)) : stored n (assoc_del k o) = if decide (n = k) then None else stored n o.
Proof. unfold stored. apply assoc_get_del. Qed.

(** What saving the data stores for a model. *)
Record Entry := MkEntry {
  e_price : option num;
  e_ratio : option num;
  e_ratios : Lanes (option num);
  e_expr : option jsstr;
}.

Definition entry_of (data : ModelRatioData) : Entry :=
  let all := MkEntry (present (d_price data)) (present (d_ratio data)) (map_lanes present (d_ratios data)) in
  if decide (d_billingMode data = Some tiered_expr) then
    let combined := combineBillingExpr (or_empty (d_billingExpr data)) (or_empty (d_requestRuleExpr data)) in
    all (if is_empty combined then None else Some combined)
  else if hasValue (d_price data) then MkEntry (present (d_price data)) None (lanes_of (λ _, None)) None
  else MkEntry None (present (d_ratio data)) (map_lanes present (d_ratios data)) None.

(** The options hold this entry for the model. *)
Definition has_entry (m : Options obj) (n : jsstr) (e : Entry) : Prop :=
  stored n (modelPrice m) = JNum <$> e_price e ∧
  stored n (modelRatio m) = JNum <$> e_ratio e ∧
  (∀ k, stored n (lane k (laneRatios m)) = JNum <$> lane k (e_ratios e)) ∧
  stored n (billingModes m) = (λ _, JStr (js "tiered_expr")) <$> e_expr e ∧
  stored n (billingExprs m) = JStr <$> e_expr e.

(** The options agree on the model. *)
Definition same_entry (m m' : Options obj) (n : jsstr) : Prop :=
  stored n (modelPrice m') = stored n (modelPrice m) ∧ stored n (modelRatio m') = stored n (modelRatio m) ∧
  (∀ k, stored n (lane k (laneRatios m')) = stored n (lane k (laneRatios m))) ∧
  stored n (billingModes m') = stored n (billingModes m) ∧ stored n (billingExprs m') = stored n (billingExprs m).

Lemma persist_one_entry data m n : n ≠ js "__proto__" → has_entry (persist_one data m n) n (entry_of data).
Proof.
  intros Hn. unfold persist_one, entry_of, has_entry, set_ratios, set_model_price, set_expression.
  destruct (decide (d_billingMode data = Some tiered_expr)) as [Ht|Ht];
    [destruct (is_empty (combineBillingExpr _ _))|destruct (hasValue (d_price data))];
    cbn [modelPrice modelRatio laneRatios billingModes billingExprs drop_model map_options map_lanes
         e_price e_ratio e_ratios e_expr fmap option_fmap option_map];
    (split_and!; [..|intros k|idtac|idtac]); unfold map_lanes; rewrite ?lane_of;
    rewrite ?stored_present, ?stored_assign, ?stored_del, ?(decide_True (P := n = n)) by done;
    try done; by destruct (present _).
Qed.

Lemma persist_one_other data m n n' : n ≠ js "__proto__" → n ≠ n' → same_entry m (persist_one data m n') n.
Proof.
  intros Hn Hne. unfold persist_one, same_entry, set_ratios, set_model_price, set_expression.
  destruct (decide (d_billingMode data = Some tiered_expr)) as [Ht|Ht];
    [destruct (is_empty (combineBillingExpr _ _))|destruct (hasValue (d_price data))];
    cbn [modelPrice modelRatio laneRatios billingModes billingExprs drop_model map_options map_lanes];
    (split_and!; [..|intros k|idtac|idtac]); unfold map_lanes; rewrite ?lane_of;
    rewrite ?stored_present, ?stored_assign, ?stored_del, ?(decide_False (P := n = n')) by done; done.
Qed.


Lemma same_entry_trans m1 m2 m3 n : same_entry m1 m2 n → same_entry m2 m3 n → same_entry m1 m3 n.
Proof.
  intros (A1 & A2 & A3 & A4 & A5) (B1 & B2 & B3 & B4 & B5). unfold same_entry. split_and!; [congruence..| | |]; [|congruence..].
  intros k. by rewrite B3, A3.
Qed.

Lemma same_entry_has m m' n e : same_entry m m' n → has_entry m n e → has_entry m' n e.
Proof.
  intros (A1 & A2 & A3 & A4 & A5) (B1 & B2 & B3 & B4 & B5). unfold has_entry. split_and!; [congruence..| | |]; [|congruence..].
  intros k. by rewrite A3, B3.
Qed.

Lemma persist_entry data names m n :
  n ≠ js "__proto__" → n ∈ names → has_entry (persist data names m) n (entry_of data).
Proof.
  intros Hn. unfold persist. induction names as [|x names IH] using rev_ind; [by intros ?%elem_of_nil|].
  rewrite foldl_snoc. destruct (decide (x = n)) as [->|Hne]; [intros _; by apply persist_one_entry|].
  intros Hin. eapply same_entry_has; [apply persist_one_other; [done|by intros ->]|]. apply IH. set_solver.
Qed.

Lemma persist_other data names m n :
  n ≠ js "__proto__" → n ∉ names → same_entry m (persist data names m) n.
Proof.
  intros Hn. unfold persist. induction names as [|x names IH] using rev_ind; [done|].
  intros Hin. rewrite foldl_snoc. eapply same_entry_trans; [apply IH; set_solver|].
  apply persist_one_other; [done|]. set_solver.
Qed.

(** ** Rows of stored entries *)

Definition entry_text (x : option num) : jsstr := match x with Some x => num_to_str x | None => [] end.

(** A name that is no member every object has. *)
Definition own_name (n : jsstr) : Prop := n ∉ object_prototype_keys.

Lemma own_not_proto n : own_name n → n ≠ js "__proto__".
Proof. intros H ->. apply H. apply (bool_decide_unpack _). by vm_compute. Qed.

Lemma obj_get_stored n o : own_name n → obj_get n o = default JUndef (stored n o).
Proof. intros Hn. unfold obj_get, stored. destruct (assoc_get n o); [done|]. by rewrite decide_False. Qed.

Lemma cell_stored n o x : own_name n → stored n o = JNum <$> x → cell n o = Ok (entry_text x).
Proof. intros Hn H. unfold cell. rewrite obj_get_stored, H by done. by destruct x. Qed.

Lemma cell_same n o o' : own_name n → stored n o' = stored n o → cell n o' = cell n o.
Proof. intros Hn H. unfold cell. by rewrite !obj_get_stored, H. Qed.

(** The row of an entry. *)
Definition entry_row (n : jsstr) (e : Entry) : res ModelRow :=
  let price := entry_text (e_price e) in
  let ratio := entry_text (e_ratio e) in
  let ratios := map_lanes entry_text (e_ratios e) in
  match e_expr e with
  | Some text =>
      let* parts := splitBillingExprAndRequestRules text in
      Ok (MkRow n price ratio ratios tiered_expr (Some parts.1) (Some parts.2) false)
  | None =>
      Ok (MkRow n price ratio ratios (if is_empty price then per_token else per_request) None None
            (negb (is_empty price) &&
             (negb (is_empty ratio) || existsb (λ k, negb (is_empty (lane k ratios))) laneConfigs)))
  end.

Lemma lane_cells_stored n m r :
  own_name n → (∀ k, stored n (lane k m) = JNum <$> lane k r) → lane_cells n m = Ok (map_lanes entry_text r).
Proof.
  intros Hn H. unfold lane_cells. rewrite !(cell_stored n _ _ Hn (H _)). by destruct r.
Qed.

Lemma entry_row_of m n e :
  own_name n → (∀ text, e_expr e = Some text → text ≠ []) → has_entry m n e → model_row m n = entry_row n e.
Proof.
  intros Hn Ht (H1 & H2 & H3 & H4 & H5). unfold model_row, entry_row.
  rewrite (cell_stored _ _ _ Hn H1), (cell_stored _ _ _ Hn H2), (lane_cells_stored _ _ _ Hn H3). cbn [res_bind].
  rewrite !obj_get_stored, H4, H5 by done.
  destruct (e_expr e) as [text|] eqn:E; cbn [fmap option_fmap option_map default from_option]; [|done].
  unfold Datatypes.id, split_expr, js_or. specialize (Ht text eq_refl). by destruct text.
Qed.

Lemma row_same m m' n : own_name n → same_entry m m' n → model_row m' n = model_row m n.
Proof.
  intros Hn (H1 & H2 & H3 & H4 & H5). unfold model_row, lane_cells.
  rewrite !(cell_same n _ _ Hn (H3 _)), (cell_same n _ _ Hn H1), (cell_same n _ _ Hn H2).
  by rewrite !obj_get_stored, H4, H5 by done.
Qed.

(** ** Texts *)

Definition maps_ok (m : Options obj) : Prop :=
  let ok o := json_ok (JObj o) = true in
  ok (modelPrice m) ∧ ok (modelRatio m) ∧ (∀ k, ok (lane k (laneRatios m))) ∧ ok (billingModes m) ∧ ok (billingExprs m).

Lemma parse_write o : json_ok (JObj o) = true → parse_map (write_map o) = Some o.
Proof.
  intros Hok. destruct (json_roundtrip_pretty _ Hok) as (t & Ht & Hp).
  pose proof (stringify_trimmed _ _ _ _ Hok Ht) as Htr.
  destruct (stringify_object_head _ _ _ _ Ht) as [t' E].
  unfold parse_map, write_map. rewrite Ht. cbn [default from_option]. unfold Datatypes.id, safeJsonParse, JsonParser.blank.
  cbn [default from_option]. unfold Datatypes.id. rewrite (trim_trimmed_id t Htr), Hp. by rewrite E.
Qed.

Lemma parse_write_maps m : maps_ok m → parse_maps (write_maps m) = Some m.
Proof.
  intros (H1 & H2 & H3 & H4 & H5). unfold parse_maps, write_maps. cbn [map_options modelPrice modelRatio laneRatios billingModes billingExprs].
  unfold map_lanes. rewrite !lane_of, !parse_write by done. cbn [mbind option_bind]. destruct m as [? ? [] ? ?]. done.
Qed.

(** A name that an object keeps in the order of insertion. *)
Definition plain_name (n : jsstr) : Prop := own_name n ∧ array_index n = None ∧ code_units n = true.

Lemma forallb_sub {A} (p : A → bool) l l' : (∀ x, x ∈ l' → x ∈ l) → forallb p l = true → forallb p l' = true.
Proof.
  intros H Hl. apply forallb_forall. intros x Hx%list_elem_of_In. rewrite forallb_forall in Hl.
  apply Hl. by apply list_elem_of_In, H.
Qed.

Lemma del_keys n (o : obj) k : k ∈ (assoc_del n o).*1 → k ∈ o.*1.
Proof. rewrite elem_of_keys_del. by intros []. Qed.

Lemma del_ordered n (o : obj) : wf_keysb o.*1 = true → wf_keysb (assoc_del n o).*1 = true.
Proof.
  induction o as [|[k v] o IH]; [done|]. intros [Hk Hw]%andb_prop. unfold assoc_del in *. rewrite filter_cons.
  case_decide; [|by apply IH]. cbn [fmap list_fmap wf_keysb fst]. rewrite IH, andb_true_r by done.
  eapply forallb_sub, Hk. intros x. apply del_keys.
Qed.

Lemma json_ok_del n o : json_ok (JObj o) = true → json_ok (JObj (assoc_del n o)) = true.
Proof.
  cbn [json_ok]. intros [[Hw Hu]%andb_prop Ho]%andb_prop. rewrite del_ordered by done.
  rewrite (forallb_sub _ o.*1) by (done || apply del_keys). cbn [andb].
  eapply forallb_sub, Ho. intros x. unfold assoc_del. rewrite list_elem_of_filter. by intros [].
Qed.

Lemma json_ok_assign n v o :
  plain_name n → json_ok v = true → json_ok (JObj o) = true → json_ok (JObj (assign_prop n v o)) = true.
Proof.
  intros (Hn & Hi & Hc) Hv Ho. unfold assign_prop. rewrite decide_False by by apply own_not_proto.
  by apply json_ok_put.
Qed.

(** Numbers that print, and an expression of code units. *)
Definition data_ok (data : ModelRatioData) : Prop :=
  let prints v := ∀ x, present v = Some x → num_prints x = true in
  prints (d_price data) ∧ prints (d_ratio data) ∧ (∀ k, prints (lane k (d_ratios data))) ∧
  code_units (combineBillingExpr (or_empty (d_billingExpr data)) (or_empty (d_requestRuleExpr data))) = true.

Lemma json_ok_present n v o :
  plain_name n → (∀ x, present v = Some x → num_prints x = true) → json_ok (JObj o) = true →
  json_ok (JObj (setIfPresent n v o)) = true.
Proof.
  intros Hn Hv Ho. unfold setIfPresent. destruct (present v) as [x|] eqn:E; [|done].
  apply json_ok_assign; [done| |done]. by apply Hv.
Qed.

Lemma drop_ok n m : maps_ok m → maps_ok (drop_model n m).
Proof.
  intros (H1 & H2 & H3 & H4 & H5). unfold maps_ok, drop_model. cbn [map_options modelPrice modelRatio laneRatios billingModes billingExprs].
  split_and!; [by apply json_ok_del..| | |]; [|by apply json_ok_del..].
  intros k. unfold map_lanes. rewrite lane_of. by apply json_ok_del.
Qed.

Lemma persist_one_ok data m n : plain_name n → data_ok data → maps_ok m → maps_ok (persist_one data m n).
Proof.
  intros Hn (Hp & Hr & Hl & Hc) (H1 & H2 & H3 & H4 & H5)%(drop_ok n). unfold persist_one.
  set (m' := drop_model n m) in *. clearbody m'.
  assert (∀ m', maps_ok m' → maps_ok (set_ratios n data m')) as Hsr.
  { intros m1 (A1 & A2 & A3 & A4 & A5). unfold maps_ok, set_ratios. cbn [modelPrice modelRatio laneRatios billingModes billingExprs].
    split_and!; [done|by apply json_ok_present|intros k; rewrite lane_of; apply json_ok_present; [done|apply Hl|apply A3]|done..]. }
  assert (∀ m', maps_ok m' → maps_ok (set_model_price n data m')) as Hsp.
  { intros m1 (A1 & A2 & A3 & A4 & A5). unfold maps_ok, set_model_price. cbn [modelPrice modelRatio laneRatios billingModes billingExprs].
    split_and!; [by apply json_ok_present|done..]. }
  case_decide; [|destruct (hasValue _); [by apply Hsp|by apply Hsr]].
  apply Hsr, Hsp. unfold set_expression. destruct (is_empty _); [done|]. unfold maps_ok.
  cbn [modelPrice modelRatio laneRatios billingModes billingExprs].
  split_and!; [done..|by apply json_ok_assign|by apply json_ok_assign].
Qed.

Lemma persist_ok data names m :
  Forall plain_name names → data_ok data → maps_ok m → maps_ok (persist data names m).
Proof.
  intros Hn Hd. revert m. unfold persist. induction Hn as [|n names Hn _ IH]; [done|]. intros m Hm.
  cbn [foldl]. by apply IH, persist_one_ok.
Qed.


(** ** Properties *)

Lemma persist_page data names pg m :
  parse_maps (options pg) = Some m → maps_ok m → data_ok data → Forall plain_name names →
  ∃ pg', persistPricingData data names pg = Some pg' ∧ parse_maps (options pg') = Some (persist data names m).
Proof.
  intros Hm Hok Hd Hn. unfold persistPricingData, with_maps. rewrite Hm. eexists. split; [reflexivity|].
  apply parse_write_maps. by apply persist_ok.
Qed.

Lemma entry_expr_nonempty data text : e_expr (entry_of data) = Some text → text ≠ [].
Proof.
  unfold entry_of. case_decide; [|by destruct (hasValue _)]. cbn [e_expr].
  destruct (combineBillingExpr _ _); [done|]. by intros [= <-].
Qed.

Lemma persist_row data names m n :
  own_name n → n ∈ names → model_row (persist data names m) n = entry_row n (entry_of data).
Proof.
  intros Hn Hin. apply entry_row_of; [done|apply entry_expr_nonempty|].
  apply persist_entry; [by apply own_not_proto|done].
Qed.

(** A panel with the texts of tiers and rules, saved and opened again. *)
Lemma reopen_held (a : TieredEditor.Prices) (p : Panel) (data : ModelRatioData) (pg : Page) (m : Options obj) :
  TieredEditor.holds a (TieredEditor.MkProps (name (values p)) (billingExpr p) (requestRuleExpr p)) →
  pricingMode p = tiered_expr → (handleSubmit p).2 = Some data →
  parse_maps (options pg) = Some m → maps_ok m → data_ok data → plain_name (trim (name (values p))) →
  ∃ pg' m' row editor,
    submit_panel p pg = Some pg' ∧ parse_maps (options pg') = Some m' ∧
    model_row m' (trim (name (values p))) = Ok row ∧
    let q := opened (Some (row_data row)) in
    pricingMode q = tiered_expr ∧
    TieredEditor.mount
      (TieredEditor.MkProps (name (values q)) (billingExpr q) (requestRuleExpr q)) = Ok editor ∧
    TieredEditor.shows
      (TieredEditor.opening (TieredEditor.tiers a) (TieredEditor.complete (TieredEditor.rules a))
         (TieredEditor.expression a)) editor.
Proof.
  intros Hp Hmode Hsubmit Hm Hok Hd Hn.
  apply submit_saves in Hsubmit as Hdata. set (n := trim (name (values p))) in *.
  assert (d_name data = n) as Hname by by subst data.
  assert (d_billingMode data = Some tiered_expr) as Hbm by (subst data; cbn; by rewrite Hmode).
  assert (or_empty (d_billingExpr data) = billingExpr p ∧ or_empty (d_requestRuleExpr data) = requestRuleExpr p)
    as [He Hr] by (rewrite Hdata; unfold submitted; cbn [d_billingExpr d_requestRuleExpr]; by rewrite !decide_True).
  destruct (persist_page data [n] pg m Hm Hok Hd ltac:(by apply Forall_singleton)) as (pg1 & H1 & H2).
  set (m' := persist data [n] m) in *.
  assert (model_row m' n = entry_row n (entry_of data)) as Hrow by (apply persist_row; [apply Hn|set_solver]).
  pose proof (TieredEditor.holds_split _ _ Hp) as Hsplit. cbn in Hsplit.
  pose proof (TieredEditor.holds_standing _ _ Hp) as (_ & Hsolid & _). cbn in Hsolid.
  assert (combineBillingExpr (billingExpr p) (requestRuleExpr p) ≠ []) as Hne.
  { intros E. rewrite E in Hsplit. cbn in Hsplit. injection Hsplit as E1 _. rewrite <-E1 in Hsolid. by destruct Hsolid. }
  unfold entry_row, entry_of in Hrow. rewrite decide_True, He, Hr in Hrow by done. cbn [e_expr] in Hrow.
  destruct (is_empty (combineBillingExpr _ _)) eqn:Eempty.
  { destruct (combineBillingExpr _ _); [done|]. done. }
  rewrite Hsplit in Hrow. cbn [res_bind fst snd] in Hrow.
  destruct (TieredEditor.reload_shows a (TieredEditor.MkProps n (billingExpr p) (requestRuleExpr p)))
    as (editor & Hmount & Hshows); [by destruct Hp; split|].
  exists (handleCancel (MkPage (options pg1) (Some data) true (sheetOpen pg1))), m'. eexists _, editor. split_and!.
  - unfold submit_panel, handleSave. rewrite Hsubmit, Hname, H1. done.
  - done.
  - exact Hrow.
  - done.
Qed.

(** C10. Saving a model's prices, or copying them to other models, stores exactly
    them: after it the options still read as JSON, the row of every target is the
    row of the saved data, and the row of every other model is the one before. *)
Theorem saved_prices_exact (data : ModelRatioData) (names : list jsstr) (pg : Page) (m : Options obj)
  (Hm : parse_maps (options pg) = Some m) (Hok : maps_ok m) (Hd : data_ok data) (Hn : Forall plain_name names) :
  ∃ pg' m', persistPricingData data names pg = Some pg' ∧ parse_maps (options pg') = Some m' ∧
    (∀ n, n ∈ names → model_row m' n = entry_row n (entry_of data)) ∧
    (∀ n, own_name n → n ∉ names → model_row m' n = model_row m n).
Proof.
  destruct (persist_page data names pg m Hm Hok Hd Hn) as (pg' & H1 & H2).
  exists pg', (persist data names m). split_and!; [done|done| |].
  - intros n Hin. rewrite Forall_forall in Hn. apply persist_row; [by apply Hn|done].
  - intros n Hown Hin. apply row_same; [done|]. apply persist_other; [by apply own_not_proto|done].
Qed.

(** C11. Tiers and rules survive saving.  The tier editor of the panel was
    opened on well-formed tiers and rules and edited in its visual editor, by
    changes of mode and by presets, through well-formed tiers and rules (no text
    was typed in the expression editor and no other model put in the panel).
    When the panel, with the texts this editor handed it, is accepted and saved,
    the options being objects and the numbers and texts of the panel ones that
    JSON keeps, the model opens again from its row in the tier editor, and the
    editor shows the tiers and the rule groups the first one showed, apart from
    the groups that were still being filled in. *)
Theorem saved_tiers_reopen (p0 : TieredEditor.Props) (ts : VisualTiers.VisualConfig) (gs : list RequestRuleGroup)
  (evs : list TieredEditor.Event) (ed0 ed : TieredEditor.Page)
  (p : Panel) (data : ModelRatioData) (pg : Page) (m : Options obj)
  (a0 := TieredEditor.opening ts gs (TieredEditor.billingExpr p0)) (a := TieredEditor.edit_all evs a0)
  (Hp0 : TieredEditor.holds a0 p0) (Hgs : Forall wf_group gs) (Hevs : TieredEditor.tidy_run evs a0)
  (Hopen : TieredEditor.mount p0 = Ok ed0) (Hrun : TieredEditor.run evs ed0 = Ok ed)
  (Hprops : TieredEditor.props ed = TieredEditor.MkProps (name (values p)) (billingExpr p) (requestRuleExpr p))
  (Hmode : pricingMode p = tiered_expr) (Hsubmit : (handleSubmit p).2 = Some data)
  (Hm : parse_maps (options pg) = Some m) (Hok : maps_ok m) (Hd : data_ok data)
  (Hn : plain_name (trim (name (values p)))) :
  TieredEditor.shows a ed ∧
  ∃ pg' m' row editor,
    submit_panel p pg = Some pg' ∧ parse_maps (options pg') = Some m' ∧
    model_row m' (trim (name (values p))) = Ok row ∧
    let q := opened (Some (row_data row)) in
    pricingMode q = tiered_expr ∧
    TieredEditor.mount
      (TieredEditor.MkProps (name (values q)) (billingExpr q) (requestRuleExpr q)) = Ok editor ∧
    TieredEditor.shows
      (TieredEditor.opening (TieredEditor.tiers a) (TieredEditor.complete (TieredEditor.rules a))
         (TieredEditor.expression a)) editor.
Proof.
  assert (TieredEditor.shows a ed) as Hshown.
  { destruct (TieredEditor.mount_shows ts gs p0 Hp0 Hgs) as (e0 & E0 & H0).
    destruct (TieredEditor.run_shows evs a0 e0 H0 Hevs) as (e1 & E1 & H1).
    rewrite Hopen in E0. injection E0 as <-. rewrite Hrun in E1. by injection E1 as <-. }
  split; [done|]. destruct Hshown as [Hp _]. rewrite Hprops in Hp.
  by apply (reopen_held a p data pg m).
Qed.

Definition empty_options : Options jsstr := MkOptions (js "{}") [] (lanes_of (λ _, js "{}")) (js "{}") (js "{}").
Definition sample_page : Page := MkPage empty_options None true false.

Lemma sample_maps : parse_maps (options sample_page) = Some (MkOptions [] [] (lanes_of (λ _, [])) [] []).
Proof. vm_compute. reflexivity. Qed.

Lemma sample_maps_ok : maps_ok (MkOptions [] [] (lanes_of (λ _, [])) [] []).
Proof. split_and!; try reflexivity. by intros []. Qed.

Lemma plain_sample s : bool_decide (js s ∈ object_prototype_keys) = false → array_index (js s) = None →
  code_units (js s) = true → plain_name (js s).
Proof. intros H ? ?. split_and!; [|done..]. by apply bool_decide_eq_false in H. Qed.

(** The panel of a model with the tiers and rules of the tier editor's sample. *)
Definition sample_panel : Panel :=
  opened (Some (MkData (js "model-a") None (Some (js "1.5")) (lanes_of (λ _, None)) (Some tiered_expr)
    (Some (TieredEditor.billingExpr TieredEditor.sample_props))
    (Some (TieredEditor.requestRuleExpr TieredEditor.sample_props)))).

Definition prints_check (v : option jsstr) : bool := match present v with Some x => num_prints x | None => true end.
Definition data_check (data : ModelRatioData) : bool :=
  prints_check (d_price data) && prints_check (d_ratio data) &&
  forallb (λ k, prints_check (lane k (d_ratios data))) laneConfigs &&
  code_units (combineBillingExpr (or_empty (d_billingExpr data)) (or_empty (d_requestRuleExpr data))).

Lemma data_check_ok data : data_check data = true → data_ok data.
Proof.
  assert (∀ v, prints_check v = true → ∀ x, present v = Some x → num_prints x = true) as Hv
    by (intros v; unfold prints_check; by destruct (present v); intros ? ? [= <-]).
  intros [[[Hp Hr]%andb_prop Hl]%andb_prop Hc]%andb_prop. split_and!; [by apply Hv..| |done].
  intros k. apply Hv. rewrite forallb_forall in Hl. apply Hl, list_elem_of_In, lane_key_in.
Qed.

Lemma sample_panel_data : data_ok (submitted sample_panel).
Proof. apply data_check_ok. vm_compute. reflexivity. Qed.

(** The panel after the edits of the tier editor's sample. *)
Definition edited_editor : TieredEditor.Page :=
  match TieredEditor.mount TieredEditor.sample_props with
  | Ok ed0 => match TieredEditor.run TieredEditor.sample_edits ed0 with Ok ed => ed | Throw => ed0 end
  | Throw => TieredEditor.sample_page
  end.
Definition edited_panel : Panel :=
  opened (Some (MkData (js "model-a") None (Some (js "1.5")) (lanes_of (λ _, None)) (Some tiered_expr)
    (Some (TieredEditor.billingExpr (TieredEditor.props edited_editor)))
    (Some (TieredEditor.requestRuleExpr (TieredEditor.props edited_editor))))).

Lemma edited_panel_data : data_ok (submitted edited_panel).
Proof. apply data_check_ok. vm_compute. reflexivity. Qed.

Lemma sample_edits_tidy (a := TieredEditor.opening sample_config sample_rules TieredEditor.sample_expr) :
  TieredEditor.tidy_run TieredEditor.sample_edits a.
Proof. eapply TieredEditor.tidy_run_app, TieredEditor.sample_run. Qed.

Lemma saved_tiers_reopen_witness
  (a := TieredEditor.edit_all TieredEditor.sample_edits
          (TieredEditor.opening sample_config sample_rules TieredEditor.sample_expr)) :
  ∃ pg' m' row editor,
    submit_panel edited_panel sample_page = Some pg' ∧ parse_maps (options pg') = Some m' ∧
    model_row m' (js "model-a") = Ok row ∧
    let q := opened (Some (row_data row)) in
    TieredEditor.mount (TieredEditor.MkProps (name (values q)) (billingExpr q) (requestRuleExpr q)) = Ok editor ∧
    TieredEditor.visualConfig (TieredEditor.editor editor) = Some (TieredEditor.tiers a).
Proof.
  destruct (TieredEditor.mount TieredEditor.sample_props) as [ed0|] eqn:E0; [|vm_compute in E0; discriminate E0].
  destruct (saved_tiers_reopen TieredEditor.sample_props sample_config sample_rules TieredEditor.sample_edits
    ed0 edited_editor edited_panel (submitted edited_panel) sample_page
    (MkOptions [] [] (lanes_of (λ _, [])) [] [])) as [_ (pg' & m' & row & editor & H1 & H2 & H3 & _ & H4 & H5)].
  - exact TieredEditor.sample_held.
  - exact sample_rules_wf.
  - exact sample_edits_tidy.
  - exact E0.
  - vm_compute in E0. injection E0 as <-. vm_compute. reflexivity.
  - vm_compute. reflexivity.
  - reflexivity.
  - vm_compute. reflexivity.
  - exact sample_maps.
  - exact sample_maps_ok.
  - exact edited_panel_data.
  - apply (plain_sample "model-a"); vm_compute; reflexivity.
  - exists pg', m', row, editor. destruct H5 as (_ & _ & _ & H5 & _).
    exact (conj H1 (conj H2 (conj H3 (conj H4 H5)))).
Defined.

Lemma saved_prices_exact_witness :
  ∃ pg' m', persistPricingData (submitted sample_panel) [js "a"; js "b"] sample_page = Some pg' ∧
    parse_maps (options pg') = Some m' ∧
    model_row m' (js "b") = entry_row (js "b") (entry_of (submitted sample_panel)) ∧
    model_row m' (js "c") = Ok (MkRow (js "c") [] [] (lanes_of (λ _, [])) per_token None None false).
Proof.
  destruct (saved_prices_exact (submitted sample_panel) [js "a"; js "b"] sample_page
    (MkOptions [] [] (lanes_of (λ _, [])) [] [])) as (pg' & m' & H1 & H2 & H3 & H4).
  - exact sample_maps.
  - exact sample_maps_ok.
  - exact sample_panel_data.
  - repeat constructor; try (vm_compute; reflexivity).
    + by apply (plain_sample "a"); vm_compute.
    + by apply (plain_sample "b"); vm_compute.
  - exists pg', m'. split_and!; [exact H1|exact H2|apply H3; right; left|].
    rewrite H4; [vm_compute; reflexivity| |].
    + by apply (plain_sample "c"); vm_compute.
    + apply (bool_decide_unpack _). vm_compute. exact I.
Defined.

(** ** A change of mode that is not saved *)

Definition types_price (ev : Event) : Prop := match ev with PriceTyped _ => True | _ => False end.

Lemma step_keeps_price p ev : ¬ types_price ev → price (values (step p ev)) = price (values p).
Proof.
  intros H. destruct ev as [s|s|k s|k on|s|m|s|s]; cbn [step]; try done.
  - by destruct (editData p).
  - unfold handlePromptPriceChange. destruct (is_draft s); [|done]. by rewrite sync_ratios.
  - destruct (_ || _); [done|]. unfold handleLanePriceChange. destruct (is_draft s); [|done].
    by destruct (lane k (laneEnabled p)), (_ && _).
  - destruct (lane_disabled k p); [done|]. unfold handleLaneToggle. destruct on; [done|]. by case_decide.
Qed.

Lemma run_keeps_price evs p : Forall (λ ev, ¬ types_price ev) evs → price (values (run evs p)) = price (values p).
Proof.
  intros H. revert p. induction H as [|ev evs Hev _ IH]; [done|]. intros p. cbn [run foldl].
  change (foldl step (step p ev) evs) with (run evs (step p ev)). by rewrite IH, step_keeps_price.
Qed.

(** C33. A model with a price per request cannot be changed to prices per
    token: unless the fixed price is emptied in its own tab first, the panel
    submitted in per-token mode stores the fixed price again and none of the
    ratios. *)
Theorem mode_change_not_saved (d : ModelRatioData) (evs : list Event) (data : ModelRatioData) (pg : Page)
  (m : Options obj) (p := run evs (opened (Some d)))
  (Hprice : hasValue (d_price d) = true) (Hevs : Forall (λ ev, ¬ types_price ev) evs)
  (Hmode : pricingMode p = per_token) (Hsubmit : (handleSubmit p).2 = Some data)
  (Hm : parse_maps (options pg) = Some m) (Hok : maps_ok m) (Hd : data_ok data) (Hn : plain_name (d_name data)) :
  ∃ pg' m' row, submit_panel p pg = Some pg' ∧ parse_maps (options pg') = Some m' ∧
    model_row m' (d_name data) = Ok row ∧ r_price row = entry_text (present (d_price d)) ∧
    r_ratio row = [] ∧ ∀ k, lane k (r_ratios row) = [].
Proof.
  apply submit_saves in Hsubmit as Hdata.
  assert (d_price data = Some (or_empty (d_price d))) as Hp.
  { rewrite Hdata. cbn [submitted d_price]. unfold p. by rewrite run_keeps_price. }
  assert (entry_of data = MkEntry (present (d_price d)) None (lanes_of (λ _, None)) None) as He.
  { unfold entry_of. rewrite decide_False by (rewrite Hdata; cbn [submitted d_billingMode]; by rewrite Hmode).
    assert (hasValue (d_price data) = true) as -> by by rewrite Hp.
    rewrite Hp. by destruct (d_price d). }
  destruct (persist_page data [d_name data] pg m Hm Hok Hd ltac:(by apply Forall_singleton)) as (pg1 & H1 & H2).
  eexists (handleCancel (MkPage (options pg1) (Some data) true (sheetOpen pg1))), _, _. split_and!.
  - unfold submit_panel, handleSave. rewrite Hsubmit, H1. done.
  - exact H2.
  - rewrite persist_row by (apply Hn || set_solver). rewrite He. reflexivity.
  - reflexivity.
  - reflexivity.
  - by intros [].
Qed.


Definition per_request_data : ModelRatioData :=
  MkData (js "model-a") (Some (js "0.02")) None (lanes_of (λ _, None)) (Some per_request) None None.
Definition switch_mode : list Event :=
  [ModeChosen per_token; PromptTyped (js "3"); LaneToggled completion true; LaneTyped completion (js "15")].

Lemma mode_change_not_saved_witness :
  ∃ pg' m' row, submit_panel (run switch_mode (opened (Some per_request_data))) sample_page = Some pg' ∧
    parse_maps (options pg') = Some m' ∧ model_row m' (js "model-a") = Ok row ∧
    r_price row = js "0.02" ∧ r_ratio row = [].
Proof.
  destruct (mode_change_not_saved per_request_data switch_mode
    (submitted (run switch_mode (opened (Some per_request_data)))) sample_page
    (MkOptions [] [] (lanes_of (λ _, [])) [] [])) as (pg' & m' & row & H1 & H2 & H3 & H4 & H5 & _).
  - reflexivity.
  - repeat constructor; by intros [].
  - reflexivity.
  - vm_compute. reflexivity.
  - exact sample_maps.
  - exact sample_maps_ok.
  - apply data_check_ok. vm_compute. reflexivity.
  - apply (plain_sample "model-a"); vm_compute; reflexivity.
  - exists pg', m', row. split_and!; [exact H1|exact H2|exact H3| |exact H5].
    rewrite H4. vm_compute. reflexivity.
Defined.

(** Deleting a model removes it from every option and leaves the others. *)
Theorem delete_exact (n : jsstr) (pg : Page) (m : Options obj)
  (Hm : parse_maps (options pg) = Some m) (Hok : maps_ok m) :
  ∃ pg', handleDelete n pg = Some pg' ∧ parse_maps (options pg') = Some (drop_model n m) ∧
    n ∉ configuredModelNames (drop_model n m) ∧
    (∀ n', own_name n' → n' ≠ n → model_row (drop_model n m) n' = model_row m n').
Proof.
  assert (parse_maps (write_maps (drop_model n m)) = Some (drop_model n m)) as Hw
    by by apply parse_write_maps, drop_ok.
  unfold handleDelete, with_maps. rewrite Hm. cbn [fmap option_fmap option_map]. eexists.
  split_and!; [reflexivity|by case_decide| |].
  - unfold configuredModelNames. rewrite elem_of_dedup, !elem_of_app.
    unfold drop_model, map_options, map_lanes. cbn [modelPrice modelRatio laneRatios billingModes billingExprs].
    rewrite !lane_of, !elem_of_keys_del. naive_solver.
  - intros n' Hown Hne. apply row_same; [done|]. unfold same_entry, drop_model, map_options, map_lanes.
    cbn [modelPrice modelRatio laneRatios billingModes billingExprs].
    split_and!; intros; rewrite ?lane_of, stored_del; by rewrite decide_False.
Qed.

(** Saving keeps the panel's data for copying, and the closing of the panel
    that follows discards it. *)
Lemma saved_then_closed p pg pg' :
  submit_panel p pg = Some pg' → (handleSubmit p).2 ≠ None → page_editData pg' = None ∧ editorOpen pg' = false.
Proof.
  unfold submit_panel. destruct (handleSubmit p).2 as [d|]; [|done]. intros (pg1 & _ & ->)%fmap_Some _. done.
Qed.

End ModelRatios.
