(* ===== verification/JsRounding.v ===== *)
(** * Rounding errors of products and quotients

    The value of a double as a real number ([dbl]), and the relative error of
    2^-53 of [num_mul] and [num_div] on positive normal doubles whose result is
    neither too large nor too small ([mul_error], [div_error]).  [round_near]:
    [Math.round] of a double that is less than a half from an integer. *)

From stdpp Require Import base list.
From Stdlib Require Import ZArith Lia Reals Lra SpecFloat.
From S2P Require Import Prelude JsString JsNumber JsOrder.
#[local] Open Scope R_scope.

(** ** Powers of two *)

Definition pow2 (e : Z) : R := powerRZ 2 e.

Lemma pow2_pos e : 0 < pow2 e.
Proof. apply powerRZ_lt. lra. Qed.

Lemma pow2_add a b : pow2 (a + b) = pow2 a * pow2 b.
Proof. apply powerRZ_add. lra. Qed.

Lemma pow2_opp e : pow2 (- e) = / pow2 e.
Proof.
  pose proof (pow2_pos e). apply Rmult_eq_reg_r with (pow2 e); [|lra].
  rewrite <-pow2_add, Rinv_l by lra. by replace (- e + e)%Z with 0%Z by lia.
Qed.

Lemma pow2_nat n : (0 <= n)%Z → pow2 n = IZR (2 ^ n).
Proof.
  intros Hn. rewrite <-(Z2Nat.id n) by done. unfold pow2. by rewrite <-pow_powerRZ, <-pow_IZR.
Qed.

Lemma pow2_lt a b : (a < b)%Z → pow2 a < pow2 b.
Proof.
  intros H. replace b with (a + (b - a))%Z by lia. rewrite pow2_add. pose proof (pow2_pos a).
  assert (1 < pow2 (b - a)); [|nra]. rewrite pow2_nat by lia. apply IZR_lt.
  pose proof (Z.pow_gt_1 2 (b - a)). lia.
Qed.

Lemma pow2_le a b : (a <= b)%Z → pow2 a <= pow2 b.
Proof. intros H. destruct (Z.eq_dec a b) as [->|]; [lra|]. left. apply pow2_lt. lia. Qed.

Lemma pow2_le_inv a b : pow2 a <= pow2 b → (a <= b)%Z.
Proof. intros H. destruct (Z.le_gt_cases a b) as [|Hb]; [done|]. apply pow2_lt in Hb. lra. Qed.

Lemma pow2_lt_inv a b : pow2 a < pow2 b → (a < b)%Z.
Proof. intros H. destruct (Z.le_gt_cases b a) as [Hb|]; [|done]. apply pow2_le in Hb. lra. Qed.

(** ** Where a real number lies between two integers *)

Definition inb (r : shr_record) (x : R) : Prop :=
  let m := IZR (shr_m r) in
  match shr_r r, shr_s r with
  | false, false => x = m
  | false, true => m < x < m + 1 / 2
  | true, false => x = m + 1 / 2
  | true, true => m + 1 / 2 < x < m + 1
  end.

Lemma inb_floor r x : inb r x → IZR (shr_m r) <= x < IZR (shr_m r) + 1.
Proof. unfold inb. destruct (shr_r r), (shr_s r); lra. Qed.

Lemma shr_1_inb r x : (0 <= shr_m r)%Z → inb r x → inb (shr_1 r) (x / 2).
Proof.
  destruct r as [m rb sb]. cbn [shr_m]. intros Hm. unfold inb.
  destruct m as [|[p|p|]|p]; [| | | |lia]; cbn [shr_1 shr_m shr_r shr_s];
    rewrite ?(Pos2Z.inj_xI p), ?(Pos2Z.inj_xO p), ?plus_IZR, ?mult_IZR; destruct rb, sb; cbn [orb]; lra.
Qed.

Lemma shr_1_nonneg r : (0 <= shr_m r)%Z → (0 <= shr_m (shr_1 r))%Z.
Proof. destruct r as [[|[p|p|]|p] ? ?]; cbn; lia. Qed.

Lemma shr_inb p r x : (0 <= shr_m r)%Z → inb r x → inb (iter_pos shr_1 p r) (x / pow2 (Zpos p)).
Proof.
  revert r x. induction p as [|p IH] using Pos.peano_ind; intros r x Hr H.
  - cbn [iter_pos]. change (pow2 1) with (2 * 1). rewrite Rmult_1_r. by apply shr_1_inb.
  - rewrite iter_pos_S. replace (x / pow2 (Zpos (Pos.succ p))) with (x / 2 / pow2 (Zpos p)).
    + apply IH; [by apply shr_1_nonneg|by apply shr_1_inb].
    + rewrite Pos2Z.inj_succ. unfold Z.succ. rewrite pow2_add. change (pow2 1) with (2 * 1).
      pose proof (pow2_pos (Zpos p)). field. lra.
Qed.

(** Rounding to the nearest integer moves by at most a half. *)
Lemma nearest_half r x :
  inb r x → Rabs (IZR (round_nearest_even (shr_m r) (loc_of_shr_record r)) - x) <= 1 / 2.
Proof.
  destruct r as [m [|] [|]]; unfold inb; cbn [shr_m shr_r shr_s loc_of_shr_record round_nearest_even]; intros H;
    try (destruct (Z.even m)); rewrite ?plus_IZR; apply Rabs_le; lra.
Qed.

Lemma nearest_next m l : (m <= round_nearest_even m l <= m + 1)%Z.
Proof. unfold round_nearest_even. repeat case_match; lia. Qed.

(** ** Rounding *)

Lemma digits_exact m : (2 ^ 52 <= Zpos m < 2 ^ 53)%Z → Zdigits2 (Zpos m) = 53%Z.
Proof.
  intros [Hl Hu]. cbn [Zdigits2]. apply digits2_small in Hu; [|lia].
  pose proof (digits2_bounds m) as [_ Hb]. destruct (Z.eq_dec (Zpos (digits2_pos m)) 53) as [|Hne]; [done|].
  pose proof (Z.pow_le_mono_r 2 (Zpos (digits2_pos m)) 52). lia.
Qed.

(** The first alignment leaves 53 digits. *)
Lemma align_digits m e l x (d := Zdigits2 m) :
  (0 < m)%Z → inb (shr_record_of_loc m l) x → (53 <= d)%Z → (-1021 <= d + e)%Z →
  ∃ r, shr_fexp 53 1024 m e l = (r, e + (d - 53))%Z ∧ inb r (x / pow2 (d - 53)) ∧ (2 ^ 52 <= shr_m r < 2 ^ 53)%Z.
Proof.
  intros Hm Hx Hd He. unfold shr_fexp.
  assert (fexp 53 1024 (Zdigits2 m + e) - e = d - 53)%Z as -> by (unfold fexp, emin; subst d; lia).
  destruct m as [|q|q]; [lia| |lia]. subst d. cbn [Zdigits2] in *. pose proof (digits2_bounds q) as [Hl Hu].
  assert (shr_m (shr_record_of_loc (Zpos q) l) = Zpos q) as Hrec by by destruct l as [|[]].
  destruct (Zpos (digits2_pos q) - 53)%Z as [|p|p] eqn:En; [| |lia]; cbn [shr].
  - eexists. split; [by rewrite Z.add_0_r|]. rewrite Hrec. split; [by unfold pow2; rewrite powerRZ_O, Rdiv_1_r|].
    replace (Zpos (digits2_pos q)) with 53%Z in * by lia. done.
  - eexists. split; [reflexivity|]. split; [apply shr_inb; [rewrite Hrec; lia|done]|].
    rewrite shr_iter, Hrec by (rewrite Hrec; lia).
    replace (Zpos (digits2_pos q) - 1)%Z with (52 + Zpos p)%Z in Hl by lia.
    replace (Zpos (digits2_pos q)) with (53 + Zpos p)%Z in Hu by lia.
    rewrite Z.pow_add_r in Hl, Hu by lia. pose proof (Z.pow_pos_nonneg 2 (Zpos p)).
    split; [apply Z.div_le_lower_bound; lia|apply Z.div_lt_upper_bound; lia].
Qed.

(** The second alignment is exact. *)
Lemma realign M e :
  (2 ^ 52 <= M <= 2 ^ 53)%Z → (-1074 <= e <= 970)%Z →
  ∃ m' e', (let '(r, e') := shr_fexp 53 1024 M e loc_Exact in
            match shr_m r with
            | Z0 => S754_zero false
            | Zpos m => if (e' <=? 1024 - 53)%Z then S754_finite false m e' else S754_infinity false
            | _ => S754_nan
            end) = S754_finite false m' e' ∧
    (2 ^ 52 <= Zpos m' < 2 ^ 53)%Z ∧ IZR (Zpos m') * pow2 e' = IZR M * pow2 e.
Proof.
  intros HM He. destruct (Z.eq_dec M (2 ^ 53)) as [->|Hne].
  - assert (shr_fexp 53 1024 (2 ^ 53) e loc_Exact = (Build_shr_record (2 ^ 52) false false, e + 1)%Z) as ->.
    { unfold shr_fexp. assert (fexp 53 1024 (Zdigits2 (2 ^ 53) + e) - e = 1)%Z as ->
        by (change (Zdigits2 (2 ^ 53)) with 54%Z; unfold fexp, emin; lia). reflexivity. }
    cbn [shr_m]. change (2 ^ 52)%Z with (Zpos 4503599627370496). rewrite (proj2 (Z.leb_le (e + 1) (1024 - 53))) by lia.
    eexists _, _. split_and!; [reflexivity|lia|lia|]. rewrite pow2_add. change (pow2 1) with (2 * 1).
    change (2 ^ 53)%Z with 9007199254740992%Z. lra.
  - destruct M as [|q|q]; [lia| |lia].
    assert (shr_fexp 53 1024 (Zpos q) e loc_Exact = (Build_shr_record (Zpos q) false false, e)) as ->.
    { unfold shr_fexp. rewrite digits_exact by lia.
      assert (fexp 53 1024 (53 + e) - e = 0)%Z as -> by (unfold fexp, emin; lia). reflexivity. }
    cbn [shr_m]. rewrite (proj2 (Z.leb_le e (1024 - 53))) by lia. eexists _, _. split_and!; [reflexivity|lia|lia|done].
Qed.

Lemma round_aux_error m e l x :
  (0 < m)%Z → inb (shr_record_of_loc m l) x → (53 <= Zdigits2 m)%Z → (-1021 <= Zdigits2 m + e <= 1023)%Z →
  ∃ m' e', binary_round_aux 53 1024 false m e l = S754_finite false m' e' ∧ (2 ^ 52 <= Zpos m' < 2 ^ 53)%Z ∧
    Rabs (IZR (Zpos m') * pow2 e' - x * pow2 e) <= pow2 (-53) * (x * pow2 e).
Proof.
  intros Hm Hx Hd He. destruct (align_digits m e l x Hm Hx Hd ltac:(lia)) as (r & Hr & Hin & Hrm).
  set (n := (Zdigits2 m - 53)%Z) in *. unfold binary_round_aux. rewrite Hr.
  pose proof (nearest_next (shr_m r) (loc_of_shr_record r)) as Hnext.
  set (M := round_nearest_even (shr_m r) (loc_of_shr_record r)) in *. assert (2 ^ 52 <= M <= 2 ^ 53)%Z as HM by lia.
  destruct (realign M (e + n)%Z HM ltac:(lia)) as (m' & e' & Heq & Hm' & Hv).
  exists m', e'. split_and!; [exact Heq|lia|lia|]. rewrite Hv.
  pose proof (nearest_half _ _ Hin) as Hh. fold M in Hh. apply inb_floor in Hin as [Hfl _].
  assert (IZR (2 ^ 52) <= x / pow2 n) as Hbig by (eapply Rle_trans; [apply IZR_le, Hrm|done]).
  rewrite pow2_add. pose proof (pow2_pos e) as Hpe. pose proof (pow2_pos n) as Hpn.
  replace (IZR M * (pow2 e * pow2 n) - x * pow2 e) with ((IZR M - x / pow2 n) * (pow2 e * pow2 n)) by (field; lra).
  rewrite Rabs_mult, (Rabs_pos_eq (pow2 e * pow2 n)) by nra.
  replace (pow2 (-53) * (x * pow2 e)) with (pow2 (-53) * (x / pow2 n) * (pow2 e * pow2 n)) by (field; lra).
  apply Rmult_le_compat_r; [nra|]. eapply Rle_trans; [exact Hh|].
  replace (1 / 2) with (pow2 (-53) * IZR (2 ^ 52)).
  - apply Rmult_le_compat_l; [left; apply pow2_pos|done].
  - rewrite <-pow2_nat by lia. rewrite <-pow2_add. change (pow2 (-53 + 52)) with (/ (2 * 1)). field.
Qed.

(** ** Positive normal doubles *)

Definition dbl (x : num) (v : R) : Prop :=
  ∃ m e, x = S754_finite false m e ∧ (2 ^ 52 <= Zpos m < 2 ^ 53)%Z ∧ v = IZR (Zpos m) * pow2 e.

(** Neither too small nor too large for a relative error. *)
Definition in_range (v : R) : Prop := pow2 (-1000) <= v <= pow2 1000.

Lemma dbl_pos x v : dbl x v → 0 < v.
Proof.
  intros (m & e & _ & Hm & ->). apply Rmult_lt_0_compat; [|apply pow2_pos]. apply IZR_lt. lia.
Qed.

Lemma digits_range m e x :
  (0 < m)%Z → IZR m <= x < IZR m + 1 → in_range (x * pow2 e) → (-1000 < Zdigits2 m + e <= 1001)%Z.
Proof.
  intros Hm Hx [Hl Hu]. destruct m as [|q|q]; [lia| |lia]. cbn [Zdigits2].
  pose proof (digits2_bounds q) as [Hb1 Hb2]. set (d := Zpos (digits2_pos q)) in *.
  pose proof (pow2_pos e) as He. split.
  - apply pow2_lt_inv. eapply Rle_lt_trans; [exact Hl|]. rewrite pow2_add. apply Rmult_lt_compat_r; [done|].
    rewrite pow2_nat by lia. eapply Rlt_le_trans; [apply Hx|]. rewrite <-plus_IZR. apply IZR_le. lia.
  - enough (d - 1 + e <= 1000)%Z by lia. apply pow2_le_inv. eapply Rle_trans; [|exact Hu]. rewrite pow2_add.
    apply Rmult_le_compat_r; [lra|]. rewrite pow2_nat by lia. eapply Rle_trans; [apply IZR_le, Hb1|apply Hx].
Qed.

Lemma rounded_dbl m e l x :
  inb (shr_record_of_loc m l) x → (2 ^ 52 <= m)%Z → in_range (x * pow2 e) →
  ∃ z, dbl (binary_round_aux 53 1024 false m e l) z ∧ Rabs (z - x * pow2 e) <= pow2 (-53) * (x * pow2 e).
Proof.
  intros Hx Hm Hr. assert (shr_m (shr_record_of_loc m l) = m) as Hrec by by destruct l as [|[]].
  pose proof (inb_floor _ _ Hx) as Hf. rewrite Hrec in Hf.
  assert (53 <= Zdigits2 m)%Z as Hd.
  { destruct m as [|q|q]; [lia| |lia]. cbn [Zdigits2]. pose proof (digits2_bounds q) as [_ Hb].
    destruct (Z.le_gt_cases 53 (Zpos (digits2_pos q))) as [|H]; [done|].
    pose proof (Z.pow_le_mono_r 2 (Zpos (digits2_pos q)) 52). lia. }
  pose proof (digits_range m e x ltac:(lia) Hf Hr) as Hde.
  destruct (round_aux_error m e l x) as (m' & e' & E & Hm' & Herr); [lia|done|done|lia|].
  exists (IZR (Zpos m') * pow2 e'). split; [|done]. rewrite E. by exists m', e'.
Qed.

Lemma mul_error x y v w :
  dbl x v → dbl y w → in_range (v * w) →
  ∃ z, dbl (num_mul x y) z ∧ Rabs (z - v * w) <= pow2 (-53) * (v * w).
Proof.
  intros (m1 & e1 & -> & H1 & ->) (m2 & e2 & -> & H2 & ->) Hr. cbn [num_mul SFmul xorb].
  change (num_mul (S754_finite false m1 e1) (S754_finite false m2 e2))
    with (binary_round_aux 53 1024 false (Zpos (m1 * m2)) (e1 + e2) loc_Exact).
  replace (IZR (Zpos m1) * pow2 e1 * (IZR (Zpos m2) * pow2 e2)) with (IZR (Zpos (m1 * m2)) * pow2 (e1 + e2)) in *
    by (rewrite Pos2Z.inj_mul, mult_IZR, pow2_add; ring).
  apply rounded_dbl; [done|lia|done].
Qed.

(** The location of a quotient *)
Lemma location_inb q r b :
  (0 < b)%Z → (0 <= r < b)%Z → inb (shr_record_of_loc q (new_location b r)) (IZR q + IZR r / IZR b).
Proof.
  intros Hb Hr. assert (0 < IZR b) as Hb' by (apply IZR_lt; lia).
  assert (∀ n, (2 * r < b)%Z ∧ n = Lt ∨ (2 * r = b)%Z ∧ n = Eq ∨ (2 * r > b)%Z ∧ n = Gt → (0 < r)%Z →
    inb (shr_record_of_loc q (loc_Inexact n)) (IZR q + IZR r / IZR b)) as Hin.
  { intros n Hn H0. assert (0 < IZR r / IZR b < 1) as H01.
    { split; [apply Rdiv_lt_0_compat; [apply IZR_lt; lia|done]|]. apply Rmult_lt_reg_r with (IZR b); [done|].
      unfold Rdiv. rewrite Rmult_assoc, Rinv_l, Rmult_1_r, Rmult_1_l by lra. apply IZR_lt. lia. }
    assert (IZR r = IZR r / IZR b * IZR b) as E by (field; lra).
    destruct Hn as [[Hn ->]|[[Hn ->]|[Hn ->]]]; unfold inb; cbn [shr_record_of_loc shr_m shr_r shr_s];
      (apply Z.gt_lt, IZR_lt in Hn || apply IZR_lt in Hn || apply (f_equal IZR) in Hn);
      rewrite mult_IZR in Hn; nra. }
  unfold new_location, new_location_even, new_location_odd.
  destruct (Z.eq_dec r 0) as [->|Hne].
  - assert (inb (shr_record_of_loc q loc_Exact) (IZR q + IZR 0 / IZR b)) by (unfold inb; cbn; field; lra).
    by destruct (Z.even b).
  - destruct (Z.even b) eqn:Eb; rewrite (proj2 (Z.eqb_neq r 0) Hne); apply Hin; try lia.
    + destruct (Z.compare_spec (2 * r) b); auto with lia.
    + assert (2 * r ≠ b)%Z as Hodd by (intros <-; by rewrite Z.even_mul in Eb).
      destruct (Z.compare_spec (2 * r + 1) b); auto with lia.
Qed.

Lemma div_error x y v w :
  dbl x v → dbl y w → in_range (v / w) →
  ∃ z, dbl (num_div x y) z ∧ Rabs (z - v / w) <= pow2 (-53) * (v / w).
Proof.
  intros (m1 & e1 & -> & H1 & ->) (m2 & e2 & -> & H2 & ->) Hr.
  pose proof (pow2_pos e1) as P1. pose proof (pow2_pos e2) as P2. pose proof (pow2_pos (e1 - e2)) as P3.
  assert (0 < IZR (Zpos m2)) as Hm2 by (apply IZR_lt; lia).
  assert (pow2 e1 = pow2 (e1 - e2) * pow2 e2) as Epow by (rewrite <-pow2_add; f_equal; lia).
  assert (IZR (Zpos m1) * pow2 e1 / (IZR (Zpos m2) * pow2 e2) = IZR (Zpos m1) / IZR (Zpos m2) * pow2 (e1 - e2)) as Ev
    by (rewrite Epow; field; lra).
  assert (IZR (Zpos m1) < 2 * IZR (Zpos m2)) as H12 by (rewrite <-mult_IZR; apply IZR_lt; lia).
  rewrite Ev in *.
  assert (-1021 <= e1 - e2)%Z as He.
  { destruct Hr as [Hl _]. enough (-1000 < e1 - e2 + 1)%Z by lia. apply pow2_lt_inv.
    eapply Rle_lt_trans; [exact Hl|]. rewrite pow2_add. change (pow2 1) with (2 * 1).
    assert (IZR (Zpos m1) / IZR (Zpos m2) < 2); [|nra].
    apply Rmult_lt_reg_r with (IZR (Zpos m2)); [done|]. unfold Rdiv. rewrite Rmult_assoc, Rinv_l by lra. lra. }
  set (q := (Zpos m1 * 2 ^ 53 / Zpos m2)%Z). set (r := (Zpos m1 * 2 ^ 53 mod Zpos m2)%Z).
  assert (num_div (S754_finite false m1 e1) (S754_finite false m2 e2)
          = binary_round_aux 53 1024 false q (e1 - e2 - 53) (new_location (Zpos m2) r)) as ->.
  { unfold num_div, SFdiv, SFdiv_core_binary. rewrite !digits_exact by lia.
    replace (53 + e1 - (53 + e2))%Z with (e1 - e2)%Z by lia.
    assert (Z.min (fexp 53 1024 (e1 - e2)) (e1 - e2) = e1 - e2 - 53)%Z as -> by (unfold fexp, emin; lia).
    replace (e1 - e2 - (e1 - e2 - 53))%Z with 53%Z by lia. rewrite Z.shiftl_mul_pow2 by lia.
    unfold q, r, Z.div, Z.modulo. by destruct (Z.div_eucl _ _). }
  pose proof (Z.div_mod (Zpos m1 * 2 ^ 53) (Zpos m2) ltac:(lia)) as Hdm. fold q r in Hdm.
  pose proof (Z.mod_pos_bound (Zpos m1 * 2 ^ 53) (Zpos m2) ltac:(lia)) as Hrb. fold r in Hrb.
  assert (IZR (Zpos m1) / IZR (Zpos m2) * pow2 (e1 - e2)
          = (IZR q + IZR r / IZR (Zpos m2)) * pow2 (e1 - e2 - 53)) as Ex.
  { apply (f_equal IZR) in Hdm. rewrite plus_IZR, !mult_IZR, <-pow2_nat in Hdm by lia.
    replace (pow2 (e1 - e2)) with (pow2 53 * pow2 (e1 - e2 - 53)) by (rewrite <-pow2_add; f_equal; lia).
    pose proof (pow2_pos (e1 - e2 - 53)).
    replace (IZR q + IZR r / IZR (Zpos m2)) with (IZR (Zpos m1) * pow2 53 / IZR (Zpos m2)) by (rewrite Hdm; field; lra).
    field. lra. }
  rewrite Ex in *. apply rounded_dbl; [by apply location_inb| |done].
  apply Z.div_le_lower_bound; lia.
Qed.

(** ** Integers *)

Lemma dbl_of_Z n : (1 <= n < 2 ^ 53)%Z → dbl (num_of_Z n) (IZR n).
Proof.
  intros Hn. destruct n as [|p|p]; [lia| |lia]. unfold num_of_Z. cbn [binary_normalize].
  unfold binary_round, shl_align. pose proof (digits2_small p 53 ltac:(lia) (proj2 Hn)) as Hd.
  set (d := Zpos (digits2_pos p)) in *.
  assert (fexp 53 1024 (d + 0) = d - 53)%Z as -> by (unfold fexp, emin; subst d; lia).
  pose proof (digits2_bounds p) as [Hb1 Hb2]. fold d in Hb1, Hb2. rewrite Z.sub_0_r.
  destruct (d - 53)%Z as [|k|k] eqn:Ek; [|lia|].
  - rewrite round_aligned by (change (Zpos (digits2_pos p)) with d; unfold fexp, emin; lia).
    exists p, 0%Z. replace (d - 1)%Z with 52%Z in Hb1 by lia. split_and!; [done|lia|lia|].
    unfold pow2. rewrite powerRZ_O. ring.
  - rewrite round_aligned by (rewrite ?shift_digits, ?Pos2Z.inj_add; fold d; unfold fexp, emin; lia).
    exists (Pos.iter xO p k), (Zneg k). rewrite shift_value.
    assert (2 ^ 52 <= Zpos p * 2 ^ Zpos k < 2 ^ 53)%Z as Hm.
    { replace 52%Z with (d - 1 + Zpos k)%Z at 1 by lia. replace 53%Z with (d + Zpos k)%Z by lia.
      rewrite !Z.pow_add_r by lia. pose proof (Z.pow_pos_nonneg 2 (Zpos k)). nia. }
    split_and!; [done|lia|lia|]. rewrite mult_IZR, <-pow2_nat, Rmult_assoc, <-pow2_add by lia.
    replace (Zpos k + Zneg k)%Z with 0%Z by lia. unfold pow2. rewrite powerRZ_O. ring.
Qed.

Lemma round_near x v n : dbl x v → (1 <= n)%Z → v < pow2 51 → Rabs (v - IZR n) < 1 / 2 → num_round x = num_of_Z n.
Proof.
  intros (m & e & -> & Hm & ->) Hn Hv Hh.
  assert (e < 0)%Z as He.
  { apply pow2_lt_inv. apply Rmult_lt_reg_l with (pow2 52); [apply pow2_pos|].
    assert (pow2 52 <= IZR (Zpos m)) as H52 by (rewrite pow2_nat by lia; apply IZR_le; lia).
    pose proof (pow2_pos e). pose proof (pow2_lt 51 52 ltac:(lia)). unfold pow2 at 4. rewrite powerRZ_O. nra. }
  unfold num_round. rewrite (proj2 (Z.leb_gt 0 e)) by done. cbn [cond_Zopp].
  set (k := (- e)%Z). assert ((1 - e) = k + 1)%Z as -> by (subst k; lia).
  assert (2 * n * 2 ^ k < 2 * Zpos m + 2 ^ k < 2 * (n + 1) * 2 ^ k)%Z as Hb.
  { apply Rabs_def2 in Hh as [H1 H2]. pose proof (pow2_pos k) as Hk.
    assert (IZR (Zpos m) = IZR (Zpos m) * pow2 e * pow2 k) as E.
    { rewrite Rmult_assoc, <-pow2_add. subst k. replace (e + - e)%Z with 0%Z by lia. unfold pow2. rewrite powerRZ_O. ring. }
    split; apply lt_IZR; rewrite ?plus_IZR, ?mult_IZR, ?plus_IZR, <-pow2_nat by lia; rewrite E; nra. }
  assert ((2 * Zpos m + 2 ^ k) / 2 ^ (k + 1) = n)%Z as ->.
  { symmetry. apply Z.div_unique with (2 * Zpos m + 2 ^ k - n * 2 ^ (k + 1))%Z; [left|lia].
    rewrite Z.pow_add_r by lia. lia. }
  by rewrite (proj2 (Z.eqb_neq n 0)) by lia.
Qed.

(** ** Chains of operations *)

Definition in_small (k : Z) (v : R) : Prop := pow2 (- k) <= v <= pow2 k.

(** The relative error of [x] as an approximation of [y] *)
Definition near (a x y : R) : Prop := Rabs (x - y) <= a * y.

Lemma near_iff a x y : near a x y ↔ y - a * y <= x <= y + a * y.
Proof. unfold near, Rabs. destruct (Rcase_abs _); split; lra. Qed.

(** One more rounding *)
Definition rounded (a : R) : R := a + pow2 (-53) + pow2 (-53) * a.

Lemma in_small_le k l v : (k <= l)%Z → in_small k v → in_small l v.
Proof. intros H [H1 H2]. pose proof (pow2_le (- l) (- k) ltac:(lia)). pose proof (pow2_le k l H). unfold in_small. lra. Qed.

Lemma in_small_pos k v : in_small k v → 0 < v.
Proof. intros [H _]. pose proof (pow2_pos (- k)). lra. Qed.

Lemma in_small_mul k l v w : in_small k v → in_small l w → in_small (k + l) (v * w).
Proof.
  intros [H1 H2] [H3 H4]. unfold in_small. replace (- (k + l))%Z with (- k + - l)%Z by lia. rewrite !pow2_add.
  pose proof (pow2_pos (- k)). pose proof (pow2_pos (- l)). split; apply Rmult_le_compat; lra.
Qed.

Lemma in_small_inv k v : in_small k v → in_small k (/ v).
Proof.
  intros H. pose proof (in_small_pos _ _ H). destruct H as [H1 H2].
  pose proof (pow2_pos k). pose proof (pow2_pos (- k)). split.
  - rewrite pow2_opp. apply Rinv_le_contravar; lra.
  - rewrite <-(Z.opp_involutive k), pow2_opp. apply Rinv_le_contravar; lra.
Qed.

Lemma in_small_div k l v w : in_small k v → in_small l w → in_small (k + l) (v / w).
Proof. intros Hv Hw. unfold Rdiv. apply in_small_mul; [done|by apply in_small_inv]. Qed.

Lemma near_small a k x y : a <= 1 / 2 → near a x y → in_small k y → in_small (k + 1) x.
Proof.
  intros Ha Hn Hy. pose proof (in_small_pos _ _ Hy). destruct Hy as [H1 H2]. apply near_iff in Hn.
  unfold in_small. replace (- (k + 1))%Z with (- k + -1)%Z by lia. rewrite !pow2_add.
  change (pow2 1) with (2 * 1). replace (pow2 (-1)) with (1 / 2) by (change (-1)%Z with (- (1))%Z; rewrite pow2_opp; change (pow2 1) with (2 * 1); lra).
  pose proof (pow2_pos (- k)). nra.
Qed.

Lemma near_scale a x y w : 0 < w → near a x y → near a (x * w) (y * w).
Proof.
  unfold near. intros Hw H. rewrite <-Rmult_minus_distr_r, Rabs_mult, (Rabs_pos_eq w) by lra. nra.
Qed.

Lemma near_round a x y z : 0 <= a → near a x y → near (pow2 (-53)) z x → near (rounded a) z y.
Proof.
  rewrite !near_iff. unfold rounded. intros Ha H1 H2. pose proof (pow2_pos (-53)).
  assert (x * pow2 (-53) <= (y + a * y) * pow2 (-53)) by (apply Rmult_le_compat_r; lra). lra.
Qed.

Lemma in_small_range k v : (k <= 1000)%Z → in_small k v → in_range v.
Proof. apply in_small_le. Qed.

(** A product and a quotient whose first operand is itself approximate *)
Lemma mul_near a k l x y v' v w :
  0 <= a <= 1 / 2 → (k + 1 + l <= 1000)%Z → dbl x v' → near a v' v → in_small k v → dbl y w → in_small l w →
  ∃ z, dbl (num_mul x y) z ∧ near (rounded a) z (v * w).
Proof.
  intros Ha Hk Hx Hn Hv Hy Hw. pose proof (near_small a k v' v ltac:(lra) Hn Hv) as Hv'.
  destruct (mul_error x y v' w Hx Hy) as (z & Hz & He).
  { apply (in_small_range (k + 1 + l)); [done|by apply in_small_mul]. }
  exists z. split; [done|]. apply near_round with (v' * w); [lra| |done].
  apply near_scale; [by apply in_small_pos in Hw|done].
Qed.

Lemma div_near a k l x y v' v w :
  0 <= a <= 1 / 2 → (k + 1 + l <= 1000)%Z → dbl x v' → near a v' v → in_small k v → dbl y w → in_small l w →
  ∃ z, dbl (num_div x y) z ∧ near (rounded a) z (v / w).
Proof.
  intros Ha Hk Hx Hn Hv Hy Hw. pose proof (near_small a k v' v ltac:(lra) Hn Hv) as Hv'.
  destruct (div_error x y v' w Hx Hy) as (z & Hz & He).
  { apply (in_small_range (k + 1 + l)); [done|by apply in_small_div]. }
  exists z. split; [done|]. apply near_round with (v' / w); [lra| |done].
  apply near_scale; [apply Rinv_0_lt_compat; by apply in_small_pos in Hw|done].
Qed.

(** ** Usual rates, and the way to a rate and back *)

(** A normal double between 2^-100 and 2^100 *)
Definition usual_rate (x : num) : bool :=
  match x with
  | S754_finite false m e => ((2 ^ 52 <=? Zpos m) && (Zpos m <? 2 ^ 53) && (-152 <=? e) && (e <=? 47))%Z
  | _ => false
  end.

Lemma usual_rate_dbl x : usual_rate x = true → ∃ v, dbl x v ∧ in_small 100 v.
Proof.
  destruct x as [| | |[] m e]; cbn [usual_rate]; try done. rewrite !andb_true_iff, !Z.leb_le, Z.ltb_lt.
  intros [[[H1 H2] H3] H4]. eexists. split; [by exists m, e|]. pose proof (pow2_pos e).
  assert (pow2 52 <= IZR (Zpos m) <= pow2 53) as Hm.
  { rewrite !pow2_nat by lia. split; apply IZR_le; lia. }
  pose proof (pow2_le (-100) (52 + e) ltac:(lia)) as P1. pose proof (pow2_le (53 + e) 100 ltac:(lia)) as P2.
  rewrite pow2_add in P1, P2. unfold in_small; change (- (100))%Z with (-100)%Z;
  split; [transitivity (pow2 52 * pow2 e)|transitivity (pow2 53 * pow2 e)]; try done; apply Rmult_le_compat_r; lra.
Qed.

Lemma pow2_53 : pow2 (-53) = / 9007199254740992.
Proof. change (-53)%Z with (- (53))%Z. rewrite pow2_opp, pow2_nat by lia. done. Qed.

(** Divided by [q], multiplied by [r], divided by [r], multiplied by [q] and
    rounded, an integer up to 2^49 is itself again. *)
Lemma rate_round_trip q r n :
  usual_rate q = true → usual_rate r = true → (1 <= n <= 2 ^ 49)%Z →
  (∃ v, dbl (num_mul (num_div (num_of_Z n) q) r) v) ∧
  num_round (num_mul (num_div (num_mul (num_div (num_of_Z n) q) r) r) q) = num_of_Z n.
Proof.
  intros (vq & Hq & Sq)%usual_rate_dbl (vr & Hr & Sr)%usual_rate_dbl Hn.
  pose proof (in_small_pos _ _ Sq) as Pq. pose proof (in_small_pos _ _ Sr) as Pr.
  assert (1 <= IZR n <= 562949953421312) as Bn by (split; apply IZR_le; lia).
  assert (in_small 49 (IZR n)) as Sn.
  { unfold in_small. pose proof (pow2_le (- (49)) 0 ltac:(lia)) as P. change (pow2 0) with 1 in P. split; [lra|].
    rewrite pow2_nat by lia. apply IZR_le. lia. }
  assert (near 0 (IZR n) (IZR n)) as N0 by (unfold near; rewrite Rminus_diag, Rabs_R0; lra).
  pose proof (dbl_of_Z n ltac:(lia)) as D0.
  set (a1 := rounded 0). set (a2 := rounded a1). set (a3 := rounded a2).
  assert (0 <= a1 <= 1 / 2) as B1 by (subst a1; unfold rounded; rewrite pow2_53; lra).
  assert (0 <= a2 <= 1 / 2) as B2 by (subst a2 a1; unfold rounded; rewrite pow2_53; lra).
  assert (0 <= a3 <= 1 / 2) as B3 by (subst a3 a2 a1; unfold rounded; rewrite pow2_53; lra).
  destruct (div_near 0 49 100 _ _ _ _ _ ltac:(lra) ltac:(lia) D0 N0 Sn Hq Sq) as (z1 & D1 & N1).
  pose proof (in_small_div _ _ _ _ Sn Sq) as S1.
  destruct (mul_near a1 149 100 _ _ _ _ _ B1 ltac:(lia) D1 N1 S1 Hr Sr) as (z2 & D2 & N2).
  pose proof (in_small_mul _ _ _ _ S1 Sr) as S2. split; [by exists z2|].
  destruct (div_near a2 249 100 _ _ _ _ _ B2 ltac:(lia) D2 N2 S2 Hr Sr) as (z3 & D3 & N3).
  pose proof (in_small_div _ _ _ _ S2 Sr) as S3.
  destruct (mul_near a3 349 100 _ _ _ _ _ B3 ltac:(lia) D3 N3 S3 Hq Sq) as (z4 & D4 & N4).
  replace (IZR n / vq * vr / vr * vq) with (IZR n) in N4 by (field; lra).
  assert (rounded a3 <= 5 / 9007199254740992) as A4 by (subst a3 a2 a1; unfold rounded; rewrite pow2_53; lra).
  assert (Rabs (z4 - IZR n) < 1 / 2) as Hh by (unfold near in N4; nra).
  apply round_near with z4; [done|lia| |done].
  rewrite pow2_nat by lia. apply Rabs_def2 in Hh. change (2 ^ 51)%Z with 2251799813685248%Z. lra.
Qed.

Lemma dbl_finite x v : dbl x v → is_finite x = true ∧ num_ltb num_zero x = true.
Proof. intros (m & e & -> & _). done. Qed.

Lemma round_of_Z n : (1 <= n < 2 ^ 51)%Z → num_round (num_of_Z n) = num_of_Z n.
Proof.
  intros Hn. apply round_near with (IZR n); [apply dbl_of_Z; lia|lia| |].
  - rewrite pow2_nat by lia. apply IZR_lt. lia.
  - rewrite Rminus_diag, Rabs_R0. lra.
Qed.

(** ** Order *)

Lemma ltb_dbl_true x y v w : dbl x v → dbl y w → v < w → num_ltb x y = true.
Proof.
  intros (m1 & e1 & -> & H1 & ->) (m2 & e2 & -> & H2 & ->) Hlt. unfold num_ltb, SFltb. cbn [SFcompare].
  pose proof (pow2_pos e1) as P1.
  destruct (Z.compare_spec e1 e2) as [->|He|He]; [|done|].
  - assert (Zpos m1 < Zpos m2)%Z as Hm by (apply lt_IZR; nra). change (Pos.compare_cont Eq m1 m2) with (m1 ?= m2)%positive.
    by rewrite (proj2 (Pos.compare_lt_iff m1 m2)) by lia.
  - exfalso. pose proof (pow2_pos e2) as P2. pose proof (pow2_le (53 + e2) (52 + e1) ltac:(lia)) as P. rewrite !pow2_add in P.
    assert (pow2 52 <= IZR (Zpos m1)) as B1 by (rewrite pow2_nat by lia; apply IZR_le; lia).
    assert (IZR (Zpos m2) <= pow2 53) as B2 by (rewrite pow2_nat by lia; apply IZR_le; lia). nra.
Qed.

Lemma ltb_dbl_false x y v w : dbl x v → dbl y w → w <= v → num_ltb x y = false.
Proof.
  intros (m1 & e1 & -> & H1 & ->) (m2 & e2 & -> & H2 & ->) Hle. unfold num_ltb, SFltb. cbn [SFcompare].
  pose proof (pow2_pos e1) as P1. pose proof (pow2_pos e2) as P2.
  destruct (Z.compare_spec e1 e2) as [->|He|He]; [| |done].
  - assert (Zpos m2 <= Zpos m1)%Z as Hm by (apply le_IZR; nra). change (Pos.compare_cont Eq m1 m2) with (m1 ?= m2)%positive.
    by destruct (Pos.compare_spec m1 m2); [| lia|].
  - exfalso. pose proof (pow2_le (53 + e1) (52 + e2) ltac:(lia)) as P. rewrite !pow2_add in P.
    assert (IZR (Zpos m1) < pow2 53) as B1 by (rewrite pow2_nat by lia; apply IZR_lt; lia).
    assert (pow2 52 <= IZR (Zpos m2)) as B2 by (rewrite pow2_nat by lia; apply IZR_le; lia). nra.
Qed.

Lemma ltb_of_Z i n : (0 <= i < 2 ^ 53)%Z → (0 <= n < 2 ^ 53)%Z → num_ltb (num_of_Z i) (num_of_Z n) = (i <? n)%Z.
Proof.
  intros Hi Hn. destruct (Z.eq_dec n 0) as [->|Hn0].
  { replace (i <? 0)%Z with false by lia. destruct (Z.eq_dec i 0) as [->|Hi0]; [done|].
    destruct (dbl_of_Z i ltac:(lia)) as (m & e & -> & _). done. }
  pose proof (dbl_of_Z n ltac:(lia)) as Dn. destruct (Z.eq_dec i 0) as [->|Hi0].
  { replace (0 <? n)%Z with true by lia. by destruct (dbl_finite _ _ Dn). }
  pose proof (dbl_of_Z i ltac:(lia)) as Di. destruct (Z.ltb_spec i n).
  - apply (ltb_dbl_true _ _ _ _ Di Dn). by apply IZR_lt.
  - apply (ltb_dbl_false _ _ _ _ Di Dn). by apply IZR_le.
Qed.

(** ** Signs *)

Lemma round_aux_opp m e l : binary_round_aux 53 1024 true m e l = SFopp (binary_round_aux 53 1024 false m e l).
Proof. unfold binary_round_aux. repeat case_match; done. Qed.

Lemma of_Z_opp p : num_of_Z (Zneg p) = SFopp (num_of_Z (Zpos p)).
Proof. unfold num_of_Z. cbn [binary_normalize]. unfold binary_round. case_match. apply round_aux_opp. Qed.

Lemma mul_opp m e m' e' :
  num_mul (S754_finite true m e) (S754_finite false m' e') = SFopp (num_mul (S754_finite false m e) (S754_finite false m' e')).
Proof. apply (round_aux_opp (Zpos (m * m'))). Qed.

Lemma div_opp m e m' e' :
  num_div (S754_finite true m e) (S754_finite false m' e') = SFopp (num_div (S754_finite false m e) (S754_finite false m' e')).
Proof. unfold num_div, SFdiv. cbn [xorb]. case_match. case_match. apply round_aux_opp. Qed.

(** The way of a negative number to a rate *)
Lemma negative_rate q r n :
  usual_rate q = true → usual_rate r = true → (1 <= n <= 2 ^ 49)%Z →
  ∃ m e, num_mul (num_div (num_of_Z (- n)) q) r = S754_finite true m e.
Proof.
  intros (vq & Hq & Sq)%usual_rate_dbl (vr & Hr & Sr)%usual_rate_dbl Hn.
  pose proof (dbl_of_Z n ltac:(lia)) as D0.
  assert (in_small 49 (IZR n)) as Sn.
  { unfold in_small. pose proof (pow2_le (- (49)) 0 ltac:(lia)) as P. change (pow2 0) with 1 in P.
    assert (1 <= IZR n) by (apply IZR_le; lia). split; [lra|]. rewrite pow2_nat by lia. apply IZR_le. lia. }
  assert (near 0 (IZR n) (IZR n)) as N0 by (unfold near; rewrite Rminus_diag, Rabs_R0; lra).
  destruct (div_near 0 49 100 _ _ _ _ _ ltac:(lra) ltac:(lia) D0 N0 Sn Hq Sq) as (z1 & D1 & N1).
  assert (0 <= rounded 0 <= 1 / 2) as B1 by (unfold rounded; rewrite pow2_53; lra).
  destruct (mul_near (rounded 0) 149 100 _ _ _ _ _ B1 ltac:(lia) D1 N1 (in_small_div _ _ _ _ Sn Sq) Hr Sr) as (z2 & D2 & _).
  destruct n as [|p|p]; [lia| |lia]. change (- Zpos p)%Z with (Zneg p). rewrite of_Z_opp.
  destruct D0 as (m0 & e0 & E0 & _), Hq as (mq & eq & -> & _), Hr as (mr & er & -> & _). rewrite E0 in *. cbn [SFopp negb].
  rewrite div_opp. destruct D1 as (m1 & e1 & E1 & _). rewrite E1 in *. cbn [SFopp negb]. rewrite mul_opp.
  destruct D2 as (m2 & e2 & -> & _). by exists m2, e2.
Qed.
