(* ===== verification/Quota.v ===== *)
(** * Quotas and currencies

    Quotas are stored in units ([quotaPerUnit] to the dollar) and shown in the
    currency the administrator configured.  [Currency] models
    web/default/src/lib/currency.ts and the conversions of lib/format.ts.  The text
    [Intl.NumberFormat] makes of a number is a parameter.

    [quota_roundtrip]: a quota that is shown and saved again is unchanged, the four
    floating-point roundings included. *)

From stdpp Require Import base list strings.
From Stdlib Require Import ZArith Lia SpecFloat.
From S2P Require Import Prelude JsString JsNumber JsValue JsRegex BillingExpr ModelPricing JsRounding.
#[local] Open Scope Z_scope.

Module Currency.
Import PricingFormat.

(** ** Configuration *)

Inductive CurrencyDisplayType := USD | CNY | TOKENS | CUSTOM.

Record CurrencyConfig := MkConfig {
  displayInCurrency : bool;
  quotaDisplayType : CurrencyDisplayType;
  quotaPerUnit : num;
  usdExchangeRate : num;
  customCurrencySymbol : jsstr;
  customCurrencyExchangeRate : num;
}.

Definition num_one : num := num_of_Z 1.

(** The generic currency sign *)
Definition DEFAULT_CURRENCY_CONFIG : CurrencyConfig :=
  MkConfig true USD (num_of_Z 500000) num_one [164] num_one.

Definition DISPLAY_TYPE_VALUES : list (jsstr * CurrencyDisplayType) :=
  [(js "USD", USD); (js "CNY", CNY); (js "TOKENS", TOKENS); (js "CUSTOM", CUSTOM)].

Definition parseCurrencyDisplayType (value : jsval) (fallback : CurrencyDisplayType) : CurrencyDisplayType :=
  match value with JStr s => default fallback (assoc_get s DISPLAY_TYPE_VALUES) | _ => fallback end.

Definition isCurrencyDisplayType (value : jsval) : bool :=
  match value with JStr s => negb (is_none (assoc_get s DISPLAY_TYPE_VALUES)) | _ => false end.

(** [x && x > 0 ? x : fallback] *)
Definition positive_or (x fallback : num) : num :=
  if num_truthy x && num_ltb num_zero x then x else fallback.

(** [None]: no configuration was loaded *)
Definition getConfig (stored : option CurrencyConfig) : CurrencyConfig :=
  let c := default DEFAULT_CURRENCY_CONFIG stored in
  let d := DEFAULT_CURRENCY_CONFIG in
  let symbol := trim (customCurrencySymbol c) in
  MkConfig (displayInCurrency c) (quotaDisplayType c) (positive_or (quotaPerUnit c) (quotaPerUnit d))
    (positive_or (usdExchangeRate c) (usdExchangeRate d))
    (if is_empty symbol then customCurrencySymbol d else symbol)
    (positive_or (customCurrencyExchangeRate c) (customCurrencyExchangeRate d)).

Inductive DisplayMeta :=
| currency (symbol currencyCode : jsstr) (exchangeRate : num)
| custom (symbol : jsstr) (exchangeRate : num)
| tokens (quotaPerUnit : num).

Definition usd_meta : DisplayMeta := currency (js "$") (js "USD") num_one.

(** The yen sign is character 165. *)
Definition getDisplayMeta (config : CurrencyConfig) : DisplayMeta :=
  match quotaDisplayType config with
  | CNY => currency [165] (js "CNY") (usdExchangeRate config)
  | CUSTOM => custom (customCurrencySymbol config) (customCurrencyExchangeRate config)
  | TOKENS => tokens (quotaPerUnit config)
  | USD => usd_meta
  end.

Definition getBillingDisplayMeta (config : CurrencyConfig) : DisplayMeta :=
  match getDisplayMeta config with tokens _ => usd_meta | meta => meta end.

(** [getCurrencyDisplay] with the stored configuration *)
Definition getCurrencyDisplay (stored : option CurrencyConfig) : CurrencyConfig * DisplayMeta :=
  let config := getConfig stored in (config, getDisplayMeta config).

Definition getCurrencyLabel (stored : option CurrencyConfig) : jsstr :=
  let '(config, meta) := getCurrencyDisplay stored in
  match meta with
  | tokens _ => js "Tokens"
  | _ =>
      match quotaDisplayType config with
      | CNY => js "CNY"
      | CUSTOM => match meta with custom symbol _ => symbol | _ => js "Custom" end
      | _ => js "USD"
      end
  end.

Definition isCurrencyDisplayEnabled (stored : option CurrencyConfig) : bool :=
  match (getCurrencyDisplay stored).2 with tokens _ => false | _ => true end.

(** ** Formatting *)

(** [None]: an option left out *)
Record CurrencyFormatOptions := MkOpts {
  digitsLarge : option nat;
  digitsSmall : option nat;
  abbreviate : option bool;
  minimumNonZero : option num;
}.

(** The options with the defaults filled in. *)
Record Merged := MkMerged { m_large : nat; m_small : nat; m_abbreviate : bool; m_minimum : num }.

Definition DEFAULT_FORMAT_OPTIONS : Merged := MkMerged 2 4 true num_zero.

Definition mergeOptions (options : option CurrencyFormatOptions) : Merged :=
  match options with
  | None => DEFAULT_FORMAT_OPTIONS
  | Some o =>
      MkMerged (default 2%nat (digitsLarge o)) (default 4%nat (digitsSmall o)) (default true (abbreviate o))
        (default num_zero (minimumNonZero o))
  end.

Fixpoint drop_zeros (s : jsstr) : jsstr :=
  match s with c :: t => if c =? 48 then drop_zeros t else s | [] => [] end.

(** The texts have at most one point; the pattern asks for digits after it. *)
Definition removeTrailingZeros (str : jsstr) : jsstr :=
  match split_char 46 str with
  | [whole; frac] =>
      let frac := if forallb is_digit frac then reverse (drop_zeros (reverse frac)) else frac in
      if is_empty frac then whole else whole ++ 46 :: frac
  | _ => str
  end.

Definition num_neg (x : num) : num := num_sub (S754_zero true) x.

Definition formatNumberWithSuffix (value : num) (digitsLarge digitsSmall : nat) (abbreviate : bool) : jsstr :=
  let abs := num_abs value in
  if abbreviate && num_leb (num_of_Z 1000) abs then
    removeTrailingZeros (to_fixed 1 (num_div value (num_of_Z 1000))) ++ js "k"
  else
    let digits := if num_leb num_one abs then digitsLarge else digitsSmall in
    removeTrailingZeros (to_fixed digits value).

(** [Math.pow(10, -digits)] *)
Definition pow10_neg (digits : nat) : num := str_to_num (js "1e-" ++ Z_to_str (Z.of_nat digits)).

Definition adjustForMinimum (value : num) (digits : nat) (minimumNonZero : num) : num :=
  if num_eqb value num_zero then value
  else
    let threshold := if num_ltb num_zero minimumNonZero then minimumNonZero else pow10_neg digits in
    let abs := num_abs value in
    if num_ltb num_zero abs && num_ltb abs threshold
    then if num_ltb num_zero value then threshold else num_neg threshold
    else value.

Section intl.
(** [Intl.NumberFormat]: a currency with its code, a plain number; the argument
    is the largest number of fraction digits. *)
Context (format_currency : jsstr → nat → num → jsstr) (format_decimal : nat → num → jsstr).

Definition formatCurrencyValue (value : num) (options : Merged) (meta : DisplayMeta) : jsstr :=
  let digits := if num_leb num_one (num_abs value) then m_large options else m_small options in
  let adjustedValue := adjustForMinimum value digits (m_minimum options) in
  match meta with
  | tokens _ => formatNumberWithSuffix value (m_large options) (m_small options) (m_abbreviate options)
  | currency _ currencyCode _ => format_currency currencyCode digits adjustedValue
  | custom symbol _ => symbol ++ js " " ++ format_decimal digits adjustedValue
  end.

(** The amounts; [None] is [null] or [undefined]. *)
Definition amount_or_dash (amount : option num) (f : num → jsstr) : jsstr :=
  match amount with Some x => if is_nan x then js "-" else f x | None => js "-" end.

Definition formatCurrencyFromUSD (stored : option CurrencyConfig) (amountUSD : option num)
    (options : option CurrencyFormatOptions) : jsstr :=
  amount_or_dash amountUSD (λ amountUSD,
    let '(config, meta) := getCurrencyDisplay stored in
    let merged := mergeOptions options in
    match meta with
    | tokens _ => formatNumberWithSuffix (num_mul amountUSD (quotaPerUnit config)) 0 (m_small merged) (m_abbreviate merged)
    | currency _ _ rate | custom _ rate => formatCurrencyValue (num_mul amountUSD rate) merged meta
    end).

Definition formatBillingCurrencyFromUSD (stored : option CurrencyConfig) (amountUSD : option num)
    (options : option CurrencyFormatOptions) : jsstr :=
  amount_or_dash amountUSD (λ amountUSD,
    let meta := getBillingDisplayMeta (getCurrencyDisplay stored).1 in
    let value := match meta with currency _ _ rate | custom _ rate => num_mul amountUSD rate | tokens _ => amountUSD end in
    formatCurrencyValue value (mergeOptions options) meta).

Definition formatQuotaWithCurrency (stored : option CurrencyConfig) (quota : option num)
    (options : option CurrencyFormatOptions) : jsstr :=
  amount_or_dash quota (λ quota,
    formatCurrencyFromUSD stored (Some (num_div quota (quotaPerUnit (getCurrencyDisplay stored).1))) options).

Definition formatLocalCurrencyAmount (stored : option CurrencyConfig) (amount : option num)
    (options : option CurrencyFormatOptions) : jsstr :=
  amount_or_dash amount (λ amount,
    formatCurrencyValue amount (mergeOptions options) (getBillingDisplayMeta (getCurrencyDisplay stored).1)).

(** lib/format.ts *)
Definition formatQuota (stored : option CurrencyConfig) (quota : num) : jsstr :=
  formatQuotaWithCurrency stored (Some quota) (Some (MkOpts (Some 2%nat) (Some 4%nat) (Some true) None)).

Definition formatLogQuota (stored : option CurrencyConfig) (quota : num) : jsstr :=
  formatQuotaWithCurrency stored (Some quota) (Some (MkOpts (Some 4%nat) (Some 6%nat) (Some false) None)).

End intl.

(** ** Quota units and the displayed amount *)

Definition rate_of (meta : DisplayMeta) : num :=
  match meta with currency _ _ rate | custom _ rate => rate | tokens _ => num_one end.

Definition parseQuotaFromDollars (stored : option CurrencyConfig) (amount : num) : num :=
  if negb (is_finite amount) then num_zero
  else
    let '(config, meta) := getCurrencyDisplay stored in
    match meta with
    | tokens _ => num_round amount
    | _ =>
        let exchangeRate := rate_of meta in
        let usdAmount := if num_ltb num_zero exchangeRate then num_div amount exchangeRate else amount in
        num_round (num_mul usdAmount (quotaPerUnit config))
    end.

Definition quotaUnitsToDollars (stored : option CurrencyConfig) (units : num) : num :=
  let '(config, meta) := getCurrencyDisplay stored in
  match meta with
  | tokens _ => units
  | _ => num_mul (num_div units (quotaPerUnit config)) (rate_of meta)
  end.

(** ** Colours of tags *)

(** The signed 32-bit integer of an integer *)
Definition to_int32 (z : Z) : Z := (z + 2 ^ 31) mod 2 ^ 32 - 2 ^ 31.

Definition hash_step (hash c : Z) : Z := to_int32 (c + (to_int32 (Z.shiftl hash 5) - hash)).

(** The hue, saturation and lightness; [None]: grey. *)
Definition stringToColor (str : jsstr) : option (Z * Z * Z) :=
  if is_empty str then None
  else
    let hash := foldl hash_step 0 str in
    Some (Z.abs (Z.rem hash 360), 65 + Z.rem (Z.abs hash) 10, 55 + Z.rem (Z.abs (Z.shiftr hash 8)) 10).

(** ** Theorems *)

(** The quota per unit and the rate of the displayed currency are usual numbers
    (between 2^-100 and 2^100). *)
Definition usual_config (stored : option CurrencyConfig) : bool :=
  let config := getConfig stored in
  usual_rate (quotaPerUnit config) && usual_rate (rate_of (getDisplayMeta config)).

Lemma zero_div q : usual_rate q = true → num_div num_zero q = num_zero ∧ num_mul num_zero q = num_zero.
Proof. by destruct q as [| | |[] m e]. Qed.

Lemma parse_zero stored : usual_config stored = true → parseQuotaFromDollars stored num_zero = num_zero.
Proof.
  unfold usual_config, parseQuotaFromDollars, getCurrencyDisplay. intros [Hq Hr]%andb_true_iff.
  destruct (zero_div _ Hq) as [_ Mq], (zero_div _ Hr) as [Dr _]. change (negb (is_finite num_zero)) with false. cbv iota zeta.
  destruct (getDisplayMeta (getConfig stored)) as [? ? r|? r|]; cbn [rate_of] in *; [..|done];
    rewrite Dr; destruct (num_ltb num_zero r); by rewrite Mq.
Qed.

(** Zero or a positive number *)
Definition plain_amount (x : num) : bool :=
  match x with S754_zero false | S754_finite false _ _ => true | _ => false end.

Lemma dbl_plain x v : dbl x v → plain_amount x = true.
Proof. by intros (m & e & -> & _). Qed.

Lemma dollars_return stored u :
  usual_config stored = true → 0 <= u <= 2 ^ 49 →
  plain_amount (quotaUnitsToDollars stored (num_of_Z u)) = true ∧
  parseQuotaFromDollars stored (quotaUnitsToDollars stored (num_of_Z u)) = num_of_Z u.
Proof.
  unfold usual_config, parseQuotaFromDollars, quotaUnitsToDollars, getCurrencyDisplay.
  set (config := getConfig stored). intros [Hq Hr]%andb_true_iff Hu.
  destruct (usual_rate_dbl _ Hr) as (w & Hw & _). destruct (dbl_finite _ _ Hw) as [_ Hpos].
  destruct (Z.eq_dec u 0) as [->|Hne].
  - change (num_of_Z 0) with num_zero. destruct (zero_div _ Hq) as [Dq Mq], (zero_div _ Hr) as [Dr Mr].
    destruct (getDisplayMeta config) as [? ? r|? r|] eqn:Em; cbn [rate_of] in *; [| |done];
      rewrite Dq, Mr, Hpos, Dr, Mq; done.
  - destruct (rate_round_trip (quotaPerUnit config) (rate_of (getDisplayMeta config)) u Hq Hr ltac:(lia)) as [(v & Hv) Htrip].
    destruct (getDisplayMeta config) as [? ? r|? r|] eqn:Em; cbn [rate_of] in *;
      try (rewrite (proj1 (dbl_finite _ _ Hv)), Hpos; split; [by eapply dbl_plain|exact Htrip]).
    pose proof (dbl_of_Z u ltac:(lia)) as Hd. rewrite (proj1 (dbl_finite _ _ Hd)). cbn [negb].
    split; [by eapply dbl_plain|apply round_of_Z; lia].
Qed.

(** A quota below zero is shown as a negative number. *)
Lemma negative_dollars stored u :
  usual_config stored = true → - 2 ^ 49 <= u < 0 →
  ∃ m e, quotaUnitsToDollars stored (num_of_Z u) = S754_finite true m e.
Proof.
  unfold usual_config, quotaUnitsToDollars, getCurrencyDisplay. set (config := getConfig stored).
  intros [Hq Hr]%andb_true_iff Hu. destruct u as [|p|p]; [lia|lia|].
  destruct (negative_rate (quotaPerUnit config) (rate_of (getDisplayMeta config)) (Zpos p) Hq Hr ltac:(lia)) as (m & e & H).
  change (- Zpos p) with (Zneg p) in H.
  destruct (getDisplayMeta config) as [? ? r|? r|]; cbn [rate_of] in *; [by exists m, e|by exists m, e|].
  rewrite of_Z_opp. destruct (dbl_of_Z (Zpos p) ltac:(lia)) as (m' & e' & -> & _). by exists m', e'.
Qed.

(** C4. A quota of at most 2^49 units that is converted to the displayed currency
    (dollars, yuan, a custom currency or tokens) and back is exactly the same quota,
    whatever the rounding of the products and quotients in between. *)
Theorem quota_roundtrip stored u :
  usual_config stored = true → 0 <= u <= 2 ^ 49 →
  parseQuotaFromDollars stored (quotaUnitsToDollars stored (num_of_Z u)) = num_of_Z u.
Proof. intros Hc Hu. by apply dollars_return. Qed.

(** 7.1 yuan to the dollar, 500000 units to the dollar *)
Definition yuan : option CurrencyConfig :=
  Some (MkConfig true CNY (num_of_Z 500000) (str_to_num (js "7.1")) [] num_one).

Lemma quota_roundtrip_witness :
  quotaUnitsToDollars yuan (num_of_Z 123456789) ≠ num_of_Z 123456789 ∧
  parseQuotaFromDollars yuan (quotaUnitsToDollars yuan (num_of_Z 123456789)) = num_of_Z 123456789.
Proof. split; [vm_compute; discriminate|]. apply quota_roundtrip; [vm_compute; reflexivity|lia]. Defined.

(** A configuration always has positive rates, whatever was stored: zero, negative
    and [NaN] values give the defaults. *)
Lemma positive_or_positive x d : num_ltb num_zero d = true → num_ltb num_zero (positive_or x d) = true.
Proof.
  intros H. unfold positive_or. destruct (num_truthy x && num_ltb num_zero x) eqn:E; [|done].
  apply andb_true_iff in E. tauto.
Qed.

Theorem rates_positive stored :
  num_ltb num_zero (quotaPerUnit (getConfig stored)) = true ∧
  num_ltb num_zero (rate_of (getDisplayMeta (getConfig stored))) = true.
Proof.
  unfold getDisplayMeta, getConfig. cbn [quotaDisplayType quotaPerUnit usdExchangeRate customCurrencyExchangeRate].
  split; [by apply positive_or_positive|]. destruct (quotaDisplayType _); cbn [rate_of usd_meta]; try done;
    by apply positive_or_positive.
Qed.

(** Ten dollars as tokens, 500000 to the dollar, are abbreviated. *)
Theorem tokens_abbreviated format_currency format_decimal :
  formatCurrencyFromUSD format_currency format_decimal
    (Some (MkConfig true TOKENS (num_of_Z 500000) num_one [] num_one)) (Some (num_of_Z 10)) None = js "5000k".
Proof. vm_compute. reflexivity. Qed.

(** A space follows the symbol of a custom currency. *)
Theorem custom_symbol_space format_currency format_decimal value options symbol rate :
  ∃ text, formatCurrencyValue format_currency format_decimal value options (custom symbol rate) = symbol ++ js " " ++ text.
Proof. eexists. reflexivity. Qed.

(** Amounts billed in money are never shown as tokens. *)
Theorem billing_never_tokens config q : getBillingDisplayMeta config ≠ tokens q.
Proof. unfold getBillingDisplayMeta. by destruct (getDisplayMeta config). Qed.

Theorem color_bounds str h sat l :
  stringToColor str = Some (h, sat, l) → 0 <= h < 360 ∧ 65 <= sat <= 74 ∧ 55 <= l <= 64.
Proof.
  unfold stringToColor. destruct (is_empty str); [done|]. set (hash := foldl hash_step 0 str). intros [= <- <- <-].
  pose proof (Z.rem_bound_pos (Z.abs hash) 10 ltac:(lia) ltac:(lia)).
  pose proof (Z.rem_bound_pos (Z.abs (Z.shiftr hash 8)) 10 ltac:(lia) ltac:(lia)).
  pose proof (Z.rem_bound_abs hash 360 ltac:(lia)). lia.
Qed.

End Currency.

(** ** Counts and durations *)

Module TimeFormat.
Import PricingFormat.

(** [Math.floor] *)
Definition num_floor (x : num) : num :=
  match x with
  | S754_finite s m e => if 0 <=? e then x else num_of_Z (cond_Zopp s (Zpos m) / 2 ^ (- e))
  | _ => x
  end.

(** [x % d], [d] a positive integer: the exact remainder, with the sign of [x] *)
Definition num_rem (x : num) (d : Z) : num :=
  match x with
  | S754_finite s m e =>
      let '(r, e) := if 0 <=? e then (Zpos m * 2 ^ e mod d, 0) else (Zpos m mod (d * 2 ^ (- e)), e) in
      if r =? 0 then S754_zero s else binary_normalize 53 1024 (cond_Zopp s r) e s
  | S754_zero s => S754_zero s
  | _ => S754_nan
  end.

Definition formatTokens (tokens : num) : jsstr :=
  if num_eqb tokens num_zero then js "-"
  else if num_ltb tokens (num_of_Z 1000) then num_to_str tokens
  else if num_ltb tokens (num_of_Z 1000000) then to_fixed 1 (num_div tokens (num_of_Z 1000)) ++ js "K"
  else to_fixed 2 (num_div tokens (num_of_Z 1000000)) ++ js "M".

Definition formatUseTime (seconds : num) : jsstr :=
  if num_ltb seconds (num_of_Z 60) then to_fixed 1 seconds ++ js "s"
  else
    let minutes := num_floor (num_div seconds (num_of_Z 60)) in
    let remainingSeconds := num_rem seconds 60 in
    num_to_str minutes ++ js "m " ++ to_fixed 0 remainingSeconds ++ js "s".

(** The two patterns on a text of [toFixed]: the zeros at the end of the fraction
    go, and the point with them when nothing else follows it. *)
Definition trimZeros (text : jsstr) : jsstr := Currency.removeTrailingZeros text.

(** [formatRatioDisplay] of a number *)
Definition formatRatioDisplay (numeric : num) (digits : nat) : jsstr :=
  if negb (is_finite numeric) then num_to_str numeric
  else
    let trimmed := trimZeros (to_fixed digits numeric) in
    if num_eqb (str_to_num trimmed) num_zero && negb (num_eqb numeric num_zero) then
      let precise := trimZeros (to_fixed 12 numeric) in
      if num_eqb (str_to_num precise) num_zero then num_to_str numeric else precise
    else if num_eqb (str_to_num trimmed) num_zero then js "0" else trimmed.

(** The seconds are rounded after the minutes were split off. *)
Example sixty_seconds :
  formatUseTime (num_of_Z 119) = js "1m 59s" ∧ formatUseTime (str_to_num (js "119.7")) = js "1m 60s" ∧
  formatUseTime (str_to_num (js "59.96")) = js "60.0s".
Proof. vm_compute. done. Qed.

Example tokens_texts :
  map formatTokens (map num_of_Z [0; 999; 1500; 999999; 2500000]) =
  map js ["-"; "999"; "1.5K"; "1000.0K"; "2.50M"]%string.
Proof. vm_compute. done. Qed.

Example ratio_texts :
  map (λ x, formatRatioDisplay x 6) (map str_to_num (map js ["0"; "1.50"; "100"; "0.0000001"; "1e-20"]%string)) =
  map js ["0"; "1.5"; "100"; "0.0000001"; "1e-20"]%string.
Proof. vm_compute. done. Qed.

End TimeFormat.
