(* ===== verification/QuotaForms.v ===== *)
(** * The forms that edit quotas

    [ApiKeyForm] models features/keys/lib/api-key-form.ts and [ApiKeyDrawer] the
    handlers of features/keys/components/api-keys-mutate-drawer.tsx;
    [RedemptionForm] features/redemption-codes/lib/redemption-form.ts and utils.ts;
    [PlanForm] features/subscriptions/lib/plan-form.ts; [UserForm]
    features/users/lib/user-form.ts with the submit handler of
    components/users-mutate-drawer.tsx, and [UserQuotaDialog]
    components/user-quota-dialog.tsx.

    Times are whole seconds and dates whole milliseconds ([Z]): both are below 2^53,
    where their arithmetic in doubles is exact.  The answers of the server are
    arguments.

    [key_unchanged_save]: opening a key and saving it changes nothing but what the
    form normalises.  [batch_exact]: the requests of a batch creation. *)

From stdpp Require Import base list strings.
From Stdlib Require Import ZArith Lia SpecFloat.
From S2P Require Import Prelude JsString JsNumber JsValue ModelPricing JsRounding Quota.
#[local] Open Scope Z_scope.

(** ** Dates *)

Module Dates.

(** The time of a date in milliseconds; [None]: an invalid date. *)
Definition date : Type := option Z.

(** [new Date(ms)]: only times of at most 8.64e15 are valid. *)
Definition new_Date (ms : Z) : date := if Z.abs ms <=? 8640000000000000 then Some ms else None.

(** [Math.floor(d.getTime() / 1000)]; [None]: [NaN] *)
Definition unix_seconds (d : date) : option Z := (λ ms, ms / 1000) <$> d.

(** [expired_time > 0 ? new Date(expired_time * 1000) : undefined] *)
Definition date_of_seconds (t : Z) : option date := if 0 <? t then Some (new_Date (t * 1000)) else None.

(** [d ? Math.floor(d.getTime() / 1000) : never] *)
Definition seconds_or (never : Z) (d : option date) : option Z :=
  match d with Some d => unix_seconds d | None => Some never end.

(** [z.date().optional()] *)
Definition date_ok (d : option date) : bool := match d with Some None => false | _ => true end.

Lemma seconds_return never t :
  t <= 8640000000000 → seconds_or never (date_of_seconds t) = Some (if 0 <? t then t else never) ∧ date_ok (date_of_seconds t) = true.
Proof.
  intros Ht. unfold date_of_seconds. destruct (Z.ltb_spec 0 t); [|done]. unfold new_Date.
  rewrite (proj2 (Z.leb_le _ _)) by lia. cbn. by rewrite Z.div_mul.
Qed.

End Dates.

(** ** Shared helpers *)

Module FormValues.

(** [s || d] of an optional string *)
Definition str_or (s : option jsstr) (d : jsstr) : jsstr :=
  match s with Some (c :: s) => c :: s | _ => d end.

(** [s || undefined] *)
Definition str_or_none (s : option jsstr) : option jsstr :=
  match s with Some (c :: s) => Some (c :: s) | _ => None end.

(** [x || d] of an optional number *)
Definition num_or (x : option num) (d : num) : num :=
  match x with Some x => if num_truthy x then x else d | None => d end.

(** [z.number().min(m)] *)
Definition num_min (m : Z) (x : num) : bool := is_finite x && num_leb (num_of_Z m) x.

(** [.optional()] *)
Definition optional {A} (check : A → bool) (x : option A) : bool :=
  match x with Some x => check x | None => true end.

Lemma str_or_id s d : str_or (Some s) d = (if is_empty s then d else s).
Proof. by destruct s. Qed.

Lemma str_or_empty s : str_or s [] = default [] s.
Proof. by destruct s as [[]|]. Qed.

(** A stored number: neither [NaN] nor minus zero *)
Definition stored_num (x : num) : bool :=
  match x with S754_nan | S754_zero true => false | _ => true end.

Lemma num_or_zero x : stored_num x = true → num_or (Some x) num_zero = x.
Proof. by destruct x as [[]| | |]. Qed.

End FormValues.

(** ** API keys *)

Module ApiKeyForm.
Import Currency Dates FormValues.

Record ApiKey := MkKey {
  id : Z;
  name : jsstr;
  key : jsstr;
  status : Z;
  remain_quota : num;
  used_quota : num;
  unlimited_quota : bool;
  expired_time : Z;
  created_time : Z;
  accessed_time : Z;
  group : option jsstr;
  cross_group_retry : option bool;
  model_limits_enabled : bool;
  model_limits : option jsstr;
  allow_ips : option jsstr;
}.

Record ApiKeyFormValues := MkForm {
  f_name : jsstr;
  f_remain_quota_dollars : option num;
  f_expired_time : option date;
  f_unlimited_quota : bool;
  f_model_limits : list jsstr;
  f_allow_ips : option jsstr;
  f_group : option jsstr;
  f_cross_group_retry : option bool;
  f_tokenCount : option num;
}.

(** What is sent; an [expired_time] of [None] is [NaN]. *)
Record ApiKeyFormData := MkData {
  d_name : jsstr;
  d_remain_quota : num;
  d_expired_time : option Z;
  d_unlimited_quota : bool;
  d_model_limits_enabled : bool;
  d_model_limits : jsstr;
  d_allow_ips : jsstr;
  d_group : jsstr;
  d_cross_group_retry : bool;
}.

Definition DEFAULT_GROUP : jsstr := [].

(** The schema, and its refinement *)
Definition getApiKeyFormSchema (data : ApiKeyFormValues) : bool :=
  negb (is_empty (f_name data)) && optional is_finite (f_remain_quota_dollars data) && date_ok (f_expired_time data) &&
  optional (num_min 1) (f_tokenCount data) &&
  (f_unlimited_quota data ||
   match f_remain_quota_dollars data with Some x => negb (num_ltb x num_zero) | None => false end).

Definition API_KEY_FORM_DEFAULT_VALUES : ApiKeyFormValues :=
  MkForm [] (Some (num_of_Z 10)) None true [] (Some []) (Some DEFAULT_GROUP) (Some true) (Some (num_of_Z 1)).

Definition getApiKeyFormDefaultValues (defaultUseAutoGroup : bool) : ApiKeyFormValues :=
  let d := API_KEY_FORM_DEFAULT_VALUES in
  MkForm (f_name d) (f_remain_quota_dollars d) (f_expired_time d) (f_unlimited_quota d) (f_model_limits d)
    (f_allow_ips d) (Some (if defaultUseAutoGroup then js "auto" else DEFAULT_GROUP)) (Some defaultUseAutoGroup) (f_tokenCount d).

Definition transformFormDataToPayload (stored : option CurrencyConfig) (data : ApiKeyFormValues) : ApiKeyFormData :=
  MkData (f_name data)
    (if f_unlimited_quota data then num_zero
     else parseQuotaFromDollars stored (num_or (f_remain_quota_dollars data) num_zero))
    (seconds_or (-1) (f_expired_time data))
    (f_unlimited_quota data)
    (0 <? Z.of_nat (length (f_model_limits data)))
    (join [44] (f_model_limits data))
    (str_or (f_allow_ips data) [])
    (str_or (f_group data) [])
    (if decide (f_group data = Some (js "auto")) then default false (f_cross_group_retry data) else false).

(** [split(',').filter(Boolean)] *)
Definition limit_list (limits : jsstr) : list jsstr := filter (λ w, w ≠ []) (split_char 44 limits).

Definition transformApiKeyToFormDefaults (stored : option CurrencyConfig) (apiKey : ApiKey) : ApiKeyFormValues :=
  MkForm (name apiKey)
    (Some (if unlimited_quota apiKey then num_zero else quotaUnitsToDollars stored (remain_quota apiKey)))
    (date_of_seconds (expired_time apiKey))
    (unlimited_quota apiKey)
    (match model_limits apiKey with Some (c :: s) => limit_list (c :: s) | _ => [] end)
    (Some (str_or (allow_ips apiKey) []))
    (Some (str_or (group apiKey) DEFAULT_GROUP))
    (Some (default false (cross_group_retry apiKey)))
    (Some (num_of_Z 1)).

(** A stored list of models: no empty name between the commas *)
Definition clean_limits (limits : jsstr) : bool :=
  is_empty limits || forallb (λ w, negb (is_empty w)) (split_char 44 limits).

Lemma limit_list_return limits :
  clean_limits limits = true → limits ≠ [] → join [44] (limit_list limits) = limits ∧ limit_list limits ≠ [].
Proof.
  intros [H|H]%orb_true_iff Hne; [by destruct limits|].
  assert (limit_list limits = split_char 44 limits) as ->.
  { unfold limit_list. apply list_filter_all, Forall_forall. intros w Hw.
    rewrite forallb_forall in H. specialize (H w). rewrite <-list_elem_of_In in H. specialize (H Hw). by destruct w. }
  split; [apply join_split_char|apply split_char_nonempty].
Qed.

Lemma schema_exact stored k u :
  usual_config stored = true → - 2 ^ 49 <= u <= 2 ^ 49 → remain_quota k = num_of_Z u →
  getApiKeyFormSchema (transformApiKeyToFormDefaults stored k) =
    negb (is_empty (name k)) && (expired_time k <=? 8640000000000) && (unlimited_quota k || (0 <=? u)).
Proof.
  intros Hc Hu Hq. unfold getApiKeyFormSchema, transformApiKeyToFormDefaults.
  cbn [f_name f_remain_quota_dollars f_expired_time f_unlimited_quota f_tokenCount optional]. rewrite Hq.
  assert (date_ok (date_of_seconds (expired_time k)) = (expired_time k <=? 8640000000000)) as ->.
  { unfold date_of_seconds, new_Date. destruct (Z.ltb_spec 0 (expired_time k)); [|cbn; lia].
    destruct (Z.leb_spec (Z.abs (expired_time k * 1000)) 8640000000000000); cbn; lia. }
  change (num_min 1 (num_of_Z 1)) with true. rewrite andb_true_r.
  destruct (unlimited_quota k); [change (is_finite num_zero) with true; by rewrite !andb_true_r|]. cbn [orb].
  destruct (Z.leb_spec 0 u) as [Hpos|Hneg].
  - destruct (dollars_return stored u Hc ltac:(lia)) as [Hp _].
    destruct (quotaUnitsToDollars stored (num_of_Z u)) as [[]| | |[] ? ?]; try done; cbn; by rewrite ?andb_true_r.
  - destruct (negative_dollars stored u Hc ltac:(lia)) as (m & e & ->). cbn [num_ltb]. by rewrite !andb_false_r.
Qed.

Lemma limit_list_of limits : (match limits with Some (c :: s) => limit_list (c :: s) | _ => [] end) = limit_list (default [] limits).
Proof. by destruct limits as [[]|]. Qed.


Definition vip_key : ApiKey :=
  MkKey 7 (js "build") (js "sk-x") 1 (num_of_Z 1234567) num_zero false 1900000000 0 0 (Some (js "auto")) (Some true) true
    (Some (js "gpt-4o,gpt-4o-mini")) None.


(** A key whose stored list of models is switched off is saved with the list
    switched on: the form does not know the switch. *)
Theorem limits_switched_on stored k w :
  model_limits k = Some w → w ≠ [] → clean_limits w = true → model_limits_enabled k = false →
  d_model_limits_enabled (transformFormDataToPayload stored (transformApiKeyToFormDefaults stored k)) = true.
Proof.
  intros Hw Hne Hc _. unfold transformFormDataToPayload, transformApiKeyToFormDefaults.
  cbn [f_model_limits d_model_limits_enabled]. rewrite Hw. destruct w as [|c l]; [done|].
  destruct (limit_list_return _ Hc ltac:(done)) as [_ Hn]. by destruct (limit_list _).
Qed.

(** A key with a limit that went below zero cannot be saved at all. *)
Theorem negative_quota_refused stored k :
  unlimited_quota k = false → num_ltb (quotaUnitsToDollars stored (remain_quota k)) num_zero = true →
  getApiKeyFormSchema (transformApiKeyToFormDefaults stored k) = false.
Proof.
  intros Hu Hq. unfold getApiKeyFormSchema, transformApiKeyToFormDefaults. cbn [f_unlimited_quota f_remain_quota_dollars].
  rewrite Hu, Hq. cbn [negb orb]. by rewrite andb_false_r.
Qed.

End ApiKeyForm.

Module ApiKeyDrawer.
Import Currency FormValues ApiKeyForm.

(** ** Opening *)

Definition with_group (form : ApiKeyFormValues) (g : jsstr) (retry : option bool) : ApiKeyFormValues :=
  MkForm (f_name form) (f_remain_quota_dollars form) (f_expired_time form) (f_unlimited_quota form) (f_model_limits form)
    (f_allow_ips form) (Some g) retry (f_tokenCount form).

(** The form of a new key; [groups]: the names of the groups the server lists *)
Definition open_create (defaultUseAutoGroup : bool) (groups : list jsstr) : ApiKeyFormValues :=
  getApiKeyFormDefaultValues (defaultUseAutoGroup && bool_decide (js "auto" ∈ groups)).

(** The effect that runs when groups are listed *)
Definition correct_group (groups : list jsstr) (form : ApiKeyFormValues) : ApiKeyFormValues :=
  match groups, f_group form with
  | g0 :: _, Some (c :: rest) =>
      let currentGroup := c :: rest in
      if bool_decide (currentGroup ∈ groups) then form
      else
        let fallback := if bool_decide (js "default" ∈ groups) then js "default" else g0 in
        with_group form fallback (if decide (currentGroup = js "auto") then Some false else f_cross_group_retry form)
  | _, _ => form
  end.

(** ** Submitting *)

Inductive Answer := Success | Refused | Throws.

#[export] Instance answer_eq_dec : EqDecision Answer.
Proof. solve_decision. Defined.

(** [Waiting]: a request has no answer yet. *)
Inductive Ended := Done | Stopped | Thrown | Waiting.

Section create.
(** The six characters of [Math.random()] of request [i] *)
Context (random : Z → jsstr) (data : ApiKeyFormValues) (count : num).

Definition request_name (i : Z) : jsstr :=
  if (i =? 0) && negb (is_empty (f_name data)) then f_name data
  else str_or (Some (f_name data)) (js "default") ++ js "-" ++ random i.

(** The loop from [i]: the names requested, the number of successes *)
Fixpoint creates (answers : list Answer) (i : Z) : list jsstr * Z * Ended :=
  if num_ltb (num_of_Z i) count then
    match answers with
    | Success :: answers =>
        let '(names, successCount, e) := creates answers (i + 1) in (request_name i :: names, successCount + 1, e)
    | Refused :: _ => ([request_name i], 0, Stopped)
    | Throws :: _ => ([request_name i], 0, Thrown)
    | [] => ([request_name i], 0, Waiting)
    end
  else ([], 0, Done).
End create.

Record Submitted := MkSubmitted { requests : list ApiKeyFormData; closed_and_refreshed : bool; submitting : bool }.

Definition with_name (payload : ApiKeyFormData) (n : jsstr) : ApiKeyFormData :=
  MkData n (d_remain_quota payload) (d_expired_time payload) (d_unlimited_quota payload) (d_model_limits_enabled payload)
    (d_model_limits payload) (d_allow_ips payload) (d_group payload) (d_cross_group_retry payload).

Definition onSubmit_create (stored : option CurrencyConfig) (random : Z → jsstr) (data : ApiKeyFormValues)
    (answers : list Answer) : Submitted :=
  let basePayload := transformFormDataToPayload stored data in
  let count := num_or (f_tokenCount data) num_one in
  let '(names, successCount, e) := creates random data count answers 0 in
  MkSubmitted (with_name basePayload <$> names)
    (match e with Done | Stopped => 0 <? successCount | _ => false end)
    (match e with Waiting => true | _ => false end).

Definition onSubmit_update (stored : option CurrencyConfig) (data : ApiKeyFormValues) (answer : option Answer) : Submitted :=
  MkSubmitted [transformFormDataToPayload stored data]
    (match answer with Some Success => true | _ => false end)
    (match answer with None => true | _ => false end).

(** ** Theorems *)

(** The successes before anything else *)
Fixpoint successes (answers : list Answer) : nat :=
  match answers with Success :: answers => S (successes answers) | _ => 0 end.

Definition ending (a : option Answer) : Ended :=
  match a with Some Throws => Thrown | Some _ => Stopped | None => Waiting end.

Lemma creates_exact random data n answers i (p := successes answers) :
  0 <= i <= n → n < 2 ^ 53 →
  creates random data (num_of_Z n) answers i =
    if n - i <=? Z.of_nat p
    then (request_name random data <$> seqZ i (n - i), n - i, Done)
    else (request_name random data <$> seqZ i (Z.of_nat p + 1), Z.of_nat p, ending (answers !! p)).
Proof.
  subst p. revert i. induction answers as [|a answers IH]; intros i Hi Hn; cbn [creates successes]; rewrite ltb_of_Z by lia.
  - destruct (Z.ltb_spec i n); [|by replace (n - i) with 0 by lia].
    rewrite (proj2 (Z.leb_gt _ _)) by lia. done.
  - destruct (Z.ltb_spec i n); [|rewrite (proj2 (Z.leb_le _ _)) by lia; by replace (n - i) with 0 by lia].
    destruct a; [|by rewrite (proj2 (Z.leb_gt _ _)) by lia..].
    rewrite IH by lia. destruct (Z.leb_spec (n - i) (Z.of_nat (S (successes answers)))).
    + rewrite (proj2 (Z.leb_le _ _)) by lia. rewrite (seqZ_cons i (n - i)) by lia. cbn [fmap list_fmap].
      replace (Z.pred (n - i)) with (n - (i + 1)) by lia. replace (Z.succ i) with (i + 1) by lia. repeat f_equal; lia.
    + rewrite (proj2 (Z.leb_gt _ _)) by lia. rewrite (seqZ_cons i (_ + 1)) by lia. cbn [fmap list_fmap].
      replace (Z.pred (Z.of_nat (S (successes answers)) + 1)) with (Z.of_nat (successes answers) + 1) by lia.
      replace (Z.succ i) with (i + 1) by lia. repeat f_equal; lia.
Qed.

Lemma not_success answers : answers !! successes answers ≠ Some Success.
Proof. induction answers as [|[] answers IH]; cbn; done. Qed.

(** Creating a batch of [n] keys sends one request after the other, all with the
    same settings: [n] when all succeed, and else up to the first that does not.  The
    first key has the name typed, the others the name with a random suffix.  The
    drawer closes when at least one key was made and no request raised an error. *)
Theorem batch_exact stored random data n answers (p := Z.of_nat (successes answers)) :
  f_tokenCount data = Some (num_of_Z n) → 1 <= n < 2 ^ 53 → f_name data ≠ [] →
  onSubmit_create stored random data answers =
    let k := if n <=? p then n else p + 1 in
    MkSubmitted
      ((λ i, with_name (transformFormDataToPayload stored data)
               (if i =? 0 then f_name data else f_name data ++ js "-" ++ random i)) <$> seqZ 0 k)
      (if n <=? p then true else bool_decide (answers !! Z.to_nat p = Some Refused) && (0 <? p))
      (if n <=? p then false else bool_decide (answers !! Z.to_nat p = None)).
Proof.
  intros Hc Hn Hname. unfold onSubmit_create. rewrite Hc.
  assert (num_or (Some (num_of_Z n)) num_one = num_of_Z n) as ->.
  { destruct (dbl_of_Z n ltac:(lia)) as (m & e & -> & _). done. }
  subst p. rewrite creates_exact, Z.sub_0_r, Nat2Z.id by lia. set (p := Z.of_nat (successes answers)). cbv zeta.
  assert (∀ k, with_name (transformFormDataToPayload stored data) <$> (request_name random data <$> seqZ 0 k) =
    (λ i, with_name (transformFormDataToPayload stored data)
       (if i =? 0 then f_name data else f_name data ++ js "-" ++ random i)) <$> seqZ 0 k) as Hnames.
  { intros k. rewrite <-list_fmap_compose. apply list_fmap_ext. intros _ i _. cbn. unfold request_name.
    rewrite str_or_id. destruct (f_name data); [done|]. by destruct (i =? 0). }
  pose proof (not_success answers) as Hs. destruct (n <=? p); rewrite Hnames; f_equal.
  - lia.
  - by destruct (answers !! successes answers) as [[]|].
  - by destruct (answers !! successes answers) as [[]|].
Qed.

Lemma batch_exact_witness :
  let data := MkForm (js "ci") None None true [] None None None (Some (num_of_Z 3)) in
  d_name <$> requests (onSubmit_create None (λ i, Z_to_str (100000 + i)) data [Success; Refused]) = [js "ci"; js "ci-100001"] ∧
  closed_and_refreshed (onSubmit_create None (λ i, Z_to_str (100000 + i)) data [Success; Refused]) = true.
Proof.
  intros data. rewrite (batch_exact None _ data 3 [Success; Refused]); [|reflexivity|lia|discriminate].
  split; vm_compute; reflexivity.
Defined.

(** Keys made before a request raised an error are there, but the list is not
    refreshed and the drawer stays open. *)
Theorem thrown_keeps_open stored random data n answers :
  f_tokenCount data = Some (num_of_Z n) → 1 <= n < 2 ^ 53 → Z.of_nat (successes answers) < n →
  answers !! successes answers = Some Throws →
  closed_and_refreshed (onSubmit_create stored random data answers) = false.
Proof.
  intros Hc Hn Hlt Ht. unfold onSubmit_create. rewrite Hc.
  assert (num_or (Some (num_of_Z n)) num_one = num_of_Z n) as ->.
  { destruct (dbl_of_Z n ltac:(lia)) as (m & e & -> & _). done. }
  rewrite creates_exact, Z.sub_0_r, (proj2 (Z.leb_gt _ _)), Ht by lia. done.
Qed.

(** No group, or one the server lists *)
Definition group_listed (groups : list jsstr) (form : ApiKeyFormValues) : Prop :=
  match f_group form with Some (c :: g) => c :: g ∈ groups | _ => True end.

Lemma correct_listed groups form : group_listed groups form → correct_group groups form = form.
Proof.
  unfold group_listed, correct_group. destruct groups as [|g0 groups]; [done|].
  destruct (f_group form) as [[|c rest]|]; [done| |done]. intros H. by rewrite bool_decide_true.
Qed.

(** After the correction the group is one the server lists, and a corrected form
    is not corrected again. *)
Theorem corrected_group groups form :
  groups ≠ [] →
  group_listed groups (correct_group groups form) ∧
  correct_group groups (correct_group groups form) = correct_group groups form.
Proof.
  intros Hg. assert (group_listed groups (correct_group groups form)) as H; [|split; [done|by apply correct_listed]].
  unfold group_listed, correct_group. destruct groups as [|g0 groups]; [done|].
  destruct (f_group form) as [[|c rest]|] eqn:Eg; [by rewrite Eg| |by rewrite Eg].
  case_bool_decide as Hin; [by rewrite Eg|]. cbn [with_group f_group].
  case_bool_decide as Hd; [exact Hd|]. destruct g0; [done|left].
Qed.

End ApiKeyDrawer.

(** ** Redemption codes *)

Module RedemptionForm.
Import Currency Dates FormValues.

Record Redemption := MkRedemption {
  id : Z;
  user_id : Z;
  name : jsstr;
  key : jsstr;
  status : Z;
  quota : num;
  created_time : Z;
  redeemed_time : Z;
  expired_time : Z;
  used_user_id : Z;
}.

Record RedemptionFormValues := MkForm {
  f_name : jsstr;
  f_quota_dollars : num;
  f_expired_time : option date;
  f_count : option num;
}.

Record RedemptionFormData := MkData {
  d_name : jsstr;
  d_quota : num;
  d_expired_time : option Z;
  d_count : num;
}.

Definition NAME_MIN_LENGTH : nat := 1.
Definition NAME_MAX_LENGTH : nat := 20.
Definition COUNT_MIN : Z := 1.
Definition COUNT_MAX : Z := 100.

Definition getRedemptionFormSchema (v : RedemptionFormValues) : bool :=
  bool_decide (NAME_MIN_LENGTH ≤ length (f_name v) ≤ NAME_MAX_LENGTH)%nat && num_min 0 (f_quota_dollars v) &&
  date_ok (f_expired_time v) &&
  optional (λ c, num_min COUNT_MIN c && num_leb c (num_of_Z COUNT_MAX)) (f_count v).

Definition REDEMPTION_FORM_DEFAULT_VALUES : RedemptionFormValues := MkForm [] (num_of_Z 10) None (Some num_one).

Definition transformFormDataToPayload (stored : option CurrencyConfig) (data : RedemptionFormValues) : RedemptionFormData :=
  MkData (f_name data) (parseQuotaFromDollars stored (f_quota_dollars data)) (seconds_or 0 (f_expired_time data))
    (num_or (f_count data) num_one).

Definition transformRedemptionToFormDefaults (stored : option CurrencyConfig) (r : Redemption) : RedemptionFormValues :=
  MkForm (name r) (quotaUnitsToDollars stored (quota r)) (date_of_seconds (expired_time r)) (Some num_one).

(** [now]: [Date.now()] *)
Definition isTimestampExpired (now timestamp : num) : bool :=
  if num_eqb timestamp num_zero then false else num_ltb timestamp (num_div now (num_of_Z 1000)).

Definition isRedemptionExpired (now expired_time : num) (status : Z) : bool :=
  (status =? 1) && isTimestampExpired now expired_time.

(** A code that is opened and saved without a change keeps its name, quota and
    expiry; its name may have grown too long for the schema. *)
Theorem redemption_unchanged_save stored r u :
  usual_config stored = true → 0 <= u <= 2 ^ 49 → quota r = num_of_Z u → 0 <= expired_time r <= 8640000000000 →
  let form := transformRedemptionToFormDefaults stored r in
  getRedemptionFormSchema form = bool_decide (1 ≤ length (name r) ≤ 20)%nat ∧
  transformFormDataToPayload stored form = MkData (name r) (quota r) (Some (expired_time r)) num_one.
Proof.
  intros Hc Hu Hq He form. destruct (dollars_return stored u Hc Hu) as [Hp Hback].
  destruct (seconds_return 0 (expired_time r) ltac:(lia)) as [Hs Hd].
  unfold form, getRedemptionFormSchema, transformFormDataToPayload, transformRedemptionToFormDefaults.
  cbn [f_name f_quota_dollars f_expired_time f_count]. rewrite Hs, Hd, Hq. split.
  - rewrite !andb_true_r. destruct (bool_decide _); [|done].
    by destruct (quotaUnitsToDollars stored (num_of_Z u)) as [[]| | |[] ? ?].
  - rewrite Hback. f_equal. f_equal. destruct (Z.ltb_spec 0 (expired_time r)); lia.
Qed.

End RedemptionForm.

(** ** Subscription plans *)

Module PlanForm.
Import Currency FormValues.

Inductive DurationUnit := year | month | day | hour | custom_duration.
Inductive ResetPeriod := never | daily | weekly | monthly | custom_period.

(** A plan; its id is not part of the form. *)
Record SubscriptionPlan := MkPlan {
  title : jsstr;
  subtitle : option jsstr;
  price_amount : num;
  currency : jsstr;
  duration_unit : DurationUnit;
  duration_value : num;
  custom_seconds : option num;
  quota_reset_period : ResetPeriod;
  quota_reset_custom_seconds : option num;
  enabled : bool;
  sort_order : num;
  allow_balance_pay : option bool;
  max_purchase_per_user : num;
  total_amount : num;
  upgrade_group : option jsstr;
  stripe_price_id : option jsstr;
  creem_product_id : option jsstr;
  waffo_pancake_product_id : option jsstr;
}.

(** The values of the form, with the amount in the displayed currency *)
Record PlanFormValues := MkForm {
  f_title : jsstr;
  f_subtitle : option jsstr;
  f_price_amount : num;
  f_duration_unit : DurationUnit;
  f_duration_value : num;
  f_custom_seconds : option num;
  f_quota_reset_period : ResetPeriod;
  f_quota_reset_custom_seconds : option num;
  f_enabled : bool;
  f_sort_order : num;
  f_allow_balance_pay : bool;
  f_max_purchase_per_user : num;
  f_total_amount : num;
  f_upgrade_group : option jsstr;
  f_stripe_price_id : option jsstr;
  f_creem_product_id : option jsstr;
  f_waffo_pancake_product_id : option jsstr;
}.

(** The schema on values that were already coerced to numbers *)
Definition getPlanFormSchema (v : PlanFormValues) : bool :=
  negb (is_empty (f_title v)) && num_min 0 (f_price_amount v) && num_min 1 (f_duration_value v) &&
  optional (num_min 0) (f_custom_seconds v) && optional (num_min 0) (f_quota_reset_custom_seconds v) &&
  is_finite (f_sort_order v) && num_min 0 (f_max_purchase_per_user v) && num_min 0 (f_total_amount v).

Definition PLAN_FORM_DEFAULTS : PlanFormValues :=
  MkForm [] (Some []) num_zero month num_one (Some num_zero) never (Some num_zero) true num_zero true num_zero num_zero
    (Some []) (Some []) (Some []) (Some []).

(** [Number(x || d)] *)
Definition nz (x : num) : num := num_or (Some x) num_zero.

Definition planToFormValues (stored : option CurrencyConfig) (plan : SubscriptionPlan) : PlanFormValues :=
  MkForm (title plan) (Some (str_or (subtitle plan) [])) (nz (price_amount plan)) (duration_unit plan)
    (num_or (Some (duration_value plan)) num_one) (Some (num_or (custom_seconds plan) num_zero)) (quota_reset_period plan)
    (Some (num_or (quota_reset_custom_seconds plan) num_zero)) (enabled plan) (nz (sort_order plan))
    (default true (allow_balance_pay plan)) (nz (max_purchase_per_user plan))
    (quotaUnitsToDollars stored (nz (total_amount plan))) (Some (str_or (upgrade_group plan) []))
    (Some (str_or (stripe_price_id plan) [])) (Some (str_or (creem_product_id plan) []))
    (Some (str_or (waffo_pancake_product_id plan) [])).

Definition formValuesToPlanPayload (stored : option CurrencyConfig) (v : PlanFormValues) : SubscriptionPlan :=
  MkPlan (f_title v) (f_subtitle v) (nz (f_price_amount v)) (js "USD") (f_duration_unit v) (nz (f_duration_value v))
    (Some (num_or (f_custom_seconds v) num_zero)) (f_quota_reset_period v)
    (Some (match f_quota_reset_period v with custom_period => num_or (f_quota_reset_custom_seconds v) num_zero | _ => num_zero end))
    (f_enabled v) (nz (f_sort_order v)) (Some (f_allow_balance_pay v)) (nz (f_max_purchase_per_user v))
    (parseQuotaFromDollars stored (nz (f_total_amount v))) (Some (str_or (f_upgrade_group v) [])) (f_stripe_price_id v)
    (f_creem_product_id v) (f_waffo_pancake_product_id v).

(** A plan as the server stores it: every optional field there, plain numbers, a
    positive duration, dollars, and custom seconds only with a custom period *)
Definition stored_plan (p : SubscriptionPlan) : bool :=
  stored_num (price_amount p) && num_truthy (duration_value p) && stored_num (sort_order p) &&
  stored_num (max_purchase_per_user p) && bool_decide (currency p = js "USD") &&
  negb (is_none (subtitle p)) && negb (is_none (allow_balance_pay p)) && negb (is_none (upgrade_group p)) &&
  negb (is_none (stripe_price_id p)) && negb (is_none (creem_product_id p)) && negb (is_none (waffo_pancake_product_id p)) &&
  match custom_seconds p with Some x => stored_num x | None => false end &&
  match quota_reset_custom_seconds p, quota_reset_period p with
  | Some x, custom_period => stored_num x
  | Some (S754_zero false), _ => true
  | _, _ => false
  end.

Lemma nz_id x : stored_num x = true → nz x = x.
Proof. apply num_or_zero. Qed.

Lemma some_str s : negb (is_none s) = true → Some (str_or s []) = s.
Proof. by destruct s as [[]|]. Qed.

(** A stored subscription plan that is opened in the form and saved without a
    change is sent exactly as it was stored, its total quota included. *)
Theorem plan_unchanged_save stored p u :
  usual_config stored = true → 0 <= u <= 2 ^ 49 → total_amount p = num_of_Z u → stored_plan p = true →
  formValuesToPlanPayload stored (planToFormValues stored p) = p.
Proof.
  intros Hc Hu Ht. destruct (dollars_return stored u Hc Hu) as [Hp Hback].
  assert (nz (num_of_Z u) = num_of_Z u) as Hnu.
  { destruct (Z.eq_dec u 0) as [->|]; [done|]. destruct (dbl_of_Z u ltac:(lia)) as (m & e & -> & _). done. }
  assert (nz (quotaUnitsToDollars stored (num_of_Z u)) = quotaUnitsToDollars stored (num_of_Z u)) as Hnd.
  { apply nz_id. by destruct (quotaUnitsToDollars stored (num_of_Z u)) as [[]| | |[] ? ?]. }
  destruct p as [ti su pr cu du dv cs per qs en so ab mp ta ug st cr wa]. cbn [total_amount] in Ht. subst ta.
  unfold stored_plan, formValuesToPlanPayload, planToFormValues.
  cbn [title subtitle price_amount currency duration_unit duration_value custom_seconds quota_reset_period
    quota_reset_custom_seconds enabled sort_order allow_balance_pay max_purchase_per_user total_amount upgrade_group
    stripe_price_id creem_product_id waffo_pancake_product_id f_title f_subtitle f_price_amount f_duration_unit
    f_duration_value f_custom_seconds f_quota_reset_period f_quota_reset_custom_seconds f_enabled f_sort_order
    f_allow_balance_pay f_max_purchase_per_user f_total_amount f_upgrade_group f_stripe_price_id f_creem_product_id
    f_waffo_pancake_product_id].
  rewrite !andb_true_iff, bool_decide_eq_true. 
  intros ((((((((((((Hpr & Hdv) & Hso) & Hmp) & ->) & Hsu) & Hab) & Hug) & Hst) & Hcr) & Hwa) & Hcs) & Hqs).
  rewrite Hnu, Hnd, Hback, !(nz_id pr), !(nz_id so), !(nz_id mp), !some_str by done.
  f_equal.
  - by destruct dv as [[]| | |].
  - destruct cs as [cs|]; [|done]. by rewrite !(num_or_zero cs).
  - destruct qs as [qs|]; [|done]. by destruct per, qs as [[]| | |].
  - by destruct ab.
Qed.

Definition team_plan : SubscriptionPlan :=
  MkPlan (js "Team") (Some []) (str_to_num (js "9.99")) (js "USD") month num_one (Some num_zero) never (Some num_zero) true
    num_zero (Some true) (num_of_Z 2) (num_of_Z 5000001) (Some (js "vip")) (Some []) (Some []) (Some []).

Lemma plan_unchanged_save_witness :
  formValuesToPlanPayload yuan (planToFormValues yuan team_plan) = team_plan.
Proof. apply (plan_unchanged_save yuan team_plan 5000001); [vm_compute; reflexivity|lia|reflexivity|vm_compute; reflexivity]. Defined.

(** The custom seconds of a plan whose period is not custom are dropped, and a
    duration of zero becomes one. *)
Theorem plan_normalised stored p :
  quota_reset_period p ≠ custom_period →
  quota_reset_custom_seconds (formValuesToPlanPayload stored (planToFormValues stored p)) = Some num_zero ∧
  (num_truthy (duration_value p) = false → f_duration_value (planToFormValues stored p) = num_one).
Proof.
  intros Hp. split.
  - unfold formValuesToPlanPayload, planToFormValues. cbn. by destruct (quota_reset_period p).
  - intros Hd. unfold planToFormValues, num_or. cbn. by rewrite Hd.
Qed.

(** ** Texts of durations *)

Section texts.
Context (t : jsstr → jsstr).

(** [Math.floor(seconds / n) + ' ' + t(unit)] *)
Definition floor_text (seconds : num) (n : Z) (unit : jsstr) : jsstr :=
  num_to_str (TimeFormat.num_floor (num_div seconds (num_of_Z n))) ++ js " " ++ t unit.

Definition unit_label (u : DurationUnit) : jsstr :=
  match u with
  | year => t (js "years")
  | month => t (js "months")
  | day => t (js "days")
  | hour => t (js "hours")
  | custom_duration => t (js "Custom (seconds)")
  end.

Definition formatDuration (plan : SubscriptionPlan) : jsstr :=
  match duration_unit plan with
  | custom_duration =>
      let seconds := num_or (custom_seconds plan) num_zero in
      if num_leb (num_of_Z 86400) seconds then floor_text seconds 86400 (js "days")
      else if num_leb (num_of_Z 3600) seconds then floor_text seconds 3600 (js "hours")
      else num_to_str seconds ++ js " " ++ t (js "seconds")
  | unit => num_to_str (num_or (Some (duration_value plan)) num_one) ++ js " " ++ unit_label unit
  end.

Definition formatResetPeriod (plan : SubscriptionPlan) : jsstr :=
  match quota_reset_period plan with
  | daily => t (js "Daily")
  | weekly => t (js "Weekly")
  | monthly => t (js "Monthly")
  | custom_period =>
      let seconds := num_or (quota_reset_custom_seconds plan) num_zero in
      if num_leb (num_of_Z 86400) seconds then floor_text seconds 86400 (js "days")
      else if num_leb (num_of_Z 3600) seconds then floor_text seconds 3600 (js "hours")
      else if num_leb (num_of_Z 60) seconds then floor_text seconds 60 (js "minutes")
      else num_to_str seconds ++ js " " ++ t (js "seconds")
  | never => t (js "No Reset")
  end.
End texts.

(** A duration of a day and a half is shown as one day. *)
Example duration_texts :
  let plan s := MkPlan [] None num_zero [] custom_duration num_one (Some (num_of_Z s)) custom_period (Some (num_of_Z s)) true
    num_zero None num_zero num_zero None None None None in
  map (λ s, formatDuration (λ x, x) (plan s)) [129600; 7200; 90] = map js ["1 days"; "2 hours"; "90 seconds"]%string ∧
  map (λ s, formatResetPeriod (λ x, x) (plan s)) [129600; 7200; 90] = map js ["1 days"; "2 hours"; "1 minutes"]%string.
Proof. vm_compute. done. Qed.

End PlanForm.

(** ** Users *)

Module UserForm.
Import Currency FormValues.

(** The fields of a user the form reads *)
Record User := MkUser {
  id : Z;
  username : jsstr;
  display_name : jsstr;
  quota : num;
  group : jsstr;
  role : num;
  remark : option jsstr;
}.

Record UserFormValues := MkForm {
  f_username : jsstr;
  f_display_name : option jsstr;
  f_password : option jsstr;
  f_role : option num;
  f_quota_dollars : option num;
  f_group : option jsstr;
  f_remark : option jsstr;
}.

(** What is sent; [None]: a field that is left out. *)
Record UserFormData := MkData {
  d_username : jsstr;
  d_display_name : jsstr;
  d_password : option jsstr;
  d_role : option num;
  d_group : option jsstr;
  d_remark : option jsstr;
  d_id : option Z;
}.

Definition DEFAULT_GROUP : jsstr := js "default".

Definition userFormSchema (v : UserFormValues) : bool :=
  negb (is_empty (f_username v)) && optional is_finite (f_role v) && optional (num_min 0) (f_quota_dollars v).

Definition USER_FORM_DEFAULT_VALUES : UserFormValues :=
  MkForm [] (Some []) (Some []) (Some num_one) (Some num_zero) (Some DEFAULT_GROUP) (Some []).

Definition transformFormDataToPayload (data : UserFormValues) (userId : option Z) : UserFormData :=
  let d := MkData (f_username data) (str_or (f_display_name data) (f_username data)) (str_or_none (f_password data)) in
  match userId with
  | None => d (Some (num_or (f_role data) num_one)) None None None
  | Some i => d None (f_group data) (str_or_none (f_remark data)) (Some i)
  end.

Definition transformUserToFormDefaults (stored : option CurrencyConfig) (user : User) : UserFormValues :=
  MkForm (username user) (Some (display_name user)) (Some []) (Some (role user)) (Some (quotaUnitsToDollars stored (quota user)))
    (Some (str_or (Some (group user)) DEFAULT_GROUP)) (Some (str_or (remark user) [])).

(** The submit handler up to the request; [None]: the password is refused. *)
Definition submitted (data : UserFormValues) (userId : option Z) : option UserFormData :=
  let passwordLength := Z.of_nat (length (default [] (f_password data))) in
  match userId with
  | None =>
      if (passwordLength <? 8) || (20 <? passwordLength) then None else Some (transformFormDataToPayload data None)
  | Some i => Some (transformFormDataToPayload data (Some i))
  end.

(** The whole submit of a form: the schema, then the handler *)
Definition submit (data : UserFormValues) (userId : option Z) : option UserFormData :=
  if userFormSchema data then submitted data userId else None.

(** Saving a user that was opened in the form never sends a quota, a role or a
    password: whatever its quota, what is sent does not depend on it; a user whose
    quota is below zero cannot be saved. *)
Theorem user_save_exact stored u :
  username u ≠ [] → is_finite (role u) = true → is_finite (quotaUnitsToDollars stored (quota u)) = true →
  submit (transformUserToFormDefaults stored u) (Some (id u)) =
    if num_leb num_zero (quotaUnitsToDollars stored (quota u))
    then Some (MkData (username u) (if is_empty (display_name u) then username u else display_name u) None None
           (Some (if is_empty (group u) then DEFAULT_GROUP else group u)) (str_or_none (remark u)) (Some (id u)))
    else None.
Proof.
  intros Hn Hr Hq. unfold submit, userFormSchema, transformUserToFormDefaults, num_min.
  cbn [f_username f_role f_quota_dollars optional]. rewrite Hr, Hq. change (num_of_Z 0) with num_zero.
  destruct (username u) as [|c n] eqn:Eu; [done|]. cbn [is_empty negb andb]. destruct (num_leb _ _); [|done].
  unfold submitted, transformFormDataToPayload. cbn [f_username f_display_name f_password f_group f_remark].
  rewrite !str_or_id. do 2 f_equal. by destruct (remark u) as [[]|].
Qed.

Definition ann : User := MkUser 3 (js "ann") [] (num_of_Z 750000) (js "vip") (num_of_Z 1) None.

Lemma user_save_exact_witness :
  submit (transformUserToFormDefaults yuan ann) (Some 3) =
  Some (MkData (js "ann") (js "ann") None None (Some (js "vip")) None (Some 3)).
Proof.
  transitivity (submit (transformUserToFormDefaults yuan ann) (Some (id ann))); [reflexivity|].
  rewrite (user_save_exact yuan ann); [vm_compute; reflexivity|discriminate|vm_compute; reflexivity|vm_compute; reflexivity].
Defined.

(** A new user has a password of 8 to 20 characters, a role and nothing else. *)
Theorem create_user_exact data d :
  submit data None = Some d →
  (8 ≤ length (default [] (d_password d)) ≤ 20)%nat ∧ d_role d = Some (num_or (f_role data) num_one) ∧
  d_group d = None ∧ d_remark d = None ∧ d_id d = None.
Proof.
  unfold submit, submitted. destruct (userFormSchema data); [|done].
  destruct (Z.ltb_spec (Z.of_nat (length (default [] (f_password data)))) 8); [done|].
  destruct (Z.ltb_spec 20 (Z.of_nat (length (default [] (f_password data))))); [done|].
  intros [= <-]. cbn [transformFormDataToPayload d_password d_role d_group d_remark d_id].
  split; [|done]. destruct (f_password data) as [[]|]; cbn in *; lia.
Qed.

End UserForm.

Module UserQuotaDialog.
Import Currency PricingFormat FormValues.

Inductive QuotaAdjustMode := add | subtract | override.

Record State := MkState { mode : QuotaAdjustMode; amount : jsstr; loading : bool; is_open : bool }.

Definition opened : State := MkState add [] false true.

(** [parseFloat(amount) || 0] *)
Definition amountValue (amount : jsstr) : num := num_or (Some (parseFloat amount)) num_zero.

Definition quotaValue (stored : option CurrencyConfig) (amount : jsstr) : num :=
  parseQuotaFromDollars stored (num_abs (amountValue amount)).

(** The adjustment that is requested; [None]: nothing is. *)
Definition requested (stored : option CurrencyConfig) (s : State) : option (QuotaAdjustMode * num) :=
  match mode s with
  | override => Some (override, parseQuotaFromDollars stored (amountValue (amount s)))
  | m =>
      if is_empty (amount s) then None
      else if num_leb (quotaValue stored (amount s)) num_zero then None
      else Some (m, num_abs (quotaValue stored (amount s)))
  end.

Inductive Event :=
| select_mode (m : QuotaAdjustMode)
| type_amount (text : jsstr)
| cancel
| confirm
| answered (success : bool).

(** A request and its answer are two events; the button is disabled in between. *)
Definition step (stored : option CurrencyConfig) (s : State) (e : Event) : State * option (QuotaAdjustMode * num) :=
  match e with
  | select_mode m => (MkState m [] (loading s) (is_open s), None)
  | type_amount text => (MkState (mode s) text (loading s) (is_open s), None)
  | cancel => (MkState add [] (loading s) false, None)
  | confirm =>
      if loading s then (s, None)
      else
        match requested stored s with
        | Some r => (MkState (mode s) (amount s) true (is_open s), Some r)
        | None => (s, None)
        end
  | answered success =>
      if loading s then
        (if success then MkState add [] false false else MkState (mode s) (amount s) false (is_open s), None)
      else (s, None)
  end.

(** An addition or subtraction that is sent is a positive amount, whatever the sign
    of the number typed: only the mode decides the direction. *)
Theorem adjustment_positive stored s m v :
  requested stored s = Some (m, v) → m ≠ override →
  m = mode s ∧ num_leb v num_zero = false ∧ v = num_abs (quotaValue stored (amount s)).
Proof.
  unfold requested. intros H Hm. destruct (mode s) eqn:Em; [| |by simplify_eq].
  all: destruct (is_empty (amount s)); [done|]; destruct (num_leb (quotaValue stored (amount s)) num_zero) eqn:El; [done|].
  all: injection H as <- <-; split_and!; [done| |done];
    by destruct (quotaValue stored (amount s)) as [[]|[]| |[] ? ?].
Qed.

(** An override is always sent: an empty field or a text that is no number sets
    the quota to zero. *)
Theorem empty_override stored text :
  usual_config stored = true → is_empty text || is_nan (parseFloat text) = true →
  requested stored (MkState override text false true) = Some (override, num_zero).
Proof.
  intros Hc H. unfold requested. cbn [mode amount]. assert (amountValue text = num_zero) as ->.
  { unfold amountValue, num_or. destruct text as [|c text]; [vm_compute; reflexivity|]. cbn [is_empty orb] in H.
    by destruct (parseFloat (c :: text)). }
  by rewrite parse_zero.
Qed.

End UserQuotaDialog.
